(* ===== verification/_CoqProject ===== *)
-Q . S2P
Prelude.v
GoStrings.v
GoJson.v
GoTime.v
GoFloat.v
Utf8.v
Http.v
Problem.v
Query.v
QueryLaws.v
Frame.v
Sha2.v
Jwt.v
Db.v
GoNet.v
Url.v
Mux.v
Pgtx.v
Pool.v
PgtxLaws.v
CallLaws.v
Host.v
Decode.v
Doer.v
Rest.v
Asks.v
RestLaws.v
IdemRace.v
Entity.v
EntityLaws.v
Entities.v
Admin.v
Object.v
Workflow.v
Packages.v
Caller.v
Registry.v
GwStatus.v
GwStatusLaws.v
GwLoad.v
Client.v
ClientLaws.v
Recorder.v
Marshal.v
GwStub.v
GwStubLaws.v
Platform.v
Transact.v
PgtxTest.v
EntityTest.v
Process.v
OpenApi.v
OpenApiLaws.v
EntityApi.v
EntityApiLaws.v
EntityDoc.v
Handshake.v
