(* ===== verification/Prelude.v ===== *)
(** * go-platform: a verified model of the API platform

    The repository is the Go half of a platform whose other half is PostgreSQL.  A
    process composes packages into one HTTP handler under /api/v2, serves each request
    as one database transaction, and keeps a control connection to a gateway that
    routes to it.  This library models that program as Gallina functions and step
    relations, translated from the sources under src/, and proves what makes each part
    correct.  This file holds what every other file shares: results of fallible code,
    the folds over them, the automation.

    ** How a request goes through

    module.go (Host) checks the bearer token (Jwt), establishes the session and the
    client's address (GoNet), and gives the request to the route the mux finds (Mux).  A
    route is a handler of a package, made of the conventions of lib/rest (Rest, Decode)
    or of the form of lib/entity (Entity).  The handler runs a program in the request
    transaction of lib/pgtx (Pgtx, Db); errors become problem documents (Problem); the
    list parameters are those of lib/query (Query).  Beside it the gateway client
    (Client) keeps the registration with frames (Frame) and tells the gateway of the
    load (GwStatus).  What the routes are is told to readers by lib/openapi (OpenApi) and,
    for the form of lib/entity, by the form itself (EntityApi).

    ** The files

    What of Go's standard library the sources use: GoStrings (strings, strconv,
    sort), GoJson (encoding/json: scanner, printer, compaction, quoting, with parse
    after print), GoTime (RFC 3339), GoFloat (binary64), Utf8, Sha2 (SHA-2 and HMAC,
    checked on the vectors of their standards), GoNet (netip), Url, Mux, Http.

    Problem (lib/problem/problem.go), Query (lib/query/query.go), Frame
    (lib/gateway/frame/frame.go), Jwt (lib/auth/jwt/jwt.go): one file per source file,
    definitions under the source's names; QueryLaws: the language of the list parameters as
    a relation on the texts, and that Parse takes exactly it.

    Db: the database as a program of five operations and an arbitrary driver that
    answers them, with the laws of transactions the source relies on (TxLaws; a driver
    that keeps them is given).  They idealise one thing: a commit that gives an error made
    nothing durable, while a commit whose acknowledgement is lost may have.  Pgtx (lib/pgtx: pgtx.go, daemon.go, call.go): the request
    transaction on its two roads; Pool: the parameters of a DSN and the limits of a pool;
    PgtxLaws, CallLaws: its theorems.  Doer: the transaction as the interface the handlers
    are written against (rest.Doer), with its laws; pgtx.Runner is shown to keep them, and
    so is the token doer of the tests (PgtxTest: lib/pgtx/pgtxtest, internal/resttest).

    Decode (the bodies of requests), Rest and RestLaws (lib/rest: rest.go, writable.go,
    access.go), Asks (programs that only ask on their transaction), Entity and EntityLaws (lib/entity: entity.go, search.go), Entities (the
    packages of the entity form), Admin (admin/), Object (entity/object), Workflow
    (workflow/), Packages (verification, log, kladr, error, resource, api; a Module
    each), Caller (current, notification, observer), Registry (registry/).  IdemRace: the
    goroutines of POSTs over the store of answers of rest.go, as an interleaving of the
    sections its mutex guards.

    GwStatus (lib/gatewayclient: load.go and the status calls of client.go and
    session.go): the goroutines as an interleaving over shared state; GwStatusLaws: the
    invariants of it; GwLoad: termination, what the gateway hears, the refinement of the
    gateway's state machine.  Client and ClientLaws (client.go, session.go): New, Run,
    a session, the drain, the commands, the calls.  Recorder (recorder.go): the recorded
    events and those who wait for them.  Marshal: what json.Marshal writes travels in a
    frame as it is.  GwStub and GwStubLaws (internal/gatewaystub): the gateway of the
    tests as a machine over its connections, with its invariant; Handshake: client and
    gateway together.

    Host (module.go) and Platform (every package as a module of one process).  Transact: a
    handler as a program in one transaction, its answer and the database together;
    Process: a request through a process, from the gate to its answer, for every route.
    EntityTest (internal/entitytest): a host over one module, and the template of requests
    every entity package is run against.

    OpenApi and OpenApiLaws (lib/openapi): Build, the schemas of Go types, Marshal, Gaps.
    EntityApi and EntityApiLaws (lib/entity/openapi.go): the operations of the form beside
    its handlers.  EntityDoc: the document of any entities together.

    ** What the theorems show

    A refused request leaves nothing but its journal line, a served one commits all of it
    (PgtxLaws); what is called is built of identifiers, placeholders and listed types
    (CallLaws), a list request is accepted exactly when it is of the language of its
    parameters (QueryLaws), and the search of a list selects the rows that have the term
    (EntityLaws).  A row is written only after it was seen in the same transaction, by the
    revision the client read (RestLaws, EntityLaws, Object, Admin: nothing began, was committed
    or rolled back between the reading and the write); the status on the wire is the
    one journalled; a POST under an Idempotency-Key happens once, and under any interleaving a
    replay is what a run of the same key and body was answered with, and no run begins
    while an answer is kept (IdemRace); secrets and hidden columns do not leave (Admin,
    Caller).  A token is taken only when it was signed
    with a key of its audience and has not expired, and every refusal has its reason
    (Jwt); a request reaches a handler only past the gate (Host).  Any of the packages in any
    order make a process that starts and serves alike (Platform), and a request through it opens
    at most one transaction: the handler of the route the mux finds is one program in it, what
    the client is told is what became of this program's statements and, on either road of a
    database that journals, what the journal line says - two routes excepted, which find a
    problem after their commit (Process).  The client's
    goroutines come to rest, the gateway then knows the right load, and what it hears
    is a run of its own state machine (GwLoad); Run returns only when it may, and its
    waits are the protocol's (ClientLaws).  Every body of every package reaches the
    database whole, under its checks (Entities, Workflow, Registry); a value of the registry
    goes pinned to the SQL type of its kind, where the range of that type is PostgreSQL's to
    refuse (Registry).

    What the client sends to register is what the gateway of the tests takes, and it reads
    the answer back (Handshake); that gateway records only registrations that pass its
    checks, and a connection whose serve has returned stays closed and no message of it is
    served (GwStubLaws).  A document is built exactly from operations that are
    whole and agree, with those operations and no others, and no reference of it dangles
    (OpenApiLaws); a handler of the entity form sends only what its operation declares
    (EntityApiLaws); what Gaps reports of any mux and operations is where they differ
    (OpenApiLaws); the operations of the entity packages are described together (EntityDoc);
    every entity package refuses the template of bad requests
    before the database (EntityTest).

    The lemmas whose statement is an unwelcome fact (redact_misses_letter_case,
    keyPath_late, posts_overlap, said_overtaken, register_hangs, patch_drops_date, integer_rounded and the like) are
    behaviours of the code that its comments or its intent do not cover.

    ** Conventions

    Integers are Z with their width written out (wrap32, wrap64, in_bits).  A Go map
    is a gmap where its order is not observed.  Recursion that is not structural takes
    fuel, the length of the input or the depth the source allows (10000 levels of JSON,
    as encoding/json; 17 digits and 400 places of a float64, which bound every finite
    one); no definition runs out of it on an input the source accepts.  A loop that
    only the outside ends (Run, the loop of a session, the wait of a drain) is a function
    of the list of what happened, and says when the list ended first.

    Parameters are what is not under src/: the driver of the database, the texts of
    library errors (Texts), the clock, random bytes, what the network does.

    ** What is not modelled

    Logging; the constant of version.go; the command of the gateway of the tests
    (cmd/gatewaystub: flags and ListenAndServe); the parts of the test support that read
    the environment, drive httptest or fail a test (resttest.Start, Call, ListOf and
    SameJSON, entitytest.NoDB, ProblemOf and Routes); the connections of a pool and the
    sockets, whose drivers are arguments. *)

From stdpp Require Export base list strings gmap fin_maps sorting.
From Stdlib Require Export ZArith Ascii Lia.

(** ** Results of fallible code *)

(** A Go function that returns [(T, error)]: [Ok] for a nil error. *)
Inductive res (E A : Type) : Type :=
  | Ok (a : A)
  | Err (e : E).
Arguments Ok {E A} a.
Arguments Err {E A} e.

#[global] Instance res_ret {E} : MRet (res E) := λ A a, Ok a.
#[global] Instance res_bind {E} : MBind (res E) := λ A B k m,
  match m with Ok a => k a | Err e => Err e end.
#[global] Instance res_fmap {E} : FMap (res E) := λ A B f m,
  match m with Ok a => Ok (f a) | Err e => Err e end.

(** The error branch taken when a guard holds. *)
Definition throw_if {E} (b : bool) (e : E) : res E unit := if b then Err e else Ok tt.

Definition of_option {E A} (o : option A) (e : E) : res E A :=
  match o with Some a => Ok a | None => Err e end.

(** Renames the error of a result, as [fmt.Errorf] or [problem.New] around an
    inner error does. *)
Definition map_err {E F A} (f : E → F) (m : res E A) : res F A :=
  match m with Ok a => Ok a | Err e => Err (f e) end.

Definition is_ok {E A} (m : res E A) : bool :=
  match m with Ok _ => true | Err _ => false end.

#[global] Instance res_eq_dec {E A} `{EqDecision E, EqDecision A} : EqDecision (res E A).
Proof. solve_decision. Defined.

(** ** Automation *)

Create HintDb platform.
Create Rewrite HintDb platform.

(** A byte, by its eight bits. *)
Ltac byte_cases c := destruct c as [[] [] [] [] [] [] [] []].

(** [split_res] case-splits the scrutinee of a [match] or [if] that decides a
    result, and [invert_res] inverts a successful monadic computation step by
    step. *)
Ltac split_match :=
  match goal with
  | |- context [match ?x with _ => _ end] => destruct x eqn:?
  | H : context [match ?x with _ => _ end] |- _ => destruct x eqn:?
  end.

Ltac invert_res :=
  repeat match goal with
  | H : Ok _ = Ok _ |- _ => injection H as H; subst
  | H : Err _ = Err _ |- _ => injection H as H; subst
  | H : Ok _ = Err _ |- _ => discriminate H
  | H : Err _ = Ok _ |- _ => discriminate H
  | H : Some _ = Some _ |- _ => injection H as H; subst
  | H : Some _ = None |- _ => discriminate H
  | H : None = Some _ |- _ => discriminate H
  | H : (?m ≫= ?k) = Ok _ |- _ => destruct m eqn:?; cbn [mbind res_bind] in H
  | H : throw_if ?b _ = Ok _ |- _ => destruct b eqn:?; cbn [throw_if] in H
  end.

Ltac bool_to_prop :=
  repeat match goal with
  | H : (_ && _)%bool = true |- _ => apply andb_true_iff in H as [? ?]
  | H : (_ || _)%bool = false |- _ => apply orb_false_iff in H as [? ?]
  | H : negb _ = true |- _ => apply negb_true_iff in H
  | H : negb _ = false |- _ => apply negb_false_iff in H
  | H : bool_decide _ = true |- _ => apply bool_decide_eq_true in H
  | H : bool_decide _ = false |- _ => apply bool_decide_eq_false in H
  | H : (_ =? _)%Z = true |- _ => apply Z.eqb_eq in H
  | H : (_ =? _)%Z = false |- _ => apply Z.eqb_neq in H
  | H : (_ <? _)%Z = true |- _ => apply Z.ltb_lt in H
  | H : (_ <? _)%Z = false |- _ => apply Z.ltb_ge in H
  | H : (_ <=? _)%Z = true |- _ => apply Z.leb_le in H
  | H : (_ <=? _)%Z = false |- _ => apply Z.leb_gt in H
  end.

(** ** Lists *)

(** [mapM_res f l] runs [f] over [l] in order and stops at the first error. *)
Fixpoint mapM_res {E A B} (f : A → res E B) (l : list A) : res E (list B) :=
  match l with
  | [] => Ok []
  | x :: l => y ← f x; ys ← mapM_res f l; Ok (y :: ys)
  end.

(** [foldM_res f l a] threads a state through [f], in order, to the first error. *)
Fixpoint foldM_res {E A S} (f : S → A → res E S) (l : list A) (s : S) : res E S :=
  match l with
  | [] => Ok s
  | x :: l => s' ← f s x; foldM_res f l s'
  end.

Lemma mapM_res_Forall2 {E A B} (f : A → res E B) l k :
  mapM_res f l = Ok k ↔ Forall2 (λ x y, f x = Ok y) l k.
Proof.
  split.
  - revert k. induction l as [|x l IH]; intros k; cbn.
    + intros [= <-]. constructor.
    + intros H. invert_res. constructor; eauto.
  - induction 1 as [|x y l k Hxy _ IH]; cbn; [done|].
    rewrite Hxy. cbn. rewrite IH. done.
Qed.

(** A property of the state that every step keeps holds of the final state. *)
Lemma foldM_res_inv {E A S} (P : S → Prop) (f : S → A → res E S) l s s' :
  (∀ a s1 s2, a ∈ l → P s1 → f s1 a = Ok s2 → P s2) →
  P s → foldM_res f l s = Ok s' → P s'.
Proof.
  revert s. induction l as [|x l IH]; intros s Hf Hs; cbn.
  - by intros [= <-].
  - intros H. invert_res. eapply IH; [|eapply Hf; [left|..]; eassumption|eassumption].
    intros b s1 s2 Hb. apply Hf. by right.
Qed.

Lemma foldM_res_app {E A S} (f : S → A → res E S) l k s :
  foldM_res f (l ++ k) s = (s' ← foldM_res f l s; foldM_res f k s').
Proof.
  revert s. induction l as [|x l IH]; intros s; cbn; [done|].
  destruct (f s x); cbn; [apply IH|done].
Qed.

(** Every element was accepted by its step when the fold succeeds. *)
Lemma foldM_res_elem {E A S} (f : S → A → res E S) l s s' x :
  foldM_res f l s = Ok s' → x ∈ l → ∃ s1 s2, f s1 x = Ok s2.
Proof.
  revert s. induction l as [|y l IH]; intros s; cbn; [by intros _ ?%not_elem_of_nil|].
  intros H. invert_res. intros [->|Hx]%elem_of_cons; eauto.
Qed.

(** Sorting by a total order does not see the order of its input. *)
Lemma merge_sort_perm_eq {A} (R : relation A) `{!RelDecision R, !PartialOrder R, !Total R}
  (l k : list A) : l ≡ₚ k → merge_sort R l = merge_sort R k.
Proof.
  intros Hlk. apply (StronglySorted_unique R).
  - apply StronglySorted_merge_sort; apply _.
  - apply StronglySorted_merge_sort; apply _.
  - by rewrite !merge_sort_Permutation.
Qed.

(** A fold that fails failed at one of its steps, and so does a map. *)
Lemma foldM_res_err {E A S} (f : S → A → res E S) l s e :
  foldM_res f l s = Err e → ∃ s1 x, x ∈ l ∧ f s1 x = Err e.
Proof.
  revert s. induction l as [|x l IH]; intros s; cbn; [done|].
  destruct (f s x) as [s1|e'] eqn:Hx; cbn.
  - intros (s2 & y & Hy & He)%IH. exists s2, y. split; [by right|done].
  - intros [= ->]. exists s, x. split; [left|done].
Qed.

Lemma mapM_res_err {E A B} (f : A → res E B) l e :
  mapM_res f l = Err e → ∃ x, x ∈ l ∧ f x = Err e.
Proof.
  induction l as [|x l IH]; cbn; [done|].
  destruct (f x) as [y|e'] eqn:Hx; cbn.
  - destruct (mapM_res f l); cbn; [done|]. intros [= ->].
    destruct IH as (z & Hz & He); [done|]. exists z. split; [by right|done].
  - intros [= ->]. exists x. split; [left|done].
Qed.

Lemma mapM_res_Forall {E A B} (f : A → res E B) (P : B → Prop) l k :
  (∀ x y, f x = Ok y → P y) → mapM_res f l = Ok k → Forall P k.
Proof.
  intros Hf Hk%mapM_res_Forall2. induction Hk; constructor; eauto.
Qed.

Lemma Forall2_elem_l {A B} (R : A → B → Prop) l k x :
  Forall2 R l k → x ∈ l → ∃ y, y ∈ k ∧ R x y.
Proof.
  intros H (i & Hi)%list_elem_of_lookup.
  destruct (Forall2_lookup_l _ _ _ _ _ H Hi) as (y & Hy & HR).
  exists y. split; [|done]. by eapply list_elem_of_lookup_2.
Qed.

(** The two halves of a list by a test, and a sublist of each. *)
Lemma filter_split {A} (f : A → bool) l :
  filter (λ x, f x = true) l ++ filter (λ x, f x = false) l ≡ₚ l.
Proof.
  induction l as [|x l IH]; [done|]. rewrite !filter_cons.
  destruct (f x).
  - rewrite decide_True, decide_False by done. cbn. by rewrite IH.
  - rewrite decide_False, decide_True by done. by rewrite <- Permutation_middle, IH.
Qed.

(** Checks of every element that pass. *)
Lemma mapM_res_checked {E A} (f : A → bool) (e : A → E) l r :
  mapM_res (λ a, throw_if (f a) (e a)) l = Ok r → Forall (λ a, f a = false) l.
Proof.
  revert r. induction l as [|a l IH]; cbn [mapM_res]; intros r H; [constructor|].
  unfold throw_if in H at 1. destruct (f a) eqn:Hf; cbn [mbind res_bind] in H; [done|].
  destruct (mapM_res _ l) as [r'|] eqn:Hl; [|done]. constructor; [done|]. by eapply IH.
Qed.
