(* ===== verification/GoStrings.v ===== *)
(** * The parts of Go's standard library for strings that the source uses

    A Go [string] is a sequence of bytes, and so is Rocq's [string] (a list of
    8-bit [ascii]), so no encoding is lost.  This file models [strings.Split],
    [HasPrefix], [HasSuffix], [TrimPrefix], [TrimSuffix], [Cut], [Join],
    [TrimSpace], [ToUpper]/[ToLower] (on ASCII, which is all the source passes),
    [strconv.ParseInt]/[Itoa], [sort.Strings], the character classes the source's
    regular expressions name, and the UUID shapes. *)

From S2P Require Import Prelude.
From stdpp Require Import pretty.

(** ** Character classes *)

Definition byte_n (c : ascii) : N := N_of_ascii c.

(** [[lo-hi]] of a regular expression, or [lo <= c && c <= hi]. *)
Definition in_range (lo hi c : ascii) : bool :=
  ((byte_n lo <=? byte_n c) && (byte_n c <=? byte_n hi))%N.

Definition is_lower : ascii → bool := in_range "a" "z".
Definition is_upper : ascii → bool := in_range "A" "Z".
Definition is_digit : ascii → bool := in_range "0" "9".
Definition is_hex (c : ascii) : bool :=
  is_digit c || in_range "a" "f" c || in_range "A" "F" c.

Definition dquote : ascii := "034".
Definition bslash : ascii := "\".
Definition one (c : ascii) : string := String c EmptyString.

(** Every byte of [s] satisfies [p]: [^[class]*$]. *)
Fixpoint sforall (p : ascii → bool) (s : string) : bool :=
  match s with
  | EmptyString => true
  | String c r => p c && sforall p r
  end.

(** [^[p][q]*$]. *)
Definition head_tail (p q : ascii → bool) (s : string) : bool :=
  match s with
  | EmptyString => false
  | String c r => p c && sforall q r
  end.

Definition is_empty (s : string) : bool :=
  match s with EmptyString => true | _ => false end.

(** ** Slicing and searching *)

Fixpoint sdrop (n : nat) (s : string) : string :=
  match n, s with
  | S n, String _ r => sdrop n r
  | _, _ => s
  end.

Fixpoint stake (n : nat) (s : string) : string :=
  match n, s with
  | S n, String c r => String c (stake n r)
  | _, _ => EmptyString
  end.

(** [strings.HasPrefix(s, p)]. *)
Fixpoint HasPrefix (s p : string) {struct p} : bool :=
  match p, s with
  | EmptyString, _ => true
  | String a p, String b s => Ascii.eqb a b && HasPrefix s p
  | String _ _, EmptyString => false
  end.

(** [strings.HasSuffix(s, p)]. *)
Definition HasSuffix (s p : string) : bool :=
  (String.length p <=? String.length s)%nat
  && String.eqb (sdrop (String.length s - String.length p) s) p.

(** [strings.TrimPrefix(s, p)]. *)
Definition TrimPrefix (s p : string) : string :=
  if HasPrefix s p then sdrop (String.length p) s else s.

(** [strings.TrimSuffix(s, p)]. *)
Definition TrimSuffix (s p : string) : string :=
  if HasSuffix s p then stake (String.length s - String.length p) s else s.

(** [strings.Split(s, sep)] for a separator of one byte, the only form used. *)
Fixpoint Split (s : string) (sep : ascii) : list string :=
  match s with
  | EmptyString => [EmptyString]
  | String c r =>
      if Ascii.eqb c sep then EmptyString :: Split r sep
      else match Split r sep with
           | [] => [one c]
           | h :: t => String c h :: t
           end
  end.

(** [strings.Join(l, sep)]. *)
Fixpoint Join (l : list string) (sep : string) : string :=
  match l with
  | [] => EmptyString
  | [x] => x
  | x :: l => x +:+ sep +:+ Join l sep
  end.

(** [strings.Cut(s, sep)] for a separator of one byte: before, after, found. *)
Fixpoint Cut (s : string) (sep : ascii) : string * string * bool :=
  match s with
  | EmptyString => (EmptyString, EmptyString, false)
  | String c r =>
      if Ascii.eqb c sep then (EmptyString, r, true)
      else let '(b, a, f) := Cut r sep in (String c b, a, f)
  end.

Definition cut_before (s : string) (sep : ascii) : string := (Cut s sep).1.1.

(** [strings.IndexByte], [None] for -1. *)
Fixpoint IndexByte (s : string) (b : ascii) : option nat :=
  match s with
  | EmptyString => None
  | String c r => if Ascii.eqb c b then Some 0 else S <$> IndexByte r b
  end.

(** [strings.Contains(s, string(b))]. *)
Definition contains_byte (s : string) (b : ascii) : bool :=
  negb (sforall (λ c, negb (Ascii.eqb c b)) s).

(** ** Case, white space *)

Definition upper_byte (c : ascii) : ascii :=
  if is_lower c then ascii_of_N (byte_n c - 32) else c.
Definition lower_byte (c : ascii) : ascii :=
  if is_upper c then ascii_of_N (byte_n c + 32) else c.

Fixpoint smap (f : ascii → ascii) (s : string) : string :=
  match s with
  | EmptyString => EmptyString
  | String c r => String (f c) (smap f r)
  end.

Definition ToUpper : string → string := smap upper_byte.
Definition ToLower : string → string := smap lower_byte.

(** The encodings of the runes [unicode.IsSpace] accepts. *)
Definition space_runes : list string :=
  let b (l : list N) : string :=
    foldr (λ n s, String (ascii_of_N n) s) EmptyString l in
  [b [9]; b [10]; b [11]; b [12]; b [13]; b [32]; b [194; 133]; b [194; 160];
   b [225; 154; 128]; b [226; 128; 128]; b [226; 128; 129]; b [226; 128; 130];
   b [226; 128; 131]; b [226; 128; 132]; b [226; 128; 133]; b [226; 128; 134];
   b [226; 128; 135]; b [226; 128; 136]; b [226; 128; 137]; b [226; 128; 138];
   b [226; 128; 168]; b [226; 128; 169]; b [226; 128; 175]; b [226; 129; 159];
   b [227; 128; 128]]%N.

(** Drops one of [seqs] from the front while there is one; [fuel] is the
    length of the string, and every round drops at least one byte. *)
Fixpoint trim_front (fuel : nat) (seqs : list string) (s : string) : string :=
  match fuel with
  | 0 => s
  | S fuel =>
      match filter (λ p, HasPrefix s p = true) seqs with
      | p :: _ => trim_front fuel seqs (sdrop (String.length p) s)
      | [] => s
      end
  end.

(** [strings.TrimSpace]: white space is dropped at the left, then, on the
    reversed bytes, at the right. *)
Definition TrimSpace (s : string) : string :=
  let l := trim_front (String.length s) space_runes s in
  String.rev (trim_front (String.length l) (String.rev <$> space_runes) (String.rev l)).

(** ** Numbers *)

Definition digit_of (c : ascii) : option Z :=
  if is_digit c then Some (Z.of_N (byte_n c) - 48)%Z else None.

Fixpoint digits_val (acc : Z) (s : string) : option Z :=
  match s with
  | EmptyString => Some acc
  | String c r => d ← digit_of c; digits_val (10 * acc + d)%Z r
  end.

(** The range of a signed integer of [bits] bits. *)
Definition in_bits (bits : Z) (v : Z) : bool :=
  ((- 2 ^ (bits - 1) <=? v) && (v <? 2 ^ (bits - 1)))%Z.

(** [strconv.ParseInt(s, 10, bits)]; [None] for its error (syntax or range). *)
Definition ParseInt (s : string) (bits : Z) : option Z :=
  let '(neg, d) :=
    match s with
    | String c r =>
        if Ascii.eqb c "-" then (true, r)
        else if Ascii.eqb c "+" then (false, r) else (false, s)
    | EmptyString => (false, s)
    end in
  if is_empty d then None
  else v ← digits_val 0 d;
       let v := if neg : bool then (- v)%Z else v in
       if in_bits bits v then Some v else None.

(** [strconv.Atoi]: [int] is 64 bits wide. *)
Definition Atoi (s : string) : option Z := ParseInt s 64.

(** [strconv.Itoa], [strconv.FormatInt(_, 10)] and [%d]. *)
Definition Itoa (z : Z) : string := pretty z.

(** [sort.Strings]: bytewise order. *)
Definition sort_Strings (l : list string) : list string := merge_sort String.le l.

(** ** Identifiers and UUIDs *)

Definition lower_or_us (c : ascii) : bool := is_lower c || Ascii.eqb c "_".
Definition ident_tail (c : ascii) : bool := lower_or_us c || is_digit c.

(** [^[a-z_][a-z0-9_]*$]. *)
Definition is_ident (s : string) : bool := head_tail lower_or_us ident_tail s.

(** ** Lemmas *)

Lemma sapp_assoc (s t u : string) : (s +:+ t) +:+ u = s +:+ (t +:+ u).
Proof. induction s as [|c s IH]; [done|]. unfold String.app. cbn. f_equal. apply IH. Qed.

Lemma sapp_nil_r (s : string) : s +:+ EmptyString = s.
Proof. induction s as [|c s IH]; [done|]. unfold String.app. cbn. f_equal. apply IH. Qed.

Lemma sapp_cons c (s t : string) : String c s +:+ t = String c (s +:+ t).
Proof. done. Qed.

Lemma sapp_nil_l (t : string) : EmptyString +:+ t = t.
Proof. done. Qed.

Lemma length_sapp (s t : string) :
  String.length (s +:+ t) = String.length s + String.length t.
Proof. induction s as [|c s IH]; [done|]. rewrite sapp_cons. cbn. by rewrite IH. Qed.

#[export] Hint Rewrite sapp_assoc sapp_nil_r sapp_nil_l length_sapp : platform.

Lemma sdrop_app (s t : string) : sdrop (String.length s) (s +:+ t) = t.
Proof. induction s as [|c s IH]; [by destruct t|]. rewrite sapp_cons. cbn. apply IH. Qed.

Lemma stake_app (s t : string) : stake (String.length s) (s +:+ t) = s.
Proof. induction s as [|c s IH]; [by destruct t|]. rewrite sapp_cons. cbn. by rewrite IH. Qed.

Lemma stake_sdrop n (s : string) : stake n s +:+ sdrop n s = s.
Proof.
  revert s. induction n as [|n IH]; intros [|c s]; try done.
  cbn. rewrite sapp_cons. by rewrite IH.
Qed.

Lemma length_sdrop n (s : string) : String.length (sdrop n s) = String.length s - n.
Proof. revert s. induction n as [|n IH]; intros [|c s]; cbn; auto. Qed.

Lemma HasPrefix_spec (s p : string) : HasPrefix s p = true ↔ ∃ r, s = p +:+ r.
Proof.
  revert s. induction p as [|a p IH]; intros s; cbn [HasPrefix]; [destruct s; naive_solver|].
  destruct s as [|b s]; cbn [HasPrefix].
  - split; [done|]. intros [r Hr]. by rewrite sapp_cons in Hr.
  - rewrite andb_true_iff, Ascii.eqb_eq, IH. setoid_rewrite sapp_cons. naive_solver.
Qed.

Lemma HasPrefix_app (p r : string) : HasPrefix (p +:+ r) p = true.
Proof. apply HasPrefix_spec. by exists r. Qed.

Lemma HasPrefix_refl (p : string) : HasPrefix p p = true.
Proof. apply HasPrefix_spec. exists EmptyString. by rewrite sapp_nil_r. Qed.

Lemma HasPrefix_length (s p : string) :
  HasPrefix s p = true → String.length p ≤ String.length s.
Proof. intros [r ->]%HasPrefix_spec. rewrite length_sapp. lia. Qed.

Lemma HasPrefix_trans (s p q : string) :
  HasPrefix s p = true → HasPrefix p q = true → HasPrefix s q = true.
Proof.
  intros [r ->]%HasPrefix_spec [r' ->]%HasPrefix_spec. apply HasPrefix_spec.
  exists (r' +:+ r). by rewrite sapp_assoc.
Qed.

Lemma TrimPrefix_app (p r : string) : TrimPrefix (p +:+ r) p = r.
Proof. unfold TrimPrefix. by rewrite HasPrefix_app, sdrop_app. Qed.

Lemma sforall_app p (s t : string) : sforall p (s +:+ t) = sforall p s && sforall p t.
Proof.
  induction s as [|c s IH]; [done|]. rewrite sapp_cons. cbn. by rewrite IH, andb_assoc.
Qed.

Lemma sforall_impl (p q : ascii → bool) (s : string) :
  (∀ c, p c = true → q c = true) → sforall p s = true → sforall q s = true.
Proof.
  intros Hpq. induction s as [|c s IH]; cbn; [done|].
  rewrite !andb_true_iff. naive_solver.
Qed.

Lemma head_tail_sforall p q (s : string) :
  (∀ c, p c = true → q c = true) → head_tail p q s = true → sforall q s = true.
Proof. destruct s as [|c s]; cbn; [done|]. rewrite !andb_true_iff. naive_solver. Qed.

Lemma is_ident_tail (s : string) : is_ident s = true → sforall ident_tail s = true.
Proof. apply head_tail_sforall. intros c Hc. unfold ident_tail. by rewrite Hc. Qed.

Lemma is_empty_spec (s : string) : is_empty s = true ↔ s = EmptyString.
Proof. by destruct s. Qed.

Lemma Split_ne (s : string) sep : Split s sep ≠ [].
Proof. destruct s as [|c s]; cbn; [done|]. case_match; [done|]. by case_match. Qed.

Lemma Join_cons (x y : string) l sep :
  Join (x :: y :: l) sep = x +:+ sep +:+ Join (y :: l) sep.
Proof. done. Qed.

(** [strings.Join(strings.Split(s, sep), sep) == s]. *)
Lemma Join_Split (s : string) sep : Join (Split s sep) (one sep) = s.
Proof.
  induction s as [|c s IH]; [done|]. cbn [Split].
  destruct (Ascii.eqb c sep) eqn:Hc.
  - apply Ascii.eqb_eq in Hc as ->.
    destruct (Split s sep) as [|h t] eqn:Hs; [by apply Split_ne in Hs|].
    rewrite Join_cons, IH. done.
  - destruct (Split s sep) as [|h t] eqn:Hs; [by apply Split_ne in Hs|].
    destruct t as [|h' t].
    + cbn in *. by rewrite IH.
    + rewrite Join_cons in *. rewrite sapp_cons. by rewrite IH.
Qed.

(** Splitting at a byte that does not occur gives the string itself. *)
Lemma Split_none (s : string) sep :
  sforall (λ c, negb (Ascii.eqb c sep)) s = true → Split s sep = [s].
Proof.
  induction s as [|c s IH]; cbn; [done|]. intros H. bool_to_prop.
  rewrite H. by rewrite IH.
Qed.

Lemma Split_app (s t : string) sep :
  sforall (λ c, negb (Ascii.eqb c sep)) s = true →
  Split (s +:+ String sep t) sep = s :: Split t sep.
Proof.
  induction s as [|c s IH].
  - intros _. rewrite sapp_nil_l. cbn. by rewrite Ascii.eqb_refl.
  - cbn [sforall]. intros H. bool_to_prop. rewrite sapp_cons. cbn [Split].
    rewrite H. by rewrite IH.
Qed.

(** No piece of a split holds the separator. *)
Lemma Split_no_sep (s : string) sep :
  Forall (λ x, sforall (λ c, negb (Ascii.eqb c sep)) x = true) (Split s sep).
Proof.
  induction s as [|c s IH]; cbn; [by repeat constructor|].
  destruct (Ascii.eqb c sep) eqn:Hc; [by constructor|].
  destruct (Split s sep) as [|h t]; [constructor; [|constructor]|].
  - cbn. by rewrite Hc.
  - inversion IH; subst. constructor; [|done]. cbn. rewrite Hc. done.
Qed.

Lemma sort_Strings_perm (l k : list string) :
  l ≡ₚ k → sort_Strings l = sort_Strings k.
Proof. apply merge_sort_perm_eq; apply _. Qed.

Lemma elem_of_sort_Strings (l : list string) x : x ∈ sort_Strings l ↔ x ∈ l.
Proof. unfold sort_Strings. by rewrite merge_sort_Permutation. Qed.

Lemma ParseInt_bits s bits v : ParseInt s bits = Some v → in_bits bits v = true.
Proof.
  unfold ParseInt. destruct (match s with EmptyString => _ | _ => _ end) as [neg d].
  destruct (is_empty d); [done|]. destruct (digits_val 0 d) as [w|]; cbn; [|done].
  destruct neg; case_match; naive_solver.
Qed.

(** ** Lemmas: decimal texts *)

Lemma digits_val_app a (s t : string) :
  digits_val a (s +:+ t) = (b ← digits_val a s; digits_val b t).
Proof.
  revert a. induction s as [|c s IH]; intros a; [done|].
  rewrite sapp_cons. cbn [digits_val]. destruct (digit_of c); cbn; [apply IH|done].
Qed.

Lemma pretty_char_digit m : (m < 10)%N →
  digit_of (pretty_N_char m) = Some (Z.of_N m) ∧ is_digit (pretty_N_char m) = true
  ∧ (m ≠ 0%N → Ascii.eqb (pretty_N_char m) "0" = false).
Proof.
  intros H.
  assert (m = 0 ∨ m = 1 ∨ m = 2 ∨ m = 3 ∨ m = 4 ∨ m = 5 ∨ m = 6 ∨ m = 7 ∨ m = 8 ∨ m = 9)%N
    by lia.
  naive_solver.
Qed.

Lemma pretty_go_digits x : (0 < x)%N → ∃ c r,
  (∀ s, pretty_N_go x s = String c r +:+ s) ∧ is_digit c = true ∧ Ascii.eqb c "0" = false
  ∧ sforall is_digit r = true ∧ digits_val 0 (String c r) = Some (Z.of_N x).
Proof.
  induction (N.lt_wf_0 x) as [x _ IH]. intros Hx.
  pose proof (N.div_mod x 10 ltac:(done)) as Hdm.
  pose proof (N.mod_lt x 10 ltac:(done)) as Hm.
  destruct (pretty_char_digit (x `mod` 10)) as (Hv & Hd & Hnz); [done|].
  destruct (decide (x `div` 10 = 0)%N) as [Hq|Hq].
  - exists (pretty_N_char (x `mod` 10)), EmptyString. split_and!; try done.
    + intros s. rewrite pretty_N_go_step by done. rewrite Hq. done.
    + apply Hnz. lia.
    + cbn [digits_val]. rewrite Hv. cbn [mbind option_bind digits_val]. f_equal. lia.
  - destruct (IH (x `div` 10)%N) as (c & r & Hgo & Hc & H0 & Hr & Hval); [apply N.div_lt; lia|lia|].
    exists c, (r +:+ one (pretty_N_char (x `mod` 10))). split_and!; try done.
    + intros s. rewrite pretty_N_go_step by done. rewrite Hgo.
      rewrite !sapp_cons, sapp_assoc. done.
    + rewrite sforall_app, Hr. cbn. by rewrite Hd.
    + rewrite <- sapp_cons, digits_val_app, Hval. cbn [mbind option_bind digits_val one].
      rewrite Hv. cbn [mbind option_bind]. f_equal. lia.
Qed.

(** The decimal text of an integer: an optional minus and digits, with no
    leading zero but in [0] itself. *)
Lemma Itoa_shape z : ∃ c r,
  Itoa z = (if (z <? 0)%Z then String "-" (String c r) else String c r)
  ∧ is_digit c = true ∧ sforall is_digit r = true ∧ (Ascii.eqb c "0" = true → r = EmptyString)
  ∧ digits_val 0 (String c r) = Some (Z.abs z).
Proof.
  destruct z as [|p|p]; [by exists "0"%char, EmptyString| |].
  all: destruct (pretty_go_digits (N.pos p)) as (c & r & Hgo & Hc & H0 & Hr & Hv); [lia|].
  all: assert (pretty_N (N.pos p) = String c r) as Hp
    by (unfold pretty_N; rewrite decide_False by done; by rewrite Hgo, sapp_nil_r).
  all: exists c, r; split_and!; try done; try (by rewrite H0).
  change (Itoa (Z.neg p)) with (String "-" (pretty_N (N.pos p))). by rewrite Hp.
Qed.

(** [strconv.ParseInt(strconv.Itoa(z), 10, bits)] for a [z] of that width. *)
Lemma ParseInt_Itoa z bits : in_bits bits z = true → ParseInt (Itoa z) bits = Some z.
Proof.
  intros Hb. destruct (Itoa_shape z) as (c & r & -> & Hc & _ & _ & Hv).
  unfold ParseInt. destruct (Z.ltb_spec z 0) as [Hz|Hz].
  - change (Ascii.eqb "-" "-") with true. cbn iota.
    change (is_empty (String c r)) with false. cbn iota. rewrite Hv. cbn [mbind option_bind].
    replace (- Z.abs z)%Z with z by lia. by rewrite Hb.
  - assert (Ascii.eqb c "-" = false ∧ Ascii.eqb c "+" = false) as [-> ->]
      by (clear -Hc; byte_cases c; done).
    change (is_empty (String c r)) with false. cbn iota. rewrite Hv. cbn [mbind option_bind].
    rewrite Z.abs_eq by lia. by rewrite Hb.
Qed.

Lemma digit_of_bounds c : is_digit c = true →
  ∃ d, digit_of c = Some d ∧ (0 <= d <= 9)%Z.
Proof.
  intros H. unfold digit_of. rewrite H. eexists. split; [done|].
  unfold is_digit, in_range in H. apply andb_true_iff in H as [H1 H2].
  apply N.leb_le in H1, H2. change (byte_n "0") with 48%N in H1.
  change (byte_n "9") with 57%N in H2. lia.
Qed.

(** A run of [n] digits is a number below [10^n]. *)
Lemma digits_val_bounds a (s : string) : (0 <= a)%Z → sforall is_digit s = true →
  ∃ v, digits_val a s = Some v ∧
    (0 <= v < (a + 1) * 10 ^ Z.of_nat (String.length s))%Z.
Proof.
  revert a. induction s as [|c s IH]; intros a Ha Hs.
  - exists a. split; [done|]. change (10 ^ Z.of_nat (String.length EmptyString))%Z with 1%Z. lia.
  - cbn [sforall] in Hs. apply andb_true_iff in Hs as [Hc Hs].
    destruct (digit_of_bounds c Hc) as (d & Hd & Hb).
    destruct (IH (10 * a + d)%Z) as (v & Hv & Hvb); [lia|done|].
    exists v. cbn [digits_val]. rewrite Hd. cbn [mbind option_bind]. split; [done|].
    cbn [String.length]. rewrite Nat2Z.inj_succ, Z.pow_succ_r by lia.
    nia.
Qed.

(** A non-empty run of at most eighteen digits is an [int]. *)
Lemma Atoi_digits (s : string) :
  sforall is_digit s = true → 1 ≤ String.length s ≤ 18 →
  ∃ n, Atoi s = Some n ∧ (0 <= n < 10 ^ Z.of_nat (String.length s))%Z.
Proof.
  intros Hs Hl. destruct (digits_val_bounds 0 s ltac:(lia) Hs) as (v & Hv & Hb).
  exists v. split; [|lia]. unfold Atoi, ParseInt.
  destruct s as [|c r]; [cbn in Hl; lia|]. cbn [sforall] in Hs.
  assert (is_digit c = true) as Hc by (by apply andb_true_iff in Hs as [? _]).
  assert (Ascii.eqb c "-" = false ∧ Ascii.eqb c "+" = false) as [-> ->]
    by (clear -Hc; byte_cases c; done).
  change (is_empty (String c r)) with false. cbn iota. rewrite Hv. cbn [mbind option_bind].
  unfold in_bits.
  assert (v < 10 ^ 18)%Z.
  { eapply Z.lt_le_trans; [apply Hb|]. rewrite Z.mul_1_l. apply Z.pow_le_mono_r; lia. }
  assert ((- 2 ^ (64 - 1) <=? v) && (v <? 2 ^ (64 - 1)) = true)%Z as ->; [|done].
  apply andb_true_iff. rewrite Z.leb_le, Z.ltb_lt. lia.
Qed.

(** ** Lemmas: white space *)

Lemma rev_app_app (s t u : string) :
  String.rev_app (s +:+ t) u = String.rev_app t (String.rev_app s u).
Proof. revert u. induction s as [|c s IH]; intros u; [done|]. rewrite sapp_cons. apply IH. Qed.

Lemma rev_app_rev (s u : string) : String.rev_app (String.rev_app s u) EmptyString
  = String.rev_app u s.
Proof. revert u. induction s as [|c s IH]; intros u; [done|]. cbn. apply (IH (String c u)). Qed.

Lemma rev_involutive (s : string) : String.rev (String.rev s) = s.
Proof. unfold String.rev. by rewrite rev_app_rev. Qed.

Lemma rev_snoc (s : string) c : String.rev (s +:+ one c) = String c (String.rev s).
Proof. unfold String.rev. by rewrite rev_app_app. Qed.

(** No white space starts, or ends, with the byte. *)
Definition solid_front (c : ascii) : bool :=
  forallb (λ p, negb (HasPrefix p (one c))) space_runes.
Definition solid_back (c : ascii) : bool :=
  forallb (λ p, negb (HasPrefix p (one c))) (String.rev <$> space_runes).

Lemma trim_front_solid fuel seqs c r :
  forallb (λ p, negb (HasPrefix p (one c))) seqs = true → Forall (λ p, p ≠ EmptyString) seqs →
  trim_front fuel seqs (String c r) = String c r.
Proof.
  intros H Hne. destruct fuel as [|fuel]; [done|]. cbn [trim_front].
  assert (filter (λ p, HasPrefix (String c r) p = true) seqs = []) as ->; [|done].
  induction seqs as [|p seqs IH]; [done|]. cbn [forallb] in H.
  apply andb_true_iff in H as [Hp H]. inversion_clear Hne.
  rewrite filter_cons_False; [by apply IH|]. destruct p as [|d p]; [done|].
  cbn [HasPrefix one] in *. destruct (Ascii.eqb_spec d c) as [->|Hn].
  - rewrite Ascii.eqb_refl in Hp. by destruct p.
  - done.
Qed.

(** A text that starts and ends with other bytes is its own [TrimSpace]. *)
Lemma TrimSpace_solid c m d :
  solid_front c = true → solid_back d = true →
  TrimSpace (String c (m +:+ one d)) = String c (m +:+ one d).
Proof.
  intros Hc Hd. unfold TrimSpace.
  rewrite trim_front_solid by (done || (apply (bool_decide_unpack _); by vm_compute)).
  rewrite <- sapp_cons, rev_snoc.
  rewrite trim_front_solid by (done || (apply (bool_decide_unpack _); by vm_compute)).
  by rewrite <- rev_snoc, rev_involutive.
Qed.

Lemma rev_sapp (s t : string) : String.rev (s +:+ t) = String.rev t +:+ String.rev s.
Proof.
  assert (∀ x y z, String.rev_app x (y +:+ z) = String.rev_app x y +:+ z) as Happ.
  { intros x. induction x as [|c x IH]; intros y z; [done|]. cbn. by rewrite <- IH. }
  unfold String.rev. rewrite rev_app_app.
  by rewrite <- (sapp_nil_l (String.rev_app s EmptyString)) at 1; rewrite Happ.
Qed.

Lemma trim_front_suffix fuel seqs (s : string) : ∃ w, s = w +:+ trim_front fuel seqs s.
Proof.
  revert s. induction fuel as [|fuel IH]; intros s; [by exists EmptyString|].
  cbn [trim_front]. destruct (filter _ seqs) as [|p l] eqn:Hf; [by exists EmptyString|].
  assert (HasPrefix s p = true) as [r ->]%HasPrefix_spec.
  { assert (p ∈ filter (λ p, HasPrefix s p = true) seqs) as Hp by (rewrite Hf; left).
    by apply list_elem_of_filter in Hp as [? _]. }
  rewrite sdrop_app. destruct (IH r) as [w Hw]. exists (p +:+ w).
  by rewrite sapp_assoc, <- Hw.
Qed.

(** Trimming a text whose first byte is solid keeps a front of it. *)
Lemma TrimSpace_prefix c r : solid_front c = true →
  HasPrefix (String c r) (TrimSpace (String c r)) = true.
Proof.
  intros Hc. unfold TrimSpace.
  rewrite trim_front_solid by (done || (apply (bool_decide_unpack _); by vm_compute)).
  set (s := String c r).
  destruct (trim_front_suffix (String.length s) (String.rev <$> space_runes) (String.rev s))
    as [w Hw].
  rewrite <- (rev_involutive s) at 1. rewrite Hw at 1. rewrite rev_sapp. apply HasPrefix_app.
Qed.

(** ** Lemmas: bytes by enumeration *)

Lemma byte_forall (p : N → bool) n :
  forallb p (N.of_nat <$> seq 0 256) = true → (n < 256)%N → p n = true.
Proof.
  intros H Hn. rewrite forallb_forall in H. apply H, list_elem_of_In, list_elem_of_fmap.
  exists (N.to_nat n). rewrite N2Nat.id. split; [done|]. apply elem_of_seq. lia.
Qed.

(** ** Lemmas: splitting and joining, suffixes *)

Lemma HasSuffix_spec (s p : string) : HasSuffix s p = true ↔ ∃ r, s = r +:+ p.
Proof.
  unfold HasSuffix. rewrite andb_true_iff, Nat.leb_le, String.eqb_eq. split.
  - intros [_ Hs]. exists (stake (String.length s - String.length p) s).
    rewrite <- (stake_sdrop (String.length s - String.length p) s) at 1. by rewrite Hs.
  - intros [r ->]. rewrite length_sapp. split; [lia|].
    rewrite Nat.add_sub. apply sdrop_app.
Qed.

Lemma Split_snoc (s : string) sep : Split (s +:+ one sep) sep = Split s sep ++ [EmptyString].
Proof.
  induction s as [|c s IH].
  - rewrite sapp_nil_l. cbn. by rewrite Ascii.eqb_refl.
  - rewrite sapp_cons. cbn [Split]. destruct (Ascii.eqb c sep); [by rewrite IH|].
    rewrite IH. by destruct (Split s sep) as [|h t] eqn:Hs; [apply Split_ne in Hs|].
Qed.

(** ** The classes, written out

    What the regular expressions of the source accept, stated of the bytes themselves. *)

Definition bytes_of : string → list ascii := String.list_ascii_of_string.

Definition alphabet : list ascii := bytes_of "abcdefghijklmnopqrstuvwxyz".
Definition figures : list ascii := bytes_of "0123456789".

(** An identifier: a letter a-z or an underscore, then letters, figures and underscores. *)
Inductive identifier : string → Prop :=
  | identifier_of c s : c ∈ "_"%char :: alphabet → Forall (λ d, d ∈ "_"%char :: alphabet ++ figures) (bytes_of s) →
      identifier (String c s).

(** The byte is not in the text. *)
Definition lacks (c : ascii) (s : string) : Prop := c ∉ bytes_of s.

Lemma sforall_bytes p s : sforall p s = true ↔ Forall (λ c, p c = true) (bytes_of s).
Proof.
  induction s as [|c s IH]; cbn; [split; [constructor|done]|].
  rewrite andb_true_iff, Forall_cons. by rewrite IH.
Qed.

Lemma lower_alphabet c : is_lower c = true ↔ c ∈ alphabet.
Proof.
  rewrite <- (bool_decide_eq_true (c ∈ alphabet)).
  assert (is_lower c = bool_decide (c ∈ alphabet)) as ->; [|done].
  destruct c as [[] [] [] [] [] [] [] []]; vm_compute; reflexivity.
Qed.

Lemma lower_or_us_alphabet c : lower_or_us c = true ↔ c ∈ "_"%char :: alphabet.
Proof. unfold lower_or_us. rewrite orb_true_iff, lower_alphabet, Ascii.eqb_eq, elem_of_cons. tauto. Qed.

Lemma digit_figures c : is_digit c = true ↔ c ∈ figures.
Proof.
  rewrite <- (bool_decide_eq_true (c ∈ figures)).
  assert (is_digit c = bool_decide (c ∈ figures)) as ->; [|done].
  destruct c as [[] [] [] [] [] [] [] []]; vm_compute; reflexivity.
Qed.

Lemma ident_tail_bytes c : ident_tail c = true ↔ c ∈ "_"%char :: alphabet ++ figures.
Proof.
  unfold ident_tail. rewrite orb_true_iff, lower_or_us_alphabet, digit_figures, !elem_of_cons, elem_of_app. tauto.
Qed.

(** [is_ident] accepts the identifiers and nothing else. *)
Lemma is_ident_spec s : is_ident s = true ↔ identifier s.
Proof.
  unfold is_ident. destruct s as [|c s]; cbn [head_tail]; [split; [done|inversion 1]|].
  rewrite andb_true_iff, lower_or_us_alphabet, sforall_bytes.
  assert (Ht : Forall (λ d, ident_tail d = true) (bytes_of s) ↔
    Forall (λ d, d ∈ "_"%char :: alphabet ++ figures) (bytes_of s))
    by (apply Forall_iff; intros d; apply ident_tail_bytes).
  rewrite Ht. split; [by intros [? ?]|by inversion 1].
Qed.

Lemma lacks_spec c s : lacks c s ↔ sforall (λ d, negb (Ascii.eqb d c)) s = true.
Proof.
  unfold lacks. rewrite sforall_bytes, Forall_forall. split.
  - intros H d Hd. apply negb_true_iff, Ascii.eqb_neq. by intros ->.
  - intros H Hd. apply H, negb_true_iff, Ascii.eqb_neq in Hd. done.
Qed.

Lemma identifier_lacks c s : identifier s → ident_tail c = false → lacks c s.
Proof.
  intros Hi%is_ident_spec%is_ident_tail Hc. apply lacks_spec. eapply sforall_impl; [|exact Hi].
  intros d Hd. apply negb_true_iff, Ascii.eqb_neq. intros ->. congruence.
Qed.

(** Splitting what was joined gives the pieces back. *)
Lemma Split_Join l sep : l ≠ [] →
  Forall (λ x, sforall (λ c, negb (Ascii.eqb c sep)) x = true) l →
  Split (Join l (one sep)) sep = l.
Proof.
  intros Hne. induction 1 as [|x l Hx Hl IH]; [done|].
  destruct l as [|y l]; [by apply Split_none|]. rewrite Join_cons.
  change (one sep +:+ Join (y :: l) (one sep)) with (String sep (Join (y :: l) (one sep))).
  rewrite Split_app by done. by rewrite IH.
Qed.
