(* ===== verification/GoJson.v ===== *)
(** * encoding/json, as far as the source uses it

    A [json.RawMessage] is a [string] of bytes.  [parse_value] is the syntax of
    JSON, [parse] a whole document ([json.Valid], [json.Unmarshal]), and a
    [json] value keeps the literals of the text (number and string lexemes,
    without the quotes), so that [compact] - what [json.Marshal] writes for a
    [RawMessage] - is printing a parsed value.  [Quote] is [json.Marshal] of a Go
    string, [Unquote] the decoding of a string literal. *)

From S2P Require Import Prelude.
From S2P Require Import GoStrings.

Inductive json : Type :=
  | JNull
  | JBool (b : bool)
  | JNum (lex : string)
  | JStr (lex : string)
  | JArr (l : list json)
  | JObj (l : list (string * json)).

(** ** Lexical level *)

Definition is_space (c : ascii) : bool :=
  Ascii.eqb c " " || Ascii.eqb c "009" || Ascii.eqb c "010" || Ascii.eqb c "013".

Fixpoint skip_ws (s : string) : string :=
  match s with
  | String c r => if is_space c then skip_ws r else s
  | EmptyString => s
  end.

(** The escapes of one letter. *)
Definition is_escape (c : ascii) : bool :=
  Ascii.eqb c dquote || Ascii.eqb c bslash || Ascii.eqb c "/" || Ascii.eqb c "b"
  || Ascii.eqb c "f" || Ascii.eqb c "n" || Ascii.eqb c "r" || Ascii.eqb c "t".

Definition is_control (c : ascii) : bool := (byte_n c <? 32)%N.

(** A string literal after its opening quote: the text up to the closing one,
    and what follows it. *)
Fixpoint scan_str (s : string) : option (string * string) :=
  match s with
  | EmptyString => None
  | String c r =>
      if Ascii.eqb c dquote then Some (EmptyString, r)
      else if Ascii.eqb c bslash then
        match r with
        | String e r1 =>
            if is_escape e then
              '(l, k) ← scan_str r1; Some (String c (String e l), k)
            else if Ascii.eqb e "u" then
              match r1 with
              | String h1 (String h2 (String h3 (String h4 r2))) =>
                  if is_hex h1 && is_hex h2 && is_hex h3 && is_hex h4 then
                    '(l, k) ← scan_str r2;
                    Some (String c (String e (String h1 (String h2
                            (String h3 (String h4 l))))), k)
                  else None
              | _ => None
              end
            else None
        | EmptyString => None
        end
      else if is_control c then None
      else '(l, k) ← scan_str r; Some (String c l, k)
  end.

Fixpoint span_digits (s : string) : string * string :=
  match s with
  | String c r =>
      if is_digit c then let '(d, k) := span_digits r in (String c d, k)
      else (EmptyString, s)
  | EmptyString => (EmptyString, s)
  end.

(** [digits+]. *)
Definition scan_digits1 (s : string) : option (string * string) :=
  let '(d, k) := span_digits s in if is_empty d then None else Some (d, k).

(** A number: [-? (0 | [1-9][0-9]* ) (. [0-9]+)? ([eE] [+-]? [0-9]+)?]. *)
Definition scan_int (s : string) : option (string * string) :=
  match s with
  | String c r =>
      if Ascii.eqb c "0" then Some (one c, r) else scan_digits1 s
  | EmptyString => None
  end.

Definition scan_frac (s : string) : option (string * string) :=
  match s with
  | String c r =>
      if Ascii.eqb c "." then '(d, k) ← scan_digits1 r; Some (String c d, k)
      else Some (EmptyString, s)
  | EmptyString => Some (EmptyString, s)
  end.

Definition scan_exp (s : string) : option (string * string) :=
  match s with
  | String c r =>
      if Ascii.eqb c "e" || Ascii.eqb c "E" then
        match r with
        | String g r' =>
            if Ascii.eqb g "+" || Ascii.eqb g "-" then
              '(d, k) ← scan_digits1 r'; Some (String c (String g d), k)
            else '(d, k) ← scan_digits1 r; Some (String c d, k)
        | EmptyString => None
        end
      else Some (EmptyString, s)
  | EmptyString => Some (EmptyString, s)
  end.

Definition scan_num (s : string) : option (string * string) :=
  let '(g, s1) :=
    match s with
    | String c r => if Ascii.eqb c "-" then (one c, r) else (EmptyString, s)
    | EmptyString => (EmptyString, s)
    end in
  '(i, s2) ← scan_int s1;
  '(f, s3) ← scan_frac s2;
  '(e, s4) ← scan_exp s3;
  Some (g +:+ i +:+ f +:+ e, s4).

(** ** Values

    [fuel] bounds the recursion; [parse] gives twice the length of the text
    plus two, and every two levels of recursion read at least one byte. *)

Fixpoint parse_value (fuel : nat) (s : string) {struct fuel} : option (json * string) :=
  match fuel with
  | 0 => None
  | S fuel =>
      match skip_ws s with
      | EmptyString => None
      | String c r =>
          if Ascii.eqb c "{" then
            match skip_ws r with
            | String d r' =>
                if Ascii.eqb d "}" then Some (JObj [], r')
                else '(l, k) ← parse_members fuel r; Some (JObj l, k)
            | EmptyString => None
            end
          else if Ascii.eqb c "[" then
            match skip_ws r with
            | String d r' =>
                if Ascii.eqb d "]" then Some (JArr [], r')
                else '(l, k) ← parse_elems fuel r; Some (JArr l, k)
            | EmptyString => None
            end
          else if Ascii.eqb c dquote then
            '(l, k) ← scan_str r; Some (JStr l, k)
          else if Ascii.eqb c "n" then
            if HasPrefix r "ull" then Some (JNull, sdrop 3 r) else None
          else if Ascii.eqb c "t" then
            if HasPrefix r "rue" then Some (JBool true, sdrop 3 r) else None
          else if Ascii.eqb c "f" then
            if HasPrefix r "alse" then Some (JBool false, sdrop 4 r) else None
          else '(l, k) ← scan_num (String c r); Some (JNum l, k)
      end
  end
with parse_elems (fuel : nat) (s : string) {struct fuel} : option (list json * string) :=
  match fuel with
  | 0 => None
  | S fuel =>
      '(v, k) ← parse_value fuel s;
      match skip_ws k with
      | String d r =>
          if Ascii.eqb d "," then '(l, k') ← parse_elems fuel r; Some (v :: l, k')
          else if Ascii.eqb d "]" then Some ([v], r)
          else None
      | EmptyString => None
      end
  end
with parse_members (fuel : nat) (s : string) {struct fuel}
    : option (list (string * json) * string) :=
  match fuel with
  | 0 => None
  | S fuel =>
      match skip_ws s with
      | String q r =>
          if Ascii.eqb q dquote then
            '(key, r1) ← scan_str r;
            match skip_ws r1 with
            | String d r2 =>
                if Ascii.eqb d ":" then
                  '(v, k) ← parse_value fuel r2;
                  match skip_ws k with
                  | String d r3 =>
                      if Ascii.eqb d "," then
                        '(l, k') ← parse_members fuel r3; Some ((key, v) :: l, k')
                      else if Ascii.eqb d "}" then Some ([(key, v)], r3)
                      else None
                  | EmptyString => None
                  end
                else None
            | EmptyString => None
            end
          else None
      | EmptyString => None
      end
  end.

Definition json_fuel (s : string) : nat := 2 * String.length s + 2.

(** The deepest nesting of arrays and objects, at most 10000 for Go. *)
Fixpoint json_depth (v : json) : N :=
  match v with
  | JArr l => 1 + foldr (λ v n, N.max (json_depth v) n) 0 l
  | JObj l => 1 + foldr (λ kv n, N.max (json_depth kv.2) n) 0 l
  | _ => 0
  end%N.

(** The first value of a text and the rest of it: [json.Decoder.Decode]. *)
Definition decode_first (s : string) : option (json * string) :=
  '(v, k) ← parse_value (json_fuel s) s;
  if (json_depth v <=? 10000)%N then Some (v, k) else None.

(** The whole text is one value: [json.Valid], the syntax of [json.Unmarshal]. *)
Definition parse (s : string) : option json :=
  '(v, k) ← decode_first s;
  if is_empty (skip_ws k) then Some v else None.

Definition Valid (s : string) : bool := bool_decide (is_Some (parse s)).

(** ** Printing *)

Definition quoted (lex : string) : string := one dquote +:+ lex +:+ one dquote.

Fixpoint print (v : json) : string :=
  match v with
  | JNull => "null"
  | JBool true => "true"
  | JBool false => "false"
  | JNum lex => lex
  | JStr lex => quoted lex
  | JArr l => "[" +:+ Join (map print l) "," +:+ "]"
  | JObj l =>
      "{" +:+ Join (map (λ kv, quoted kv.1 +:+ ":" +:+ print kv.2) l) "," +:+ "}"
  end.

(** ** String literals *)

Definition hex_digit (n : N) : ascii :=
  if (n <? 10)%N then ascii_of_N (48 + n) else ascii_of_N (87 + n).

(** [\u00XX]. *)
Definition u00 (c : ascii) : string :=
  String bslash ("u00" +:+ String (hex_digit (byte_n c / 16))
                              (one (hex_digit (byte_n c mod 16)))).

Definition is_cont (c : ascii) : bool := in_range "128" "191" c.

(** The multi-byte encodings of UTF-8 (RFC 3629), by their bytes. *)
Definition utf8_2 (c1 c2 : ascii) : bool := in_range "194" "223" c1 && is_cont c2.
Definition utf8_3 (c1 c2 c3 : ascii) : bool :=
  is_cont c3 &&
  (Ascii.eqb c1 "224" && in_range "160" "191" c2
   || Ascii.eqb c1 "237" && in_range "128" "159" c2
   || (in_range "225" "236" c1 || in_range "238" "239" c1) && is_cont c2).
Definition utf8_4 (c1 c2 c3 c4 : ascii) : bool :=
  is_cont c3 && is_cont c4 &&
  (Ascii.eqb c1 "240" && in_range "144" "191" c2
   || Ascii.eqb c1 "244" && in_range "128" "143" c2
   || in_range "241" "243" c1 && is_cont c2).

Definition is_ascii (c : ascii) : bool := (byte_n c <? 128)%N.

(** The length of the valid UTF-8 sequence at the front of a non-empty string;
    0 when there is none ([utf8.RuneError], width 1). *)
Definition rune_len (s : string) : nat :=
  match s with
  | EmptyString => 0
  | String c1 r =>
      if is_ascii c1 then 1 else
      match r with
      | EmptyString => 0
      | String c2 r2 =>
          if utf8_2 c1 c2 then 2 else
          match r2 with
          | EmptyString => 0
          | String c3 r3 =>
              if utf8_3 c1 c2 c3 then 3 else
              match r3 with
              | EmptyString => 0
              | String c4 _ => if utf8_4 c1 c2 c3 c4 then 4 else 0
              end
          end
      end
  end.

Definition replacement : string := String "239" (String "191" (one "189")).

(** U+2028 and U+2029, which [json.Marshal] escapes for JavaScript. *)
Definition line_sep : string := String "226" (String "128" (one "168")).
Definition par_sep : string := String "226" (String "128" (one "169")).

(** One ASCII byte of a string as [json.Marshal] writes it (HTML escaping on). *)
Definition quote_ascii (c : ascii) : string :=
  if Ascii.eqb c dquote || Ascii.eqb c bslash then String bslash (one c)
  else if Ascii.eqb c "008" then String bslash "b"
  else if Ascii.eqb c "012" then String bslash "f"
  else if Ascii.eqb c "010" then String bslash "n"
  else if Ascii.eqb c "013" then String bslash "r"
  else if Ascii.eqb c "009" then String bslash "t"
  else if is_control c || Ascii.eqb c "<" || Ascii.eqb c ">" || Ascii.eqb c "&" then u00 c
  else one c.

Fixpoint quote_body (fuel : nat) (s : string) : string :=
  match fuel, s with
  | S fuel, String c r =>
      match rune_len s with
      | 0 => String bslash "ufffd" +:+ quote_body fuel r
      | 1 => quote_ascii c +:+ quote_body fuel r
      | n =>
          (if HasPrefix s line_sep then String bslash "u2028"
           else if HasPrefix s par_sep then String bslash "u2029"
           else stake n s) +:+ quote_body fuel (sdrop n s)
      end
  | _, _ => EmptyString
  end.

(** The literal [json.Marshal] writes for a Go string, without its quotes. *)
Definition quote_lex (s : string) : string := quote_body (String.length s) s.

(** [json.Marshal(s)] for a string [s]. *)
Definition Quote (s : string) : string := quoted (quote_lex s).

Definition hex_val (c : ascii) : N :=
  if is_digit c then byte_n c - 48
  else if in_range "a" "f" c then byte_n c - 87 else byte_n c - 55.

Definition hex4 (h1 h2 h3 h4 : ascii) : N :=
  (((hex_val h1 * 16 + hex_val h2) * 16 + hex_val h3) * 16 + hex_val h4)%N.

(** [utf8.AppendRune]: a surrogate is the replacement character. *)
Definition utf8_encode (n : N) : string :=
  let b k := ascii_of_N k in
  (if n <? 128 then one (b n)
   else if n <? 2048 then String (b (192 + n / 64)) (one (b (128 + n mod 64)))
   else if (55296 <=? n) && (n <? 57344) then replacement
   else if n <? 65536 then
     String (b (224 + n / 4096)) (String (b (128 + n / 64 mod 64)) (one (b (128 + n mod 64))))
   else String (b (240 + n / 262144)) (String (b (128 + n / 4096 mod 64))
          (String (b (128 + n / 64 mod 64)) (one (b (128 + n mod 64))))))%N.

Definition unescape (e : ascii) : ascii :=
  if Ascii.eqb e "b" then "008" else if Ascii.eqb e "f" then "012"
  else if Ascii.eqb e "n" then "010" else if Ascii.eqb e "r" then "013"
  else if Ascii.eqb e "t" then "009" else e.

(** A second half of a surrogate pair at the front of [s]. *)
Definition low_surrogate (s : string) : option (N * string) :=
  match s with
  | String b (String u (String h1 (String h2 (String h3 (String h4 r))))) =>
      let n := hex4 h1 h2 h3 h4 in
      if Ascii.eqb b bslash && Ascii.eqb u "u"
         && is_hex h1 && is_hex h2 && is_hex h3 && is_hex h4
         && (56320 <=? n)%N && (n <? 57344)%N
      then Some (n, r) else None
  | _ => None
  end.

(** The Go string of a literal [scan_str] accepted. *)
Fixpoint unquote_body (fuel : nat) (s : string) : string :=
  match fuel, s with
  | S fuel, String c r =>
      if Ascii.eqb c bslash then
        match r with
        | String e r1 =>
            if Ascii.eqb e "u" then
              match r1 with
              | String h1 (String h2 (String h3 (String h4 r2))) =>
                  let n := hex4 h1 h2 h3 h4 in
                  if ((55296 <=? n) && (n <? 56320))%N then
                    match low_surrogate r2 with
                    | Some (m, r3) =>
                        utf8_encode (65536 + (n - 55296) * 1024 + (m - 56320))
                          +:+ unquote_body fuel r3
                    | None => replacement +:+ unquote_body fuel r2
                    end
                  else utf8_encode n +:+ unquote_body fuel r2
              | _ => EmptyString
              end
            else String (unescape e) (unquote_body fuel r1)
        | EmptyString => EmptyString
        end
      else
        match rune_len s with
        | 0 => replacement +:+ unquote_body fuel r
        | n => stake n s +:+ unquote_body fuel (sdrop n s)
        end
  | _, _ => EmptyString
  end.

Definition Unquote (lex : string) : string := unquote_body (String.length lex) lex.

(** [json.Marshal] of a [RawMessage] compacts it and escapes what HTML reads;
    outside string literals none of these characters occurs. *)
Fixpoint html_escape (fuel : nat) (s : string) : string :=
  match fuel, s with
  | S fuel, String c r =>
      if Ascii.eqb c "<" || Ascii.eqb c ">" || Ascii.eqb c "&" then
        u00 c +:+ html_escape fuel r
      else if HasPrefix s line_sep then String bslash "u2028" +:+ html_escape fuel (sdrop 3 s)
      else if HasPrefix s par_sep then String bslash "u2029" +:+ html_escape fuel (sdrop 3 s)
      else String c (html_escape fuel r)
  | _, _ => EmptyString
  end.

Definition escape_lex (s : string) : string := html_escape (String.length s) s.

Fixpoint escape_html (v : json) : json :=
  match v with
  | JStr lex => JStr (escape_lex lex)
  | JArr l => JArr (map escape_html l)
  | JObj l => JObj (map (λ kv, (escape_lex kv.1, escape_html kv.2)) l)
  | v => v
  end.

(** [json.Marshal(json.RawMessage(s))]; [None] for its error. *)
Definition compact (s : string) : option string :=
  v ← parse s; Some (print (escape_html v)).

(** ** Objects *)

(** The name under which [encoding/json] looks a key up when no field has it
    exactly: ASCII letters fold, and so do the two other letters that fold to
    ASCII ones (the Kelvin sign and the long s). *)
Fixpoint fold_name (fuel : nat) (s : string) : string :=
  match fuel, s with
  | S fuel, String c r =>
      if HasPrefix s (String "197" (one "191")) then String "S" (fold_name fuel (sdrop 2 s))
      else if HasPrefix s (String "226" (String "132" (one "170")))
      then String "K" (fold_name fuel (sdrop 3 s))
      else String (upper_byte c) (fold_name fuel r)
  | _, _ => EmptyString
  end.

Definition folded (s : string) : string := fold_name (String.length s) s.

(** The key of a member, decoded. *)
Definition member_key (kv : string * json) : string := Unquote kv.1.

(** The members that a struct decode stores in the field named [name], in the
    order they are stored. *)
Definition field_members (name : string) (l : list (string * json)) : list json :=
  (filter (λ kv, folded (member_key kv) = folded name) l).*2.

(** A string field with no pointer: the last member that is a string; null and
    other types leave the field as it is. *)
Definition string_field (name : string) (l : list (string * json)) : string :=
  foldl (λ acc v, match v with JStr lex => Unquote lex | _ => acc end)
    EmptyString (field_members name l).

(** A map decode ([map[string]json.RawMessage]): later members win. *)
Definition object_map (l : list (string * json)) : gmap string json :=
  foldl (λ m kv, <[member_key kv := kv.2]> m) ∅ l.

(** [json.Marshal] of a map: the keys sorted. *)
Definition marshal_map (m : gmap string json) : string :=
  let keys := sort_Strings (map_to_list m).*1 in
  print (JObj (omap (λ k, v ← m !! k; Some (quote_lex k, escape_html v)) keys)).

(** The members of a text that is one object, each with the bytes of its value
    ([json.RawMessage] fields keep them as they came). *)
Fixpoint members_raw (fuel : nat) (s : string) : option (list (string * string) * string) :=
  match fuel with
  | 0 => None
  | S fuel =>
      match skip_ws s with
      | String q r =>
          if Ascii.eqb q dquote then
            '(key, r1) ← scan_str r;
            match skip_ws r1 with
            | String d r2 =>
                if Ascii.eqb d ":" then
                  let r2 := skip_ws r2 in
                  '(v, k) ← parse_value fuel r2;
                  let raw := stake (String.length r2 - String.length k) r2 in
                  match skip_ws k with
                  | String d r3 =>
                      if Ascii.eqb d "," then
                        '(l, k') ← members_raw fuel r3; Some ((key, raw) :: l, k')
                      else if Ascii.eqb d "}" then Some ([(key, raw)], r3)
                      else None
                  | EmptyString => None
                  end
                else None
            | EmptyString => None
            end
          else None
      | EmptyString => None
      end
  end.

(** [None] when the text is not valid JSON or not an object. *)
Definition raw_members (s : string) : option (list (string * string)) :=
  match parse s with
  | Some (JObj []) => Some []
  | Some (JObj _) =>
      match skip_ws s with
      | String _ r => fst <$> members_raw (json_fuel s) r
      | EmptyString => None
      end
  | _ => None
  end.

(** ** Lemmas: lexemes *)

(** [lex] is the inside of a string literal. *)
Inductive str_ok : string → Prop :=
  | str_nil : str_ok EmptyString
  | str_plain c l :
      Ascii.eqb c dquote = false → Ascii.eqb c bslash = false → is_control c = false →
      str_ok l → str_ok (String c l)
  | str_esc e l : is_escape e = true → str_ok l → str_ok (String bslash (String e l))
  | str_uni h1 h2 h3 h4 l :
      is_hex h1 && is_hex h2 && is_hex h3 && is_hex h4 = true → str_ok l →
      str_ok (String bslash (String "u" (String h1 (String h2 (String h3 (String h4 l)))))).

Lemma str_ok_scan lex k : str_ok lex → scan_str (lex +:+ String dquote k) = Some (lex, k).
Proof.
  induction 1 as [|c l H1 H2 H3 _ IH|e l He _ IH|h1 h2 h3 h4 l Hh _ IH];
    rewrite ?sapp_cons, ?sapp_nil_l.
  - done.
  - cbn [scan_str]. by rewrite H1, H2, H3, IH.
  - cbn [scan_str]. change (Ascii.eqb bslash dquote) with false.
    change (Ascii.eqb bslash bslash) with true. cbn iota. by rewrite He, IH.
  - cbn [scan_str]. change (Ascii.eqb bslash dquote) with false.
    change (Ascii.eqb bslash bslash) with true. change (is_escape "u") with false.
    change (Ascii.eqb "u" "u") with true. cbn iota. by rewrite Hh, IH.
Qed.

Lemma str_ok_app l k : str_ok l → str_ok k → str_ok (l +:+ k).
Proof.
  intros Hl Hk. induction Hl; rewrite ?sapp_cons, ?sapp_nil_l; [done|by constructor..].
Qed.

(** [k] cannot continue a number. *)
Definition num_stop (k : string) : Prop :=
  match k with
  | EmptyString => True
  | String c _ =>
      is_digit c = false ∧ Ascii.eqb c "." = false
      ∧ Ascii.eqb c "e" = false ∧ Ascii.eqb c "E" = false
  end.

Definition num_ok (lex : string) : Prop :=
  ∀ k, num_stop k → scan_num (lex +:+ k) = Some (lex, k).

Lemma scan_str_split s l k :
  scan_str s = Some (l, k) → s = l +:+ String dquote k ∧ str_ok l.
Proof.
  revert l k. induction s as [s IH] using (induction_ltof1 _ String.length).
  unfold ltof in IH. intros l k.
  destruct s as [|c r]; [done|]. cbn [scan_str].
  destruct (Ascii.eqb c dquote) eqn:Hq.
  { apply Ascii.eqb_eq in Hq as ->. intros [= <- <-]. split; [done|constructor]. }
  destruct (Ascii.eqb c bslash) eqn:Hb.
  - apply Ascii.eqb_eq in Hb as ->.
    destruct r as [|e r1]; [done|]. destruct (is_escape e) eqn:He.
    + destruct (scan_str r1) as [[l1 k1]|] eqn:Hr; [|done]. cbn.
      intros [= <- <-]. apply IH in Hr as [-> Hl]; [|cbn; lia].
      split; [done|by constructor].
    + destruct (Ascii.eqb e "u") eqn:Hu; [|done]. apply Ascii.eqb_eq in Hu as ->.
      destruct r1 as [|h1 [|h2 [|h3 [|h4 r2]]]]; try done.
      destruct (is_hex h1 && is_hex h2 && is_hex h3 && is_hex h4) eqn:Hh; [|done].
      destruct (scan_str r2) as [[l1 k1]|] eqn:Hr; [|done]. cbn.
      intros [= <- <-]. apply IH in Hr as [-> Hl]; [|cbn; lia].
      split; [done|by constructor].
  - destruct (is_control c) eqn:Hc; [done|].
    destruct (scan_str r) as [[l1 k1]|] eqn:Hr; [|done]. cbn.
    intros [= <- <-]. apply IH in Hr as [-> Hl]; [|cbn; lia].
    split; [done|by constructor].
Qed.

Lemma span_digits_app s d k0 k :
  span_digits s = (d, k0) → num_stop k →
  s = d +:+ k0 ∧ span_digits (s +:+ k) = (d, k0 +:+ k).
Proof.
  intros Hs Hk. revert d k0 Hs. induction s as [|c r IH]; intros d k0; cbn [span_digits].
  - intros [= <- <-]. split; [done|]. rewrite !sapp_nil_l.
    destruct k as [|c k]; [done|]. cbn. destruct Hk as (-> & _). done.
  - destruct (is_digit c) eqn:Hc.
    + destruct (span_digits r) as [d' k'] eqn:Hr. intros [= <- <-].
      destruct (IH _ _ eq_refl) as [-> Hr']. split; [done|].
      rewrite !sapp_cons. cbn [span_digits]. rewrite Hc, Hr'. done.
    + intros [= <- <-]. split; [done|]. rewrite sapp_cons. cbn [span_digits].
      rewrite Hc. done.
Qed.

Lemma scan_digits1_app s d k0 k :
  scan_digits1 s = Some (d, k0) → num_stop k →
  s = d +:+ k0 ∧ scan_digits1 (s +:+ k) = Some (d, k0 +:+ k).
Proof.
  unfold scan_digits1. destruct (span_digits s) as [d' k'] eqn:Hs.
  destruct (is_empty d') eqn:He; [done|]. intros [= <- <-] Hk.
  destruct (span_digits_app _ _ _ _ Hs Hk) as [-> ->]. by rewrite He.
Qed.

Lemma scan_int_app s d k0 k :
  scan_int s = Some (d, k0) → num_stop k →
  s = d +:+ k0 ∧ scan_int (s +:+ k) = Some (d, k0 +:+ k).
Proof.
  destruct s as [|c r]; [done|]. rewrite sapp_cons. cbn [scan_int].
  destruct (Ascii.eqb c "0"); [by intros [= <- <-]|].
  rewrite <- sapp_cons. apply scan_digits1_app.
Qed.

Lemma scan_frac_app s d k0 k :
  scan_frac s = Some (d, k0) → num_stop k →
  s = d +:+ k0 ∧ scan_frac (s +:+ k) = Some (d, k0 +:+ k).
Proof.
  intros H Hk. destruct s as [|c r]; cbn [scan_frac] in H.
  - injection H as <- <-. split; [done|]. rewrite !sapp_nil_l.
    destruct k as [|c k]; [done|]. destruct Hk as (_ & Hc & _). cbn. by rewrite Hc.
  - rewrite sapp_cons. cbn [scan_frac]. destruct (Ascii.eqb c "."); [|by simplify_eq].
    destruct (scan_digits1 r) as [[d' k']|] eqn:Hr; [|done]. cbn in H. simplify_eq.
    destruct (scan_digits1_app _ _ _ _ Hr Hk) as [-> ->]. done.
Qed.

Lemma scan_exp_app s d k0 k :
  scan_exp s = Some (d, k0) → num_stop k →
  s = d +:+ k0 ∧ scan_exp (s +:+ k) = Some (d, k0 +:+ k).
Proof.
  intros H Hk. destruct s as [|c r]; cbn [scan_exp] in H.
  - injection H as <- <-. split; [done|]. rewrite !sapp_nil_l.
    destruct k as [|c k]; [done|]. destruct Hk as (_ & _ & Hc & Hc'). cbn.
    by rewrite Hc, Hc'.
  - rewrite sapp_cons. cbn [scan_exp].
    destruct (Ascii.eqb c "e" || Ascii.eqb c "E"); [|by simplify_eq].
    destruct r as [|g r']; [done|]. rewrite sapp_cons.
    destruct (Ascii.eqb g "+" || Ascii.eqb g "-").
    + destruct (scan_digits1 r') as [[d' k']|] eqn:Hr; [|done]. cbn in H. simplify_eq.
      destruct (scan_digits1_app _ _ _ _ Hr Hk) as [-> ->]. done.
    + rewrite <- sapp_cons.
      destruct (scan_digits1 (String g r')) as [[d' k']|] eqn:Hr; [|done].
      cbn in H. simplify_eq.
      destruct (scan_digits1_app _ _ _ _ Hr Hk) as [-> ->]. done.
Qed.

Lemma scan_num_app s d k0 k :
  scan_num s = Some (d, k0) → num_stop k →
  s = d +:+ k0 ∧ scan_num (s +:+ k) = Some (d, k0 +:+ k).
Proof.
  intros H Hk. unfold scan_num in *.
  assert (∃ g s1, (match s with
    | String c r => if Ascii.eqb c "-" then (one c, r) else (EmptyString, s)
    | EmptyString => (EmptyString, s) end) = (g, s1) ∧ s = g +:+ s1 ∧
    (∀ x, s1 ≠ EmptyString → (match s +:+ x with
    | String c r => if Ascii.eqb c "-" then (one c, r) else (EmptyString, s +:+ x)
    | EmptyString => (EmptyString, s +:+ x) end) = (g, s1 +:+ x))) as (g & s1 & Hg & -> & Hx).
  { destruct s as [|c r]; [by exists EmptyString, EmptyString|].
    destruct (Ascii.eqb c "-") eqn:Hc.
    - exists (one c), r. repeat split; try done. intros x _. by rewrite sapp_cons, Hc.
    - exists EmptyString, (String c r). repeat split; try done.
      intros x _. by rewrite sapp_cons, Hc. }
  rewrite Hg in H. destruct (scan_int s1) as [[i s2]|] eqn:Hi; [|done]. cbn in H.
  destruct (scan_frac s2) as [[f s3]|] eqn:Hf; [|done]. cbn in H.
  destruct (scan_exp s3) as [[e s4]|] eqn:He; [|done]. cbn in H. simplify_eq.
  rewrite Hx by (by intros ->).
  destruct (scan_int_app _ _ _ _ Hi Hk) as [-> ->]. cbn.
  destruct (scan_frac_app _ _ _ _ Hf Hk) as [-> ->]. cbn.
  destruct (scan_exp_app _ _ _ _ He Hk) as [-> ->]. cbn.
  split; [|done]. by rewrite !sapp_assoc.
Qed.

(** ** Lemmas: parsing what was printed *)

(** Appends to the right, literal bytes to the front. *)
Ltac str_norm :=
  unfold one in *; repeat (rewrite sapp_assoc || rewrite sapp_cons || rewrite sapp_nil_l).


Section json_induction.
Context (P : json → Prop).
Context (Hnull : P JNull) (Hbool : ∀ b, P (JBool b)) (Hnum : ∀ l, P (JNum l))
        (Hstr : ∀ l, P (JStr l)) (Harr : ∀ l, Forall P l → P (JArr l))
        (Hobj : ∀ l, Forall (λ kv, P kv.2) l → P (JObj l)).

Fixpoint json_ind' (v : json) : P v :=
  match v with
  | JNull => Hnull
  | JBool b => Hbool b
  | JNum l => Hnum l
  | JStr l => Hstr l
  | JArr l =>
      Harr l ((fix go l := match l return Forall P l with
               | [] => List.Forall_nil _
               | v :: l => List.Forall_cons _ _ _ (json_ind' v) (go l)
               end) l)
  | JObj l =>
      Hobj l ((fix go l := match l return Forall (λ kv, P kv.2) l with
               | [] => List.Forall_nil _
               | kv :: l => List.Forall_cons _ _ _ (json_ind' kv.2) (go l)
               end) l)
  end.
End json_induction.

(** The literals of a value are literals of the syntax. *)
Inductive json_ok : json → Prop :=
  | ok_null : json_ok JNull
  | ok_bool b : json_ok (JBool b)
  | ok_num lex : num_ok lex → json_ok (JNum lex)
  | ok_str lex : str_ok lex → json_ok (JStr lex)
  | ok_arr l : Forall json_ok l → json_ok (JArr l)
  | ok_obj l : Forall (λ kv, str_ok kv.1 ∧ json_ok kv.2) l → json_ok (JObj l).

Lemma scan_num_head c r x :
  scan_num (String c r) = Some x → Ascii.eqb c "-" = true ∨ is_digit c = true.
Proof.
  unfold scan_num. destruct (Ascii.eqb c "-") eqn:Hc; [by left|]. right.
  destruct (scan_int (String c r)) as [[i s2]|] eqn:Hi; [|done].
  cbn [scan_int] in Hi. destruct (Ascii.eqb c "0") eqn:H0.
  { by apply Ascii.eqb_eq in H0 as ->. }
  unfold scan_digits1 in Hi. cbn [span_digits] in Hi.
  by destruct (is_digit c).
Qed.

Lemma num_head c : Ascii.eqb c "-" = true ∨ is_digit c = true →
  is_space c = false ∧ Ascii.eqb c "{" = false ∧ Ascii.eqb c "[" = false
  ∧ Ascii.eqb c dquote = false ∧ Ascii.eqb c "n" = false
  ∧ Ascii.eqb c "t" = false ∧ Ascii.eqb c "f" = false.
Proof. byte_cases c; cbn; intuition discriminate. Qed.

Lemma num_ok_shape lex : num_ok lex → ∃ c r, lex = String c r
  ∧ (Ascii.eqb c "-" = true ∨ is_digit c = true).
Proof.
  intros H. specialize (H EmptyString I). rewrite sapp_nil_r in H.
  destruct lex as [|c r]; [done|]. exists c, r. split; [done|].
  by eapply scan_num_head.
Qed.

(** The first byte of a printed value is neither white space nor a closing
    bracket. *)
Lemma print_head v : json_ok v → ∃ c r, print v = String c r
  ∧ is_space c = false ∧ Ascii.eqb c "]" = false ∧ Ascii.eqb c "}" = false.
Proof.
  destruct 1 as [|[]|lex H|lex H|l H|l H]; try by eexists _, _.
  destruct (num_ok_shape _ H) as (c & r & -> & Hc). exists c, r. split; [done|].
  byte_cases c; cbn in *; intuition discriminate.
Qed.

Lemma skip_ws_print v k : json_ok v → skip_ws (print v +:+ k) = print v +:+ k.
Proof.
  intros H. destruct (print_head v H) as (c & r & -> & Hc & _).
  rewrite sapp_cons. cbn. by rewrite Hc.
Qed.

Lemma print_length v : json_ok v → 1 ≤ String.length (print v).
Proof. intros H. destruct (print_head v H) as (c & r & -> & _). cbn. lia. Qed.

Definition print_elems (l : list json) : string := Join (map print l) ",".
Definition print_members (l : list (string * json)) : string :=
  Join (map (λ kv, quoted kv.1 +:+ ":" +:+ print kv.2) l) ",".

Lemma print_elems_cons v l : print_elems (v :: l)
  = match l with [] => print v | _ => print v +:+ "," +:+ print_elems l end.
Proof. by destruct l. Qed.

Lemma print_members_cons kv l : print_members (kv :: l)
  = (quoted kv.1 +:+ ":" +:+ print kv.2)
    +:+ match l with [] => EmptyString | _ => "," +:+ print_members l end.
Proof. destruct l; [|done]. by rewrite sapp_nil_r. Qed.

Definition parses (v : json) : Prop := ∀ fuel k,
  json_ok v → num_stop k → 2 * String.length (print v) ≤ fuel →
  parse_value fuel (print v +:+ k) = Some (v, k).

Lemma num_stop_lit c k : is_digit c = false → Ascii.eqb c "." = false →
  Ascii.eqb c "e" = false → Ascii.eqb c "E" = false → num_stop (String c k).
Proof. done. Qed.

Lemma parse_elems_print l fuel k :
  l ≠ [] → Forall parses l → Forall json_ok l →
  2 * String.length (print_elems l) + 1 ≤ fuel →
  parse_elems fuel (print_elems l +:+ String "]" k) = Some (l, k).
Proof.
  revert fuel. induction l as [|v l IH]; intros fuel Hne Hp Hok Hf; [done|].
  inversion_clear Hp as [|? ? Hv Hl]. inversion_clear Hok as [|? ? Hov Hol].
  rewrite print_elems_cons in *. destruct fuel as [|fuel]; [lia|].
  pose proof (print_length v Hov). destruct l as [|v' l].
  - cbn [parse_elems]. rewrite Hv by (done || lia). cbn. done.
  - rewrite !sapp_assoc, !length_sapp in *. cbn [parse_elems].
    rewrite Hv by (done || lia). cbn [mbind option_bind].
    change (skip_ws ("," +:+ ?x)) with (String "," x). cbn iota.
    rewrite IH; try done. change (String.length ",") with 1 in Hf. lia.
Qed.

Lemma parse_members_print l fuel k :
  l ≠ [] → Forall (λ kv, parses kv.2) l →
  Forall (λ kv, str_ok kv.1 ∧ json_ok kv.2) l →
  2 * String.length (print_members l) + 1 ≤ fuel →
  parse_members fuel (print_members l +:+ String "}" k) = Some (l, k).
Proof.
  revert fuel. induction l as [|[key v] l IH]; intros fuel Hne Hp Hok Hf; [done|].
  inversion_clear Hp as [|? ? Hv Hl]. inversion_clear Hok as [|? ? [Hkey Hov] Hol].
  cbn [fst snd] in *. rewrite print_members_cons in *.
  destruct fuel as [|fuel]; [lia|]. cbn [fst snd] in *.
  pose proof (print_length v Hov). unfold quoted in *.
  rewrite !length_sapp in Hf. str_norm. cbn [parse_members].
  change (skip_ws (String dquote ?x)) with (String dquote x). cbn iota.
  change (Ascii.eqb dquote dquote) with true. cbn iota.
  rewrite (str_ok_scan _ _ Hkey). cbn [mbind option_bind].
  change (skip_ws (String ":" ?x)) with (String ":" x). cbn iota.
  change (Ascii.eqb ":" ":") with true. cbn iota. destruct l as [|kv l].
  - str_norm. rewrite Hv by (done || lia). done.
  - str_norm. rewrite Hv by (done || lia). cbn [mbind option_bind].
    change (skip_ws (String "," ?x)) with (String "," x). cbn iota.
    change (Ascii.eqb "," ",") with true. cbn iota.
    rewrite IH; try done. rewrite length_sapp in Hf.
    change (String.length ",") with 1 in Hf. lia.
Qed.

Lemma print_members_head l : l ≠ [] → ∃ r, print_members l = String dquote r.
Proof. destruct l as [|kv l]; [done|]. intros _. rewrite print_members_cons. by eexists. Qed.

Lemma print_elems_head l : l ≠ [] → Forall json_ok l → ∃ c r, print_elems l = String c r
  ∧ is_space c = false ∧ Ascii.eqb c "]" = false.
Proof.
  destruct l as [|v l]; [done|]. intros _ Hok. inversion_clear Hok as [|? ? Hv _].
  rewrite print_elems_cons. destruct (print_head v Hv) as (c & r & Hc & ? & ? & _).
  destruct l; rewrite Hc; rewrite ?sapp_cons; by eexists _, _.
Qed.

(** Parsing a printed value gives it back, whatever follows it. *)
Lemma parse_value_print v : parses v.
Proof.
  induction v as [|b|lex|lex|l IH|l IH] using json_ind'; intros fuel k Hok Hk Hf;
    (destruct fuel as [|fuel]; [pose proof (print_length _ Hok); lia|]).
  - cbn. by destruct k.
  - destruct b; cbn; by destruct k.
  - inversion_clear Hok as [| |? H| | |]. pose proof (H k Hk) as Hs. cbn [print] in *.
    destruct (num_ok_shape _ H) as (c & r & -> & Hc).
    destruct (num_head _ Hc) as (Hsp & H1 & H2 & H3 & H4 & H5 & H6).
    rewrite sapp_cons in *. cbn -[scan_num].
    rewrite Hsp, H1, H2, H3, H4, H5, H6, Hs. done.
  - inversion_clear Hok as [| | |? H| |]. cbn [print]. unfold quoted. str_norm.
    cbn [parse_value]. change (skip_ws (String dquote ?x)) with (String dquote x).
    cbn iota. rewrite str_ok_scan by done. done.
  - inversion_clear Hok as [| | | |? H|].
    change (print (JArr l)) with ("[" +:+ print_elems l +:+ "]") in *.
    rewrite !length_sapp in Hf. str_norm. cbn [parse_value].
    change (skip_ws (String "[" ?x)) with (String "[" x). cbn iota.
    destruct (decide (l = [])) as [->|Hne]; [done|].
    destruct (print_elems_head l Hne H) as (c & r & Hc & Hsp & Hb).
    pose proof (parse_elems_print l fuel k Hne IH H) as Hp.
    change (String.length "[") with 1 in Hf.
    rewrite Hc in *. str_norm. cbn [skip_ws]. rewrite sapp_cons in Hp.
    rewrite Hsp, Hb, Hp by lia. done.
  - inversion_clear Hok as [| | | | |? H].
    change (print (JObj l)) with ("{" +:+ print_members l +:+ "}") in *.
    rewrite !length_sapp in Hf. str_norm. cbn [parse_value].
    change (skip_ws (String "{" ?x)) with (String "{" x). cbn iota.
    destruct (decide (l = [])) as [->|Hne]; [done|].
    destruct (print_members_head l Hne) as [r Hc].
    pose proof (parse_members_print l fuel k Hne IH H) as Hp.
    change (String.length "{") with 1 in Hf.
    rewrite Hc in *. str_norm. rewrite sapp_cons in Hp.
    change (skip_ws (String dquote ?x)) with (String dquote x). cbn iota.
    rewrite Hp by lia. done.
Qed.

Lemma parse_print v : json_ok v → (json_depth v ≤ 10000)%N → parse (print v) = Some v.
Proof.
  intros Hok Hd. unfold parse, decode_first.
  pose proof (parse_value_print v (json_fuel (print v)) EmptyString Hok I) as H.
  rewrite sapp_nil_r in H. rewrite H by (unfold json_fuel; lia). cbn [mbind option_bind].
  apply N.leb_le in Hd. rewrite Hd. done.
Qed.

(** ** Lemmas: what a parse gives *)

Lemma skip_ws_length s : String.length (skip_ws s) ≤ String.length s.
Proof. induction s as [|c r IH]; cbn; [done|]. destruct (is_space c); cbn; lia. Qed.

Lemma skip_ws_idem s : skip_ws (skip_ws s) = skip_ws s.
Proof. induction s as [|c r IH]; cbn; [done|]. destruct (is_space c) eqn:H; [done|]. cbn. by rewrite H. Qed.

Lemma scan_str_length s l k : scan_str s = Some (l, k) → String.length k < String.length s.
Proof. intros [-> _]%scan_str_split. rewrite length_sapp. cbn. lia. Qed.

(** What a scanner accepted, it accepts in front of any text that cannot
    continue the literal. *)
Definition head_not (p : ascii → bool) (s : string) : Prop :=
  match s with EmptyString => True | String c _ => p c = false end.

Lemma span_digits_again s d k0 k :
  span_digits s = (d, k0) → head_not is_digit k → span_digits (d +:+ k) = (d, k).
Proof.
  intros Hs Hk. revert d k0 Hs. induction s as [|c r IH]; intros d k0; cbn [span_digits].
  - intros [= <- <-]. rewrite sapp_nil_l. destruct k as [|c k]; [done|]. cbn in *. by rewrite Hk.
  - destruct (is_digit c) eqn:Hc.
    + destruct (span_digits r) as [d' k'] eqn:Hr. intros [= <- <-].
      rewrite sapp_cons. cbn [span_digits]. rewrite Hc, (IH _ _ eq_refl). done.
    + intros [= <- <-]. rewrite sapp_nil_l. destruct k as [|c' k]; [done|].
      cbn in *. by rewrite Hk.
Qed.

Lemma scan_digits1_again s d k0 k :
  scan_digits1 s = Some (d, k0) → head_not is_digit k → scan_digits1 (d +:+ k) = Some (d, k).
Proof.
  unfold scan_digits1. destruct (span_digits s) as [d' k'] eqn:Hs.
  destruct (is_empty d') eqn:He; [done|]. intros [= <- <-] Hk.
  rewrite (span_digits_again _ _ _ _ Hs Hk). by rewrite He.
Qed.

Lemma scan_int_again s d k0 k :
  scan_int s = Some (d, k0) → head_not is_digit k → scan_int (d +:+ k) = Some (d, k).
Proof.
  destruct s as [|c r]; [done|]. cbn [scan_int]. destruct (Ascii.eqb c "0") eqn:Hc.
  - intros [= <- <-] _. unfold one. rewrite sapp_cons, sapp_nil_l. cbn [scan_int]. by rewrite Hc.
  - intros H Hk. pose proof (scan_digits1_again _ _ _ _ H Hk) as Hd.
    unfold scan_digits1 in H. destruct (span_digits (String c r)) as [d' k'] eqn:Hs.
    cbn [span_digits] in Hs. destruct (is_digit c) eqn:Hcd; [|by simplify_eq].
    destruct (span_digits r) as [d'' k'']. simplify_eq. cbn [is_empty] in H. simplify_eq.
    rewrite sapp_cons in *. cbn [scan_int]. by rewrite Hc.
Qed.

Lemma scan_frac_again s d k0 k :
  scan_frac s = Some (d, k0) →
  head_not (λ c, is_digit c || Ascii.eqb c ".") k → scan_frac (d +:+ k) = Some (d, k).
Proof.
  intros H Hk. destruct s as [|c r]; cbn [scan_frac] in H.
  - simplify_eq. rewrite sapp_nil_l. destruct k as [|c k]; [done|].
    cbn in Hk. apply orb_false_iff in Hk as [_ Hk]. cbn [scan_frac]. by rewrite Hk.
  - destruct (Ascii.eqb c ".") eqn:Hc.
    + destruct (scan_digits1 r) as [[d' k']|] eqn:Hr; [|done]. cbn in H. simplify_eq.
      rewrite sapp_cons. cbn [scan_frac]. rewrite Hc.
      rewrite (scan_digits1_again _ _ _ _ Hr); [done|].
      destruct k; [done|]. cbn in *. by apply orb_false_iff in Hk as [-> _].
    + simplify_eq. rewrite sapp_nil_l. destruct k as [|c' k]; [done|].
      cbn in Hk. apply orb_false_iff in Hk as [_ Hk]. cbn [scan_frac]. by rewrite Hk.
Qed.

Lemma scan_exp_again s d k0 k :
  scan_exp s = Some (d, k0) → num_stop k → scan_exp (d +:+ k) = Some (d, k).
Proof.
  intros H Hk.
  assert (Hnil : scan_exp k = Some (EmptyString, k)).
  { destruct k as [|c k]; [done|]. destruct Hk as (_ & _ & H1 & H2). cbn. by rewrite H1, H2. }
  assert (Hd : head_not is_digit k) by (destruct k; [done|]; apply Hk).
  destruct s as [|c r]; cbn [scan_exp] in H; [by simplify_eq|].
  destruct (Ascii.eqb c "e" || Ascii.eqb c "E") eqn:Hc; [|by simplify_eq].
  destruct r as [|g r']; [done|]. destruct (Ascii.eqb g "+" || Ascii.eqb g "-") eqn:Hg.
  - destruct (scan_digits1 r') as [[d' k']|] eqn:Hr; [|done]. cbn in H. simplify_eq.
    rewrite !sapp_cons. cbn [scan_exp]. rewrite Hc, Hg.
    by rewrite (scan_digits1_again _ _ _ _ Hr Hd).
  - destruct (scan_digits1 (String g r')) as [[d' k']|] eqn:Hr; [|done].
    cbn in H. simplify_eq. pose proof (scan_digits1_again _ _ _ _ Hr Hd) as Ha.
    rewrite sapp_cons. cbn [scan_exp]. rewrite Hc.
    unfold scan_digits1 in Hr. cbn [span_digits] in Hr.
    destruct (is_digit g) eqn:Hgd; [|done].
    destruct (span_digits r') as [d'' k'']. cbn [is_empty] in Hr. simplify_eq.
    rewrite sapp_cons in *. by rewrite Hg, Ha.
Qed.

(** The shapes of the optional parts of a number. *)
Lemma scan_frac_head s d k0 k :
  scan_frac s = Some (d, k0) → head_not is_digit k → head_not is_digit (d +:+ k).
Proof.
  intros H Hk. destruct s as [|c r]; cbn [scan_frac] in H; [by simplify_eq|].
  destruct (Ascii.eqb c ".") eqn:Hc; [|by simplify_eq].
  destruct (scan_digits1 r) as [[d' k']|]; [|done]. cbn in H. simplify_eq.
  apply Ascii.eqb_eq in Hc as ->. done.
Qed.

Lemma scan_exp_head s d k0 k :
  scan_exp s = Some (d, k0) → num_stop k →
  head_not (λ c, is_digit c || Ascii.eqb c ".") (d +:+ k).
Proof.
  intros H Hk.
  assert (head_not (λ c, is_digit c || Ascii.eqb c ".") k) as Hk'.
  { destruct k; [done|]. destruct Hk as (H1 & H2 & _). cbn. by rewrite H1, H2. }
  destruct s as [|c r]; cbn [scan_exp] in H; [by simplify_eq|].
  destruct (Ascii.eqb c "e" || Ascii.eqb c "E") eqn:Hc; [|by simplify_eq].
  destruct r as [|g r']; [done|].
  assert (∃ d', d = String c d') as [d' ->].
  { destruct (Ascii.eqb g "+" || Ascii.eqb g "-");
      [destruct (scan_digits1 r') as [[]|]|destruct (scan_digits1 (String g r')) as [[]|]];
      try done; cbn in H; simplify_eq; by eexists. }
  rewrite sapp_cons. cbn. apply orb_true_iff in Hc as [->%Ascii.eqb_eq| ->%Ascii.eqb_eq]; done.
Qed.

Lemma scan_num_ok s l k : scan_num s = Some (l, k) → num_ok l ∧ s = l +:+ k.
Proof.
  intros H. destruct (scan_num_app s l k EmptyString H I) as [Hs _].
  split; [|done]. intros k' Hk'. clear Hs. unfold scan_num in *.
  destruct (match s with EmptyString => _ | _ => _ end) as [g s1] eqn:Hg.
  destruct (scan_int s1) as [[i s2]|] eqn:Hi; [|done]. cbn [mbind option_bind] in H.
  destruct (scan_frac s2) as [[f s3]|] eqn:Hf; [|done]. cbn [mbind option_bind] in H.
  destruct (scan_exp s3) as [[e s4]|] eqn:He; [|done]. cbn [mbind option_bind] in H.
  injection H as <- <-. rewrite !sapp_assoc.
  pose proof (scan_exp_again _ _ _ _ He Hk') as Ae.
  pose proof (scan_exp_head _ _ _ _ He Hk') as He'.
  pose proof (scan_frac_again _ _ _ _ Hf He') as Af.
  assert (head_not is_digit (e +:+ k')) as He2.
  { destruct (e +:+ k'); [done|]. cbn in *. by apply orb_false_iff in He' as [-> _]. }
  pose proof (scan_frac_head _ _ _ _ Hf He2) as Hf'.
  pose proof (scan_int_again _ _ _ _ Hi Hf') as Ai.
  assert (∃ c r, i = String c r ∧ Ascii.eqb c "-" = false) as (c & r & -> & Hc).
  { destruct s1 as [|c r]; [done|]. cbn [scan_int] in Hi. destruct (Ascii.eqb c "0") eqn:H0.
    - simplify_eq. apply Ascii.eqb_eq in H0 as ->. by eexists _, _.
    - unfold scan_digits1 in Hi. cbn [span_digits] in Hi. destruct (is_digit c) eqn:Hd; [|done].
      destruct (span_digits r). cbn [is_empty] in Hi. simplify_eq. eexists _, _. split; [done|].
      byte_cases c; first [done | by vm_compute in Hd]. }
  assert (g = EmptyString ∨ g = "-") as [-> | ->].
  { destruct s as [|c' r']; [simplify_eq; by left|].
    destruct (Ascii.eqb c' "-") eqn:Hc'; simplify_eq; [|by left].
    apply Ascii.eqb_eq in Hc' as ->. by right. }
  - rewrite sapp_nil_l, !sapp_cons in *. rewrite Hc, Ai. cbn [mbind option_bind].
    rewrite Af. cbn [mbind option_bind]. rewrite Ae. done.
  - rewrite (sapp_cons "-" EmptyString). change (Ascii.eqb "-" "-") with true.
    rewrite sapp_nil_l, Ai. cbn [mbind option_bind]. rewrite Af. cbn [mbind option_bind].
    rewrite Ae. done.
Qed.

(** A parse reads at least one byte and gives well-formed values. *)
Lemma parse_sound fuel :
  (∀ s v k, parse_value fuel s = Some (v, k) →
     json_ok v ∧ String.length k < String.length s) ∧
  (∀ s l k, parse_elems fuel s = Some (l, k) →
     Forall json_ok l ∧ String.length k < String.length s) ∧
  (∀ s l k, parse_members fuel s = Some (l, k) →
     Forall (λ kv, str_ok kv.1 ∧ json_ok kv.2) l ∧ String.length k < String.length s).
Proof.
  induction fuel as [|fuel (IHv & IHe & IHm)]; [done|]. split_and!.
  - intros s v k H. pose proof (skip_ws_length s) as Hs. cbn [parse_value] in H.
    destruct (skip_ws s) as [|c r]; [done|]. cbn [String.length] in Hs.
    destruct (Ascii.eqb c "{"); [|destruct (Ascii.eqb c "[");
      [|destruct (Ascii.eqb c dquote); [|destruct (Ascii.eqb c "n");
      [|destruct (Ascii.eqb c "t"); [|destruct (Ascii.eqb c "f")]]]]].
    + pose proof (skip_ws_length r). destruct (skip_ws r) as [|d r']; [done|].
      cbn [String.length] in *. destruct (Ascii.eqb d "}").
      * simplify_eq. split; [repeat constructor|lia].
      * destruct (parse_members fuel r) as [[l k']|] eqn:Hm; [|done]. cbn in H. simplify_eq.
        apply IHm in Hm as [? ?]. split; [by constructor|lia].
    + pose proof (skip_ws_length r). destruct (skip_ws r) as [|d r']; [done|].
      cbn [String.length] in *. destruct (Ascii.eqb d "]").
      * simplify_eq. split; [repeat constructor|lia].
      * destruct (parse_elems fuel r) as [[l k']|] eqn:Hm; [|done]. cbn in H. simplify_eq.
        apply IHe in Hm as [? ?]. split; [by constructor|lia].
    + destruct (scan_str r) as [[l k']|] eqn:Hr; [|done]. cbn in H. simplify_eq.
      pose proof (scan_str_length _ _ _ Hr). apply scan_str_split in Hr as [_ ?].
      split; [by constructor|lia].
    + destruct (HasPrefix r "ull"); simplify_eq. rewrite length_sdrop.
      split; [constructor|lia].
    + destruct (HasPrefix r "rue"); simplify_eq. rewrite length_sdrop.
      split; [constructor|lia].
    + destruct (HasPrefix r "alse"); simplify_eq. rewrite length_sdrop.
      split; [constructor|lia].
    + destruct (scan_num (String c r)) as [[l k']|] eqn:Hr; [|done]. cbn in H. simplify_eq.
      apply scan_num_ok in Hr as [Hl Hr]. split; [by constructor|].
      destruct (num_ok_shape _ Hl) as (c' & r' & -> & _).
      apply (f_equal String.length) in Hr. rewrite length_sapp in Hr. cbn in Hr. lia.
  - intros s l k H. cbn [parse_elems] in H.
    destruct (parse_value fuel s) as [[v k1]|] eqn:Hv; [|done]. cbn [mbind option_bind] in H.
    apply IHv in Hv as [Hv Hk1]. pose proof (skip_ws_length k1).
    destruct (skip_ws k1) as [|d r]; [done|]. cbn [String.length] in *.
    destruct (Ascii.eqb d ","); [|destruct (Ascii.eqb d "]"); [|done]].
    + destruct (parse_elems fuel r) as [[l' k']|] eqn:Hl; [|done]. cbn in H. simplify_eq.
      apply IHe in Hl as [? ?]. split; [by constructor|lia].
    + simplify_eq. split; [by repeat constructor|lia].
  - intros s l k H. cbn [parse_members] in H. pose proof (skip_ws_length s).
    destruct (skip_ws s) as [|q r]; [done|]. cbn [String.length] in *.
    destruct (Ascii.eqb q dquote); [|done].
    destruct (scan_str r) as [[key r1]|] eqn:Hr; [|done]. cbn [mbind option_bind] in H.
    pose proof (scan_str_length _ _ _ Hr). apply scan_str_split in Hr as [_ Hkey].
    pose proof (skip_ws_length r1). destruct (skip_ws r1) as [|d r2]; [done|].
    cbn [String.length] in *. destruct (Ascii.eqb d ":"); [|done].
    destruct (parse_value fuel r2) as [[v k1]|] eqn:Hv; [|done]. cbn [mbind option_bind] in H.
    apply IHv in Hv as [Hv Hk1]. pose proof (skip_ws_length k1).
    destruct (skip_ws k1) as [|d' r3]; [done|]. cbn [String.length] in *.
    destruct (Ascii.eqb d' ","); [|destruct (Ascii.eqb d' "}"); [|done]].
    + destruct (parse_members fuel r3) as [[l' k']|] eqn:Hl; [|done]. cbn in H. simplify_eq.
      apply IHm in Hl as [? ?]. split; [by constructor|lia].
    + simplify_eq. split; [by repeat constructor|lia].
Qed.

Lemma parse_ok s v : parse s = Some v → json_ok v ∧ (json_depth v ≤ 10000)%N.
Proof.
  unfold parse, decode_first. destruct (parse_value _ s) as [[w k]|] eqn:Hv; [|done].
  cbn [mbind option_bind]. destruct (json_depth w <=? 10000)%N eqn:Hd; [|done].
  cbn [mbind option_bind]. destruct (is_empty _); [|done]. intros [= ->].
  apply N.leb_le in Hd. split; [|done]. by eapply (proj1 (parse_sound _)).
Qed.

(** More fuel than the text needs changes nothing: [parse] decides the syntax. *)
Lemma parse_fuel fuel :
  (∀ s fuel', 2 * String.length s + 1 ≤ fuel → fuel ≤ fuel' →
     parse_value fuel' s = parse_value fuel s) ∧
  (∀ s fuel', 2 * String.length s + 2 ≤ fuel → fuel ≤ fuel' →
     parse_elems fuel' s = parse_elems fuel s) ∧
  (∀ s fuel', 2 * String.length s + 2 ≤ fuel → fuel ≤ fuel' →
     parse_members fuel' s = parse_members fuel s).
Proof.
  induction fuel as [|fuel (IHv & IHe & IHm)]; [split_and!; intros; lia|].
  split_and!; intros s [|fuel'] Hf Hle; try lia.
  - pose proof (skip_ws_length s) as Hs. cbn [parse_value].
    destruct (skip_ws s) as [|c r]; [done|]. cbn [String.length] in Hs.
    destruct (Ascii.eqb c "{").
    { rewrite (IHm r fuel') by lia. done. }
    destruct (Ascii.eqb c "["); [|done].
    rewrite (IHe r fuel') by lia. done.
  - cbn [parse_elems]. rewrite (IHv s fuel') by lia.
    destruct (parse_value fuel s) as [[v k]|] eqn:Hv; [|done]. cbn [mbind option_bind].
    apply (proj1 (parse_sound _)) in Hv as [_ Hk]. pose proof (skip_ws_length k).
    destruct (skip_ws k) as [|d r]; [done|]. cbn [String.length] in *.
    rewrite (IHe r fuel') by lia. done.
  - pose proof (skip_ws_length s). cbn [parse_members].
    destruct (skip_ws s) as [|q r]; [done|]. cbn [String.length] in *.
    destruct (Ascii.eqb q dquote); [|done].
    destruct (scan_str r) as [[key r1]|] eqn:Hr; [|done]. cbn [mbind option_bind].
    apply scan_str_length in Hr. pose proof (skip_ws_length r1).
    destruct (skip_ws r1) as [|d r2]; [done|]. cbn [String.length] in *.
    destruct (Ascii.eqb d ":"); [|done]. rewrite (IHv r2 fuel') by lia.
    destruct (parse_value fuel r2) as [[v k]|] eqn:Hv; [|done]. cbn [mbind option_bind].
    apply (proj1 (parse_sound _)) in Hv as [_ Hk]. pose proof (skip_ws_length k).
    destruct (skip_ws k) as [|d' r3]; [done|]. cbn [String.length] in *.
    rewrite (IHm r3 fuel') by lia. done.
Qed.

Lemma parse_value_fuel fuel s :
  json_fuel s ≤ fuel → parse_value fuel s = parse_value (json_fuel s) s.
Proof. intros H. apply (proj1 (parse_fuel _)); unfold json_fuel in *; lia. Qed.

(** ** Lemmas: string literals *)

Lemma hex_digit_hex n : (n < 16)%N → is_hex (hex_digit n) = true.
Proof.
  intros H. assert (n ∈ (N.of_nat <$> seq 0 16)) as Hn.
  { apply list_elem_of_fmap. exists (N.to_nat n). rewrite N2Nat.id. split; [done|].
    apply elem_of_seq. lia. }
  revert Hn. vm_compute (N.of_nat <$> seq 0 16). clear H.
  repeat (rewrite elem_of_cons; intros [->|Hn]; [done|revert Hn]). by rewrite elem_of_nil.
Qed.

Lemma str_ok_u00 c l : str_ok l → str_ok (u00 c +:+ l).
Proof.
  intros Hl. unfold u00, one. rewrite !sapp_cons, !sapp_nil_l. apply str_uni; [|done].
  change (is_hex "0") with true. rewrite !hex_digit_hex; [done|..].
  - apply N.mod_lt. done.
  - apply N.Div0.div_lt_upper_bound. pose proof (N_ascii_bounded c). unfold byte_n. lia.
Qed.

Lemma str_ok_lit (l k : string) : bool_decide (scan_str (l +:+ one dquote) = Some (l, EmptyString)) = true →
  str_ok k → str_ok (l +:+ k).
Proof.
  intros H%bool_decide_eq_true Hk. apply str_ok_app; [|done].
  by apply scan_str_split in H as [_ ?].
Qed.

Lemma str_ok_plain_run n s : (∀ c, c ∈ String.list_ascii_of_string (stake n s) → is_ascii c = false) →
  ∀ k, str_ok k → str_ok (stake n s +:+ k).
Proof.
  revert s. induction n as [|n IH]; intros [|c s] H k Hk; try done.
  cbn [stake]. rewrite sapp_cons. cbn [stake String.list_ascii_of_string] in H.
  assert (is_ascii c = false) as Hc by (apply H; left).
  constructor; [..|apply IH; [|done]; intros d Hd; apply H; by right];
    clear -Hc; byte_cases c; first [done | by vm_compute in Hc].
Qed.

(** The bytes of a multi-byte rune are not ASCII. *)
Lemma rune_bytes s : 2 ≤ rune_len s →
  ∀ c, c ∈ String.list_ascii_of_string (stake (rune_len s) s) → is_ascii c = false.
Proof.
  assert (Hc : ∀ lo hi c, (128 ≤ byte_n lo)%N → in_range lo hi c = true → is_ascii c = false).
  { intros lo hi c H. unfold in_range, is_ascii. rewrite andb_true_iff, N.leb_le, N.ltb_ge. lia. }
  assert (He : ∀ c d, (128 ≤ byte_n d)%N → Ascii.eqb c d = true → is_ascii c = false).
  { intros c d H ->%Ascii.eqb_eq. unfold is_ascii. by apply N.ltb_ge. }
  destruct s as [|c1 r]; [cbn; lia|]. cbn [rune_len].
  destruct (is_ascii c1) eqn:H1; [lia|].
  destruct r as [|c2 r2]; [lia|].
  destruct (utf8_2 c1 c2) eqn:H2.
  { intros _ c. cbn. apply andb_true_iff in H2 as [_ H2].
    rewrite !elem_of_cons, elem_of_nil. intros [->|[->|[]]]; [done|].
    by eapply Hc in H2. }
  destruct r2 as [|c3 r3]; [lia|].
  destruct (utf8_3 c1 c2 c3) eqn:H3.
  { intros _ c. cbn. apply andb_true_iff in H3 as [H3 H3'].
    rewrite !elem_of_cons, elem_of_nil. intros [->|[->|[->|[]]]]; [done| |by eapply Hc in H3].
    rewrite !orb_true_iff, !andb_true_iff in H3'.
    destruct H3' as [[[_ H]|[_ H]]|[_ H]]; by eapply Hc in H. }
  destruct r3 as [|c4 r4]; [lia|].
  destruct (utf8_4 c1 c2 c3 c4) eqn:H4; [|lia].
  intros _ c. cbn. unfold utf8_4 in H4. rewrite !andb_true_iff, !orb_true_iff, !andb_true_iff in H4.
  destruct H4 as [[H4 H4'] H4'']. rewrite !elem_of_cons, elem_of_nil.
  intros [->|[->|[->|[->|[]]]]]; [done| |by eapply Hc in H4|by eapply Hc in H4'].
  destruct H4'' as [[[_ H]|[_ H]]|[_ H]]; by eapply Hc in H.
Qed.

Lemma str_ok_quote_ascii c k : is_ascii c = true → str_ok k → str_ok (quote_ascii c +:+ k).
Proof.
  intros Hc Hk. unfold quote_ascii.
  repeat case_match; try (apply str_ok_lit; [done|done]).
  - apply orb_true_iff in H as [->%Ascii.eqb_eq| ->%Ascii.eqb_eq];
      (apply str_ok_lit; [done|done]).
  - by apply str_ok_u00.
  - apply orb_false_iff in H as [? ?].
    repeat match goal with H : (_ || _) = false |- _ => apply orb_false_iff in H as [? ?] end.
    unfold one. rewrite sapp_cons, sapp_nil_l. by constructor.
Qed.

(** What [json.Marshal] writes for a string is a string literal. *)
Lemma quote_lex_ok s : str_ok (quote_lex s).
Proof.
  unfold quote_lex. generalize (String.length s) as fuel. intros fuel. revert s.
  induction fuel as [|fuel IH]; intros [|c r]; try by constructor.
  cbn [quote_body]. destruct (rune_len (String c r)) as [|[|n]] eqn:Hn.
  - apply str_ok_lit; [done|apply IH].
  - apply str_ok_quote_ascii; [|apply IH]. cbn [rune_len] in Hn.
    destruct (is_ascii c); [done|]. repeat case_match; done.
  - destruct (HasPrefix _ line_sep); [apply str_ok_lit; [done|apply IH]|].
    destruct (HasPrefix _ par_sep); [apply str_ok_lit; [done|apply IH]|].
    apply str_ok_plain_run; [|apply IH]. rewrite <- Hn. apply rune_bytes. lia.
Qed.

(** [s] is valid UTF-8 (every ASCII string is). *)
Fixpoint utf8_ok (fuel : nat) (s : string) : bool :=
  match fuel, s with
  | S fuel, String _ _ =>
      match rune_len s with 0 => false | n => utf8_ok fuel (sdrop n s) end
  | _, EmptyString => true
  | 0, _ => false
  end.

Definition valid_utf8 (s : string) : bool := utf8_ok (String.length s) s.

Lemma sdrop_nil n : sdrop n EmptyString = EmptyString.
Proof. by destruct n. Qed.

Lemma ascii_valid_utf8 s : sforall is_ascii s = true → valid_utf8 s = true.
Proof.
  unfold valid_utf8. induction s as [|c r IH]; cbn; [done|].
  intros H. bool_to_prop. rewrite H. destruct r; apply IH; done.
Qed.

(** The length of the first rune does not depend on what follows the rune. *)
Lemma rune_len_stake s n t : rune_len s = n → n ≠ 0 → rune_len (stake n s +:+ t) = n.
Proof.
  intros Hs Hn. destruct s as [|c1 r]; [done|]. cbn [rune_len] in Hs.
  destruct (is_ascii c1) eqn:H1.
  { subst n. cbn [stake]. rewrite sapp_cons. cbn [rune_len]. by rewrite H1. }
  destruct r as [|c2 r2]; [done|]. destruct (utf8_2 c1 c2) eqn:H2.
  { subst n. cbn [stake]. rewrite !sapp_cons. cbn [rune_len]. by rewrite H1, H2. }
  destruct r2 as [|c3 r3]; [done|]. destruct (utf8_3 c1 c2 c3) eqn:H3.
  { subst n. cbn [stake]. rewrite !sapp_cons. cbn [rune_len]. by rewrite H1, H2, H3. }
  destruct r3 as [|c4 r4]; [done|]. destruct (utf8_4 c1 c2 c3 c4) eqn:H4; [|done].
  subst n. cbn [stake]. rewrite !sapp_cons. cbn [rune_len]. by rewrite H1, H2, H3, H4.
Qed.

Lemma rune_len_length s : rune_len s ≤ String.length s.
Proof.
  destruct s as [|c1 [|c2 [|c3 [|c4 r]]]]; cbn; repeat case_match; lia.
Qed.

Lemma length_stake n s : n ≤ String.length s → String.length (stake n s) = n.
Proof. revert s. induction n as [|n IH]; intros [|c s]; cbn; try lia. intros H. rewrite IH; lia. Qed.

Lemma quote_ascii_unquote c fuel t : is_ascii c = true →
  unquote_body (S fuel) (quote_ascii c +:+ t) = String c (unquote_body fuel t).
Proof. byte_cases c; intros H; first [by vm_compute in H | reflexivity]. Qed.

Lemma quote_ascii_length c : 1 ≤ String.length (quote_ascii c).
Proof. unfold quote_ascii. repeat case_match; cbn; lia. Qed.

(** The pieces of a literal are decoded one by one. *)
Lemma unquote_run s n fuel t : rune_len s = S (S n) →
  unquote_body (S fuel) (stake (S (S n)) s +:+ t)
  = stake (S (S n)) s +:+ unquote_body fuel t.
Proof.
  intros Hs. pose proof (rune_len_stake s (S (S n)) t Hs ltac:(done)) as Hr.
  pose proof (length_stake (S (S n)) s) as Hl. rewrite <- Hs in Hl at 1.
  specialize (Hl (rune_len_length s)).
  pose proof (sdrop_app (stake (S (S n)) s) t) as Hd. rewrite Hl in Hd.
  pose proof (stake_app (stake (S (S n)) s) t) as Hk. rewrite Hl in Hk.
  assert (∃ c r, stake (S (S n)) s +:+ t = String c r ∧ Ascii.eqb c bslash = false)
    as (c & r & He & Hc).
  { destruct s as [|c r]; [done|]. cbn [stake]. rewrite sapp_cons. eexists _, _.
    split; [done|]. pose proof (rune_bytes (String c r)) as Hb. rewrite Hs in Hb.
    specialize (Hb ltac:(lia) c ltac:(left)). clear -Hb.
    byte_cases c; first [done | by vm_compute in Hb]. }
  rewrite He in *. cbn [unquote_body]. rewrite Hc, Hr. rewrite Hk, Hd. done.
Qed.

Lemma stake_all n s : String.length s = n → stake n s = s.
Proof.
  intros <-. pose proof (stake_app s EmptyString) as H. by rewrite sapp_nil_r in H.
Qed.

Lemma unquote_quote_body s fuel fuel' :
  utf8_ok fuel s = true → String.length (quote_body fuel s) ≤ fuel' →
  unquote_body fuel' (quote_body fuel s) = s.
Proof.
  revert s fuel'. induction fuel as [|fuel IH]; intros [|c r] fuel' Hs Hf; try done;
    try by destruct fuel'.
  cbn [utf8_ok] in Hs. cbn [quote_body] in *.
  destruct (rune_len (String c r)) as [|[|n]] eqn:Hn; [done| |].
  - rewrite length_sapp in Hf. pose proof (quote_ascii_length c).
    destruct fuel' as [|fuel']; [lia|]. rewrite quote_ascii_unquote.
    + cbn [sdrop] in Hs. destruct r; (f_equal; apply IH; [done|lia]).
    + cbn [rune_len] in Hn. destruct (is_ascii c); [done|]. repeat case_match; done.
  - assert (Hesc : ∀ sep lit, String.length sep = 3 → rune_len sep = 3 →
      HasPrefix (String c r) sep = true →
      (∀ f t, unquote_body (S f) (lit +:+ t) = sep +:+ unquote_body f t) →
      1 ≤ String.length lit →
      String.length (lit +:+ quote_body fuel (sdrop (S (S n)) (String c r))) ≤ fuel' →
      unquote_body fuel' (lit +:+ quote_body fuel (sdrop (S (S n)) (String c r))) = String c r).
    { intros sep lit Hl3 Hr3 [r' Hr']%HasPrefix_spec Hu Hlit Hf'.
      rewrite length_sapp in Hf'. destruct fuel' as [|fuel']; [lia|]. rewrite Hu.
      assert (n = 1) as ->.
      { pose proof (rune_len_stake sep 3 r' Hr3 ltac:(done)) as H.
        rewrite (stake_all 3 sep) in H by done.
        rewrite <- Hr', Hn in H. lia. }
      pose proof (sdrop_app sep r') as Hd. rewrite Hl3 in Hd.
      rewrite Hr' in Hs, Hf' |- *. rewrite Hd in *. f_equal. apply IH; [done|lia]. }
    destruct (HasPrefix _ line_sep) eqn:Hls.
    { eapply Hesc; [| |exact Hls|..]; try done; try reflexivity. cbn. lia. }
    destruct (HasPrefix _ par_sep) eqn:Hps.
    { eapply Hesc; [| |exact Hps|..]; try done; try reflexivity. cbn. lia. }
    rewrite length_sapp in Hf. rewrite length_stake in Hf
      by (rewrite <- Hn; apply rune_len_length).
    destruct fuel' as [|fuel']; [lia|]. rewrite unquote_run by done.
    rewrite IH by (done || lia). apply stake_sdrop.
Qed.

(** Decoding the literal of a valid string gives the string back. *)
Lemma Unquote_quote s : valid_utf8 s = true → Unquote (quote_lex s) = s.
Proof. intros H. apply unquote_quote_body; [exact H|done]. Qed.

(** A plain literal (ASCII, nothing to escape) is its own string. *)
Definition plain_byte (c : ascii) : bool :=
  is_ascii c && negb (is_control c) && negb (Ascii.eqb c dquote) && negb (Ascii.eqb c bslash)
  && negb (Ascii.eqb c "<") && negb (Ascii.eqb c ">") && negb (Ascii.eqb c "&").

Lemma quote_lex_plain s : sforall plain_byte s = true → quote_lex s = s.
Proof.
  unfold quote_lex. induction s as [|c r IH]; [done|]. cbn [sforall]. intros H. bool_to_prop.
  cbn [String.length quote_body]. unfold plain_byte in H. bool_to_prop.
  cbn [rune_len]. rewrite H. rewrite IH by done.
  replace (quote_ascii c) with (one c); [done|].
  byte_cases c; first [done | discriminate].
Qed.

(** ** Lemmas: raw members *)

Lemma members_raw_print l fuel k :
  l ≠ [] → Forall (λ kv, str_ok kv.1 ∧ json_ok kv.2) l →
  2 * String.length (print_members l) + 1 ≤ fuel →
  members_raw fuel (print_members l +:+ String "}" k)
  = Some ((λ kv, (kv.1, print kv.2)) <$> l, k).
Proof.
  revert fuel. induction l as [|[key v] l IH]; intros fuel Hne Hok Hf; [done|].
  inversion_clear Hok as [|? ? [Hkey Hov] Hol].
  cbn [fst snd] in *. rewrite print_members_cons in *.
  destruct fuel as [|fuel]; [lia|]. cbn [fst snd] in *.
  pose proof (print_length v Hov). unfold quoted in *.
  rewrite !length_sapp in Hf. str_norm. cbn [members_raw].
  change (skip_ws (String dquote ?x)) with (String dquote x). cbn iota.
  change (Ascii.eqb dquote dquote) with true. cbn iota.
  rewrite (str_ok_scan _ _ Hkey). cbn [mbind option_bind].
  change (skip_ws (String ":" ?x)) with (String ":" x). cbn iota.
  change (Ascii.eqb ":" ":") with true. cbn iota. cbv zeta.
  rewrite skip_ws_print by done.
  assert (Hraw : ∀ x, stake (String.length (print v +:+ x) - String.length x) (print v +:+ x)
                      = print v).
  { intros y. rewrite length_sapp, Nat.add_sub. apply stake_app. }
  rewrite parse_value_print; [|done|by destruct l|lia]. cbn [mbind option_bind].
  rewrite Hraw. destruct l as [|kv l].
  - str_norm. done.
  - str_norm. change (skip_ws (String "," ?x)) with (String "," x). cbn iota.
    change (Ascii.eqb "," ",") with true. cbn iota.
    rewrite IH; try done. rewrite length_sapp in Hf.
    change (String.length ",") with 1 in Hf. lia.
Qed.

Lemma raw_members_print l :
  json_ok (JObj l) → (json_depth (JObj l) ≤ 10000)%N →
  raw_members (print (JObj l)) = Some ((λ kv, (kv.1, print kv.2)) <$> l).
Proof.
  intros Hok Hd. unfold raw_members. rewrite parse_print by done.
  destruct l as [|kv l]; [done|]. inversion_clear Hok as [| | | | |? H].
  change (print (JObj (kv :: l))) with ("{" +:+ print_members (kv :: l) +:+ "}").
  str_norm. change (skip_ws (String "{" ?x)) with (String "{" x). cbn iota.
  rewrite members_raw_print; [done|done|done|].
  unfold json_fuel. cbn [String.length]. rewrite length_sapp. lia.
Qed.

(** ** Lemmas: what the source prints *)

Lemma span_digits_all d k : sforall is_digit d = true → num_stop k →
  span_digits (d +:+ k) = (d, k).
Proof.
  intros Hd Hk. induction d as [|c d IH].
  - rewrite sapp_nil_l. destruct k as [|c k]; [done|]. cbn. by destruct Hk as (-> & _).
  - cbn [sforall] in Hd. bool_to_prop. rewrite sapp_cons. cbn [span_digits].
    rewrite H. by rewrite IH.
Qed.

Lemma num_ok_Itoa z : num_ok (Itoa z).
Proof.
  intros k Hk. destruct (Itoa_shape z) as (c & r & -> & Hc & Hr & H0 & _).
  assert (Hint : scan_int (String c r +:+ k) = Some (String c r, k)).
  { rewrite sapp_cons. cbn [scan_int]. destruct (Ascii.eqb c "0") eqn:Ec.
    - by rewrite (H0 eq_refl).
    - unfold scan_digits1. rewrite <- sapp_cons, span_digits_all; [done| |done].
      cbn. by rewrite Hc. }
  assert (scan_frac k = Some (EmptyString, k) ∧ scan_exp k = Some (EmptyString, k)) as [Hf He].
  { destruct k as [|d k]; [done|]. destruct Hk as (_ & Hdot & He & HE).
    unfold scan_frac, scan_exp. rewrite Hdot, He, HE. done. }
  assert (Hm : Ascii.eqb c "-" = false)
    by (clear -Hc; byte_cases c; done).
  unfold scan_num. destruct (Z.ltb_spec z 0) as [Hz|Hz].
  - change (Ascii.eqb "-" "-") with true. cbn iota. rewrite sapp_cons.
    change (Ascii.eqb "-" "-") with true. cbn iota zeta.
    rewrite Hint. cbn [mbind option_bind]. rewrite Hf. cbn [mbind option_bind].
    rewrite He. cbn [mbind option_bind]. by rewrite sapp_nil_r.
  - rewrite sapp_cons, Hm. rewrite <- sapp_cons, Hint. cbn [mbind option_bind].
    rewrite Hf. cbn [mbind option_bind]. rewrite He. cbn [mbind option_bind].
    by rewrite sapp_nil_r.
Qed.

Lemma json_ok_str s : json_ok (JStr (quote_lex s)).
Proof. constructor. apply quote_lex_ok. Qed.

Lemma json_ok_Itoa z : json_ok (JNum (Itoa z)).
Proof. constructor. apply num_ok_Itoa. Qed.

Lemma str_ok_plain s : sforall plain_byte s = true → str_ok s.
Proof. intros H. rewrite <- (quote_lex_plain s H). apply quote_lex_ok. Qed.

#[export] Hint Resolve quote_lex_ok json_ok_str json_ok_Itoa num_ok_Itoa : platform.

(** A struct decode looks a field up among the members of its name. *)
Definition unnamed (name : string) (l : list (string * json)) : bool :=
  forallb (λ kv, negb (String.eqb (folded (member_key kv)) (folded name))) l.

Lemma field_members_unnamed name l : unnamed name l = true → field_members name l = [].
Proof.
  unfold field_members. induction l as [|kv l IH]; [done|]. cbn [unnamed forallb].
  intros [Hk Hl]%andb_true_iff. rewrite filter_cons_False; [by apply IH|].
  intros He. by rewrite He, String.eqb_refl in Hk.
Qed.

Lemma field_members_at name k v l1 l2 :
  unnamed name l1 = true → unnamed name l2 = true → folded (Unquote k) = folded name →
  field_members name (l1 ++ (k, v) :: l2) = [v].
Proof.
  intros H1 H2 Hk. apply field_members_unnamed in H1, H2. unfold field_members in *.
  rewrite filter_app, fmap_app, H1, filter_cons_True by done. cbn [fmap list_fmap].
  by rewrite H2.
Qed.

Lemma string_field_absent name l : unnamed name l = true → string_field name l = EmptyString.
Proof. intros H. unfold string_field. by rewrite field_members_unnamed. Qed.

Lemma string_field_at name k lex l1 l2 :
  unnamed name l1 = true → unnamed name l2 = true → folded (Unquote k) = folded name →
  string_field name (l1 ++ (k, JStr lex) :: l2) = Unquote lex.
Proof. intros. unfold string_field. by rewrite field_members_at. Qed.

(** The first value of a printed document with a text after it. *)
Lemma decode_first_print v k : json_ok v → (json_depth v ≤ 10000)%N → num_stop k →
  decode_first (print v +:+ k) = Some (v, k).
Proof.
  intros Hok Hd Hk. unfold decode_first.
  rewrite parse_value_print by (done || (unfold json_fuel; rewrite length_sapp; lia)).
  cbn [mbind option_bind]. apply N.leb_le in Hd. by rewrite Hd.
Qed.

Lemma parse_print_line v : json_ok v → (json_depth v ≤ 10000)%N →
  parse (print v +:+ one "010") = Some v.
Proof. intros Hok Hd. unfold parse. by rewrite decode_first_print. Qed.

Lemma field_members_cons name kv l :
  field_members name (kv :: l)
  = if String.eqb (folded (Unquote kv.1)) (folded name)
    then kv.2 :: field_members name l else field_members name l.
Proof.
  unfold field_members. destruct (String.eqb_spec (folded (Unquote kv.1)) (folded name)).
  - by rewrite filter_cons_True.
  - by rewrite filter_cons_False.
Qed.

(** Evaluates the field lookups of a struct decode on a list of members whose
    keys are constants. *)
Ltac eval_fields :=
  unfold string_field;
  repeat (rewrite field_members_cons; cbn [fst snd];
    match goal with
    | |- context [String.eqb (folded (Unquote ?k)) (folded ?n)] =>
        let b := eval vm_compute in (String.eqb (folded (Unquote k)) (folded n)) in
        change (String.eqb (folded (Unquote k)) (folded n)) with b; cbn iota
    end);
  change (field_members ?n []) with (@nil json); cbn [foldl].

(** ** Lemmas: escaping what HTML reads *)

Definition html_byte (c : ascii) : bool :=
  Ascii.eqb c "<" || Ascii.eqb c ">" || Ascii.eqb c "&".

Lemma html_step c fuel r :
  html_byte c = false → HasPrefix (String c r) line_sep = false →
  HasPrefix (String c r) par_sep = false →
  html_escape (S fuel) (String c r) = String c (html_escape fuel r).
Proof. unfold html_byte. intros H1 H2 H3. cbn [html_escape]. by rewrite H1, H2, H3. Qed.

Lemma html_step_ascii c fuel r : is_ascii c = true → html_byte c = false →
  html_escape (S fuel) (String c r) = String c (html_escape fuel r).
Proof.
  intros Ha Hc. apply html_step; [done|..];
    (byte_cases c; first [done | by vm_compute in Ha]).
Qed.

Lemma hex_ascii c : is_hex c = true → is_ascii c = true ∧ html_byte c = false.
Proof.
  intros H. byte_cases c; first [done | by vm_compute in H].
Qed.

Lemma escape_ascii c : is_escape c = true → is_ascii c = true ∧ html_byte c = false.
Proof.
  intros H. byte_cases c; first [done | by vm_compute in H].
Qed.

(** A plain run at the front can be cut off. *)
Lemma str_ok_cut c r : Ascii.eqb c bslash = false → str_ok (String c r) → str_ok r.
Proof. intros Hc H. inversion H; subst; [done|by vm_compute in Hc..]. Qed.

Lemma str_ok_html fuel s : String.length s ≤ fuel → str_ok s → str_ok (html_escape fuel s).
Proof.
  revert s. induction fuel as [fuel IH] using lt_wf_ind. intros s Hf Hs.
  destruct fuel as [|fuel]; [destruct s; constructor|].
  destruct Hs as [|c l H1 H2 H3 Hl|e l He Hl|h1 h2 h3 h4 l Hh Hl]; [constructor| | |];
    cbn [String.length] in Hf.
  - cbn [html_escape]. fold (html_byte c). destruct (html_byte c).
    { apply str_ok_u00, IH; [lia|lia|done]. }
    assert (Hcut : ∀ a b d t lit, String c l = String a (String b (String d t)) →
      Ascii.eqb b bslash = false → Ascii.eqb d bslash = false →
      bool_decide (scan_str (lit +:+ one dquote) = Some (lit, EmptyString)) = true →
      str_ok (lit +:+ html_escape fuel t)).
    { intros a b d t lit [= -> ->] Hb Hd Hlit. apply str_ok_lit; [done|].
      apply IH; [lia|cbn [String.length] in Hf; lia|].
      apply (str_ok_cut d); [done|]. by apply (str_ok_cut b). }
    destruct (HasPrefix (String c l) line_sep) eqn:Hls.
    { apply HasPrefix_spec in Hls as [t Ht]. rewrite Ht.
      change (sdrop 3 (line_sep +:+ t)) with (sdrop 0 t). cbn [sdrop].
      by apply (Hcut _ _ _ t _ Ht). }
    destruct (HasPrefix (String c l) par_sep) eqn:Hps.
    { apply HasPrefix_spec in Hps as [t Ht]. rewrite Ht.
      change (sdrop 3 (par_sep +:+ t)) with (sdrop 0 t). cbn [sdrop].
      by apply (Hcut _ _ _ t _ Ht). }
    apply str_plain; [done..|]. apply IH; [lia|lia|done].
  - destruct fuel as [|fuel]; [lia|]. destruct (escape_ascii e He).
    rewrite html_step_ascii, html_step_ascii by done.
    apply str_esc; [done|]. apply IH; [lia|lia|done].
  - do 5 (destruct fuel as [|fuel]; [lia|]).
    rewrite !html_step_ascii by (done || (bool_to_prop;
      repeat match goal with H : is_hex _ = true |- _ => apply hex_ascii in H as [? ?] end; done)).
    apply str_uni; [done|]. apply IH; [lia|lia|done].
Qed.

Lemma escape_html_ok v : json_ok v → json_ok (escape_html v).
Proof.
  induction v as [|b|lex|lex|l IH|l IH] using json_ind'; intros H; cbn [escape_html]; try done.
  - inversion_clear H as [| | |? Hl| |]. constructor. by apply str_ok_html.
  - inversion_clear H as [| | | |? Hl|]. constructor. apply Forall_map.
    induction Hl; inversion_clear IH; constructor; auto.
  - inversion_clear H as [| | | | |? Hl]. constructor. apply Forall_map.
    induction Hl as [|kv l [Hk Hv] Hl IHl]; inversion_clear IH as [|? ? Hkv Hrest];
      constructor; auto. cbn. split; [by apply str_ok_html|auto].
Qed.

Lemma escape_html_depth v : json_depth (escape_html v) = json_depth v.
Proof.
  induction v as [|b|lex|lex|l IH|l IH] using json_ind'; cbn [escape_html json_depth]; try done.
  - f_equal. induction IH as [|v l Hv _ IHl]; cbn; [done|]. by rewrite Hv, IHl.
  - f_equal. induction IH as [|kv l Hv _ IHl]; cbn; [done|]. by rewrite Hv, IHl.
Qed.

(** What [json.Marshal] writes for a raw message is a document. *)
Lemma compact_ok s t : compact s = Some t →
  ∃ u, parse s = Some u ∧ t = print (escape_html u) ∧ json_ok (escape_html u)
       ∧ json_depth (escape_html u) = json_depth u.
Proof.
  unfold compact. destruct (parse s) as [u|] eqn:Hp; cbn; [|done]. intros [= <-].
  apply parse_ok in Hp as Hok. destruct Hok as [Hok Hd]. exists u.
  split_and!; try done; [by apply escape_html_ok|by rewrite escape_html_depth].
Qed.

(** ** Lemmas: a parse depends on what it reads only *)

Lemma skip_ws_split s : ∃ w, s = w +:+ skip_ws s ∧ sforall is_space w = true.
Proof.
  induction s as [|c r (w & Hw & Hs)]; [by exists EmptyString|]. cbn [skip_ws].
  destruct (is_space c) eqn:Hc; [|by exists EmptyString].
  exists (String c w). split; [by rewrite sapp_cons, <- Hw|]. cbn. by rewrite Hc.
Qed.

Lemma skip_ws_app w s : sforall is_space w = true → skip_ws (w +:+ s) = skip_ws s.
Proof.
  induction w as [|c w IH]; [done|]. cbn [sforall]. intros [Hc Hw]%andb_true_iff.
  rewrite sapp_cons. cbn [skip_ws]. rewrite Hc. by apply IH.
Qed.

Lemma skip_ws_head s c r : skip_ws s = String c r → is_space c = false.
Proof.
  intros H. pose proof (skip_ws_idem s) as Hi. rewrite H in Hi. cbn [skip_ws] in Hi.
  destruct (is_space c) eqn:Hc; [|done].
  apply (f_equal String.length) in Hi. pose proof (skip_ws_length r). cbn in Hi. lia.
Qed.

Lemma skip_ws_stop c r : is_space c = false → skip_ws (String c r) = String c r.
Proof. intros H. cbn [skip_ws]. by rewrite H. Qed.

(** A text is what [skip_ws] skips, a byte that is not white space, and the rest. *)
Lemma skip_ws_string s c r : skip_ws s = String c r →
  ∃ w, s = w +:+ String c r ∧ ∀ x, skip_ws (w +:+ String c x) = String c x.
Proof.
  intros H. destruct (skip_ws_split s) as (w & Hw & Hs). exists w. rewrite H in Hw.
  split; [done|]. intros x. rewrite skip_ws_app by done.
  by apply skip_ws_stop, (skip_ws_head s c r).
Qed.

Lemma scan_str_local s l k : scan_str s = Some (l, k) →
  ∃ t, s = t +:+ k ∧ ∀ k', scan_str (t +:+ k') = Some (l, k').
Proof.
  intros [-> Hl]%scan_str_split. exists (l +:+ one dquote). split.
  - by rewrite sapp_assoc.
  - intros k'. rewrite sapp_assoc. by apply str_ok_scan.
Qed.

Lemma parse_members_head fuel s x : parse_members fuel s = Some x →
  ∃ r, skip_ws s = String dquote r.
Proof.
  destruct fuel as [|fuel]; [done|]. cbn [parse_members].
  destruct (skip_ws s) as [|q r]; [done|].
  destruct (Ascii.eqb_spec q dquote) as [->|]; [eauto|done].
Qed.

Lemma parse_elems_head fuel s x : parse_elems fuel s = Some x →
  ∃ c r, skip_ws s = String c r ∧ Ascii.eqb c "]" = false.
Proof.
  destruct fuel as [|[|fuel]]; [done|done|]. cbn [parse_elems parse_value].
  destruct (skip_ws s) as [|c r]; [done|]. exists c, r. split; [done|].
  by destruct (Ascii.eqb_spec c "]") as [->|].
Qed.

(** One step of [parse_value] after the white space. *)
Lemma parse_value_local_byte fuel s c r v k :
  skip_ws s = String c r →
  (∃ t, r = t +:+ k ∧
     ∀ k', num_stop k' → parse_value (S fuel) (String c (t +:+ k')) = Some (v, k')) →
  ∃ t, s = t +:+ k ∧ ∀ k', num_stop k' → parse_value (S fuel) (t +:+ k') = Some (v, k').
Proof.
  intros Hs (t & -> & Ht). destruct (skip_ws_string s c _ Hs) as (w & -> & Hw).
  exists (w +:+ String c t). split; [by rewrite sapp_assoc, sapp_cons|].
  intros k' Hk'. rewrite <- (Ht k' Hk'). rewrite sapp_assoc, sapp_cons.
  apply skip_ws_head in Hs. cbn [parse_value]. by rewrite Hw, skip_ws_stop.
Qed.

Lemma parse_local_value fuel :
  (∀ s l k, parse_elems fuel s = Some (l, k) → ∃ t, s = t +:+ k ∧
     ∀ k', parse_elems fuel (t +:+ k') = Some (l, k')) →
  (∀ s l k, parse_members fuel s = Some (l, k) → ∃ t, s = t +:+ k ∧
     ∀ k', parse_members fuel (t +:+ k') = Some (l, k')) →
  ∀ s v k, parse_value (S fuel) s = Some (v, k) → ∃ t, s = t +:+ k ∧
     ∀ k', num_stop k' → parse_value (S fuel) (t +:+ k') = Some (v, k').
Proof.
  intros IHe IHm s v k H. cbn [parse_value] in H.
  destruct (skip_ws s) as [|c r] eqn:Hs; [done|].
  apply (parse_value_local_byte fuel s c r v k Hs).
  assert (Hc : ∀ x, skip_ws (String c x) = String c x)
    by (intros x; by eapply skip_ws_stop, skip_ws_head).
  cbn [parse_value]. setoid_rewrite Hc.
  destruct (Ascii.eqb c "{"); [|destruct (Ascii.eqb c "[");
    [|destruct (Ascii.eqb c dquote); [|destruct (Ascii.eqb c "n");
    [|destruct (Ascii.eqb c "t"); [|destruct (Ascii.eqb c "f")]]]]].
  - destruct (skip_ws r) as [|d r'] eqn:Hr; [done|]. destruct (Ascii.eqb d "}") eqn:Hd.
    + simplify_eq. destruct (skip_ws_string r d _ Hr) as (w & -> & Hw).
      exists (w +:+ one d). split; [by rewrite sapp_assoc|]. intros k' _.
      rewrite sapp_assoc. change (one d +:+ k') with (String d k'). by rewrite Hw, Hd.
    + destruct (parse_members fuel r) as [[l k1]|] eqn:Hm; [|done]. cbn in H. simplify_eq.
      apply IHm in Hm as (t & -> & Ht). exists t. split; [done|]. intros k' _.
      destruct (parse_members_head _ _ _ (Ht k')) as [q Hq]. rewrite Hq, Ht. done.
  - destruct (skip_ws r) as [|d r'] eqn:Hr; [done|]. destruct (Ascii.eqb d "]") eqn:Hd.
    + simplify_eq. destruct (skip_ws_string r d _ Hr) as (w & -> & Hw).
      exists (w +:+ one d). split; [by rewrite sapp_assoc|]. intros k' _.
      rewrite sapp_assoc. change (one d +:+ k') with (String d k'). by rewrite Hw, Hd.
    + destruct (parse_elems fuel r) as [[l k1]|] eqn:Hm; [|done]. cbn in H. simplify_eq.
      apply IHe in Hm as (t & -> & Ht). exists t. split; [done|]. intros k' _.
      destruct (parse_elems_head _ _ _ (Ht k')) as (q & q' & Hq & Hqn).
      by rewrite Hq, Hqn, Ht.
  - destruct (scan_str r) as [[l k1]|] eqn:Hr; [|done]. cbn in H. simplify_eq.
    destruct (scan_str_local _ _ _ Hr) as (t & -> & Ht). exists t. split; [done|].
    intros k' _. by rewrite Ht.
  - destruct (HasPrefix r "ull") eqn:Hp; [|done]. simplify_eq.
    apply HasPrefix_spec in Hp as [q ->]. exists "ull". split; [done|]. intros k' _. by rewrite HasPrefix_app.
  - destruct (HasPrefix r "rue") eqn:Hp; [|done]. simplify_eq.
    apply HasPrefix_spec in Hp as [q ->]. exists "rue". split; [done|]. intros k' _. by rewrite HasPrefix_app.
  - destruct (HasPrefix r "alse") eqn:Hp; [|done]. simplify_eq.
    apply HasPrefix_spec in Hp as [q ->]. exists "alse". split; [done|]. intros k' _. by rewrite HasPrefix_app.
  - destruct (scan_num (String c r)) as [[l k1]|] eqn:Hr; [|done]. cbn in H. simplify_eq.
    apply scan_num_ok in Hr as [Hl Hr]. destruct (num_ok_shape _ Hl) as (c' & t & -> & _).
    rewrite sapp_cons in Hr. injection Hr as <- ->. exists t. split; [done|].
    intros k' Hk'. rewrite <- sapp_cons. by rewrite (Hl k' Hk').
Qed.

Lemma num_stop_ws k c r : skip_ws k = String c r → num_stop (one c) → num_stop k.
Proof.
  destruct k as [|d k]; [done|]. cbn [skip_ws]. destruct (is_space d) eqn:Hd.
  - intros _ _. clear -Hd. byte_cases d; first [done | by vm_compute in Hd].
  - by intros [= -> ->].
Qed.

Lemma parse_local fuel :
  (∀ s v k, parse_value fuel s = Some (v, k) → ∃ t, s = t +:+ k ∧
     ∀ k', num_stop k' → parse_value fuel (t +:+ k') = Some (v, k')) ∧
  (∀ s l k, parse_elems fuel s = Some (l, k) → ∃ t, s = t +:+ k ∧
     ∀ k', parse_elems fuel (t +:+ k') = Some (l, k')) ∧
  (∀ s l k, parse_members fuel s = Some (l, k) → ∃ t, s = t +:+ k ∧
     ∀ k', parse_members fuel (t +:+ k') = Some (l, k')).
Proof.
  induction fuel as [|fuel (IHv & IHe & IHm)]; [done|].
  split; [by apply parse_local_value|]. split.
  - intros s l k H. cbn [parse_elems] in *.
    destruct (parse_value fuel s) as [[v k1]|] eqn:Hv; [|done]. cbn [mbind option_bind] in H.
    apply IHv in Hv as (t1 & -> & Ht1). destruct (skip_ws k1) as [|d r] eqn:Hk1; [done|].
    destruct (skip_ws_string _ _ _ Hk1) as (w & -> & Hw).
    assert (Hstop : ∀ x, num_stop (one d) → num_stop (w +:+ String d x))
      by (intros x; eapply num_stop_ws, Hw).
    destruct (Ascii.eqb d ",") eqn:Hd; [|destruct (Ascii.eqb d "]") eqn:Hd'; [|done]].
    + destruct (parse_elems fuel r) as [[l' k']|] eqn:Hl; [|done]. cbn in H. simplify_eq.
      apply IHe in Hl as (t2 & -> & Ht2). exists (t1 +:+ w +:+ String d t2).
      rewrite !sapp_assoc, !sapp_cons. split; [done|]. intros k'.
      rewrite !sapp_assoc, sapp_cons, Ht1 by (apply Hstop; by apply Ascii.eqb_eq in Hd as ->).
      cbn [mbind option_bind]. by rewrite Hw, Hd, Ht2.
    + simplify_eq. exists (t1 +:+ w +:+ one d). rewrite !sapp_assoc. split; [done|].
      intros k'. rewrite !sapp_assoc. change (one d +:+ k') with (String d k').
      rewrite Ht1 by (apply Hstop; by apply Ascii.eqb_eq in Hd' as ->).
      cbn [mbind option_bind]. by rewrite Hw, Hd, Hd'.
  - intros s l k H. cbn [parse_members] in *.
    destruct (skip_ws s) as [|q r] eqn:Hs; [done|].
    destruct (skip_ws_string _ _ _ Hs) as (w0 & -> & Hw0).
    destruct (Ascii.eqb q dquote) eqn:Hq; [|done].
    destruct (scan_str r) as [[key r1]|] eqn:Hr; [|done]. cbn [mbind option_bind] in H.
    destruct (scan_str_local _ _ _ Hr) as (t0 & -> & Ht0).
    destruct (skip_ws r1) as [|d r2] eqn:Hr1; [done|].
    destruct (skip_ws_string _ _ _ Hr1) as (w1 & -> & Hw1).
    destruct (Ascii.eqb d ":") eqn:Hd; [|done].
    destruct (parse_value fuel r2) as [[v k1]|] eqn:Hv; [|done]. cbn [mbind option_bind] in H.
    apply IHv in Hv as (t1 & -> & Ht1). destruct (skip_ws k1) as [|e r3] eqn:Hk1; [done|].
    destruct (skip_ws_string _ _ _ Hk1) as (w & -> & Hw).
    assert (Hstop : ∀ x, num_stop (one e) → num_stop (w +:+ String e x))
      by (intros x; eapply num_stop_ws, Hw).
    destruct (Ascii.eqb e ",") eqn:He; [|destruct (Ascii.eqb e "}") eqn:He'; [|done]].
    + destruct (parse_members fuel r3) as [[l' k']|] eqn:Hl; [|done]. cbn in H. simplify_eq.
      apply IHm in Hl as (t2 & -> & Ht2).
      exists (w0 +:+ String q (t0 +:+ w1 +:+ String d (t1 +:+ w +:+ String e t2))).
      str_norm. split; [done|]. intros k'. str_norm.
      rewrite Hw0, Hq, Ht0. cbn [mbind option_bind]. rewrite Hw1, Hd.
      rewrite Ht1 by (apply Hstop; by apply Ascii.eqb_eq in He as ->).
      cbn [mbind option_bind]. by rewrite Hw, He, Ht2.
    + simplify_eq.
      exists (w0 +:+ String q (t0 +:+ w1 +:+ String d (t1 +:+ w +:+ one e))).
      str_norm. split; [done|]. intros k'. str_norm.
      rewrite Hw0, Hq, Ht0. cbn [mbind option_bind]. rewrite Hw1, Hd.
      rewrite Ht1 by (apply Hstop; by apply Ascii.eqb_eq in He' as ->).
      cbn [mbind option_bind]. by rewrite Hw, He, He'.
Qed.

(** A parse that succeeds does so with more fuel, too. *)
Lemma parse_mono fuel :
  (∀ s x fuel', parse_value fuel s = Some x → fuel ≤ fuel' → parse_value fuel' s = Some x) ∧
  (∀ s x fuel', parse_elems fuel s = Some x → fuel ≤ fuel' → parse_elems fuel' s = Some x) ∧
  (∀ s x fuel', parse_members fuel s = Some x → fuel ≤ fuel' → parse_members fuel' s = Some x).
Proof.
  induction fuel as [|fuel (IHv & IHe & IHm)]; [done|].
  split_and!; intros s x [|fuel'] H Hle; try lia.
  - cbn [parse_value] in *. destruct (skip_ws s) as [|c r]; [done|].
    destruct (Ascii.eqb c "{").
    { destruct (skip_ws r) as [|d r']; [done|]. destruct (Ascii.eqb d "}"); [done|].
      destruct (parse_members fuel r) as [y|] eqn:Hm; [|done].
      by rewrite (IHm r y fuel') by (done || lia). }
    destruct (Ascii.eqb c "["); [|done].
    destruct (skip_ws r) as [|d r']; [done|]. destruct (Ascii.eqb d "]"); [done|].
    destruct (parse_elems fuel r) as [y|] eqn:Hm; [|done].
    by rewrite (IHe r y fuel') by (done || lia).
  - cbn [parse_elems] in *. destruct (parse_value fuel s) as [y|] eqn:Hv; [|done].
    rewrite (IHv s y fuel') by (done || lia). cbn [mbind option_bind] in *.
    destruct y as [v k]. destruct (skip_ws k) as [|d r]; [done|].
    destruct (Ascii.eqb d ","); [|done].
    destruct (parse_elems fuel r) as [z|] eqn:Hl; [|done].
    by rewrite (IHe r z fuel') by (done || lia).
  - cbn [parse_members] in *. destruct (skip_ws s) as [|q r]; [done|].
    destruct (Ascii.eqb q dquote); [|done].
    destruct (scan_str r) as [[key r1]|]; [|done]. cbn [mbind option_bind] in *.
    destruct (skip_ws r1) as [|d r2]; [done|]. destruct (Ascii.eqb d ":"); [|done].
    destruct (parse_value fuel r2) as [y|] eqn:Hv; [|done].
    rewrite (IHv r2 y fuel') by (done || lia). cbn [mbind option_bind] in *.
    destruct y as [v k]. destruct (skip_ws k) as [|d' r3]; [done|].
    destruct (Ascii.eqb d' ","); [|done].
    destruct (parse_members fuel r3) as [z|] eqn:Hl; [|done].
    by rewrite (IHm r3 z fuel') by (done || lia).
Qed.

(** The bytes of a value inside a text are a document by themselves. *)
Lemma parse_raw fuel r v k :
  parse_value fuel r = Some (v, k) → (json_depth v ≤ 10000)%N →
  parse (stake (String.length r - String.length k) r) = Some v.
Proof.
  intros H Hd. apply (proj1 (parse_local fuel)) in H as (t & -> & Ht).
  rewrite length_sapp, Nat.add_sub, stake_app. specialize (Ht EmptyString I).
  rewrite sapp_nil_r in Ht. unfold parse, decode_first.
  assert (parse_value (json_fuel t) t = Some (v, EmptyString)) as ->.
  { rewrite <- (parse_value_fuel (json_fuel t + fuel)) by lia.
    apply (proj1 (parse_mono fuel) _ _ _ Ht). lia. }
  cbn [mbind option_bind]. apply N.leb_le in Hd. by rewrite Hd.
Qed.

(** [members_raw] reads the members [parse_members] reads. *)
Lemma members_raw_parse fuel s l k :
  parse_members fuel s = Some (l, k) →
  Forall (λ kv, (json_depth kv.2 ≤ 10000)%N) l →
  ∃ raws, members_raw fuel s = Some (raws, k) ∧
    Forall2 (λ r kv, r.1 = kv.1 ∧ parse r.2 = Some kv.2) raws l.
Proof.
  revert s l k. induction fuel as [|fuel IH]; intros s l k H Hd; [done|].
  cbn [parse_members members_raw] in *. destruct (skip_ws s) as [|q r]; [done|].
  destruct (Ascii.eqb q dquote); [|done].
  destruct (scan_str r) as [[key r1]|]; [|done]. cbn [mbind option_bind] in *.
  destruct (skip_ws r1) as [|d r2]; [done|]. destruct (Ascii.eqb d ":"); [|done]. cbv zeta.
  destruct (parse_value fuel r2) as [[v k1]|] eqn:Hv; [|done]. cbn [mbind option_bind] in *.
  assert (parse_value fuel (skip_ws r2) = Some (v, k1)) as Hv'.
  { destruct fuel as [|f]; [done|]. cbn [parse_value] in *. by rewrite skip_ws_idem. }
  rewrite Hv'. cbn [mbind option_bind].
  destruct (skip_ws k1) as [|e r3]; [done|].
  destruct (Ascii.eqb e ","); [|destruct (Ascii.eqb e "}"); [|done]].
  - destruct (parse_members fuel r3) as [[l' k']|] eqn:Hl; [|done]. cbn in H. simplify_eq.
    apply Forall_cons in Hd as [Hdv Hd]. destruct (IH _ _ _ Hl Hd) as (raws & -> & Hall).
    eexists. split; [done|]. constructor; [|done]. split; [done|].
    by apply (parse_raw fuel).
  - simplify_eq. apply Forall_cons in Hd as [Hdv _]. eexists. split; [done|].
    constructor; [|constructor]. split; [done|]. by apply (parse_raw fuel).
Qed.

Lemma json_depth_members l : (json_depth (JObj l) ≤ 10000)%N →
  Forall (λ kv, (json_depth kv.2 ≤ 9999)%N) l.
Proof.
  cbn [json_depth]. intros H.
  assert (∀ n, (foldr (λ kv n, N.max (json_depth kv.2) n) 0 l ≤ n)%N →
    Forall (λ kv : string * json, (json_depth kv.2 ≤ n)%N) l) as Hl.
  { intros n. clear H. induction l as [|kv l IH]; cbn; [constructor|].
    intros Hn. constructor; [lia|]. apply IH. lia. }
  apply Hl. lia.
Qed.

(** The raw members of an object are its members, each a document. *)
Lemma raw_members_parse s l : parse s = Some (JObj l) →
  ∃ raws, raw_members s = Some raws ∧
    Forall2 (λ r kv, r.1 = kv.1 ∧ parse r.2 = Some kv.2) raws l.
Proof.
  intros H. apply parse_ok in H as Hok. destruct Hok as [_ Hd].
  unfold raw_members. rewrite H. destruct l as [|kv l]; [by exists []|].
  unfold parse, decode_first in H.
  destruct (parse_value (json_fuel s) s) as [[v k]|] eqn:Hv; [|done].
  cbn [mbind option_bind] in H. destruct (json_depth v <=? 10000)%N; [|done].
  cbn [mbind option_bind] in H. destruct (is_empty (skip_ws k)); [|done].
  injection H as ->.
  unfold json_fuel in Hv. rewrite Nat.add_comm in Hv. cbn [Nat.add parse_value] in Hv.
  destruct (skip_ws s) as [|c r]; [done|].
  destruct (Ascii.eqb c "{").
  2: { exfalso. repeat case_match; try done;
       match type of Hv with (?m ≫= _) = _ => destruct m as [[? ?]|]; cbn in Hv; congruence end. }
  destruct (skip_ws r) as [|d r']; [done|]. destruct (Ascii.eqb d "}"); [done|].
  destruct (parse_members _ r) as [[l' k']|] eqn:Hm; [|done]. cbn in Hv. simplify_eq.
  apply (proj2 (proj2 (parse_mono _)) _ _ (json_fuel s)) in Hm; [|unfold json_fuel; lia].
  destruct (members_raw_parse _ _ _ _ Hm) as (raws & -> & Hall).
  - eapply Forall_impl; [by apply json_depth_members|]. cbn. lia.
  - by exists raws.
Qed.

(** The raw bytes of an object start and end with its braces. *)
Lemma parse_members_brace fuel s l k : parse_members fuel s = Some (l, k) →
  ∃ t, s = t +:+ String "}" k.
Proof.
  revert s l k. induction fuel as [|fuel IH]; intros s l k H; [done|].
  cbn [parse_members] in H. destruct (skip_ws s) as [|q r] eqn:Hs; [done|].
  destruct (skip_ws_string _ _ _ Hs) as (w0 & -> & _).
  destruct (Ascii.eqb q dquote); [|done].
  destruct (scan_str r) as [[key r1]|] eqn:Hr; [|done]. cbn [mbind option_bind] in H.
  destruct (scan_str_local _ _ _ Hr) as (t0 & -> & _).
  destruct (skip_ws r1) as [|d r2] eqn:Hr1; [done|].
  destruct (skip_ws_string _ _ _ Hr1) as (w1 & -> & _).
  destruct (Ascii.eqb d ":"); [|done].
  destruct (parse_value fuel r2) as [[v k1]|] eqn:Hv; [|done]. cbn [mbind option_bind] in H.
  apply (proj1 (parse_local _)) in Hv as (t1 & -> & _).
  destruct (skip_ws k1) as [|e r3] eqn:Hk1; [done|].
  destruct (skip_ws_string _ _ _ Hk1) as (w & -> & _).
  destruct (Ascii.eqb e ","); [|destruct (Ascii.eqb_spec e "}") as [->|]; [|done]].
  - destruct (parse_members fuel r3) as [[l' k']|] eqn:Hl; [|done]. cbn in H. simplify_eq.
    apply IH in Hl as (t & ->).
    exists (w0 +:+ String q (t0 +:+ w1 +:+ String d (t1 +:+ w +:+ String e t))). by str_norm.
  - simplify_eq. exists (w0 +:+ String q (t0 +:+ w1 +:+ String d (t1 +:+ w))). by str_norm.
Qed.

(** Every raw member that is an object is braces around something. *)
Definition braced (raw : string) : Prop := ∃ m, raw = String "{" (m +:+ one "}").

Lemma raw_object fuel r l k : parse_value fuel r = Some (JObj l, k) → skip_ws r = r →
  braced (stake (String.length r - String.length k) r).
Proof.
  intros H Hws. apply (proj1 (parse_local fuel)) in H as Ht. destruct Ht as (t & -> & Ht).
  rewrite length_sapp, Nat.add_sub, stake_app.
  specialize (Ht EmptyString I). rewrite sapp_nil_r in Ht.
  destruct fuel as [|fuel]; [done|]. clear H. cbn [parse_value] in Ht.
  assert (skip_ws t = t) as Hwt.
  { destruct t as [|c t]; [done|]. rewrite sapp_cons in Hws. cbn [skip_ws] in *.
    destruct (is_space c); [|done]. apply (f_equal String.length) in Hws.
    pose proof (skip_ws_length (t +:+ k)). cbn in Hws. lia. }
  rewrite Hwt in Ht. destruct t as [|c t]; [done|].
  destruct (Ascii.eqb_spec c "{") as [->|].
  - destruct (skip_ws t) as [|d r'] eqn:Hd; [done|].
    destruct (skip_ws_string _ _ _ Hd) as (w & -> & _).
    destruct (Ascii.eqb_spec d "}") as [->|]; [simplify_eq; by exists w|].
    destruct (parse_members fuel _) as [[l' k']|] eqn:Hm; [|done]. cbn in Ht. simplify_eq.
    apply parse_members_brace in Hm as [t' ->]. by exists t'.
  - exfalso. repeat case_match; try done;
      match type of Ht with (?m ≫= _) = _ => destruct m as [[? ?]|]; cbn in Ht; congruence end.
Qed.

Lemma members_raw_braced fuel s raws k : members_raw fuel s = Some (raws, k) →
  Forall (λ r, ∀ l, parse r.2 = Some (JObj l) → braced r.2) raws.
Proof.
  revert s raws k. induction fuel as [|fuel IH]; intros s raws k H; [done|].
  cbn [members_raw] in H. destruct (skip_ws s) as [|q r]; [done|].
  destruct (Ascii.eqb q dquote); [|done].
  destruct (scan_str r) as [[key r1]|]; [|done]. cbn [mbind option_bind] in H.
  destruct (skip_ws r1) as [|d r2]; [done|]. destruct (Ascii.eqb d ":"); [|done]. cbv zeta in H.
  destruct (parse_value fuel (skip_ws r2)) as [[v k1]|] eqn:Hv; [|done].
  cbn [mbind option_bind] in H.
  assert (Hb : ∀ l, parse (stake (String.length (skip_ws r2) - String.length k1) (skip_ws r2))
      = Some (JObj l) → braced (stake (String.length (skip_ws r2) - String.length k1)
                                  (skip_ws r2))).
  { intros l Hl. destruct (json_depth v <=? 10000)%N eqn:Hd.
    - apply N.leb_le in Hd. rewrite (parse_raw fuel _ v) in Hl by done. simplify_eq.
      eapply raw_object; [done|]. apply skip_ws_idem.
    - exfalso. pose proof Hv as Hv'. apply (proj1 (parse_local fuel)) in Hv' as (t & Ht & Hp).
      rewrite Ht, length_sapp, Nat.add_sub, stake_app in Hl. specialize (Hp EmptyString I).
      rewrite sapp_nil_r in Hp. unfold parse, decode_first in Hl.
      destruct (parse_value (json_fuel t) t) as [[u k2]|] eqn:Hu; [|done].
      cbn [mbind option_bind] in Hl. destruct (json_depth u <=? 10000)%N eqn:Hdu; [|done].
      apply (proj1 (parse_mono _) _ _ (json_fuel t + fuel)) in Hu; [|lia].
      apply (proj1 (parse_mono _) _ _ (json_fuel t + fuel)) in Hp; [|lia].
      rewrite Hu in Hp. simplify_eq. congruence. }
  destruct (skip_ws k1) as [|e r3]; [done|].
  destruct (Ascii.eqb e ","); [|destruct (Ascii.eqb e "}"); [|done]].
  - destruct (members_raw fuel r3) as [[l' k']|] eqn:Hl; [|done]. cbn in H. simplify_eq.
    constructor; [done|]. by eapply IH.
  - simplify_eq. by constructor.
Qed.

Lemma raw_members_braced s raws : raw_members s = Some raws →
  Forall (λ r, ∀ l, parse r.2 = Some (JObj l) → braced r.2) raws.
Proof.
  unfold raw_members. destruct (parse s) as [[| | | | |[|kv l]]|]; try done.
  - intros [= <-]. constructor.
  - destruct (skip_ws s) as [|c r]; [done|].
    destruct (members_raw _ r) as [[l' k]|] eqn:H; [|done]. intros [= <-].
    by eapply members_raw_braced.
Qed.

(** A document without white space in front starts with a solid byte, and with a
    brace only when it is an object. *)
Lemma parse_front c t v : parse (String c t) = Some v → is_space c = false →
  solid_front c = true ∧ (c = "{"%char → ∃ l, v = JObj l).
Proof.
  unfold parse, decode_first. intros H Hc.
  destruct (parse_value (json_fuel (String c t)) (String c t)) as [[u k]|] eqn:Hv; [|done].
  cbn [mbind option_bind] in H. destruct (json_depth u <=? 10000)%N; [|done].
  cbn [mbind option_bind] in H. destruct (is_empty _); [|done]. injection H as ->.
  unfold json_fuel in Hv. rewrite Nat.add_comm in Hv. cbn [Nat.add parse_value] in Hv.
  rewrite skip_ws_stop in Hv by done.
  destruct (Ascii.eqb_spec c "{") as [->|Hb].
  { split; [done|]. intros _. destruct (skip_ws t) as [|d r']; [done|].
    destruct (Ascii.eqb d "}"); [simplify_eq; eauto|].
    destruct (parse_members _ t) as [[? ?]|]; cbn in Hv; simplify_eq; eauto. }
  split; [|done].
  destruct (Ascii.eqb_spec c "[") as [->|]; [done|].
  destruct (Ascii.eqb_spec c dquote) as [->|]; [done|].
  destruct (Ascii.eqb_spec c "n") as [->|]; [done|].
  destruct (Ascii.eqb_spec c "t") as [->|]; [done|].
  destruct (Ascii.eqb_spec c "f") as [->|]; [done|].
  destruct (scan_num (String c t)) as [x|] eqn:Hn; [|done].
  apply scan_num_head in Hn. clear -Hn.
  byte_cases c;
    first [done | by destruct Hn as [Hn|Hn]; vm_compute in Hn].
Qed.

Lemma members_raw_front fuel s raws k : members_raw fuel s = Some (raws, k) →
  Forall (λ r, skip_ws r.2 = r.2) raws.
Proof.
  revert s raws k. induction fuel as [|fuel IH]; intros s raws k H; [done|].
  cbn [members_raw] in H. destruct (skip_ws s) as [|q r]; [done|].
  destruct (Ascii.eqb q dquote); [|done].
  destruct (scan_str r) as [[key r1]|]; [|done]. cbn [mbind option_bind] in H.
  destruct (skip_ws r1) as [|d r2]; [done|]. destruct (Ascii.eqb d ":"); [|done]. cbv zeta in H.
  destruct (parse_value fuel (skip_ws r2)) as [[v k1]|] eqn:Hv; [|done].
  cbn [mbind option_bind] in H.
  assert (Hb : skip_ws (stake (String.length (skip_ws r2) - String.length k1) (skip_ws r2))
    = stake (String.length (skip_ws r2) - String.length k1) (skip_ws r2)).
  { destruct (skip_ws r2) as [|c t] eqn:Hr; [done|].
    destruct (_ - _) as [|n]; [done|]. cbn [stake]. by eapply skip_ws_stop, skip_ws_head. }
  destruct (skip_ws k1) as [|e r3]; [done|].
  destruct (Ascii.eqb e ","); [|destruct (Ascii.eqb e "}"); [|done]].
  - destruct (members_raw fuel r3) as [[l' k']|] eqn:Hl; [|done]. cbn in H. simplify_eq.
    constructor; [done|]. by eapply IH.
  - simplify_eq. by constructor.
Qed.

Lemma raw_members_front s raws : raw_members s = Some raws →
  Forall (λ r, skip_ws r.2 = r.2) raws.
Proof.
  unfold raw_members. destruct (parse s) as [[| | | | |[|kv l]]|]; try done.
  - intros [= <-]. constructor.
  - destruct (skip_ws s) as [|c r]; [done|].
    destruct (members_raw _ r) as [[l' k]|] eqn:H; [|done]. intros [= <-].
    by eapply members_raw_front.
Qed.

(** A raw member that starts with a brace after trimming is an object, and the
    trimming changes nothing. *)
Lemma raw_member_object raw v :
  parse raw = Some v → skip_ws raw = raw → HasPrefix (TrimSpace raw) "{" = true →
  (∀ l, v = JObj l → braced raw) →
  ∃ l, v = JObj l ∧ TrimSpace raw = raw.
Proof.
  intros Hp Hws Hb Hbr. destruct raw as [|c t]; [done|].
  pose proof (skip_ws_head _ _ _ Hws) as Hc.
  destruct (parse_front c t v Hp Hc) as [Hsol Hobj].
  pose proof (TrimSpace_prefix c t Hsol) as Hpre.
  assert (c = "{"%char) as ->.
  { pose proof (HasPrefix_trans _ _ _ Hpre Hb) as H.
    apply HasPrefix_spec in H as [r Hr]. rewrite sapp_cons in Hr. congruence. }
  destruct (Hobj eq_refl) as [l ->]. exists l. split; [done|].
  destruct (Hbr l eq_refl) as [m Hm]. rewrite Hm. by apply TrimSpace_solid.
Qed.
