(* ===== verification/GoTime.v ===== *)
(** * time: RFC 3339 and the timestamps of a form

    [time.Parse] of the layouts [RFC3339] and "2006-01-02 15:04:05", [Format] of
    [RFC3339Nano] and of the latter, and the two directions of encoding/json.  A [Time]
    is kept as its civil fields and its offset in seconds: every use formats it in the
    zone it was parsed in. *)

From S2P Require Import Prelude.
From S2P Require Import GoStrings.
From S2P Require Import GoJson.

Record Time := mkTime {
  year : Z; month : Z; day : Z; hour : Z; minute : Z; sec : Z; nsec : Z; offset : Z
}.

#[global] Instance Time_eq_dec : EqDecision Time.
Proof. solve_decision. Defined.

(** ** Calendar *)

Definition is_leap (y : Z) : bool :=
  ((y mod 4 =? 0) && (negb (y mod 100 =? 0) || (y mod 400 =? 0)))%Z.

Definition daysIn (m y : Z) : Z :=
  if (m =? 2)%Z then (if is_leap y then 29 else 28)%Z
  else if bool_decide (m ∈ [4; 6; 9; 11]%Z) then 30%Z else 31%Z.

(** ** Parsing *)

(** [getnum(s, true)]: two digits. *)
Definition getnum2 (s : string) : option (Z * string) :=
  match s with
  | String a (String b r) => x ← digit_of a; y ← digit_of b; Some ((10 * x + y)%Z, r)
  | _ => None
  end.

(** [getnum(s, false)]: one digit, or two. *)
Definition getnum1 (s : string) : option (Z * string) :=
  match s with
  | String a r =>
      x ← digit_of a;
      match r with
      | String b r' => match digit_of b with
                       | Some y => Some ((10 * x + y)%Z, r')
                       | None => Some (x, r)
                       end
      | EmptyString => Some (x, r)
      end
  | EmptyString => None
  end.

(** Four digits of a year. *)
Definition getyear (s : string) : option (Z * string) :=
  '(a, r) ← getnum2 s; '(b, r) ← getnum2 r; Some ((100 * a + b)%Z, r).

Definition literal (c : ascii) (s : string) : option string :=
  match s with String d r => if Ascii.eqb c d then Some r else None | EmptyString => None end.

Fixpoint cutspace (s : string) : string :=
  match s with String c r => if Ascii.eqb c " " then cutspace r else s | EmptyString => s end.

(** A space of a layout takes any number of them, and none at the end of the text. *)
Definition literal_space (s : string) : option string :=
  match s with
  | String c _ => if Ascii.eqb c " " then Some (cutspace s) else None
  | EmptyString => Some s
  end.

Definition within (lo hi : Z) (x : Z * string) : option (Z * string) :=
  if ((lo <=? x.1) && (x.1 <=? hi))%Z then Some x else None.

(** Nanoseconds of the digits of a fraction: the first nine of them. *)
Fixpoint frac_val (k : nat) (s : string) : Z :=
  match k, s with
  | S k, String c r => (default 0 (digit_of c) * 10 ^ Z.of_nat k + frac_val k r)%Z
  | _, _ => 0%Z
  end.

(** The fraction after the seconds, when there is one. *)
Definition getfrac (s : string) : Z * string :=
  match s with
  | String c r =>
      if Ascii.eqb c "." || Ascii.eqb c "," then
        let '(d, t) := span_digits r in if is_empty d then (0%Z, s) else (frac_val 9 d, t)
      else (0%Z, s)
  | EmptyString => (0%Z, s)
  end.

(** Z07:00: the offset in seconds. *)
Definition getzone (s : string) : option (Z * string) :=
  match s with
  | String c r =>
      if Ascii.eqb c "Z" then Some (0%Z, r)
      else
        '(hr, r) ← getnum2 r; r ← literal ":" r; '(mm, r) ← getnum2 r;
        if ((hr <=? 24) && (mm <=? 60))%Z then
          let o := ((hr * 60 + mm) * 60)%Z in
          if Ascii.eqb c "+" then Some (o, r) else if Ascii.eqb c "-" then Some ((- o)%Z, r) else None
        else None
  | EmptyString => None
  end.

(** The date and the time of day, [sep] between them. *)
Definition getcivil (sep : string → option string) (s : string) : option (Time * string) :=
  '(y, s) ← getyear s; s ← literal "-" s;
  '(mo, s) ← getnum2 s ≫= within 1 12; s ← literal "-" s;
  '(d, s) ← getnum2 s; s ← sep s;
  '(h, s) ← getnum1 s ≫= within 0 23; s ← literal ":" s;
  '(mi, s) ← getnum2 s ≫= within 0 59; s ← literal ":" s;
  '(se, s) ← getnum2 s ≫= within 0 59;
  let '(ns, s) := getfrac s in
  if ((1 <=? d) && (d <=? daysIn mo y))%Z then Some (mkTime y mo d h mi se ns 0, s) else None.

Definition in_zone (t : Time) (o : Z) : Time :=
  mkTime (year t) (month t) (day t) (hour t) (minute t) (sec t) (nsec t) o.

(** [time.Parse(time.RFC3339, s)]; [None] for its error. *)
Definition ParseRFC3339 (s : string) : option Time :=
  '(t, s) ← getcivil (literal "T") s;
  '(o, s) ← getzone s;
  if is_empty s then Some (in_zone t o) else None.

(** [time.Parse("2006-01-02 15:04:05", s)] *)
Definition ParseDateTime (s : string) : option Time :=
  '(t, s) ← getcivil literal_space s; if is_empty s then Some t else None.

(** ** Formatting *)

Definition digit (z : Z) : ascii := ascii_of_N (Z.to_N (48 + z)).
Definition dig2 (z : Z) : string := String (digit (z / 10)) (one (digit (z mod 10))).
Definition dig4 (z : Z) : string := dig2 (z / 100) +:+ dig2 (z mod 100).

Fixpoint frac_digits (k : nat) (z : Z) : string :=
  match k with
  | O => EmptyString
  | S k => String (digit (z / 10 ^ Z.of_nat k)) (frac_digits k (z mod 10 ^ Z.of_nat k))
  end.

Fixpoint trim_zeros (s : string) : string :=
  match s with
  | EmptyString => EmptyString
  | String c r =>
      let r' := trim_zeros r in if Ascii.eqb c "0" && is_empty r' then EmptyString else String c r'
  end.

Definition date_text (t : Time) : string :=
  dig4 (year t) +:+ "-" +:+ dig2 (month t) +:+ "-" +:+ dig2 (day t).
Definition clock_text (t : Time) : string :=
  dig2 (hour t) +:+ ":" +:+ dig2 (minute t) +:+ ":" +:+ dig2 (sec t).
Definition frac_text (n : Z) : string :=
  let d := trim_zeros (frac_digits 9 n) in if is_empty d then EmptyString else "." +:+ d.
Definition zone_text (o : Z) : string :=
  if (o =? 0)%Z then "Z"
  else let z := (Z.abs o / 60)%Z in
       (if (o <? 0)%Z then "-" else "+") +:+ dig2 (z / 60) +:+ ":" +:+ dig2 (z mod 60).

(** [t.Format(time.RFC3339Nano)] *)
Definition FormatNano (t : Time) : string :=
  date_text t +:+ "T" +:+ clock_text t +:+ frac_text (nsec t) +:+ zone_text (offset t).

(** [t.Format("2006-01-02 15:04:05")] *)
Definition FormatDateTime (t : Time) : string := date_text t +:+ " " +:+ clock_text t.

(** [json.Marshal(t)]: an offset of a day or more is refused; [None] for the error. *)
Definition marshal_time (t : Time) : option string :=
  if (Z.abs (offset t) <? 86400)%Z then Some (FormatNano t) else None.

(** The character [n] of a text. *)
Fixpoint char_at (n : nat) (s : string) : option ascii :=
  match n, s with
  | O, String c _ => Some c
  | S n, String _ r => char_at n r
  | _, EmptyString => None
  end.

(** [json.Unmarshal] of a string's content into a Time: what Parse takes and RFC 3339
    does not is refused. *)
Definition unmarshal_time (s : string) : option Time :=
  t ← ParseRFC3339 s;
  let zone := sdrop (String.length s - 5) s in
  if bool_decide (char_at 12 s = Some ":"%char) || bool_decide (char_at 19 s = Some ","%char) then None
  else if HasSuffix s "Z" then Some t
  else match getnum2 zone, getnum2 (sdrop 3 zone) with
       | Some (h, _), Some (m, _) => if ((24 <=? h) || (60 <=? m))%Z then None else Some t
       | _, _ => None
       end.

(** The [IsTimestamp] of a form: RFC 3339, or the other layout as it is written. *)
Definition IsTimestamp (s : string) : bool :=
  match ParseRFC3339 s with
  | Some _ => true
  | None => match ParseDateTime s with Some t => String.eqb (FormatDateTime t) s | None => false end
  end.

(** ** Lemmas *)

Lemma digit_of_digit d : (0 <= d < 10)%Z → digit_of (digit d) = Some d ∧ is_digit (digit d) = true.
Proof.
  intros Hd. assert (d = 0 ∨ d = 1 ∨ d = 2 ∨ d = 3 ∨ d = 4 ∨ d = 5 ∨ d = 6 ∨ d = 7 ∨ d = 8 ∨ d = 9)%Z
    as Hc by lia.
  repeat destruct Hc as [->|Hc]; try (by split; vm_compute). subst d. by split; vm_compute.
Qed.

Lemma dig2_app z r : dig2 z +:+ r = String (digit (z / 10)) (String (digit (z mod 10)) r).
Proof. done. Qed.

Lemma dig2_range z : (0 <= z < 100)%Z → (0 <= z / 10 < 10)%Z ∧ (0 <= z mod 10 < 10)%Z.
Proof.
  intros Hz. split; [|apply Z.mod_pos_bound; lia].
  split; [apply Z.div_pos; lia|apply Z.div_lt_upper_bound; lia].
Qed.

Lemma getnum2_dig2 z r : (0 <= z < 100)%Z → getnum2 (dig2 z +:+ r) = Some (z, r).
Proof.
  intros Hz. destruct (dig2_range z Hz) as [H1 H2]. rewrite dig2_app. cbn [getnum2].
  rewrite (proj1 (digit_of_digit _ H1)), (proj1 (digit_of_digit _ H2)). cbn [mbind option_bind].
  by rewrite <- Z.div_mod by lia.
Qed.

Lemma getnum1_dig2 z r : (0 <= z < 100)%Z → getnum1 (dig2 z +:+ r) = Some (z, r).
Proof.
  intros Hz. destruct (dig2_range z Hz) as [H1 H2]. rewrite dig2_app. cbn [getnum1].
  rewrite (proj1 (digit_of_digit _ H1)), (proj1 (digit_of_digit _ H2)). cbn [mbind option_bind].
  by rewrite <- Z.div_mod by lia.
Qed.

Lemma getyear_dig4 z r : (0 <= z <= 9999)%Z → getyear (dig4 z +:+ r) = Some (z, r).
Proof.
  intros Hz. unfold getyear, dig4. rewrite sapp_assoc.
  assert (0 <= z / 100 < 100)%Z by (split; [apply Z.div_pos; lia|apply Z.div_lt_upper_bound; lia]).
  pose proof (Z.mod_pos_bound z 100 ltac:(lia)).
  rewrite getnum2_dig2 by lia. cbn [mbind option_bind]. rewrite getnum2_dig2 by lia. cbn [mbind option_bind].
  by rewrite <- Z.div_mod by lia.
Qed.

Lemma within_ok lo hi z r : (lo <= z <= hi)%Z → within lo hi (z, r) = Some (z, r).
Proof. intros Hz. unfold within. cbn. by rewrite !(proj2 (Z.leb_le _ _)) by lia. Qed.

Lemma frac_trim k s : frac_val k (trim_zeros s) = frac_val k s.
Proof.
  revert k. induction s as [|c s IH]; intros [|k]; try done; cbn [trim_zeros].
  destruct (_ && _) eqn:H.
  - apply andb_true_iff in H as [Hc He]. apply Ascii.eqb_eq in Hc as ->.
    destruct (trim_zeros s) eqn:Ht; [|done]. cbn [frac_val]. rewrite <- IH. by destruct k.
  - cbn [frac_val]. by rewrite IH.
Qed.

Lemma frac_val_digits k z : (0 <= z < 10 ^ Z.of_nat k)%Z → frac_val k (frac_digits k z) = z.
Proof.
  revert z. induction k as [|k IH]; intros z Hz; [cbn in *; lia|]. cbn [frac_digits frac_val].
  rewrite Nat2Z.inj_succ, Z.pow_succ_r in Hz by lia.
  assert (0 < 10 ^ Z.of_nat k)%Z by (apply Z.pow_pos_nonneg; lia).
  assert (0 <= z / 10 ^ Z.of_nat k < 10)%Z
    by (split; [apply Z.div_pos; lia|apply Z.div_lt_upper_bound; lia]).
  rewrite (proj1 (digit_of_digit _ H0)). cbn [default]. rewrite IH by (apply Z.mod_pos_bound; lia).
  rewrite (Z.div_mod z (10 ^ Z.of_nat k)) at 3 by lia. cbn. lia.
Qed.

Lemma frac_digits_all k z : (0 <= z < 10 ^ Z.of_nat k)%Z → sforall is_digit (frac_digits k z) = true.
Proof.
  revert z. induction k as [|k IH]; intros z Hz; [done|]. cbn [frac_digits sforall].
  rewrite Nat2Z.inj_succ, Z.pow_succ_r in Hz by lia.
  assert (0 < 10 ^ Z.of_nat k)%Z by (apply Z.pow_pos_nonneg; lia).
  assert (0 <= z / 10 ^ Z.of_nat k < 10)%Z
    by (split; [apply Z.div_pos; lia|apply Z.div_lt_upper_bound; lia]).
  rewrite (proj2 (digit_of_digit _ H0)), IH; [done|]. apply Z.mod_pos_bound; lia.
Qed.

Lemma trim_zeros_all p s : sforall p s = true → sforall p (trim_zeros s) = true.
Proof.
  induction s as [|c s IH]; [done|]. cbn [sforall trim_zeros]. intros H. apply andb_true_iff in H as [Hc Hs].
  destruct (_ && is_empty _); [done|]. cbn [sforall]. by rewrite Hc, IH.
Qed.

(** What follows a fraction: no digit, no mark. *)
Definition stops (s : string) : bool :=
  match s with String c _ => negb (is_digit c) && negb (Ascii.eqb c ".") && negb (Ascii.eqb c ",") | _ => true end.

Lemma span_digits_front d r : sforall is_digit d = true → stops r = true → span_digits (d +:+ r) = (d, r).
Proof.
  intros Hd Hr. induction d as [|c d IH].
  - destruct r as [|c r]; [done|]. rewrite sapp_nil_l. cbn [stops span_digits] in *.
    by destruct (is_digit c).
  - cbn [sforall] in Hd. apply andb_true_iff in Hd as [Hc Hd].
    change (String c d +:+ r) with (String c (d +:+ r)). cbn [span_digits]. by rewrite Hc, IH.
Qed.

Lemma getfrac_text n r : (0 <= n < 10 ^ 9)%Z → stops r = true → getfrac (frac_text n +:+ r) = (n, r).
Proof.
  intros Hn Hr. unfold frac_text. pose proof (frac_val_digits 9 n Hn) as Hv. rewrite <- frac_trim in Hv.
  pose proof (trim_zeros_all _ _ (frac_digits_all 9 n Hn)) as Hall.
  destruct (trim_zeros (frac_digits 9 n)) as [|c d] eqn:Ht; cbn [is_empty].
  - cbn in Hv. subst n. destruct r as [|c r]; [done|]. rewrite sapp_nil_l. cbn [stops getfrac] in *.
    destruct (Ascii.eqb c "."), (Ascii.eqb c ","); cbn [negb orb andb] in *; try done;
      by rewrite ?andb_false_r in Hr.
  - rewrite <- Ht in *. change ("." +:+ trim_zeros (frac_digits 9 n)) with (String "." (trim_zeros (frac_digits 9 n))).
    rewrite sapp_cons. cbn [getfrac]. rewrite span_digits_front by done.
    rewrite Ht at 1. by rewrite Hv.
Qed.

(** A time RFC 3339 can write. *)
Definition valid_time (t : Time) : Prop :=
  (0 <= year t <= 9999 ∧ 1 <= month t <= 12 ∧ 1 <= day t <= daysIn (month t) (year t) ∧
   0 <= hour t <= 23 ∧ 0 <= minute t <= 59 ∧ 0 <= sec t <= 59 ∧ 0 <= nsec t < 10 ^ 9 ∧
   offset t mod 60 = 0 ∧ Z.abs (offset t) < 86400)%Z.

Lemma daysIn_le m y : (daysIn m y <= 31)%Z.
Proof. unfold daysIn. repeat case_match; lia. Qed.

Lemma literal_app c r : literal c (one c +:+ r) = Some r.
Proof. change (one c +:+ r) with (String c r). cbn [literal]. by rewrite Ascii.eqb_refl. Qed.

Lemma getzone_text o : (o mod 60 = 0)%Z → (Z.abs o < 86400)%Z →
  getzone (zone_text o) = Some (o, EmptyString) ∧ stops (zone_text o) = true.
Proof.
  intros Hm Ha. unfold zone_text. destruct (Z.eqb_spec o 0) as [->|Hne]; [done|].
  set (z := (Z.abs o / 60)%Z).
  assert (Hz : (Z.abs o = 60 * z)%Z).
  { unfold z. pose proof (Z.div_mod (Z.abs o) 60 ltac:(lia)).
    assert (Z.abs o mod 60 = 0)%Z; [|lia]. apply Z.mod_divide; [lia|]. apply Z.divide_abs_r, Z.mod_divide; lia. }
  assert (0 <= z < 1440)%Z by lia.
  assert (Hh : (0 <= z / 60 < 24)%Z) by (split; [apply Z.div_pos; lia|apply Z.div_lt_upper_bound; lia]).
  pose proof (Z.mod_pos_bound z 60 ltac:(lia)) as Hmm.
  assert (Hget : ∀ c, Ascii.eqb c "Z" = false → getzone (String c (dig2 (z / 60) +:+ ":" +:+ dig2 (z mod 60))) =
    (if Ascii.eqb c "+" then Some (60 * z, EmptyString)
     else if Ascii.eqb c "-" then Some (- (60 * z), EmptyString) else None)%Z).
  { intros c Hc. cbn [getzone]. rewrite Hc, getnum2_dig2 by lia. cbn [mbind option_bind literal].
    change (":" +:+ dig2 (z mod 60)) with (one ":" +:+ dig2 (z mod 60)). rewrite literal_app. cbn [mbind option_bind].
    rewrite <- (sapp_nil_r (dig2 (z mod 60))), getnum2_dig2 by lia. cbn [mbind option_bind].
    rewrite !(proj2 (Z.leb_le _ _)) by lia. cbn [andb].
    replace ((z / 60 * 60 + z mod 60) * 60)%Z with (60 * z)%Z; [done|].
    pose proof (Z.div_mod z 60 ltac:(lia)). lia. }
  destruct (Z.ltb_spec o 0); rewrite sapp_cons, sapp_nil_l, Hget by done; cbn [Ascii.eqb Bool.eqb];
    (split; [|done]); do 2 f_equal; lia.
Qed.

Lemma getcivil_text c sep t r :
  (∀ d s, is_digit d = true → sep (one c +:+ String d s) = Some (String d s)) →
  valid_time t → stops r = true →
  getcivil sep (date_text t +:+ one c +:+ clock_text t +:+ frac_text (nsec t) +:+ r) =
  Some (in_zone t 0, r).
Proof.
  intros Hsep (Hy & Hmo & Hd & Hh & Hmi & Hs & Hn & _) Hr. pose proof (daysIn_le (month t) (year t)).
  unfold getcivil, date_text, clock_text. rewrite !sapp_assoc, getyear_dig4 by lia.
  cbn [mbind option_bind]. change "-" with (one "-"). change ":" with (one ":").
  rewrite literal_app. cbn [mbind option_bind]. rewrite getnum2_dig2 by lia. cbn [mbind option_bind].
  rewrite within_ok by lia. cbn [mbind option_bind]. rewrite literal_app. cbn [mbind option_bind].
  rewrite getnum2_dig2 by lia. cbn [mbind option_bind].
  rewrite (dig2_app (hour t)), Hsep by (apply digit_of_digit, dig2_range; lia). rewrite <- dig2_app.
  cbn [mbind option_bind]. rewrite getnum1_dig2 by lia. cbn [mbind option_bind].
  rewrite within_ok by lia. cbn [mbind option_bind]. rewrite literal_app. cbn [mbind option_bind].
  rewrite getnum2_dig2 by lia. cbn [mbind option_bind]. rewrite within_ok by lia. cbn [mbind option_bind].
  rewrite literal_app. cbn [mbind option_bind]. rewrite getnum2_dig2 by lia. cbn [mbind option_bind].
  rewrite within_ok by lia. cbn [mbind option_bind]. rewrite getfrac_text by done.
  rewrite !(proj2 (Z.leb_le _ _)) by lia. done.
Qed.

(** The zone of a text that [unmarshal_time] looks at. *)
Lemma sdrop_last p q : String.length q = 5 → sdrop (String.length (p +:+ q) - 5) (p +:+ q) = q.
Proof.
  intros Hq. rewrite length_sapp, Hq, Nat.add_sub. apply sdrop_app.
Qed.

Lemma zone_strict o p : (o mod 60 = 0)%Z → (Z.abs o < 86400)%Z →
  let s := p +:+ zone_text o in
  HasSuffix s "Z" = true ∨
  ∃ h m r r', getnum2 (sdrop (String.length s - 5) s) = Some (h, r) ∧
    getnum2 (sdrop 3 (sdrop (String.length s - 5) s)) = Some (m, r') ∧ (h < 24 ∧ m < 60)%Z.
Proof.
  intros Hm Ha. cbv zeta. unfold zone_text. destruct (Z.eqb_spec o 0); [left; apply HasSuffix_spec; by eexists|].
  right. set (z := (Z.abs o / 60)%Z).
  assert (0 <= z < 1440)%Z by (unfold z; split; [apply Z.div_pos; lia|apply Z.div_lt_upper_bound; lia]).
  assert (Hh : (0 <= z / 60 < 24)%Z) by (split; [apply Z.div_pos; lia|apply Z.div_lt_upper_bound; lia]).
  pose proof (Z.mod_pos_bound z 60 ltac:(lia)) as Hmm.
  rewrite <- sapp_assoc, sdrop_last by done.
  exists (z / 60)%Z, (z mod 60)%Z. do 2 eexists. split; [apply getnum2_dig2; lia|].
  split; [|lia]. change (sdrop 3 (dig2 (z / 60) +:+ ":" +:+ dig2 (z mod 60))) with (dig2 (z mod 60)).
  rewrite <- (sapp_nil_r (dig2 (z mod 60))). apply getnum2_dig2. lia.
Qed.

(** What is written is read: a time RFC 3339 can write is formatted, with its
    fraction of a second trimmed, as a text that [time.Parse] and the decoder of
    encoding/json read as the same time, to the nanosecond and in its zone. *)
Lemma Format_Parse t : valid_time t →
  ParseRFC3339 (FormatNano t) = Some t ∧ marshal_time t = Some (FormatNano t) ∧
  unmarshal_time (FormatNano t) = Some t.
Proof.
  intros Ht. destruct (getzone_text (offset t)) as [Hz Hs]; [apply Ht..|].
  assert (Hp : ParseRFC3339 (FormatNano t) = Some t).
  { unfold ParseRFC3339, FormatNano. change "T" with (one "T").
    rewrite (getcivil_text "T"); [|intros d s _; apply literal_app|done|done].
    cbn [mbind option_bind]. rewrite Hz. cbn. by destruct t. }
  split_and!; [done| |].
  - unfold marshal_time. rewrite (proj2 (Z.ltb_lt _ _)); [done|apply Ht].
  - unfold unmarshal_time. rewrite Hp. cbn [mbind option_bind].
    assert (H12 : char_at 12 (FormatNano t) = Some (digit (hour t mod 10))) by done.
    assert (H19 : char_at 19 (FormatNano t) = char_at 0 (frac_text (nsec t) +:+ zone_text (offset t))) by done.
    rewrite H12, H19, !bool_decide_eq_false_2; cbn [orb].
    + unfold FormatNano. rewrite <- !sapp_assoc.
      destruct (zone_strict (offset t) ((((date_text t +:+ "T") +:+ clock_text t) +:+ frac_text (nsec t))))
        as [->|(h & m & r & r' & H1 & H2 & Hh & Hm)]; [apply Ht..|done|].
      rewrite H1, H2. destruct (HasSuffix _ "Z"); [done|].
      by rewrite !(proj2 (Z.leb_gt _ _)) by lia.
    + unfold frac_text, zone_text. destruct (is_empty _); [|done].
      destruct (offset t =? 0)%Z; [done|]. by destruct (offset t <? 0)%Z.
    + intros [= Hd]. destruct (digit_of_digit (hour t mod 10)) as [_ Hdg]; [apply Z.mod_pos_bound; lia|].
      by rewrite Hd in Hdg.
Qed.

Lemma Format_Parse_witness :
  ParseRFC3339 "2024-02-29T23:59:59.0000105-03:30" =
    Some (mkTime 2024 2 29 23 59 59 10500 (-12600)).
Proof. apply (Format_Parse (mkTime 2024 2 29 23 59 59 10500 (-12600))). repeat split; vm_compute; done. Defined.

(** What [time.Parse] takes and RFC 3339 does not: an hour of one digit, a comma, an
    offset of a day. *)
Lemma Parse_is_lenient :
  is_Some (ParseRFC3339 "2024-02-29T1:00:00,5+24:00") ∧ unmarshal_time "2024-02-29T1:00:00,5+24:00" = None.
Proof. split; vm_compute; [by eexists|done]. Qed.
