(* ===== verification/GoFloat.v ===== *)
(** * float64: the numbers encoding/json reads into an [any]

    A finite float64 is a sign and a mantissa times a power of two; a literal is rounded
    to the nearest, ties to even, as [strconv.ParseFloat] does; [FormatFloat(x, 'f', -1,
    64)] writes the shortest decimal that reads back.  The conversion to int64 is that of
    amd64, where a value out of range gives one that is not equal to it. *)

From S2P Require Import Prelude.
From S2P Require Import GoStrings.
From S2P Require Import GoJson.

Record float := mkFloat { neg : bool; mant : Z; expo : Z }.

(** ** Rounding *)

(** The power of two below a ratio: 2^k ≤ n/d < 2^(k+1). *)
Definition log2_ratio (n d : Z) : Z :=
  let k := (Z.log2 n - Z.log2 d)%Z in
  if (if (0 <=? k)%Z then (n <? d * 2 ^ k)%Z else (n * 2 ^ (- k) <? d)%Z) then (k - 1)%Z else k.

(** To the nearest integer, ties to even. *)
Definition round_div (n d : Z) : Z :=
  let q := (n / d)%Z in
  match Z.compare (2 * (n mod d)) d with
  | Lt => q
  | Gt => (q + 1)%Z
  | Eq => if Z.even q then q else (q + 1)%Z
  end.

(** A positive ratio as mantissa and exponent; [None] when it overflows. *)
Definition round_ratio (n d : Z) : option (Z * Z) :=
  let e := Z.max (log2_ratio n d - 52) (-1074) in
  let q := if (0 <=? e)%Z then round_div n (d * 2 ^ e) else round_div (n * 2 ^ (- e)) d in
  let '(m, e) := if (q =? 2 ^ 53)%Z then (2 ^ 52, e + 1)%Z else (q, e) in
  if (971 <? e)%Z then None else Some (m, e).

(** [d * 10^e] as a ratio. *)
Definition decimal_ratio (d e : Z) : Z * Z :=
  if (0 <=? e)%Z then (d * 10 ^ e, 1)%Z else (d, 10 ^ (- e))%Z.

(** ** Parsing *)

(** A literal: its sign, its digits as a number, its exponent of ten. *)
Definition parse_decimal (s : string) : option (bool * Z * Z) :=
  let '(sign, s) := match s with
                    | String c r => if Ascii.eqb c "-" then (true, r) else (false, s)
                    | EmptyString => (false, s)
                    end in
  let '(i, s) := span_digits s in
  let '(f, s) := match s with
                 | String c r => if Ascii.eqb c "." then span_digits r else (EmptyString, s)
                 | EmptyString => (EmptyString, s)
                 end in
  e ← match s with
      | EmptyString => Some 0%Z
      | String c r =>
          let '(sg, r) := match r with
                          | String g r' => if Ascii.eqb g "-" then (-1, r')%Z
                                           else if Ascii.eqb g "+" then (1, r')%Z else (1, r)%Z
                          | EmptyString => (1, r)%Z
                          end in
          v ← digits_val 0 r; Some (sg * v)%Z
      end;
  d ← digits_val 0 (i +:+ f);
  Some (sign, d, e - Z.of_nat (String.length f))%Z.

(** [strconv.ParseFloat(s, 64)] of a JSON number; [None] for its range error. *)
Definition ParseFloat (s : string) : option float :=
  '(sign, d, e) ← parse_decimal s;
  if (d =? 0)%Z then Some (mkFloat sign 0 0)
  else
    let size := (e + Z.of_nat (String.length (Itoa d)))%Z in
    if (400 <? size)%Z then None
    else if (size <? -400)%Z then Some (mkFloat sign 0 0)
    else let '(n, dn) := decimal_ratio d e in
         '(m, x) ← round_ratio n dn; Some (mkFloat sign m x).

(** ** Integers *)

(** [int64(f)] when it equals [f]. *)
Definition to_int64 (f : float) : option Z :=
  let sg (z : Z) := if neg f then (- z)%Z else z in
  let v := if (0 <=? expo f)%Z then Some (mant f * 2 ^ expo f)%Z
           else if (mant f mod 2 ^ (- expo f) =? 0)%Z then Some (mant f / 2 ^ (- expo f))%Z else None in
  z ← v; if in_bits 64 (sg z) then Some (sg z) else None.

(** ** Formatting *)

(** The place of the decimal point of a positive ratio: 10^(p-1) ≤ n/d < 10^p. *)
Fixpoint point_below (fuel : nat) (p n d : Z) : Z :=
  match fuel with
  | O => p
  | S fuel => if (d <=? n * 10)%Z then p else point_below fuel (p - 1) (n * 10) d
  end.
Definition point (n d : Z) : Z :=
  if (d <=? n)%Z then Z.of_nat (String.length (Itoa (n / d))) else point_below 400 0 n d.

(** The decimals of [k] digits around a ratio, the nearer first. *)
Definition near (k p n d : Z) : list Z :=
  let '(a, b) := if (0 <=? k - p)%Z then (n * 10 ^ (k - p), d)%Z else (n, d * 10 ^ (p - k))%Z in
  let q := (a / b)%Z in
  if (2 * (a mod b) <=? b)%Z then [q; q + 1]%Z else [q + 1; q]%Z.

(** The shortest decimal of at most 17 digits, from [k] on, that rounds to [x]: its
    digits and its exponent of ten. *)
Fixpoint shortest (fuel : nat) (k p n d : Z) (x : Z * Z) : option (Z * Z) :=
  match fuel with
  | O => None
  | S fuel =>
      let e := (p - k)%Z in
      match filter (λ c, (0 <? c)%Z && bool_decide (uncurry round_ratio (decimal_ratio c e) = Some x) = true)
                   (near k p n d) with
      | c :: _ => Some (if (c mod 10 =? 0)%Z then (c / 10, e + 1)%Z else (c, e))
      | [] => shortest fuel (k + 1) p n d x
      end
  end.

Fixpoint zeros (k : nat) : string := match k with O => EmptyString | S k => String "0" (zeros k) end.

(** [d * 10^e] without an exponent. *)
Definition plain_decimal (d e : Z) : string :=
  if (0 <=? e)%Z then Itoa d +:+ zeros (Z.to_nat e)
  else
    let k := Z.to_nat (- e) in
    let f := Itoa (d mod 10 ^ (- e)) in
    Itoa (d / 10 ^ (- e)) +:+ "." +:+ zeros (k - String.length f) +:+ f.

(** [strconv.FormatFloat(f, 'f', -1, 64)] *)
Definition FormatFloat (f : float) : string :=
  let sg := if neg f then "-" else EmptyString in
  if (mant f =? 0)%Z then sg +:+ "0"
  else
    let '(n, d) := if (0 <=? expo f)%Z then (mant f * 2 ^ expo f, 1)%Z else (mant f, 2 ^ (- expo f))%Z in
    match shortest 17 1 (point n d) n d (mant f, expo f) with
    | Some (c, e) => sg +:+ plain_decimal c e
    | None => EmptyString
    end.

(** ** Lemmas: small integers are exact *)

Lemma digits_val_lower s : ∀ a v, (0 <= a)%Z → digits_val a s = Some v →
  (a * 10 ^ Z.of_nat (String.length s) <= v)%Z.
Proof.
  induction s as [|c s IH]; intros a v Ha; cbn [digits_val String.length].
  - intros [= <-]. change (10 ^ Z.of_nat 0)%Z with 1%Z. lia.
  - unfold digit_of. destruct (is_digit c) eqn:Hc; [|done]. cbn [mbind option_bind].
    destruct (digit_of_bounds c Hc) as (d & Hd & Hb). unfold digit_of in Hd. rewrite Hc in Hd.
    injection Hd as ->. intros Hv. apply IH in Hv; [|lia].
    rewrite Nat2Z.inj_succ, Z.pow_succ_r by lia. nia.
Qed.

(** A number below [10^k] has at most [k] digits. *)
Lemma Itoa_length z k : (0 < z < 10 ^ k)%Z → (Z.of_nat (String.length (Itoa z)) <= k)%Z.
Proof.
  intros Hz. destruct (Itoa_shape z) as (c & r & -> & Hc & Hr & H0 & Hv).
  destruct (Z.ltb_spec z 0); [lia|]. cbn [String.length]. rewrite Nat2Z.inj_succ.
  cbn [digits_val] in Hv. destruct (digit_of_bounds c Hc) as (d & Hd & Hb). rewrite Hd in Hv.
  cbn [mbind option_bind] in Hv.
  assert (Hd1 : (1 <= 10 * 0 + d)%Z ∨ r = EmptyString).
  { destruct (Ascii.eqb c "0") eqn:E; [right; by apply H0|]. left.
    clear -Hd E. unfold digit_of in Hd. destruct (is_digit c) eqn:Hc; [|done]. injection Hd as <-.
    revert Hc E. byte_cases c; cbn; try done; lia. }
  destruct Hd1 as [Hd1| ->].
  - apply digits_val_lower in Hv; [|lia]. rewrite Z.abs_eq in Hv by lia.
    assert (10 ^ Z.of_nat (String.length r) < 10 ^ k)%Z as Hlt by nia.
    apply Z.pow_lt_mono_r_iff in Hlt; try lia. destruct (Z.le_gt_cases 0 k); [done|].
    rewrite (Z.pow_neg_r 10 k) in Hz by lia. lia.
  - cbn. destruct (Z.le_gt_cases 1 k); [lia|]. assert (k = 0 ∨ k < 0)%Z as [-> | ?] by lia.
    + change (10 ^ 0)%Z with 1%Z in Hz. lia.
    + rewrite (Z.pow_neg_r 10 k) in Hz by lia. lia.
Qed.

Lemma span_digits_whole s : sforall is_digit s = true → span_digits s = (s, EmptyString).
Proof.
  induction s as [|c s IH]; [done|]. cbn [sforall span_digits]. intros [-> Hs]%andb_true_iff.
  by rewrite (IH Hs).
Qed.

Lemma parse_decimal_Itoa z : parse_decimal (Itoa z) = Some ((z <? 0)%Z, Z.abs z, 0%Z).
Proof.
  destruct (Itoa_shape z) as (c & r & -> & Hc & Hr & _ & Hv).
  assert (Hm : Ascii.eqb c "-" = false) by (clear -Hc; byte_cases c; done).
  assert (Hs : span_digits (String c r) = (String c r, EmptyString))
    by (apply span_digits_whole; cbn [sforall]; by rewrite Hc, Hr).
  unfold parse_decimal. destruct (z <? 0)%Z.
  - change (Ascii.eqb "-" "-") with true. cbn iota zeta. rewrite Hs. cbn [mbind option_bind].
    by rewrite sapp_nil_r, Hv.
  - rewrite Hm, Hs. cbn [mbind option_bind]. by rewrite sapp_nil_r, Hv.
Qed.

Lemma round_div_exact n : round_div n 1 = n.
Proof. unfold round_div. rewrite Z.div_1_r, Z.mod_1_r. done. Qed.

(** An integer of at most 53 bits is a mantissa shifted to the left. *)
Lemma round_ratio_exact z : (0 < z < 2 ^ 53)%Z →
  round_ratio z 1 = Some (z * 2 ^ (52 - Z.log2 z), Z.log2 z - 52)%Z.
Proof.
  intros Hz. pose proof (Z.log2_spec z ltac:(lia)) as Hk.
  assert (Hk0 : (0 <= Z.log2 z <= 52)%Z).
  { split; [apply Z.log2_nonneg|]. assert (Z.log2 z < 53)%Z; [|lia]. apply Z.log2_lt_pow2; lia. }
  unfold round_ratio, log2_ratio. change (Z.log2 1) with 0%Z. rewrite Z.sub_0_r, !Z.mul_1_l.
  rewrite (proj2 (Z.leb_le 0 (Z.log2 z))) by lia. rewrite (proj2 (Z.ltb_ge z (2 ^ Z.log2 z))) by lia.
  rewrite Z.max_l by lia.
  assert (Hm : (z * 2 ^ (52 - Z.log2 z) < 2 ^ 53)%Z).
  { replace (2 ^ 53)%Z with (2 ^ Z.succ (Z.log2 z) * 2 ^ (52 - Z.log2 z))%Z
      by (rewrite <- Z.pow_add_r by lia; f_equal; lia).
    apply Z.mul_lt_mono_pos_r; [by apply Z.pow_pos_nonneg; lia|lia]. }
  destruct (Z.leb_spec 0 (Z.log2 z - 52)) as [Hge|Hlt].
  - assert (Z.log2 z = 52)%Z as -> by lia. change (2 ^ (52 - 52))%Z with 1%Z.
    rewrite round_div_exact, Z.mul_1_r, (proj2 (Z.eqb_neq _ _)) by lia. done.
  - rewrite Z.opp_sub_distr, Z.add_comm, round_div_exact by lia.
    replace (52 + - Z.log2 z)%Z with (52 - Z.log2 z)%Z by lia.
    rewrite (proj2 (Z.eqb_neq _ _)) by lia. rewrite (proj2 (Z.ltb_ge _ _)) by lia. done.
Qed.

Lemma to_int64_exact s z : (0 < z < 2 ^ 53)%Z →
  (x ← round_ratio z 1; to_int64 (mkFloat s x.1 x.2)) = Some (if s then - z else z)%Z.
Proof.
  intros Hz. rewrite round_ratio_exact by lia. cbn [mbind option_bind fst snd].
  unfold to_int64. cbn [expo mant neg].
  assert (Hl : (0 <= Z.log2 z <= 52)%Z).
  { split; [apply Z.log2_nonneg|]. assert (Z.log2 z < 53)%Z; [|lia]. apply Z.log2_lt_pow2; lia. }
  assert (Hr : in_bits 64 (if s then - z else z)%Z = true).
  { unfold in_bits. change (2 ^ (64 - 1))%Z with 9223372036854775808%Z.
    change (2 ^ 53)%Z with 9007199254740992%Z in Hz. destruct s; lia. }
  destruct (Z.leb_spec 0 (Z.log2 z - 52)) as [Hge|Hlt].
  - assert (Z.log2 z = 52)%Z as -> by lia. change (2 ^ (52 - 52))%Z with 1%Z.
    rewrite !Z.mul_1_r. cbn [mbind option_bind]. by rewrite Hr.
  - replace (- (Z.log2 z - 52))%Z with (52 - Z.log2 z)%Z by lia.
    rewrite Z.mod_mul, Z.div_mul by (apply Z.pow_nonzero; lia). cbn. by rewrite Hr.
Qed.

(** ** Lemmas: values *)

(** The value of a float is the integer [z]. *)
Definition float_is (f : float) (z : Z) : Prop :=
  ((if neg f then - mant f else mant f) * 2 ^ Z.max 0 (expo f) = z * 2 ^ Z.max 0 (- expo f))%Z.

(** The value of a literal is the integer [z]: its digits times a power of ten. *)
Definition number_is (s : string) (z : Z) : Prop :=
  ∃ sign d e, parse_decimal s = Some (sign, d, e) ∧
    ((if sign then - d else d) * 10 ^ Z.max 0 e = z * 10 ^ Z.max 0 (- e))%Z.

Lemma to_int64_spec f z : to_int64 f = Some z ↔ float_is f z ∧ in_bits 64 z = true.
Proof.
  unfold to_int64, float_is. destruct (Z.leb_spec 0 (expo f)) as [He|He]; cbn [mbind option_bind].
  - rewrite (Z.max_r 0 (expo f)), (Z.max_l 0 (- expo f)) by lia. change (2 ^ 0)%Z with 1%Z.
    assert (Hs : (if neg f then - (mant f * 2 ^ expo f) else mant f * 2 ^ expo f)%Z =
      ((if neg f then - mant f else mant f) * 2 ^ expo f)%Z) by (destruct (neg f); lia).
    rewrite Hs. destruct (in_bits 64 _) eqn:Hb; (split; [intros [= <-] || done|]).
    + split; [lia|done].
    + intros [H _]. f_equal. lia.
    + intros [H Hz]. assert (z = ((if neg f then - mant f else mant f) * 2 ^ expo f)%Z) by lia. congruence.
  - rewrite (Z.max_l 0 (expo f)), (Z.max_r 0 (- expo f)) by lia. change (2 ^ 0)%Z with 1%Z.
    set (c := (2 ^ (- expo f))%Z). assert (Hc : (0 < c)%Z) by (apply Z.pow_pos_nonneg; lia).
    destruct (Z.eqb_spec (mant f mod c) 0) as [Hm|Hm]; cbn [mbind option_bind].
    + assert (Hq : mant f = (c * (mant f / c))%Z) by (apply Z.div_exact; lia).
      set (q := (mant f / c)%Z) in *. rewrite Hq.
      assert (Hi : ((if neg f then - (c * q) else c * q) * 1 = z * c)%Z ↔ (if neg f then - q else q)%Z = z)
        by (destruct (neg f); nia).
      rewrite Hi. destruct (in_bits 64 _) eqn:Hb; (split; [intros [= <-] || done|]); [done|..].
      * by intros [-> _].
      * intros [<- Hz]. congruence.
    + split; [done|]. intros [H _]. destruct Hm.
      assert (mant f = (if neg f then - z else z) * c)%Z as -> by (destruct (neg f); lia).
      apply Z.mod_mul. lia.
Qed.

Lemma digits_val_upper s : ∀ a v, (0 <= a)%Z → digits_val a s = Some v →
  (v < (a + 1) * 10 ^ Z.of_nat (String.length s))%Z.
Proof.
  induction s as [|c s IH]; intros a v Ha; cbn [digits_val String.length].
  - intros [= <-]. change (10 ^ Z.of_nat 0)%Z with 1%Z. lia.
  - unfold digit_of. destruct (is_digit c) eqn:Hc; [|done]. cbn [mbind option_bind].
    destruct (digit_of_bounds c Hc) as (d & Hd & Hb). unfold digit_of in Hd. rewrite Hc in Hd.
    injection Hd as ->. intros Hv. apply IH in Hv; [|lia].
    rewrite Nat2Z.inj_succ, Z.pow_succ_r by lia. nia.
Qed.

Lemma Itoa_upper z : (0 <= z)%Z → (z < 10 ^ Z.of_nat (String.length (Itoa z)))%Z.
Proof.
  intros Hz. destruct (Itoa_shape z) as (c & r & -> & _ & _ & _ & Hv).
  destruct (Z.ltb_spec z 0); [lia|]. apply digits_val_upper in Hv; [|lia].
  rewrite Z.abs_eq in Hv by lia. lia.
Qed.

(** A ratio that is an integer is rounded as the integer. *)
Lemma round_ratio_integer z c : (0 < z < 2 ^ 53)%Z → (0 < c)%Z → round_ratio (z * c) c = round_ratio z 1.
Proof.
  intros Hz Hc. rewrite (round_ratio_exact z Hz). pose proof (Z.log2_spec z ltac:(lia)) as Hk.
  assert (Hk0 : (0 <= Z.log2 z <= 52)%Z).
  { split; [apply Z.log2_nonneg|]. assert (Z.log2 z < 53)%Z; [|lia]. apply Z.log2_lt_pow2; lia. }
  assert (Hlog : log2_ratio (z * c) c = Z.log2 z).
  { unfold log2_ratio. pose proof (Z.log2_mul_below z c ltac:(lia) Hc).
    pose proof (Z.log2_mul_above z c ltac:(lia) ltac:(lia)).
    rewrite (proj2 (Z.leb_le 0 _)) by lia.
    assert (Z.log2 (z * c) - Z.log2 c = Z.log2 z ∨ Z.log2 (z * c) - Z.log2 c = Z.log2 z + 1)%Z as [-> | ->] by lia.
    - rewrite (proj2 (Z.ltb_ge _ _)) by nia. done.
    - rewrite (proj2 (Z.ltb_lt _ _)); [lia|].
      change (Z.log2 z + 1)%Z with (Z.succ (Z.log2 z)) in *. nia. }
  unfold round_ratio. rewrite Hlog, Z.max_l by lia.
  assert (Hd : ∀ m, round_div (m * c) c = m).
  { intros m. unfold round_div. rewrite Z.div_mul, Z.mod_mul, Z.mul_0_r by lia.
    by rewrite (proj2 (Z.compare_lt_iff 0 c)). }
  assert (Hm : (z * 2 ^ (52 - Z.log2 z) < 2 ^ 53)%Z).
  { replace (2 ^ 53)%Z with (2 ^ Z.succ (Z.log2 z) * 2 ^ (52 - Z.log2 z))%Z
      by (rewrite <- Z.pow_add_r by lia; f_equal; lia).
    apply Z.mul_lt_mono_pos_r; [by apply Z.pow_pos_nonneg; lia|lia]. }
  destruct (Z.leb_spec 0 (Z.log2 z - 52)) as [Hge|Hlt].
  - assert (Z.log2 z = 52)%Z as Hl by lia. rewrite Hl in *. change (2 ^ (52 - 52))%Z with 1%Z in *.
    rewrite !Z.mul_1_r in *. rewrite Hd, (proj2 (Z.eqb_neq _ _)) by lia. done.
  - replace (z * c * 2 ^ (- (Z.log2 z - 52)))%Z with (z * 2 ^ (52 - Z.log2 z) * c)%Z
      by (replace (- (Z.log2 z - 52))%Z with (52 - Z.log2 z)%Z by lia; lia).
    rewrite Hd, (proj2 (Z.eqb_neq _ _)) by lia. rewrite (proj2 (Z.ltb_ge _ _)) by lia. done.
Qed.

(** An integer of at most 53 bits comes back as it was written. *)
Lemma ParseFloat_Itoa z : (Z.abs z <= 2 ^ 53)%Z → ParseFloat (Itoa z) ≫= to_int64 = Some z.
Proof.
  intros Hz. destruct (Z.eq_dec (Z.abs z) (2 ^ 53)) as [He|Hne].
  { assert (z = 2 ^ 53 ∨ z = - 2 ^ 53)%Z as [-> | ->] by lia; by vm_compute. }
  destruct (Z.eq_dec z 0) as [->|H0]; [by vm_compute|].
  unfold ParseFloat. rewrite parse_decimal_Itoa. cbn [mbind option_bind].
  rewrite (proj2 (Z.eqb_neq (Z.abs z) 0)), Z.add_0_l by lia. cbv zeta.
  assert (Hl : (Z.of_nat (String.length (Itoa (Z.abs z))) <= 16)%Z).
  { apply Itoa_length. change (10 ^ 16)%Z with 10000000000000000%Z.
    change (2 ^ 53)%Z with 9007199254740992%Z in Hz. lia. }
  rewrite (proj2 (Z.ltb_ge 400 _)), (proj2 (Z.ltb_ge _ (- 400))) by lia.
  unfold decimal_ratio. cbn [Z.leb Z.compare]. rewrite Z.mul_1_r.
  pose proof (to_int64_exact (z <? 0)%Z (Z.abs z) ltac:(lia)) as H.
  destruct (round_ratio (Z.abs z) 1) as [[m x]|]; [|done]. cbn [mbind option_bind fst snd] in *.
  rewrite H. f_equal. destruct (Z.ltb_spec z 0); lia.
Qed.

(** The digits and the exponent of ten of a literal with an integer value. *)
Lemma decimal_ratio_integer d e z : (0 < z)%Z → (d * 10 ^ Z.max 0 e = z * 10 ^ Z.max 0 (- e))%Z →
  (0 < d)%Z ∧ ∃ c, (0 < c)%Z ∧ decimal_ratio d e = (z * c, c)%Z.
Proof.
  intros Hz H. assert (Hp : ∀ k, (0 <= k)%Z → (0 < 10 ^ k)%Z) by (intros; by apply Z.pow_pos_nonneg).
  unfold decimal_ratio. destruct (Z.leb_spec 0 e).
  - rewrite Z.max_r, (Z.max_l 0 (- e)) in H by lia. change (10 ^ 0)%Z with 1%Z in H.
    specialize (Hp e ltac:(lia)). split; [nia|]. exists 1%Z. split; [lia|]. f_equal. lia.
  - rewrite Z.max_l, (Z.max_r 0 (- e)) in H by lia. change (10 ^ 0)%Z with 1%Z in H.
    specialize (Hp (- e)%Z ltac:(lia)). split; [nia|]. exists (10 ^ (- e))%Z. split; [lia|]. f_equal. lia.
Qed.

(** The place of its point is within the range of a float. *)
Lemma decimal_size d e z : (0 < z < 2 ^ 53)%Z → (0 < d)%Z →
  (d * 10 ^ Z.max 0 e = z * 10 ^ Z.max 0 (- e))%Z →
  (0 < e + Z.of_nat (String.length (Itoa d)) <= 17)%Z.
Proof.
  intros Hz Hd H. pose proof (Itoa_upper d ltac:(lia)) as Hu. set (n := Z.of_nat _) in *.
  change (2 ^ 53)%Z with 9007199254740992%Z in Hz. split.
  - destruct (Z.leb_spec 0 e).
    + destruct (Z.eq_dec n 0) as [Hn|]; [|lia]. rewrite Hn in Hu. change (10 ^ 0)%Z with 1%Z in Hu. lia.
    + rewrite Z.max_l, (Z.max_r 0 (- e)) in H by lia. change (10 ^ 0)%Z with 1%Z in H.
      assert (10 ^ (- e) < 10 ^ n)%Z as Hlt by nia. apply Z.pow_lt_mono_r_iff in Hlt; lia.
  - assert (n <= 17 - e)%Z; [|lia]. apply Itoa_length. split; [lia|]. destruct (Z.leb_spec 0 e).
    + rewrite Z.max_r, (Z.max_l 0 (- e)) in H by lia. change (10 ^ 0)%Z with 1%Z in H.
      assert (Hp : (0 < 10 ^ e)%Z) by (apply Z.pow_pos_nonneg; lia).
      assert (He : (e <= 16)%Z).
      { destruct (Z.le_gt_cases e 16); [done|]. assert (10 ^ 16 < 10 ^ e)%Z by (apply Z.pow_lt_mono_r; lia).
        change (10 ^ 16)%Z with 10000000000000000%Z in *. nia. }
      assert (Hs : (10 ^ (17 - e) * 10 ^ e = 10 ^ 17)%Z) by (rewrite <- Z.pow_add_r by lia; f_equal; lia).
      change (10 ^ 17)%Z with 100000000000000000%Z in Hs. nia.
    + rewrite Z.max_l, (Z.max_r 0 (- e)) in H by lia. change (10 ^ 0)%Z with 1%Z in H.
      replace (17 - e)%Z with (17 + - e)%Z by lia. rewrite Z.pow_add_r by lia.
      change (10 ^ 17)%Z with 100000000000000000%Z.
      assert (Hp : (0 < 10 ^ (- e))%Z) by (apply Z.pow_pos_nonneg; lia). nia.
Qed.

Lemma parse_decimal_digits s sign d e : parse_decimal s = Some (sign, d, e) → (0 <= d)%Z.
Proof.
  unfold parse_decimal. intros H.
  repeat match type of H with
  | context [match ?x with _ => _ end] => destruct x
  | context [?x ≫= _] => destruct x eqn:?; cbn [mbind option_bind] in H
  end; simplify_eq;
  match goal with H : digits_val 0 _ = Some _ |- _ => apply digits_val_lower in H; lia end.
Qed.

(** So does every literal of one, however it is written. *)
Lemma ParseFloat_number s z : number_is s z → (Z.abs z < 2 ^ 53)%Z → ParseFloat s ≫= to_int64 = Some z.
Proof.
  intros (sign & d & e & Hp & H) Hz. unfold ParseFloat. rewrite Hp. cbn [mbind option_bind].
  assert (Hpos : ∀ k, (0 <= k)%Z → (0 < 10 ^ k)%Z) by (intros; by apply Z.pow_pos_nonneg).
  pose proof (Hpos (Z.max 0 e) ltac:(lia)) as He. pose proof (Hpos (Z.max 0 (- e)) ltac:(lia)) as He'.
  destruct (Z.eqb_spec d 0) as [->|Hd].
  { assert (z = 0)%Z as -> by (destruct sign; nia). by destruct sign. }
  assert (Hd0 : (0 <= d)%Z).
  { by eapply parse_decimal_digits. }
  set (a := (if sign then - z else z)%Z).
  assert (Ha : (d * 10 ^ Z.max 0 e = a * 10 ^ Z.max 0 (- e))%Z) by (unfold a; destruct sign; lia).
  assert (Hab : (0 < a < 2 ^ 53)%Z) by (split; [nia|unfold a; destruct sign; lia]).
  destruct (decimal_ratio_integer d e a ltac:(lia) Ha) as (Hdp & c & Hc & Hr).
  pose proof (decimal_size d e a Hab Hdp Ha) as Hsize. cbv zeta.
  rewrite (proj2 (Z.ltb_ge 400 _)), (proj2 (Z.ltb_ge _ (- 400))) by lia. rewrite Hr.
  rewrite (round_ratio_integer a c Hab Hc). pose proof (to_int64_exact sign a Hab) as Ht.
  destruct (round_ratio a 1) as [[m x]|]; [|done]. cbn [mbind option_bind fst snd] in *. rewrite Ht.
  f_equal. unfold a. destruct sign; lia.
Qed.
