(* ===== verification/Utf8.v ===== *)
(** * Decoded strings are valid UTF-8

    What [GoJson.Unquote] gives for a literal of the syntax is valid UTF-8, whatever
    bytes and escapes the literal has: a byte that is no part of a rune and a lone
    surrogate become the replacement character.  So the keys of a decoded object are. *)

From S2P Require Import Prelude.
From S2P Require Import GoStrings.
From S2P Require Import GoJson.

(** ** Runes *)

(** [p] is one encoded rune. *)
Definition rune (p : string) : Prop := p ≠ EmptyString ∧ rune_len p = String.length p.

Lemma utf8_ok_fuel s : ∀ f1 f2, String.length s ≤ f1 → String.length s ≤ f2 →
  utf8_ok f1 s = utf8_ok f2 s.
Proof.
  induction s as [s IH] using (induction_ltof1 _ String.length).
  intros f1 f2 H1 H2. destruct s as [|c r]; [by destruct f1, f2|].
  destruct f1 as [|f1], f2 as [|f2]; cbn [String.length] in *; try lia. cbn [utf8_ok].
  pose proof (rune_len_length (String c r)) as Hr.
  destruct (rune_len (String c r)) as [|n] eqn:Hn; [done|].
  assert (String.length (sdrop (S n) (String c r)) ≤ String.length r).
  { cbn [sdrop]. clear. revert n. induction r as [|c r IH]; intros [|n]; cbn; try lia.
    specialize (IH n). lia. }
  apply IH; [unfold ltof; cbn [String.length]; lia|lia|lia].
Qed.

Lemma rune_app p t : rune p → valid_utf8 (p +:+ t) = valid_utf8 t.
Proof.
  intros [Hne Hp]. assert (Hr : rune_len (p +:+ t) = String.length p).
  { pose proof (rune_len_stake p _ t Hp) as H. rewrite stake_all in H by done.
    apply H. by destruct p. }
  unfold valid_utf8. destruct p as [|c p]; [done|]. rewrite length_sapp.
  rewrite sapp_cons in *. cbn [String.length Nat.add utf8_ok]. rewrite Hr. cbn [String.length].
  pose proof (sdrop_app (String c p) t) as Hd. rewrite sapp_cons in Hd. cbn [String.length] in Hd.
  rewrite Hd. apply utf8_ok_fuel; lia.
Qed.

Lemma rune_at s n : rune_len s = n → n ≠ 0 → rune (stake n s).
Proof.
  intros Hs Hn. pose proof (rune_len_stake s n EmptyString Hs Hn) as H. rewrite sapp_nil_r in H.
  pose proof (rune_len_length s). rewrite Hs in *. split; [|by rewrite length_stake].
  intros He. rewrite He in H. by cbn in H.
Qed.

Lemma byte_ascii n : (n < 256)%N → byte_n (ascii_of_N n) = n.
Proof. apply N_ascii_embedding. Qed.

Lemma in_range_N lo hi n : (n < 256)%N → in_range lo hi (ascii_of_N n) =
  ((byte_n lo <=? n) && (n <=? byte_n hi))%N.
Proof. intros H. unfold in_range. by rewrite byte_ascii. Qed.

Lemma replacement_rune : rune replacement.
Proof. by split. Qed.

Lemma eqb_N c n : (n < 256)%N → Ascii.eqb (ascii_of_N n) c = (n =? byte_n c)%N.
Proof.
  intros H. destruct (N.eqb_spec n (byte_n c)) as [->|Hne].
  - rewrite ascii_N_embedding. apply Ascii.eqb_refl.
  - apply Ascii.eqb_neq. intros <-. by rewrite byte_ascii in Hne.
Qed.

Lemma lead_not_ascii n : (128 <= n < 256)%N → is_ascii (ascii_of_N n) = false.
Proof. intros H. unfold is_ascii. rewrite byte_ascii by lia. apply N.ltb_ge. lia. Qed.

Lemma cont_N n : (n < 64)%N → is_cont (ascii_of_N (128 + n)) = true.
Proof.
  intros H. unfold is_cont. rewrite in_range_N by lia. apply andb_true_iff.
  rewrite !N.leb_le. change (byte_n "128") with 128%N. change (byte_n "191") with 191%N. lia.
Qed.

Lemma rune_2 a b : (194 <= a <= 223)%N → (b < 64)%N →
  rune (String (ascii_of_N a) (one (ascii_of_N (128 + b)))).
Proof.
  intros Ha Hb. split; [done|]. cbn [one rune_len String.length].
  rewrite lead_not_ascii by lia. unfold utf8_2. rewrite cont_N, in_range_N by lia.
  change (byte_n "194") with 194%N. change (byte_n "223") with 223%N.
  by rewrite (proj2 (N.leb_le 194 a)), (proj2 (N.leb_le a 223)) by lia.
Qed.

(** The bounds of the second byte, by the first. *)
Ltac byte_bounds :=
  rewrite ?in_range_N, ?eqb_N by lia; unfold is_cont; rewrite ?in_range_N by lia;
  repeat match goal with |- context [byte_n (Ascii ?a ?b ?c ?d ?e ?f ?g ?h)] =>
    let v := eval vm_compute in (byte_n (Ascii a b c d e f g h)) in
    change (byte_n (Ascii a b c d e f g h)) with v end;
  repeat first [rewrite orb_true_iff|rewrite andb_true_iff|rewrite N.leb_le|rewrite N.eqb_eq]; try lia.

Lemma rune_3 a b c : (a < 16)%N → (b < 64)%N → (c < 64)%N →
  (a = 0 → 32 <= b)%N → (a = 13 → b < 32)%N →
  rune (String (ascii_of_N (224 + a)) (String (ascii_of_N (128 + b)) (one (ascii_of_N (128 + c))))).
Proof.
  intros Ha Hb Hc H0 H13. split; [done|]. cbn [one rune_len String.length].
  rewrite lead_not_ascii by lia.
  assert (utf8_2 (ascii_of_N (224 + a)) (ascii_of_N (128 + b)) = false) as ->.
  { unfold utf8_2. rewrite in_range_N by lia. change (byte_n "223") with 223%N.
    by rewrite (proj2 (N.leb_gt (224 + a) 223)), andb_false_r by lia. }
  assert (utf8_3 (ascii_of_N (224 + a)) (ascii_of_N (128 + b)) (ascii_of_N (128 + c)) = true) as ->;
    [|done].
  unfold utf8_3. rewrite (cont_N c), (cont_N b) by lia. byte_bounds.
Qed.

Lemma rune_4 a b c d : (a < 5)%N → (b < 64)%N → (c < 64)%N → (d < 64)%N →
  (a = 0 → 16 <= b)%N → (a = 4 → b < 16)%N →
  rune (String (ascii_of_N (240 + a)) (String (ascii_of_N (128 + b))
    (String (ascii_of_N (128 + c)) (one (ascii_of_N (128 + d)))))).
Proof.
  intros Ha Hb Hc Hd H0 H4. split; [done|]. cbn [one rune_len String.length].
  rewrite lead_not_ascii by lia.
  assert (utf8_2 (ascii_of_N (240 + a)) (ascii_of_N (128 + b)) = false) as ->.
  { unfold utf8_2. rewrite in_range_N by lia. change (byte_n "223") with 223%N.
    by rewrite (proj2 (N.leb_gt (240 + a) 223)), andb_false_r by lia. }
  assert (utf8_3 (ascii_of_N (240 + a)) (ascii_of_N (128 + b)) (ascii_of_N (128 + c)) = false) as ->.
  { apply not_true_is_false. unfold utf8_3. rewrite (cont_N b), (cont_N c) by lia. byte_bounds. }
  assert (utf8_4 (ascii_of_N (240 + a)) (ascii_of_N (128 + b)) (ascii_of_N (128 + c))
    (ascii_of_N (128 + d)) = true) as ->; [|done].
  unfold utf8_4. rewrite (cont_N b), (cont_N c), (cont_N d) by lia. byte_bounds.
Qed.

Lemma six_bits n : ∃ q r, (n / 64 = q ∧ n mod 64 = r ∧ n = 64 * q + r ∧ r < 64)%N.
Proof.
  exists (n / 64)%N, (n mod 64)%N. split_and!; [done|done|by apply N.div_mod|].
  by apply N.mod_upper_bound.
Qed.

(** Every scalar value is encoded as one rune, a surrogate as the replacement. *)
Lemma utf8_encode_rune n : (n < 1114112)%N → rune (utf8_encode n).
Proof.
  intros Hn. unfold utf8_encode. cbv zeta.
  replace (n / 262144)%N with (n / 64 / 64 / 64)%N by (by rewrite !N.Div0.div_div).
  replace (n / 4096)%N with (n / 64 / 64)%N by (by rewrite N.Div0.div_div).
  destruct (six_bits n) as (q1 & r1 & -> & -> & Hq1 & Hr1).
  destruct (six_bits q1) as (q2 & r2 & -> & -> & Hq2 & Hr2).
  destruct (six_bits q2) as (q3 & r3 & -> & -> & Hq3 & Hr3).
  destruct (N.ltb_spec n 128) as [H1|H1].
  { split; [done|]. cbn [one rune_len String.length]. unfold is_ascii.
    rewrite byte_ascii by lia. by rewrite (proj2 (N.ltb_lt n 128) H1). }
  destruct (N.ltb_spec n 2048) as [H2|H2]; [apply rune_2; lia|].
  destruct (N.leb_spec 55296 n), (N.ltb_spec n 57344); cbn [andb]; try apply replacement_rune;
    try lia; destruct (N.ltb_spec n 65536); first [apply rune_3; lia|apply rune_4; lia|lia].
Qed.

(** ** Literals *)

Lemma hex_val_16 h : is_hex h = true → (hex_val h < 16)%N.
Proof.
  intros H. byte_cases h;
    first [by vm_compute in H | by vm_compute].
Qed.

Lemma hex4_bound h1 h2 h3 h4 : is_hex h1 && is_hex h2 && is_hex h3 && is_hex h4 = true →
  (hex4 h1 h2 h3 h4 < 65536)%N.
Proof.
  rewrite !andb_true_iff. intros [[[H1 H2] H3] H4]. unfold hex4.
  apply hex_val_16 in H1, H2, H3, H4. lia.
Qed.

Lemma low_surrogate_ok s m r : str_ok s → low_surrogate s = Some (m, r) →
  str_ok r ∧ (56320 <= m < 57344)%N ∧ String.length r < String.length s.
Proof.
  unfold low_surrogate. intros Hs.
  destruct s as [|b [|u [|h1 [|h2 [|h3 [|h4 r']]]]]]; try done.
  destruct (_ && _) eqn:Hc; [|done]. intros [= <- <-].
  rewrite !andb_true_iff, N.leb_le, N.ltb_lt, !Ascii.eqb_eq in Hc. destruct_and!; subst.
  split; [|split; [lia|cbn; lia]].
  inversion Hs; subst; [done| |done]. by match goal with H : is_escape "u" = true |- _ => vm_compute in H end.
Qed.

Lemma str_ok_skip n s : str_ok s → (∀ c, c ∈ String.list_ascii_of_string (stake n s) → is_ascii c = false) →
  str_ok (sdrop n s).
Proof.
  revert s. induction n as [|n IH]; intros [|c s] Hs Ha; try done. cbn [sdrop]. apply IH.
  - apply (str_ok_cut c); [|done]. specialize (Ha c ltac:(left)).
    byte_cases c; first [done | by vm_compute in Ha].
  - intros c' Hc'. apply Ha. by right.
Qed.

Lemma escape_is_ascii e : is_escape e = true → is_ascii (unescape e) = true.
Proof.
  intros H. byte_cases e; first [done | by vm_compute in H].
Qed.

Lemma ascii_rune c : is_ascii c = true → rune (one c).
Proof. intros H. split; [done|]. cbn. by rewrite H. Qed.

Lemma unquote_utf8 fuel : ∀ s, str_ok s → String.length s ≤ fuel →
  valid_utf8 (unquote_body fuel s) = true.
Proof.
  induction fuel as [|fuel IH]; intros s Hs Hf; [by destruct s|].
  destruct s as [|c r]; [done|]. cbn [unquote_body]. cbn [String.length] in Hf.
  destruct (Ascii.eqb_spec c bslash) as [->|Hc].
  - inversion Hs as [|? ? _ Hb _ _|e l He Hl|h1 h2 h3 h4 l Hh Hl]; subst.
    + by rewrite Ascii.eqb_refl in Hb.
    + destruct (Ascii.eqb_spec e "u") as [->|_]; [by vm_compute in He|].
      change (String (unescape e) (unquote_body fuel l)) with (one (unescape e) +:+ unquote_body fuel l).
      rewrite rune_app by by apply ascii_rune, escape_is_ascii. apply IH; [done|]. cbn in Hf. lia.
    + cbn [String.length] in Hf. rewrite Ascii.eqb_refl. apply hex4_bound in Hh.
      destruct (N.leb_spec 55296 (hex4 h1 h2 h3 h4)), (N.ltb_spec (hex4 h1 h2 h3 h4) 56320);
        cbn [andb]; try (rewrite rune_app by (apply utf8_encode_rune; lia); apply IH; [done|lia]).
      destruct (low_surrogate l) as [[m r3]|] eqn:Hls.
      * apply low_surrogate_ok in Hls as (Hr3 & Hm & Hlen); [|done].
        rewrite rune_app by (apply utf8_encode_rune; lia). apply IH; [done|lia].
      * rewrite rune_app by apply replacement_rune. apply IH; [done|lia].
  - assert (Hcut : str_ok r) by (apply (str_ok_cut c); [by apply Ascii.eqb_neq|done]).
    destruct (rune_len (String c r)) as [|n] eqn:Hn.
    + rewrite rune_app by apply replacement_rune. apply IH; [done|lia].
    + rewrite rune_app by by apply rune_at. apply IH.
      * destruct n as [|n]; [done|]. apply str_ok_skip; [done|]. rewrite <- Hn. apply rune_bytes. lia.
      * pose proof (rune_len_length (String c r)) as Hl. rewrite Hn in Hl.
        pose proof (stake_sdrop (S n) (String c r)) as Hsd.
        apply (f_equal String.length) in Hsd. rewrite length_sapp, length_stake in Hsd by done.
        cbn [String.length] in *. lia.
Qed.

Lemma Unquote_utf8 lex : str_ok lex → valid_utf8 (Unquote lex) = true.
Proof. intros H. by apply unquote_utf8. Qed.

(** The keys of a decoded object are valid UTF-8. *)
Lemma object_map_utf8 s l k : parse s = Some (JObj l) → is_Some (object_map l !! k) →
  valid_utf8 k = true.
Proof.
  intros [Hok _]%parse_ok. inversion Hok as [| | | | |? Hl]; subst. clear Hok.
  unfold object_map. induction l as [|kv l IH] using rev_ind; [by intros [? ?]|].
  apply Forall_app in Hl as [Hl Hkv]. apply Forall_singleton in Hkv as [Hkv _].
  rewrite foldl_app. cbn [foldl]. destruct (decide (member_key kv = k)) as [<-|Hne].
  - intros _. by apply Unquote_utf8.
  - rewrite lookup_insert_ne by done. by apply IH.
Qed.

Lemma valid_utf8_rune s : valid_utf8 s = true → s ≠ EmptyString →
  ∃ p t, rune p ∧ s = p +:+ t ∧ valid_utf8 t = true.
Proof.
  intros Hv Hne. destruct (rune_len s) as [|n] eqn:Hn.
  { exfalso. destruct s as [|c r]; [done|]. unfold valid_utf8 in Hv. cbn [String.length utf8_ok] in Hv.
    by rewrite Hn in Hv. }
  pose proof (rune_at s (S n) Hn ltac:(done)) as Hp.
  exists (stake (S n) s), (sdrop (S n) s). split; [done|]. split; [by rewrite stake_sdrop|].
  by rewrite <- (rune_app _ (sdrop (S n) s) Hp), stake_sdrop.
Qed.

Lemma valid_utf8_app a b : valid_utf8 a = true → valid_utf8 (a +:+ b) = valid_utf8 b.
Proof.
  induction a as [a IH] using (induction_ltof1 _ String.length). intros Ha.
  destruct a as [|c r]; [by rewrite sapp_nil_l|].
  destruct (valid_utf8_rune _ Ha) as (p & t & Hp & Heq & Ht); [done|].
  rewrite Heq, sapp_assoc, rune_app by done. apply IH; [|done].
  unfold ltof. rewrite Heq, length_sapp. destruct Hp as [Hne _]. destruct p; [done|]. cbn. lia.
Qed.

Lemma valid_utf8_Join l sep : valid_utf8 sep = true → Forall (λ s, valid_utf8 s = true) l →
  valid_utf8 (Join l sep) = true.
Proof.
  intros Hs. induction 1 as [|x l Hx Hl IH]; [done|]. destruct l as [|y l]; [done|].
  rewrite Join_cons, !valid_utf8_app; done.
Qed.
