(* ===== verification/Http.v ===== *)
(** * net/http, as far as the source uses it

    Header maps under canonical keys, the part of a request the handlers read,
    and a response writer: headers are a map until the first [WriteHeader],
    which fixes the status and sends the headers as they are then (a later
    [Header().Set] changes nothing the client sees). *)

From S2P Require Import Prelude.
From S2P Require Import GoStrings.

(** ** Headers *)

Abbreviation Header := (gmap string (list string)).

(** The bytes of an RFC 9110 token. *)
Definition token_byte (c : ascii) : bool :=
  is_digit c || is_lower c || is_upper c
  || existsb (Ascii.eqb c) (String.list_ascii_of_string "!#$%&'*+-.^_`|~").

Fixpoint canonical_from (upper : bool) (s : string) : string :=
  match s with
  | EmptyString => EmptyString
  | String c r => String (if upper then upper_byte c else lower_byte c)
                         (canonical_from (Ascii.eqb c "-") r)
  end.

(** [textproto.CanonicalMIMEHeaderKey]. *)
Definition CanonicalHeaderKey (s : string) : string :=
  if sforall token_byte s then canonical_from true s else s.

Definition hdr_values (h : Header) (k : string) : list string :=
  default [] (h !! CanonicalHeaderKey k).

(** [h.Get(k)]: the first value, [""] when there is none. *)
Definition hdr_get (h : Header) (k : string) : string :=
  default EmptyString (head (hdr_values h k)).

Definition hdr_set (h : Header) (k v : string) : Header :=
  <[CanonicalHeaderKey k := [v]]> h.

Definition hdr_add (h : Header) (k v : string) : Header :=
  <[CanonicalHeaderKey k := hdr_values h k ++ [v]]> h.

Definition hdr_del (h : Header) (k : string) : Header := delete (CanonicalHeaderKey k) h.

(** ** Requests *)

(** What the handlers read of an [*http.Request]: [EscapedPath] is what
    [r.URL.EscapedPath()] gives, the body is the bytes that can be read of it and
    whether reading then fails, the path values are those the mux matched. *)
Record Request := mkRequest {
  Method : string;
  URL_Path : string;
  EscapedPath : string;
  RawQuery : string;
  ReqHeader : Header;
  Body : string;
  BodyFails : bool;
  RemoteAddr : string;
  PathValues : gmap string string
}.

Definition with_PathValues (pv : gmap string string) (r : Request) : Request :=
  mkRequest (Method r) (URL_Path r) (EscapedPath r) (RawQuery r) (ReqHeader r) (Body r)
    (BodyFails r) (RemoteAddr r) pv.

Definition PathValue (r : Request) (k : string) : string :=
  default EmptyString (PathValues r !! k).

(** ** Response writers *)

Record ResponseWriter := mkRW {
  w_header : Header;            (* what Header() gives, writable at any time *)
  w_status : option (Z * Header); (* the status and the headers sent *)
  w_body : string
}.

Definition new_writer : ResponseWriter := mkRW ∅ None EmptyString.

Definition SetHeader (k v : string) (w : ResponseWriter) : ResponseWriter :=
  mkRW (hdr_set (w_header w) k v) (w_status w) (w_body w).

(** [w.WriteHeader(code)]: only the first one counts. *)
Definition WriteHeader (code : Z) (w : ResponseWriter) : ResponseWriter :=
  match w_status w with
  | Some _ => w
  | None => mkRW (w_header w) (Some (code, w_header w)) (w_body w)
  end.

(** RFC 9110: no content in 1xx, 204 and 304. *)
Definition bodyAllowed (code : Z) : bool :=
  negb ((100 <=? code) && (code <=? 199) || (code =? 204) || (code =? 304))%Z.

(** [w.Write(b)]: a status 200 is implied when none was written. *)
Definition WriteBody (b : string) (w : ResponseWriter) : ResponseWriter :=
  let w := WriteHeader 200 w in
  match w_status w with
  | Some (code, _) =>
      if bodyAllowed code then mkRW (w_header w) (w_status w) (w_body w +:+ b) else w
  | None => w
  end.

(** What the client sees of a header: the value sent with the status. *)
Definition sent_header (w : ResponseWriter) (k : string) : string :=
  match w_status w with
  | Some (_, h) => hdr_get h k
  | None => EmptyString
  end.

Definition sent_status (w : ResponseWriter) : option Z := fst <$> w_status w.

(** ** The statuses [http.StatusText] knows *)

Definition StatusText (code : Z) : string :=
  match code with
  | 100 => "Continue" | 101 => "Switching Protocols" | 102 => "Processing"
  | 103 => "Early Hints"
  | 200 => "OK" | 201 => "Created" | 202 => "Accepted"
  | 203 => "Non-Authoritative Information" | 204 => "No Content"
  | 205 => "Reset Content" | 206 => "Partial Content" | 207 => "Multi-Status"
  | 208 => "Already Reported" | 226 => "IM Used"
  | 300 => "Multiple Choices" | 301 => "Moved Permanently" | 302 => "Found"
  | 303 => "See Other" | 304 => "Not Modified" | 305 => "Use Proxy"
  | 307 => "Temporary Redirect" | 308 => "Permanent Redirect"
  | 400 => "Bad Request" | 401 => "Unauthorized" | 402 => "Payment Required"
  | 403 => "Forbidden" | 404 => "Not Found" | 405 => "Method Not Allowed"
  | 406 => "Not Acceptable" | 407 => "Proxy Authentication Required"
  | 408 => "Request Timeout" | 409 => "Conflict" | 410 => "Gone"
  | 411 => "Length Required" | 412 => "Precondition Failed"
  | 413 => "Request Entity Too Large" | 414 => "Request URI Too Long"
  | 415 => "Unsupported Media Type" | 416 => "Requested Range Not Satisfiable"
  | 417 => "Expectation Failed" | 418 => "I'm a teapot" | 421 => "Misdirected Request"
  | 422 => "Unprocessable Entity" | 423 => "Locked" | 424 => "Failed Dependency"
  | 425 => "Too Early" | 426 => "Upgrade Required" | 428 => "Precondition Required"
  | 429 => "Too Many Requests" | 431 => "Request Header Fields Too Large"
  | 451 => "Unavailable For Legal Reasons"
  | 500 => "Internal Server Error" | 501 => "Not Implemented" | 502 => "Bad Gateway"
  | 503 => "Service Unavailable" | 504 => "Gateway Timeout"
  | 505 => "HTTP Version Not Supported" | 506 => "Variant Also Negotiates"
  | 507 => "Insufficient Storage" | 508 => "Loop Detected" | 510 => "Not Extended"
  | 511 => "Network Authentication Required"
  | _ => EmptyString
  end%Z.

(** ** Lemmas *)

Lemma hdr_get_set h k v : hdr_get (hdr_set h k v) k = v.
Proof. unfold hdr_get, hdr_values, hdr_set. by rewrite lookup_insert_eq. Qed.

Lemma hdr_get_set_ne h k j v :
  CanonicalHeaderKey k ≠ CanonicalHeaderKey j → hdr_get (hdr_set h k v) j = hdr_get h j.
Proof. intros H. unfold hdr_get, hdr_values, hdr_set. by rewrite lookup_insert_ne. Qed.

Lemma StatusText_valid code : StatusText code ≠ EmptyString → (100 <= code <= 511)%Z.
Proof.
  intros H. destruct (decide (100 <= code <= 511)%Z) as [|Hn]; [done|].
  exfalso. apply H. unfold StatusText.
  repeat (case_match; try lia; try done).
Qed.

Lemma SetHeader_status k v w : w_status (SetHeader k v w) = w_status w.
Proof. done. Qed.

Lemma WriteHeader_sent code w :
  w_status w = None → w_status (WriteHeader code w) = Some (code, w_header w).
Proof. unfold WriteHeader. by intros ->. Qed.

Lemma WriteBody_sent b w code h :
  w_status w = Some (code, h) → w_status (WriteBody b w) = Some (code, h).
Proof.
  intros Hs. unfold WriteBody, WriteHeader. rewrite Hs. rewrite Hs.
  by destruct (bodyAllowed code).
Qed.

Lemma WriteBody_body b w code h :
  w_status w = Some (code, h) → bodyAllowed code = true →
  w_body (WriteBody b w) = w_body w +:+ b.
Proof.
  intros Hs Hb. unfold WriteBody, WriteHeader. rewrite Hs, Hs. by rewrite Hb.
Qed.

#[export] Hint Rewrite hdr_get_set : platform.
#[export] Hint Resolve WriteHeader_sent WriteBody_sent WriteBody_body : platform.
