(* ===== verification/Problem.v ===== *)
(** * lib/problem: the error body of the platform (RFC 9457)

    [Problem] is the struct of problem.go, [Write] its answer on the response
    writer of [Http].  The catalogue (an interface in the source) is an optional
    function from a code and a fallback to a title.  Proved: every problem is
    answered with its own status and media type and as one JSON object that
    reads back as the problem; a 401, and nothing else, carries a challenge, and
    the detail cannot break out of it; a catalogue code gives its own group as
    the status exactly when that is an HTTP status. *)

From S2P Require Import Prelude.
From S2P Require Import GoStrings.
From S2P Require Import GoJson.
From S2P Require Import Http.

(** ** Data *)

Record Problem := mkProblem {
  Type_ : string;
  Title : string;
  Status : Z;
  Detail : string;
  Instance_ : string;
  RequestID : string;
  Code : option string;
  noCredentials : bool
}.

#[global] Instance Problem_eq_dec : EqDecision Problem.
Proof. solve_decision. Defined.

Definition CodeLoginFailed : string := "ERR-401-001".
Definition CodeTokenExpired : string := "ERR-401-008".
Definition CodeJSONEmpty : string := "ERR-400-060".
Definition CodeJSONKey : string := "ERR-400-061".

(** The interface [Catalogue]: [None] is the nil interface. *)
Definition Catalogue := option (string → string → string).

Definition urn (s : string) : string := "urn:apostol:error:" +:+ s.

(** ** Construction *)

Definition New (status : Z) (slug title detail : string) : Problem :=
  mkProblem (urn slug) title status detail EmptyString EmptyString None false.

Definition WithCode (code : string) (p : Problem) : Problem :=
  mkProblem (Type_ p) (Title p) (Status p) (Detail p) (Instance_ p) (RequestID p)
    (Some code) (noCredentials p).

Definition NoCredentials (p : Problem) : Problem :=
  mkProblem (Type_ p) (Title p) (Status p) (Detail p) (Instance_ p) (RequestID p)
    (Code p) true.

Definition Unauthorized (cat : Catalogue) (code detail : string) : Problem :=
  let title := match cat with
               | Some Title => Title code "Unauthorized"
               | None => "Unauthorized"
               end in
  WithCode code (New 401 "unauthorized" title detail).

(** [Problem.Error()]. *)
Definition Error (p : Problem) : string :=
  if is_empty (Detail p) then Title p else Title p +:+ ": " +:+ Detail p.

(** ** Catalogue texts *)

(** [codeRe]: [ERR-], three digits, [-], three digits, [:], an optional space, and
    a text to the end without line breaks; the submatches 1, 2 and 3. *)
Definition codeRe (msg : string) : option (string * string * string) :=
  match msg with
  | String e (String r1 (String r2 (String h1 (String g1 (String g2 (String g3
      (String h2 (String c1 (String c2 (String c3 (String k rest))))))))))) =>
      if Ascii.eqb e "E" && Ascii.eqb r1 "R" && Ascii.eqb r2 "R" && Ascii.eqb h1 "-"
         && is_digit g1 && is_digit g2 && is_digit g3 && Ascii.eqb h2 "-"
         && is_digit c1 && is_digit c2 && is_digit c3 && Ascii.eqb k ":"
      then
        let text := TrimPrefix rest " " in
        if sforall (λ c, negb (Ascii.eqb c "010")) text
        then Some (stake 11 msg, stake 3 (sdrop 4 msg), text)
        else None
      else None
  | _ => None
  end.

(** [ParseMessage]: the code and the text; [None] for its [false]. *)
Definition ParseMessage (msg : string) : option (string * string) :=
  '(code, _, text) ← codeRe msg; Some (code, text).

Definition FromCode (code title detail : string) : Problem :=
  let status :=
    match codeRe (code +:+ ": ") with
    | Some (_, g, _) =>
        let g := default 0%Z (Atoi g) in
        if is_empty (StatusText g) then 400%Z else g
    | None => 400%Z
    end in
  mkProblem (urn code) title status detail EmptyString EmptyString (Some code) false.

(** ** The challenge of a 401 *)

Definition describable_byte (c : ascii) : bool :=
  negb ((byte_n c <? 32) || (126 <? byte_n c))%N
  && negb (Ascii.eqb c dquote) && negb (Ascii.eqb c bslash).

Definition describable (s : string) : bool :=
  if is_empty s then false else sforall describable_byte s.

Definition invalid_token : string :=
  "Bearer error=" +:+ one dquote +:+ "invalid_token" +:+ one dquote.

Definition challenge (p : Problem) : string :=
  if noCredentials p then "Bearer"
  else if describable (Detail p)
       then invalid_token +:+ ", error_description=" +:+ one dquote +:+ Detail p +:+ one dquote
       else invalid_token.

(** ** The answer *)

Definition str_member (k v : string) : string * json := (k, JStr (quote_lex v)).
Definition omit_empty (k v : string) : list (string * json) :=
  if is_empty v then [] else [str_member k v].

(** The document [json.Encoder] writes for the struct: the tagged fields in
    their order, [omitempty] on three of them, [code] null or a string. *)
Definition document (p : Problem) : json :=
  JObj ([str_member "type" (Type_ p); str_member "title" (Title p);
         ("status", JNum (Itoa (Status p)))]
        ++ omit_empty "detail" (Detail p)
        ++ omit_empty "instance" (Instance_ p)
        ++ omit_empty "request_id" (RequestID p)
        ++ [("code", match Code p with Some c => JStr (quote_lex c) | None => JNull end)]).

(** The copy [Write] completes from the request. *)
Definition completed (p : Problem) (r : option Request) : Problem :=
  mkProblem (Type_ p) (Title p) (Status p) (Detail p)
    (match r with
     | Some r => if is_empty (Instance_ p) then URL_Path r else Instance_ p
     | None => Instance_ p
     end)
    (match r with
     | Some r => if is_empty (RequestID p) then hdr_get (ReqHeader r) "X-Request-Id"
                 else RequestID p
     | None => RequestID p
     end)
    (Code p) (noCredentials p).

Definition Write (p : Problem) (r : option Request) (w : ResponseWriter) : ResponseWriter :=
  let out := completed p r in
  let w := SetHeader "Content-Type" "application/problem+json" w in
  let w := if (Status out =? 401)%Z then SetHeader "WWW-Authenticate" (challenge out) w else w in
  let w := if is_empty (RequestID out) then w else SetHeader "X-Request-Id" (RequestID out) w in
  let w := WriteHeader (Status out) w in
  WriteBody (print (document out) +:+ one "010") w.

(** ** Lemmas *)

Lemma Unauthorized_status cat code detail : Status (Unauthorized cat code detail) = 401%Z.
Proof. done. Qed.


Lemma str_member_ok k v : sforall plain_byte k = true →
  str_ok (str_member k v).1 ∧ json_ok (str_member k v).2.
Proof. intros H. split; [by apply str_ok_plain|apply json_ok_str]. Qed.

Lemma omit_empty_ok k v : sforall plain_byte k = true →
  Forall (λ kv, str_ok kv.1 ∧ json_ok kv.2) (omit_empty k v).
Proof.
  intros H. unfold omit_empty. destruct (is_empty v); constructor; [|constructor].
  by apply str_member_ok.
Qed.

Lemma document_ok p : json_ok (document p).
Proof.
  constructor. rewrite !Forall_app. split_and!; try (by apply omit_empty_ok).
  - repeat (apply Forall_cons; split); try (by apply str_member_ok); [|constructor].
    split; [by apply str_ok_plain|apply json_ok_Itoa].
  - constructor; [|constructor]. split; [by apply str_ok_plain|].
    cbn. destruct (Code p); [apply json_ok_str|constructor].
Qed.

Lemma document_depth p : (json_depth (document p) ≤ 10000)%N.
Proof.
  unfold document, omit_empty. destruct (Code p);
    repeat (destruct (is_empty _)); by vm_compute.
Qed.

(** Reading the fields of the document back gives the fields of the problem. *)
Lemma document_fields p :
  ∃ l, document p = JObj l ∧
    string_field "type" l = Unquote (quote_lex (Type_ p)) ∧
    string_field "title" l = Unquote (quote_lex (Title p)) ∧
    string_field "detail" l = Unquote (quote_lex (Detail p)) ∧
    string_field "instance" l = Unquote (quote_lex (Instance_ p)) ∧
    string_field "request_id" l = Unquote (quote_lex (RequestID p)) ∧
    field_members "status" l = [JNum (Itoa (Status p))] ∧
    field_members "code" l
      = [match Code p with Some c => JStr (quote_lex c) | None => JNull end].
Proof.
  eexists. split; [reflexivity|]. unfold omit_empty, str_member.
  destruct (Detail p) eqn:Hd, (Instance_ p) eqn:Hi, (RequestID p) eqn:Hr;
    cbn [is_empty app]; split_and!; eval_fields; try done.
Qed.

(** The headers [Write] sends. *)
Definition answer_header (p : Problem) (r : option Request) (h : Header) : Header :=
  let out := completed p r in
  let h := hdr_set h "Content-Type" "application/problem+json" in
  let h := if (Status out =? 401)%Z then hdr_set h "WWW-Authenticate" (challenge out) else h in
  if is_empty (RequestID out) then h else hdr_set h "X-Request-Id" (RequestID out).

Lemma Write_sent p r w : w_status w = None →
  w_status (Write p r w) = Some (Status p, answer_header p r (w_header w)).
Proof.
  intros Hw. unfold Write. apply WriteBody_sent.
  unfold answer_header. change (Status (completed p r)) with (Status p).
  destruct (Status p =? 401)%Z, (is_empty (RequestID (completed p r)));
    by rewrite WriteHeader_sent.
Qed.

Lemma Write_body p r w : w_status w = None → bodyAllowed (Status p) = true →
  w_body (Write p r w) = w_body w +:+ print (document (completed p r)) +:+ one "010".
Proof.
  intros Hw Hb. unfold Write.
  change (Status (completed p r)) with (Status p).
  destruct (Status p =? 401)%Z, (is_empty (RequestID (completed p r)));
    (erewrite WriteBody_body; [|by apply WriteHeader_sent|done]); unfold WriteHeader;
    cbn [w_status SetHeader]; by rewrite Hw.
Qed.

(** An answered problem, whatever the handler had set before. *)
Lemma Write_headers p r w : w_status w = None →
  sent_status (Write p r w) = Some (Status p) ∧
  sent_header (Write p r w) "Content-Type" = "application/problem+json" ∧
  (Status p = 401%Z → sent_header (Write p r w) "WWW-Authenticate" = challenge p) ∧
  (Status p ≠ 401%Z → sent_header (Write p r w) "WWW-Authenticate"
                      = hdr_get (w_header w) "WWW-Authenticate") ∧
  (RequestID (completed p r) ≠ EmptyString →
     sent_header (Write p r w) "X-Request-Id" = RequestID (completed p r)).
Proof.
  intros Hw. unfold sent_status, sent_header. rewrite (Write_sent p r w Hw).
  unfold answer_header. change (Status (completed p r)) with (Status p).
  change (challenge (completed p r)) with (challenge p).
  destruct (Z.eqb_spec (Status p) 401), (RequestID (completed p r)); cbn [is_empty];
    split_and!; intros; try done; try congruence;
    repeat (rewrite hdr_get_set || rewrite hdr_get_set_ne by (by vm_compute)); done.
Qed.

(** ** Lemmas: catalogue codes *)

(** A code [ERR-GGG-CCC] of the digits [g] and [c]. *)
Definition catalogue_code (g c : string) : string := "ERR-" +:+ g +:+ "-" +:+ c.

Definition three_digits (s : string) : bool :=
  (String.length s =? 3)%nat && sforall is_digit s.

Definition single_line (s : string) : bool := sforall (λ c, negb (Ascii.eqb c "010")) s.

Lemma three_digits_inv s : three_digits s = true → ∃ a b c,
  s = String a (String b (one c)) ∧ is_digit a = true ∧ is_digit b = true ∧ is_digit c = true.
Proof.
  unfold three_digits. destruct s as [|a [|b [|c [|]]]]; try done.
  cbn. intros H. bool_to_prop. by exists a, b, c.
Qed.

Lemma codeRe_code g c t : three_digits g = true → three_digits c = true →
  codeRe (catalogue_code g c +:+ ":" +:+ t)
  = if single_line (TrimPrefix t " ")
    then Some (catalogue_code g c, g, TrimPrefix t " ") else None.
Proof.
  intros (g1 & g2 & g3 & -> & Hg1 & Hg2 & Hg3)%three_digits_inv
    (c1 & c2 & c3 & -> & Hc1 & Hc2 & Hc3)%three_digits_inv.
  unfold catalogue_code, one. rewrite !sapp_assoc. rewrite !sapp_cons, !sapp_nil_l.
  cbn [codeRe]. rewrite Hg1, Hg2, Hg3, Hc1, Hc2, Hc3. done.
Qed.

Lemma codeRe_inv msg code g text : codeRe msg = Some (code, g, text) →
  ∃ c t, three_digits g = true ∧ three_digits c = true ∧ code = catalogue_code g c
    ∧ msg = code +:+ ":" +:+ t ∧ text = TrimPrefix t " " ∧ single_line text = true.
Proof.
  destruct msg as [|e [|r1 [|r2 [|h1 [|g1 [|g2 [|g3 [|h2 [|c1 [|c2 [|c3 [|k t]]]]]]]]]]]]; try done.
  cbn [codeRe]. destruct (_ && _) eqn:Hm; [|done]. bool_to_prop.
  repeat match goal with H : Ascii.eqb _ _ = true |- _ => apply Ascii.eqb_eq in H; subst end.
  destruct (sforall _ (TrimPrefix t " ")) eqn:Hl; [|done]. cbn [stake sdrop].
  intros [= <- <- <-]. exists (String c1 (String c2 (one c3))), t.
  unfold three_digits. cbn [String.length sforall one].
  split_and!; try done; by rewrite ?H7, ?H6, ?H5, ?H3, ?H2, ?H1.
Qed.

(** ** Properties *)

(** An error is answered as RFC 9457 says: on a response not yet started,
    [Problem.Write] sends the problem's own status with the media type
    [application/problem+json], a [WWW-Authenticate] challenge when the status is
    401 and no other one than the handler had set when it is not, the request id,
    and a body that is one JSON object whose type, title, detail, instance,
    request id, status and code read back as the problem completed from the
    request. *)
Lemma Write_answers p r w :
  w_status w = None → w_body w = EmptyString → bodyAllowed (Status p) = true →
  let out := completed p r in
  let w' := Write p r w in
  sent_status w' = Some (Status p) ∧
  sent_header w' "Content-Type" = "application/problem+json" ∧
  (Status p = 401%Z → sent_header w' "WWW-Authenticate" = challenge p) ∧
  (Status p ≠ 401%Z →
     sent_header w' "WWW-Authenticate" = hdr_get (w_header w) "WWW-Authenticate") ∧
  (RequestID out ≠ EmptyString → sent_header w' "X-Request-Id" = RequestID out) ∧
  ∃ l, parse (w_body w') = Some (JObj l) ∧
    (valid_utf8 (Type_ p) = true → string_field "type" l = Type_ p) ∧
    (valid_utf8 (Title p) = true → string_field "title" l = Title p) ∧
    (valid_utf8 (Detail p) = true → string_field "detail" l = Detail p) ∧
    (valid_utf8 (Instance_ out) = true → string_field "instance" l = Instance_ out) ∧
    (valid_utf8 (RequestID out) = true → string_field "request_id" l = RequestID out) ∧
    field_members "status" l = [JNum (Itoa (Status p))] ∧
    field_members "code" l
      = [match Code p with Some c => JStr (quote_lex c) | None => JNull end].
Proof.
  intros Hw Hb Hs out w'. destruct (Write_headers p r w Hw) as (H1 & H2 & H3 & H4 & H5).
  split_and!; try done.
  destruct (document_fields out) as (l & Hl & Ht & Hti & Hd & Hi & Hr & Hst & Hc).
  exists l. unfold w'. rewrite Write_body, Hb, sapp_nil_l by done.
  rewrite parse_print_line by (apply document_ok || apply document_depth).
  split_and!; [by f_equal|..]; try done; intros Hu.
  - by rewrite Ht, Unquote_quote.
  - by rewrite Hti, Unquote_quote.
  - by rewrite Hd, Unquote_quote.
  - by rewrite Hi, Unquote_quote.
  - by rewrite Hr, Unquote_quote.
Qed.

Definition sample_request : Request :=
  mkRequest "GET" "/api/v2/clients/7f" "/api/v2/clients/7f" EmptyString
    (hdr_set ∅ "X-Request-Id" "6f1c") EmptyString false EmptyString ∅.

Lemma Write_answers_witness :
  sent_status (Write (Unauthorized None CodeTokenExpired "jwt: expired")
                 (Some sample_request) new_writer) = Some 401%Z.
Proof.
  exact (proj1 (Write_answers (Unauthorized None CodeTokenExpired "jwt: expired")
    (Some sample_request) new_writer eq_refl eq_refl eq_refl)).
Defined.

(** A detail cannot break out of the challenge of a 401 (RFC 6750, section 3):
    whatever the detail, the header value is one line of printable ASCII, and it is
    the bare scheme, the scheme with the error code, or these with the detail as a
    quoted string that holds neither a quote nor a backslash; without credentials
    it is the bare scheme. *)
Lemma challenge_safe p :
  sforall (in_range " " "~") (challenge p) = true ∧
  (noCredentials p = true → challenge p = "Bearer") ∧
  (noCredentials p = false →
     challenge p = invalid_token ∨
     (challenge p = invalid_token +:+ ", error_description="
                      +:+ one dquote +:+ Detail p +:+ one dquote ∧
      contains_byte (Detail p) dquote = false ∧
      contains_byte (Detail p) bslash = false)).
Proof.
  assert (Hd : describable (Detail p) = true → sforall describable_byte (Detail p) = true)
    by (unfold describable; by destruct (is_empty (Detail p))).
  unfold challenge, contains_byte. destruct (noCredentials p); [done|].
  destruct (describable (Detail p)); [|by split_and!; auto]. specialize (Hd eq_refl).
  assert (Hi : ∀ q : ascii → bool, (∀ c, describable_byte c = true → q c = true) →
    sforall q (Detail p) = true) by (intros q Hq; by eapply sforall_impl).
  split_and!; [|done|].
  - rewrite !sforall_app, Hi; [done|]. intros c Hc. unfold describable_byte, in_range in *.
    bool_to_prop. apply N.ltb_ge in H, H2.
    apply andb_true_iff; split; apply N.leb_le; [exact H|exact H2].
  - intros _. right. rewrite !Hi; [done|..]; intros c Hc; unfold describable_byte in Hc;
      bool_to_prop; by apply negb_true_iff.
Qed.

(** The platform's exception texts are cut exactly: [ParseMessage] accepts a
    text iff it is a code of the catalogue, a colon and one line, and gives the
    code and the line without the one space after the colon. *)
Lemma ParseMessage_spec msg code text :
  ParseMessage msg = Some (code, text) ↔
  ∃ g c t, three_digits g = true ∧ three_digits c = true ∧ code = catalogue_code g c
    ∧ msg = code +:+ ":" +:+ t ∧ text = TrimPrefix t " " ∧ single_line text = true.
Proof.
  unfold ParseMessage. split.
  - destruct (codeRe msg) as [[[code' g] text']|] eqn:Hc; cbn; [|done].
    intros [= <- <-]. exists g. by apply codeRe_inv.
  - intros (g & c & t & Hg & Hc & -> & -> & -> & Hl). rewrite codeRe_code, Hl by done. done.
Qed.

(** A catalogue problem answers with the group of its code whenever that is
    an HTTP status and with 400 when it is not, so that its status is always one
    [net/http] can send; the code is the machine key and the type. *)
Lemma FromCode_status code title detail :
  let p := FromCode code title detail in
  (100 <= Status p <= 511)%Z ∧ StatusText (Status p) ≠ EmptyString ∧
  Code p = Some code ∧ Type_ p = urn code ∧
  ∀ g c, three_digits g = true → three_digits c = true → code = catalogue_code g c →
    ∃ n, Atoi g = Some n ∧
      Status p = if decide (StatusText n = EmptyString) then 400%Z else n.
Proof.
  assert (Hv : ∀ n, StatusText n ≠ EmptyString → (100 <= n <= 511)%Z ∧ StatusText n ≠ EmptyString)
    by (split; [by apply StatusText_valid|done]).
  rewrite (and_assoc (100 <= _ <= 511)%Z). split; [|split; [done|split; [done|]]].
  - apply Hv. cbn [FromCode Status]. destruct (codeRe _) as [[[? g] ?]|]; [|done].
    destruct (StatusText (default 0%Z (Atoi g))) eqn:Hs; [done|]. cbn [is_empty]. by rewrite Hs.
  - intros g c Hg Hc ->. cbn [FromCode Status].
    change (catalogue_code g c +:+ ": ") with (catalogue_code g c +:+ ":" +:+ " ").
    rewrite codeRe_code by done. cbn [single_line sforall TrimPrefix HasPrefix].
    change (single_line (TrimPrefix " " " ")) with true. cbn iota.
    apply andb_true_iff in Hg as [Hl%Nat.eqb_eq Hd].
    destruct (Atoi_digits g Hd ltac:(lia)) as (n & Hn & _).
    exists n. rewrite Hn. cbn [default]. unfold id. split; [done|].
    destruct (StatusText n); [by rewrite decide_True|by rewrite decide_False].
Qed.

Lemma FromCode_status_witness : Status (FromCode "ERR-429-001" "t" "d") = 429%Z.
Proof.
  destruct (FromCode_status "ERR-429-001" "t" "d") as (_ & _ & _ & _ & H).
  destruct (H "429" "001" eq_refl eq_refl eq_refl) as (n & Hn & Hs).
  vm_compute in Hn. injection Hn as <-. exact Hs.
Defined.
