(* ===== verification/Query.v ===== *)
(** * lib/query: the list parameters of /api/v2

    [Parse] translates the query of a list request (a Go map from names to value
    lists, here a [gmap]) into the conditions, order, fields and page of
    [api.sql()].  The loop runs over the sorted names; an error is a constructor
    with what its text names (the texts themselves use [%q], which is not
    modelled), and the index of an empty value list is the run-time panic [Panic].
    QueryLaws has what it accepts and gives. *)

From S2P Require Import Prelude.
From S2P Require Import GoStrings.
From S2P Require Import GoJson.

(** ** Data *)

Definition DefaultLimit : Z := 500.
Definition MaxLimit : Z := 1000.

Record Condition := mkCondition {
  Field : string;
  Compare : string;
  Value : string;
  ValArr : list string
}.

Record Params := mkParams {
  Search : list Condition;
  OrderBy : list string;
  Fields : list string;
  Limit : Z;
  Offset : Z
}.

#[global] Instance Condition_eq_dec : EqDecision Condition.
Proof. solve_decision. Defined.
#[global] Instance Params_eq_dec : EqDecision Params.
Proof. solve_decision. Defined.

(** [url.Values]. *)
Abbreviation Values := (gmap string (list string)).

Inductive query_error : Type :=
  | BadSort (f : string)
  | BadFields (f : string)
  | NeedsKey (k : string)
  | BadParameter (k : string)
  | PageLimit
  | PageOffset
  | PageKey (k : string)
  | FilterField (f : string)
  | FilterOperator (f op : string)
  | UnknownParameter (k : string)
  | Panic.

#[global] Instance query_error_eq_dec : EqDecision query_error.
Proof. solve_decision. Defined.

(** ** Operations *)

Definition operators : gmap string string :=
  list_to_map [("eq", "EQL"); ("ne", "NEQ"); ("lt", "LSS"); ("lte", "LEQ"); ("gt", "GTR");
    ("gte", "GEQ"); ("like", "LKE"); ("ilike", "IKE"); ("in", EmptyString); ("null", EmptyString)].

(** [reserved], a name of a-z only. *)
Definition reserved (s : string) : bool := head_tail is_lower is_lower s.

(** The part of [key] after the family: one or two bracketed names, the second
    one [""] when it is missing. *)
Definition brackets (s : string) : option (string * string) :=
  match s with
  | String c r =>
      if Ascii.eqb c "[" then
        let '(name, rest, found) := Cut r "]" in
        if negb found || is_empty name then None
        else match rest with
             | EmptyString => Some (name, EmptyString)
             | String d r2 =>
                 if Ascii.eqb d "[" then
                   let '(op, rest2, found2) := Cut r2 "]" in
                   if negb found2 || is_empty op || negb (is_empty rest2) then None
                   else Some (name, op)
                 else None
             end
      else None
  | EmptyString => None
  end.

(** [key.FindStringSubmatch]: the family and the two bracketed names. *)
Definition key_match (k : string) : option (string * string * string) :=
  if HasPrefix k "filter" then
    '(name, op) ← brackets (sdrop 6 k); Some ("filter", name, op)
  else if HasPrefix k "page" then
    '(name, op) ← brackets (sdrop 4 k); Some ("page", name, op)
  else None.

(** [p.page(k, val)]. *)
Definition page (k val : string) (p : Params) : res query_error Params :=
  let n := Atoi val in
  if String.eqb k "limit" then
    match n with
    | Some n => if ((n <? 1) || (MaxLimit <? n))%Z then Err PageLimit
                else Ok (mkParams (Search p) (OrderBy p) (Fields p) n (Offset p))
    | None => Err PageLimit
    end
  else if String.eqb k "offset" then
    match n with
    | Some n => if (n <? 0)%Z then Err PageOffset
                else Ok (mkParams (Search p) (OrderBy p) (Fields p) (Limit p) n)
    | None => Err PageOffset
    end
  else Err (PageKey k).

Definition condition (field op val : string) : res query_error Condition :=
  throw_if (negb (is_ident field)) (FilterField field);;
  let op := if is_empty op then "eq" else op in
  cmp ← of_option (operators !! op) (FilterOperator field op);
  if String.eqb op "in" then Ok (mkCondition field EmptyString EmptyString (Split val ","))
  else if String.eqb op "null" then
    if String.eqb val "true" then Ok (mkCondition field "ISN" EmptyString [])
    else Ok (mkCondition field "INN" EmptyString [])
  else Ok (mkCondition field cmp val []).

(** One term of [sort=]. *)
Definition sort_term (f : string) : res query_error string :=
  let '(dir, f) := if HasPrefix f "-" then ("DESC", sdrop 1 f) else ("ASC", f) in
  throw_if (negb (is_ident f)) (BadSort f);;
  Ok (f +:+ " " +:+ dir).

Definition field_name (f : string) : res query_error string :=
  throw_if (negb (is_ident f)) (BadFields f);; Ok f.

(** The body of the loop for the name [k]. *)
Definition step (v : Values) (p : Params) (k : string) : res query_error Params :=
  val ← of_option (last (default [] (v !! k))) Panic;
  if String.eqb k "sort" then
    ts ← mapM_res sort_term (Split val ",");
    Ok (mkParams (Search p) (OrderBy p ++ ts) (Fields p) (Limit p) (Offset p))
  else if String.eqb k "fields" then
    fs ← mapM_res field_name (Split val ",");
    Ok (mkParams (Search p) (OrderBy p) (Fields p ++ fs) (Limit p) (Offset p))
  else if String.eqb k "filter" || String.eqb k "page" then Err (NeedsKey k)
  else if HasPrefix k "filter[" || HasPrefix k "page[" then
    '(family, name, op) ← of_option (key_match k) (BadParameter k);
    if String.eqb family "page" then page name val p
    else c ← condition name op val;
         Ok (mkParams (Search p ++ [c]) (OrderBy p) (Fields p) (Limit p) (Offset p))
  else if reserved (cut_before k "[") then Err (UnknownParameter k)
  else Ok p.

Definition initial : Params := mkParams [] [] [] DefaultLimit 0.

(** [Parse] when the map is iterated in the order [keys]. *)
Definition Parse_from (keys : list string) (v : Values) : res query_error Params :=
  foldM_res (step v) (sort_Strings keys) initial.

Definition Parse (v : Values) : res query_error Params :=
  Parse_from (map_to_list v).*1 v.

(** ** The jsonb arguments *)

Definition condition_json (c : Condition) : json :=
  let member k s := if is_empty s then [] else [(k, JStr (quote_lex s))] in
  JObj ([("field", JStr (quote_lex (Field c)))]
        ++ member "compare" (Compare c) ++ member "value" (Value c)
        ++ match ValArr c with
           | [] => []
           | l => [("valarr", JArr (map (λ s, JStr (quote_lex s)) l))]
           end).

Definition strings_json (l : list string) : json := JArr (map (λ s, JStr (quote_lex s)) l).

(** [p.JSONArgs()]: search, orderby, fields; [None] is a nil slice (SQL NULL). *)
Definition JSONArgs (p : Params) : option string * option string * option string :=
  let arg {A} (l : list A) (j : json) := match l with [] => None | _ => Some (print j) end in
  (arg (Search p) (JArr (map condition_json (Search p))),
   arg (OrderBy p) (strings_json (OrderBy p)),
   arg (Fields p) (strings_json (Fields p))).
