(* ===== verification/QueryLaws.v ===== *)
(** * The language of the list parameters

    What a name of a list query and its value mean, written out as the texts they are
    ([means]): the names, the operators and what each stands for, the shape of an
    identifier, apart from the functions of Query.  [Parse] accepts exactly the queries whose
    every name means something, and gives what they mean; what it accepts is
    safe to put into SQL, and what it refuses it refuses with an error. *)

From S2P Require Import Prelude.
From S2P Require Import GoStrings.
From S2P Require Import Query.

(** ** The language *)

(** What a name and its value say. *)
Inductive meaning : Type :=
  | Filters (c : Condition)
  | Sorts (l : list string)
  | Selects (l : list string)
  | Limits (n : Z)
  | Offsets (n : Z)
  | Nothing.

(** The comparisons of a filter with one value. *)
Definition compares : list (string * string) :=
  [("eq", "EQL"); ("ne", "NEQ"); ("lt", "LSS"); ("lte", "LEQ"); ("gt", "GTR"); ("gte", "GEQ");
   ("like", "LKE"); ("ilike", "IKE")].

(** A term of [sort=] and the order it asks for. *)
Inductive orders : string → string → Prop :=
  | ascending f : identifier f → orders f (f +:+ " ASC")
  | descending f : identifier f → orders ("-" +:+ f) (f +:+ " DESC").

(** A name the list language leaves to the client: what comes before its first bracket is empty or has
    a byte that is not a letter a-z. *)
Definition foreign (k : string) : Prop :=
  ∃ family, lacks "[" family ∧ (k = family ∨ ∃ rest, k = family +:+ "[" +:+ rest) ∧
    (family = EmptyString ∨ ∃ c, c ∈ bytes_of family ∧ c ∉ alphabet).

(** What the code lets follow [page[limit]] and [page[offset]]: nothing, or a second bracket, which it
    drops. *)
Definition dropped (s : string) : Prop :=
  s = EmptyString ∨ ∃ x, x ≠ EmptyString ∧ lacks "]" x ∧ s = "[" +:+ x +:+ "]".

Inductive means : string → string → meaning → Prop :=
  | means_sort ts l : ts ≠ [] → Forall2 orders ts l → means "sort" (Join ts ",") (Sorts l)
  | means_fields fs : fs ≠ [] → Forall identifier fs → means "fields" (Join fs ",") (Selects fs)
  | means_equal f v : identifier f →
      means ("filter[" +:+ f +:+ "]") v (Filters (mkCondition f "EQL" v []))
  | means_compare f op cmp v : identifier f → (op, cmp) ∈ compares →
      means ("filter[" +:+ f +:+ "][" +:+ op +:+ "]") v (Filters (mkCondition f cmp v []))
  | means_in f l : identifier f → l ≠ [] → Forall (lacks ",") l →
      means ("filter[" +:+ f +:+ "][in]") (Join l ",") (Filters (mkCondition f EmptyString EmptyString l))
  | means_null f : identifier f →
      means ("filter[" +:+ f +:+ "][null]") "true" (Filters (mkCondition f "ISN" EmptyString []))
  | means_not_null f v : identifier f → v ≠ "true" →
      means ("filter[" +:+ f +:+ "][null]") v (Filters (mkCondition f "INN" EmptyString []))
  | means_limit s v n : dropped s → Atoi v = Some n → (1 <= n <= 1000)%Z →
      means ("page[limit]" +:+ s) v (Limits n)
  | means_offset s v n : dropped s → Atoi v = Some n → (0 <= n)%Z →
      means ("page[offset]" +:+ s) v (Offsets n)
  | means_own k v : foreign k → means k v Nothing.

(** What the names of a query say together: the conditions, orders and fields in turn, the page
    that was named last, 500 rows from the first where none was. *)
Definition said (ms : list meaning) : Params :=
  mkParams (omap (λ m, match m with Filters c => Some c | _ => None end) ms)
    (ms ≫= λ m, match m with Sorts l => l | _ => [] end)
    (ms ≫= λ m, match m with Selects l => l | _ => [] end)
    (default 500%Z (last (omap (λ m, match m with Limits n => Some n | _ => None end) ms)))
    (default 0%Z (last (omap (λ m, match m with Offsets n => Some n | _ => None end) ms))).

(** The value of a name: the last one given. *)
Definition value_of (v : Values) (k : string) : option string := last (default [] (v !! k)).

(** ** Lemmas: the texts *)

Lemma Join_text l : Join l "," = Join l (one ",").
Proof. done. Qed.

Lemma lacks_not_empty f : identifier f → f ≠ EmptyString ∧ lacks "]" f.
Proof. intros H. split; [by destruct H|by apply (identifier_lacks "]")]. Qed.

Lemma lacks_list c (l : list string) :
  Forall (lacks c) l ↔ Forall (λ x, sforall (λ d, negb (Ascii.eqb d c)) x = true) l.
Proof. apply Forall_iff. intros x. apply lacks_spec. Qed.

Lemma Cut_lacks s t c : lacks c s → Cut (s +:+ String c t) c = (s, t, true).
Proof.
  intros H%lacks_spec. induction s as [|x s IH]; cbn [sforall] in H.
  - rewrite sapp_nil_l. cbn. by rewrite Ascii.eqb_refl.
  - apply andb_true_iff in H as [Hx Hs]. apply negb_true_iff in Hx. rewrite sapp_cons. cbn. rewrite Hx.
    by rewrite (IH Hs).
Qed.

Lemma Cut_found s c b a : Cut s c = (b, a, true) → lacks c b ∧ s = b +:+ String c a.
Proof.
  revert b. induction s as [|x s IH]; intros b; cbn [Cut]; [done|].
  destruct (Ascii.eqb x c) eqn:Hx.
  - intros [= <- <-]. apply Ascii.eqb_eq in Hx as ->. split; [by apply lacks_spec|done].
  - destruct (Cut s c) as [[b' a'] f] eqn:Hc. intros [= <- -> ->]. destruct (IH b' eq_refl) as [Hl ->].
    split; [|done]. apply lacks_spec. cbn. rewrite Hx. by apply lacks_spec in Hl.
Qed.

Lemma Cut_missed s c b a : Cut s c = (b, a, false) → lacks c s ∧ b = s.
Proof.
  revert b. induction s as [|x s IH]; intros b; cbn [Cut]; [intros [= <- _]; split; [by apply lacks_spec|done]|].
  destruct (Ascii.eqb x c) eqn:Hx; [done|].
  destruct (Cut s c) as [[b' a'] f] eqn:Hc. intros [= <- -> ->]. destruct (IH b' eq_refl) as [Hl ->].
  split; [|done]. apply lacks_spec. cbn. rewrite Hx. by apply lacks_spec in Hl.
Qed.

(** A bracketed name. *)
Definition bracketed (n : string) : Prop := n ≠ EmptyString ∧ lacks "]" n.

Lemma negb_empty n : n ≠ EmptyString → is_empty n = false.
Proof. by destruct n. Qed.

(** One or two bracketed names, as the expression of the code takes them. *)
Lemma brackets_spec s n o : brackets s = Some (n, o) ↔
  bracketed n ∧ (s = "[" +:+ n +:+ "]" ∧ o = EmptyString ∨ bracketed o ∧ s = "[" +:+ n +:+ "][" +:+ o +:+ "]").
Proof.
  split.
  - destruct s as [|c r]; cbn [brackets]; [done|]. destruct (Ascii.eqb_spec c "[") as [->|]; [|done].
    destruct (Cut r "]") as [[name rest] []] eqn:H1; [|done]. apply Cut_found in H1 as [Hl ->]. cbn [negb orb].
    destruct (is_empty name) eqn:He; [done|].
    assert (Hn : bracketed name) by (split; [by intros ->|done]).
    destruct rest as [|d r2]; [intros [= <- <-]; split; [done|by left]|].
    destruct (Ascii.eqb_spec d "[") as [->|]; [|done].
    destruct (Cut r2 "]") as [[op rest2] []] eqn:H2; [|done]. apply Cut_found in H2 as [Hl2 ->]. cbn [negb orb].
    destruct (is_empty op) eqn:He2; [done|]. destruct rest2; [|done]. intros [= <- <-]. split; [done|].
    right. split; [|done]. split; [by intros ->|done].
  - intros [[Hn Hl] [[-> ->]|[[Ho Hl2] ->]]]; rewrite sapp_cons; cbn [brackets Ascii.eqb Bool.eqb];
      rewrite sapp_nil_l.
    + change ("]") with (String "]" EmptyString). rewrite Cut_lacks by done. cbn [negb orb].
      by rewrite negb_empty.
    + change ("][" +:+ o +:+ "]") with (String "]" (String "[" (o +:+ String "]" EmptyString))).
      rewrite Cut_lacks by done. cbn [negb orb]. rewrite negb_empty, Ascii.eqb_refl by done.
      rewrite Cut_lacks by done. cbn [negb orb]. by rewrite negb_empty.
Qed.

(** The names of the code's expression. *)
Lemma key_match_spec k f n o : key_match k = Some (f, n, o) ↔
  (f = "filter" ∨ f = "page") ∧ ∃ s, k = f +:+ s ∧ brackets s = Some (n, o).
Proof.
  unfold key_match. split.
  - destruct (HasPrefix k "filter") eqn:Hf; [|destruct (HasPrefix k "page") eqn:Hp; [|done]].
    + apply HasPrefix_spec in Hf as [r ->]. rewrite (sdrop_app "filter").
      destruct (brackets r) as [[n' o']|] eqn:Hb; [|done]. intros [= <- <- <-]. split; [by left|by exists r].
    + apply HasPrefix_spec in Hp as [r ->]. rewrite (sdrop_app "page").
      destruct (brackets r) as [[n' o']|] eqn:Hb; [|done]. intros [= <- <- <-]. split; [by right|by exists r].
  - intros [[-> | ->] (s & -> & Hb)].
    + rewrite HasPrefix_app, (sdrop_app "filter"), Hb. done.
    + change (HasPrefix ("page" +:+ s) "filter") with false. cbn iota.
      rewrite HasPrefix_app, (sdrop_app "page"), Hb. done.
Qed.

(** The family of a name that is the client's. *)
Lemma foreign_spec k : foreign k ↔ reserved (cut_before k "[") = false.
Proof.
  assert (Hfam : ∀ fam, (fam = EmptyString ∨ ∃ c, c ∈ bytes_of fam ∧ c ∉ alphabet) ↔ reserved fam = false).
  { intros fam. unfold reserved. rewrite <- not_true_iff_false. split.
    - intros [->|(c & Hc & Hn)]; [done|]. intros H. apply Hn, lower_alphabet.
      apply (head_tail_sforall is_lower is_lower) in H; [|done].
      apply sforall_bytes in H. rewrite Forall_forall in H. by apply H.
    - intros H. destruct fam as [|x fam]; [by left|right].
      destruct (decide (Forall (λ c, c ∈ alphabet) (bytes_of (String x fam)))) as [Hall|Hex].
      + destruct H. apply Forall_cons in Hall as [Hx Hall]. cbn. apply andb_true_iff. split; [by apply lower_alphabet|].
        apply sforall_bytes. eapply Forall_impl; [exact Hall|]. intros c. apply lower_alphabet.
      + apply not_Forall_Exists, Exists_exists in Hex as (c & Hc & Hn); [by exists c|apply _]. }
  unfold cut_before. destruct (Cut k "[") as [[b a] []] eqn:Hk; cbn [fst].
  - apply Cut_found in Hk as [Hl ->]. rewrite <- Hfam. split.
    + intros (fam & Hlf & [Hk|[rest Hk]] & H).
      * exfalso. apply Hlf. rewrite <- Hk. clear. unfold bytes_of. induction b as [|x b IH]; [left|right; exact IH].
      * assert (Cut (b +:+ String "[" a) "[" = Cut (fam +:+ String "[" rest) "[") as Hc by (f_equal; exact Hk).
        rewrite !Cut_lacks in Hc by done. by injection Hc as -> _.
    + intros H. exists b. split; [done|]. split; [right; by exists a|done].
  - apply Cut_missed in Hk as [Hl ->]. rewrite <- Hfam. split.
    + intros (fam & Hlf & [<-|[rest ->]] & H); [done|]. exfalso. apply Hl. clear. unfold bytes_of.
      induction fam as [|x fam IH]; [left|right; exact IH].
    + intros H. exists k. split; [done|]. split; [by left|done].
Qed.

(** ** Lemmas: the functions of the code *)

Lemma sort_term_spec t o : sort_term t = Ok o ↔ orders t o.
Proof.
  unfold sort_term. split.
  - destruct (HasPrefix t "-") eqn:Hp.
    + apply HasPrefix_spec in Hp as [f ->]. rewrite (sdrop_app "-"). destruct (is_ident f) eqn:Hf; [|done].
      intros [= <-]. by apply descending, is_ident_spec.
    + destruct (is_ident t) eqn:Hf; [|done]. intros [= <-]. by apply ascending, is_ident_spec.
  - intros [f Hf|f Hf].
    + destruct (HasPrefix f "-") eqn:Hp.
      { apply HasPrefix_spec in Hp as [r ->]. exfalso. apply (identifier_lacks "-") in Hf; [|done]. by apply Hf; left. }
      apply is_ident_spec in Hf. by rewrite Hf.
    + rewrite HasPrefix_app, (sdrop_app "-"). apply is_ident_spec in Hf. by rewrite Hf.
Qed.

Lemma field_name_spec f g : field_name f = Ok g ↔ identifier f ∧ g = f.
Proof.
  unfold field_name. rewrite <- is_ident_spec. destruct (is_ident f); cbn; naive_solver.
Qed.

(** What [condition] gives, by the operator. *)
Lemma condition_spec f o v c : condition f o v = Ok c ↔ identifier f ∧
  (o = EmptyString ∧ c = mkCondition f "EQL" v [] ∨
   (∃ cmp, (o, cmp) ∈ compares ∧ c = mkCondition f cmp v []) ∨
   o = "in" ∧ c = mkCondition f EmptyString EmptyString (Split v ",") ∨
   o = "null" ∧ c = mkCondition f (if String.eqb v "true" then "ISN" else "INN") EmptyString []).
Proof.
  unfold condition. rewrite <- is_ident_spec. destruct (is_ident f); [|split; [done|by intros [? _]]].
  cbn [negb throw_if mbind res_bind].
  assert (Hops : ∀ x cmp, operators !! x = Some cmp ↔ (x, cmp) ∈ compares ∨ x = "in" ∧ cmp = EmptyString ∨
    x = "null" ∧ cmp = EmptyString).
  { intros x cmp. unfold operators. rewrite <- elem_of_list_to_map; [|apply (bool_decide_unpack _); by vm_compute].
    unfold compares. rewrite !elem_of_cons, !elem_of_nil. naive_solver. }
  split.
  - destruct (operators !! _) as [cmp|] eqn:Ho; cbn [of_option mbind res_bind]; [|done]. apply Hops in Ho.
    intros H. split; [done|]. destruct (is_empty o) eqn:He.
    { apply is_empty_spec in He as ->. left. split; [done|].
      destruct Ho as [Ho|[[Ho _]|[Ho _]]]; [|done..]. unfold compares in Ho. rewrite !elem_of_cons, elem_of_nil in Ho.
      naive_solver. }
    right. destruct (String.eqb_spec o "in") as [->|Hin]; [right; left; split; [done|congruence]|].
    destruct (String.eqb_spec o "null") as [->|Hnu]; [right; right; split; [done|by destruct (String.eqb v _); congruence]|].
    destruct Ho as [Ho|[[Ho _]|[Ho _]]]; [|done..]. left. exists cmp. split; [done|congruence].
  - intros [_ H]. destruct H as [[-> ->]|[(cmp & Ho & ->)|[[-> ->]|[-> ->]]]].
    + done.
    + unfold compares in Ho. repeat (apply elem_of_cons in Ho as [[= -> ->]|Ho]; [done|]). by apply elem_of_nil in Ho.
    + done.
    + cbn. by destruct (String.eqb v "true").
Qed.

Lemma page_spec n v p p' : page n v p = Ok p' ↔ ∃ z, Atoi v = Some z ∧
  (n = "limit" ∧ (1 <= z <= 1000)%Z ∧ p' = mkParams (Search p) (OrderBy p) (Fields p) z (Offset p) ∨
   n = "offset" ∧ (0 <= z)%Z ∧ p' = mkParams (Search p) (OrderBy p) (Fields p) (Limit p) z).
Proof.
  unfold page, MaxLimit. destruct (String.eqb_spec n "limit") as [->|Hl].
  - destruct (Atoi v) as [z|]; [|split; [done|by intros (? & ? & _)]].
    destruct (z <? 1)%Z eqn:H1; [|destruct (1000 <? z)%Z eqn:H2]; cbn; split; try done; bool_to_prop.
    1,2: intros (z' & [= <-] & [(_ & ? & _)|(? & _)]); [lia|done].
    + intros [= <-]. exists z. split; [done|]. left. split_and!; [done|lia..|done].
    + intros (z' & [= <-] & [(_ & _ & ->)|(? & _)]); done.
  - destruct (String.eqb_spec n "offset") as [->|Ho].
    + destruct (Atoi v) as [z|]; [|split; [done|by intros (? & ? & _)]].
      destruct (z <? 0)%Z eqn:H1; cbn; split; try done; bool_to_prop.
      * intros (z' & [= <-] & [(? & _)|(_ & ? & _)]); [done|lia].
      * intros [= <-]. exists z. split; [done|]. right. split_and!; [done|lia|done].
      * intros (z' & [= <-] & [(? & _)|(_ & _ & ->)]); done.
    + split; [done|]. intros (z & _ & [(? & _)|(? & _)]); done.
Qed.

(** ** Lemmas: one name *)

(** What one name adds. *)
Definition adds (p : Params) (m : meaning) : Params :=
  match m with
  | Filters c => mkParams (Search p ++ [c]) (OrderBy p) (Fields p) (Limit p) (Offset p)
  | Sorts l => mkParams (Search p) (OrderBy p ++ l) (Fields p) (Limit p) (Offset p)
  | Selects l => mkParams (Search p) (OrderBy p) (Fields p ++ l) (Limit p) (Offset p)
  | Limits n => mkParams (Search p) (OrderBy p) (Fields p) n (Offset p)
  | Offsets n => mkParams (Search p) (OrderBy p) (Fields p) (Limit p) n
  | Nothing => p
  end.

(** The value split into its terms. *)
Lemma split_terms v (P : list string → Prop) :
  (∃ ts, ts ≠ [] ∧ Forall (lacks ",") ts ∧ v = Join ts "," ∧ P ts) ↔ P (Split v ",").
Proof.
  split.
  - intros (ts & Hne & Hl & -> & HP). rewrite Join_text, Split_Join; [done|done|]. by apply lacks_list.
  - intros HP. exists (Split v ","). split_and!; [apply Split_ne|apply lacks_list, Split_no_sep| |done].
    by rewrite Join_text, Join_Split.
Qed.

Lemma orders_lack ts l : Forall2 orders ts l → Forall (lacks ",") ts.
Proof.
  induction 1 as [|t o ts l Ht _ IH]; constructor; [|done].
  destruct Ht as [f Hf|f Hf]; apply (identifier_lacks ",") in Hf; try done.
  unfold lacks. cbn. by intros [?|?]%elem_of_cons.
Qed.

Lemma identifiers_lack fs : Forall identifier fs → Forall (lacks ",") fs.
Proof. intros H. eapply Forall_impl; [exact H|]. intros f Hf. by apply (identifier_lacks ","). Qed.

(** [brackets_spec] for a whole name. *)
Lemma filter_name f n o : bracketed n → o = EmptyString ∨ bracketed o → f = "filter" ∨ f = "page" →
  key_match (f +:+ "[" +:+ n +:+ (if is_empty o then "]" else "][" +:+ o +:+ "]")) = Some (f, n, o).
Proof.
  intros Hn Ho Hf. apply key_match_spec. split; [done|]. eexists. split; [done|]. apply brackets_spec.
  split; [done|]. destruct Ho as [->|Ho]; [by left|right]. split; [done|]. by rewrite negb_empty by apply Ho.
Qed.

(** The page with what follows its name. *)
Lemma page_name n s : dropped s → n ≠ EmptyString → lacks "]" n →
  ∃ o, key_match (("page[" +:+ n +:+ "]") +:+ s) = Some ("page", n, o).
Proof.
  intros [->|(x & Hx & Hl & ->)] Hn Hln.
  - exists EmptyString. rewrite sapp_nil_r. apply (filter_name "page" n EmptyString); [done|by left|by right].
  - exists x. pose proof (filter_name "page" n x (conj Hn Hln) (or_intror (conj Hx Hl)) (or_intror eq_refl)) as H.
    rewrite negb_empty in H by done. rewrite !sapp_assoc. exact H.
Qed.

Lemma sorts_spec v l : mapM_res sort_term (Split v ",") = Ok l ↔
  ∃ ts, ts ≠ [] ∧ v = Join ts "," ∧ Forall2 orders ts l.
Proof.
  rewrite mapM_res_Forall2. split.
  - intros H. exists (Split v ","). split; [apply Split_ne|]. split; [by rewrite Join_text, Join_Split|].
    eapply Forall2_impl; [exact H|]. intros t o. apply sort_term_spec.
  - intros (ts & Hne & -> & H). rewrite Join_text, Split_Join; [|done|by eapply lacks_list, orders_lack].
    eapply Forall2_impl; [exact H|]. intros t o. apply sort_term_spec.
Qed.

Lemma fields_spec v l : mapM_res field_name (Split v ",") = Ok l ↔
  l ≠ [] ∧ v = Join l "," ∧ Forall identifier l.
Proof.
  rewrite mapM_res_Forall2. split.
  - intros H. assert (Hl : l = Split v "," ∧ Forall identifier l).
    { clear -H. induction H as [|f g fs gs Hf _ [-> IH]]; [done|]. apply field_name_spec in Hf as [Hf ->].
      split; [done|by constructor]. }
    destruct Hl as [-> Hl]. split; [apply Split_ne|]. split; [by rewrite Join_text, Join_Split|done].
  - intros (Hne & -> & H). rewrite Join_text, Split_Join; [|done|by eapply lacks_list, identifiers_lack].
    clear Hne. induction H as [|f l Hf _ IH]; constructor; [|done]. by apply field_name_spec.
Qed.

(** A bracketed name in the loop. *)
Lemma step_bracketed v p k val f n o : value_of v k = Some val → key_match k = Some (f, n, o) →
  step v p k = if String.eqb f "page" then page n val p
               else c ← condition n o val;
                    Ok (mkParams (Search p ++ [c]) (OrderBy p) (Fields p) (Limit p) (Offset p)).
Proof.
  intros Hv Hk. unfold step. fold (value_of v k). rewrite Hv. cbn [of_option mbind res_bind].
  pose proof Hk as (Hf & s & Hs & Hb)%key_match_spec. apply brackets_spec in Hb as [_ Hb].
  assert (∃ t, k = f +:+ String "[" t) as [t Ht] by (rewrite Hs; destruct Hb as [[-> _]|[_ ->]]; by eexists).
  clear Hs Hb. subst k. destruct Hf as [-> | ->]; rewrite Hk; reflexivity.
Qed.

(** The client's own. *)
Lemma step_foreign v p k val : value_of v k = Some val → foreign k → step v p k = Ok p.
Proof.
  intros Hv Hk%foreign_spec. unfold step. fold (value_of v k). rewrite Hv. cbn [of_option mbind res_bind].
  assert (Hne : ∀ x, reserved (cut_before x "[") = true → String.eqb k x = false)
    by (intros x Hx; apply String.eqb_neq; congruence).
  assert (Hpre : ∀ x, lacks "[" x → reserved x = true → HasPrefix k (x +:+ "[") = false).
  { intros x Hx Hr. apply not_true_iff_false. intros [t ->]%HasPrefix_spec. rewrite sapp_assoc in Hk.
    unfold cut_before in Hk. change ("[" +:+ t) with (String "[" t) in Hk.
    rewrite Cut_lacks in Hk by done. cbn [fst] in Hk. congruence. }
  rewrite !Hne by done. change "filter[" with ("filter" +:+ "["). change "page[" with ("page" +:+ "[").
  rewrite !Hpre by (done || by apply lacks_spec). cbn [orb]. by rewrite Hk.
Qed.

(** The loop's body takes what the name means. *)
Lemma step_means v p k p' : step v p k = Ok p' ↔
  ∃ val m, value_of v k = Some val ∧ means k val m ∧ p' = adds p m.
Proof.
  destruct (value_of v k) as [val|] eqn:Hv.
  2: { split; [|by intros (? & ? & ? & _)]. unfold step. fold (value_of v k). by rewrite Hv. }
  assert (Hgo : (∃ m, means k val m ∧ p' = adds p m) ↔
    ∃ val' m, Some val = Some val' ∧ means k val' m ∧ p' = adds p m) by naive_solver.
  rewrite <- Hgo. clear Hgo. split.
  - destruct (key_match k) as [[[f n] o]|] eqn:Hk.
    + rewrite (step_bracketed v p k val f n o) by done.
      apply key_match_spec in Hk as (Hf & s & -> & Hb). apply brackets_spec in Hb as [Hn Hs].
      destruct Hf as [-> | ->]; cbn [String.eqb].
      * destruct (condition n o val) as [c|] eqn:Hc; [|done]. intros [= <-]. exists (Filters c). split; [|done].
        apply condition_spec in Hc as (Hi & [[-> ->]|[(cmp & Ho & ->)|[[-> ->]|[-> ->]]]]).
        -- destruct Hs as [[-> _]|[[? _] _]]; [|done]. by apply means_equal.
        -- destruct Hs as [[-> ->]|[_ ->]]; [|by apply means_compare].
           unfold compares in Ho. rewrite !elem_of_cons, elem_of_nil in Ho. naive_solver.
        -- destruct Hs as [[_ ?]|[_ ->]]; [done|].
           rewrite <- (Join_Split val ",") at 1. apply means_in; [done|apply Split_ne|apply lacks_list, Split_no_sep].
        -- destruct Hs as [[_ ?]|[_ ->]]; [done|].
           destruct (String.eqb_spec val "true") as [->|]; [by apply means_null|by apply means_not_null].
      * intros (z & Hz & H)%page_spec.
        assert (Hd : ∃ d, dropped d ∧ s = "[" +:+ n +:+ "]" +:+ d).
        { destruct Hs as [[-> _]|[[Ho Hl] ->]]; [exists EmptyString; split; [by left|done]|].
          exists ("[" +:+ o +:+ "]"). split; [right; by exists o|done]. }
        destruct Hd as (d & Hd & ->). destruct H as [(-> & Hr & ->)|(-> & Hr & ->)].
        -- exists (Limits z). split; [by apply (means_limit d)|done].
        -- exists (Offsets z). split; [by apply (means_offset d)|done].
    + unfold step. fold (value_of v k). rewrite Hv, Hk. cbn [of_option mbind res_bind].
      destruct (String.eqb_spec k "sort") as [->|].
      { destruct (mapM_res sort_term _) as [l|] eqn:Hl; [|done]. intros [= <-]. exists (Sorts l). split; [|done].
        apply sorts_spec in Hl as (ts & Hne & -> & Hl). by apply means_sort. }
      destruct (String.eqb_spec k "fields") as [->|].
      { destruct (mapM_res field_name _) as [l|] eqn:Hl; [|done]. intros [= <-]. exists (Selects l). split; [|done].
        apply fields_spec in Hl as (Hne & -> & Hl). by apply means_fields. }
      destruct (_ || _); [done|]. destruct (_ || _); [done|]. destruct (reserved _) eqn:Hr; [done|].
      intros [= <-]. exists Nothing. split; [by apply means_own, foreign_spec|done].
  - intros (m & Hm & ->). revert Hv.
    destruct Hm as [ts l Hne Hl|fs Hne Hl|f val Hf|f op cmp val Hf Ho|f l Hf Hne Hl|f Hf|f val Hf Hval
                   |s val n Hd Hn Hr|s val n Hd Hn Hr|k val Hk]; intros Hv.
    + unfold step. fold (value_of v "sort"). rewrite Hv. cbn [of_option mbind res_bind String.eqb].
      cbn. rewrite (proj2 (sorts_spec _ l)); [done|]. by exists ts.
    + unfold step. fold (value_of v "fields"). rewrite Hv. cbn [of_option mbind res_bind String.eqb].
      cbn. by rewrite (proj2 (fields_spec _ fs)).
    + rewrite (step_bracketed v p _ val "filter" f EmptyString); [|done|].
      * cbn [String.eqb]. rewrite (proj2 (condition_spec f EmptyString val (mkCondition f "EQL" val []))); [done|].
        split; [done|by left].
      * apply (filter_name "filter" f EmptyString); [by apply lacks_not_empty|by left|by left].
    + assert (Hop : bracketed op).
      { unfold compares in Ho. repeat (apply elem_of_cons in Ho as [[= -> ->]|Ho]; [split; [done|by apply lacks_spec]|]).
        by apply elem_of_nil in Ho. }
      rewrite (step_bracketed v p _ val "filter" f op); [|done|].
      * cbn. rewrite (proj2 (condition_spec f op val (mkCondition f cmp val []))); [done|].
        split; [done|]. right. left. by exists cmp.
      * pose proof (filter_name "filter" f op (lacks_not_empty f Hf) (or_intror Hop) (or_introl eq_refl)) as H.
        by rewrite negb_empty in H by apply Hop.
    + rewrite (step_bracketed v p _ (Join l ",") "filter" f "in"); [|done|].
      * cbn. rewrite (proj2 (condition_spec f "in" _ (mkCondition f EmptyString EmptyString l))); [done|].
        split; [done|]. right. right. left. split; [done|]. rewrite Join_text, Split_Join; [done|done|by apply lacks_list].
      * apply (filter_name "filter" f "in"); [by apply lacks_not_empty|right; split; [done|by apply lacks_spec]|by left].
    + rewrite (step_bracketed v p _ "true" "filter" f "null"); [|done|].
      * cbn. rewrite (proj2 (condition_spec f "null" _ (mkCondition f "ISN" EmptyString []))); [done|].
        split; [done|]. right. right. right. done.
      * apply (filter_name "filter" f "null"); [by apply lacks_not_empty|right; split; [done|by apply lacks_spec]|by left].
    + rewrite (step_bracketed v p _ val "filter" f "null"); [|done|].
      * cbn. rewrite (proj2 (condition_spec f "null" _ (mkCondition f "INN" EmptyString []))); [done|].
        split; [done|]. right. right. right. apply String.eqb_neq in Hval. by rewrite Hval.
      * apply (filter_name "filter" f "null"); [by apply lacks_not_empty|right; split; [done|by apply lacks_spec]|by left].
    + destruct (page_name "limit" s Hd) as (o & Ho); [by apply (bool_decide_unpack _); vm_compute|by apply lacks_spec|].
      rewrite (step_bracketed v p _ val "page" "limit" o); [|done|exact Ho].
      rewrite String.eqb_refl. apply page_spec. exists n. split; [done|by left].
    + destruct (page_name "offset" s Hd) as (o & Ho); [by apply (bool_decide_unpack _); vm_compute|by apply lacks_spec|].
      rewrite (step_bracketed v p _ val "page" "offset" o); [|done|exact Ho].
      rewrite String.eqb_refl. apply page_spec. exists n. split; [done|by right].
    + by apply (step_foreign v p k val).
Qed.

(** ** Lemmas: the names in turn *)

Lemma foldl_adds ms p : foldl adds p ms =
  mkParams (Search p ++ Search (said ms)) (OrderBy p ++ OrderBy (said ms)) (Fields p ++ Fields (said ms))
    (default (Limit p) (last (omap (λ m, match m with Limits n => Some n | _ => None end) ms)))
    (default (Offset p) (last (omap (λ m, match m with Offsets n => Some n | _ => None end) ms))).
Proof.
  revert p. induction ms as [|m ms IH]; intros p.
  - cbn. rewrite !app_nil_r. by destruct p.
  - cbn [foldl]. rewrite IH. unfold said. cbn [Search OrderBy Fields Limit Offset].
    destruct m; cbn [adds Search OrderBy Fields Limit Offset]; rewrite ?bind_cons; cbn [omap list_omap];
      rewrite ?last_cons, <- ?app_assoc; cbn [app]; try done; f_equal;
      match goal with |- default _ ?o = _ => by destruct o end.
Qed.

Lemma loop_means v ks p p' : foldM_res (step v) ks p = Ok p' ↔
  ∃ ms, Forall2 (λ k m, ∃ val, value_of v k = Some val ∧ means k val m) ks ms ∧ p' = foldl adds p ms.
Proof.
  revert p. induction ks as [|k ks IH]; intros p; cbn [foldM_res].
  - split; [intros [= <-]; by exists []|]. intros (ms & ->%Forall2_nil_inv_l & ->). done.
  - destruct (step v p k) as [p1|e] eqn:Hs; cbn [mbind res_bind].
    + rewrite IH. split.
      * intros (ms & Hms & ->). apply step_means in Hs as (val & m & Hv & Hm & ->). exists (m :: ms).
        split; [|done]. constructor; [by exists val|done].
      * intros (ms & (m & ms' & (val & Hv & Hm) & Hms & ->)%Forall2_cons_inv_l & ->). exists ms'. split; [done|].
        assert (step v p k = Ok (adds p m)) as H by (apply step_means; by exists val, m). cbn [foldl]. congruence.
    + split; [done|]. intros (ms & (m & ms' & (val & Hv & Hm) & Hms & ->)%Forall2_cons_inv_l & _).
      assert (step v p k = Ok (adds p m)) as H by (apply step_means; by exists val, m). congruence.
Qed.

Lemma Parse_from_perm ks ks' v : ks ≡ₚ ks' → Parse_from ks v = Parse_from ks' v.
Proof. intros H. unfold Parse_from. by rewrite (sort_Strings_perm ks ks' H). Qed.

Lemma elem_of_keys {A} (m : gmap string A) k :
  k ∈ sort_Strings (map_to_list m).*1 ↔ is_Some (m !! k).
Proof.
  rewrite elem_of_sort_Strings, list_elem_of_fmap. split.
  - intros ([k' x] & -> & H%elem_of_map_to_list). by exists x.
  - intros [x H%elem_of_map_to_list]. by exists (k, x).
Qed.

(** ** Properties *)

(** C29. The translation of a list request is what its names mean, one by one: whatever order Go
    iterates the map in, [Parse] succeeds iff every name, with the last value given for it,
    means something - [sort] and [fields] with terms that are identifiers, [filter[f]] and
    [filter[f][op]] with an identifier and one of the ten operators, [page[limit]] from 1 to
    1000 and [page[offset]] from 0, both also with a second bracket that is dropped, or a name
    that is the client's own - and gives the conditions, orders and fields of the names in their
    order, and the page they name. *)
Theorem Parse_translates (v : Values) keys p :
  keys ≡ₚ (map_to_list v).*1 →
  Parse_from keys v = Ok p ↔
  ∃ ms, Forall2 (λ k m, ∃ val, last (default [] (v !! k)) = Some val ∧ means k val m)
          (sort_Strings (map_to_list v).*1) ms ∧ p = said ms.
Proof.
  intros Hk. rewrite (Parse_from_perm _ _ v Hk). unfold Parse_from. rewrite loop_means.
  assert (He : ∀ ms, foldl adds initial ms = said ms) by (intros ms; rewrite foldl_adds; done).
  by setoid_rewrite He.
Qed.

Lemma Parse_translates_witness :
  Parse_from ["sort"; "filter[state][lt]"]
    (list_to_map [("filter[state][lt]", ["5"]); ("sort", ["-created"])])
  = Ok (mkParams [mkCondition "state" "LSS" "5" []] ["created DESC"] [] 500 0).
Proof.
  apply (Parse_translates
    (list_to_map [("filter[state][lt]", ["5"]); ("sort", ["-created"])])
    ["sort"; "filter[state][lt]"]).
  - apply (bool_decide_unpack _). by vm_compute.
  - exists [Filters (mkCondition "state" "LSS" "5" []); Sorts ["created DESC"]]. split; [|reflexivity].
    assert (Hi : ∀ x, is_ident x = true → identifier x) by (intros x; apply is_ident_spec).
    assert (Hs : sort_Strings (map_to_list (list_to_map [("filter[state][lt]", ["5"]); ("sort", ["-created"])]
      : gmap string (list string))).*1 = ["filter[state][lt]"; "sort"]) by (vm_compute; reflexivity).
    rewrite Hs. constructor; [|constructor; [|constructor]].
    + exists "5". split; [reflexivity|]. apply (means_compare "state" "lt"); [by apply Hi|].
      do 2 right. left.
    + exists "-created". split; [reflexivity|]. apply (means_sort ["-created"]); [done|].
      constructor; [|constructor]. by apply (descending "created"), Hi.
Defined.

(** ** What a client can put into SQL, and what is refused *)

Definition comparisons : list string :=
  ["EQL"; "NEQ"; "LSS"; "LEQ"; "GTR"; "GEQ"; "LKE"; "IKE"; "ISN"; "INN"].

Definition condition_ok (c : Condition) : Prop :=
  identifier (Field c) ∧
  (Compare c ∈ comparisons ∧ ValArr c = [] ∨
   Compare c = EmptyString ∧ Value c = EmptyString ∧ ValArr c ≠ []).

Definition order_ok (t : string) : Prop := ∃ f, identifier f ∧ (t = f +:+ " ASC" ∨ t = f +:+ " DESC").

Definition meaning_ok (m : meaning) : Prop :=
  match m with
  | Filters c => condition_ok c
  | Sorts l => Forall order_ok l
  | Selects l => Forall identifier l
  | Limits n => (1 <= n <= 1000)%Z
  | Offsets n => (0 <= n < 2 ^ 63)%Z
  | Nothing => True
  end.

Lemma means_ok k v m : means k v m → meaning_ok m.
Proof.
  destruct 1 as [ts l Hne Hl|fs Hne Hl|f v Hf|f op cmp v Hf Ho|f l Hf Hne Hl|f Hf|f v Hf Hval
                |s v n Hd Hn Hr|s v n Hd Hn Hr|k v Hk]; cbn; try done.
  - clear Hne. induction Hl as [|t o ts l Ht _ IH]; constructor; [|done]. destruct Ht as [f Hf|f Hf]; exists f; auto.
  - split; [done|]. left. split; [left|done].
  - split; [done|]. left. split; [|done]. unfold compares in Ho. cbn [Compare].
    repeat (apply elem_of_cons in Ho as [[= -> ->]|Ho]; [unfold comparisons; repeat first [by left|right]|]).
    by apply elem_of_nil in Ho.
  - split; [done|]. by right.
  - split; [done|]. left. split; [do 8 right; left|done].
  - split; [done|]. left. split; [do 9 right; left|done].
  - apply ParseInt_bits in Hn. unfold in_bits in Hn. bool_to_prop. lia.
Qed.

(** Of an accepted query every condition names an identifier and one of the ten comparisons (or a list
    of values), every order term is an identifier and a direction, every field an identifier,
    the limit is in 1..1000 and the offset a non-negative 64-bit integer. *)
Lemma Parse_safe v p : Parse v = Ok p →
  Forall condition_ok (Search p) ∧ Forall order_ok (OrderBy p) ∧ Forall identifier (Fields p) ∧
  (1 <= Limit p <= 1000)%Z ∧ (0 <= Offset p < 2 ^ 63)%Z.
Proof.
  intros H. apply (foldM_res_inv (λ p, Forall condition_ok (Search p) ∧ Forall order_ok (OrderBy p) ∧
    Forall identifier (Fields p) ∧ (1 <= Limit p <= 1000)%Z ∧ (0 <= Offset p < 2 ^ 63)%Z)) in H; [done| |].
  - intros k p1 p2 _ (Hs & Ho & Hf & Hl & Hoff) (val & m & _ & Hm%means_ok & ->)%step_means.
    destruct m; cbn in *; split_and!; try done; try lia; apply Forall_app; auto.
  - cbn. split_and!; done || constructor.
Qed.

(** The loop's body panics only on a name without values. *)
Lemma step_panic v p k : step v p k = Err Panic → value_of v k = None.
Proof.
  unfold step, value_of. destruct (last _) as [val|]; [|done].
  cbn [of_option mbind res_bind]. intros H. exfalso. revert H.
  assert (Hsort : ∀ f, sort_term f ≠ Err Panic) by (intros f; unfold sort_term; destruct (HasPrefix f "-"); by destruct (negb _)).
  assert (Hfield : ∀ f, field_name f ≠ Err Panic) by (intros f; unfold field_name; by destruct (negb _)).
  destruct (String.eqb k "sort").
  { destruct (mapM_res sort_term _) eqn:Hm; cbn; [done|]. intros [= ->]. apply mapM_res_err in Hm as (f & _ & Hf).
    by apply (Hsort f). }
  destruct (String.eqb k "fields").
  { destruct (mapM_res field_name _) eqn:Hm; cbn; [done|]. intros [= ->]. apply mapM_res_err in Hm as (f & _ & Hf).
    by apply (Hfield f). }
  destruct (_ || _); [done|]. destruct (HasPrefix k "filter[" || _).
  - destruct (key_match k) as [[[f n] o]|]; cbn [of_option mbind res_bind]; [|done].
    destruct (String.eqb f "page"); [unfold page; by repeat case_match|].
    unfold condition. destruct (negb _); [done|]. cbn [throw_if mbind res_bind].
    destruct (operators !! _); [|done]. cbn [of_option mbind res_bind]. by repeat case_match.
  - by destruct (reserved _).
Qed.

(** A list request is either translated or refused, never a crash and never silently narrowed: where
    every name has a value, [Parse] gives an error exactly when some name means nothing with the
    value it has, and that error is not the run-time panic. *)
Lemma Parse_refuses v : (∀ k vals, v !! k = Some vals → vals ≠ []) →
  (∃ e, Parse v = Err e ∧ e ≠ Panic) ↔ ∃ k val, is_Some (v !! k) ∧ value_of v k = Some val ∧ ∀ m, ¬ means k val m.
Proof.
  intros Hne. split.
  - intros (e & (s & k & Hk%elem_of_keys & Hs)%foldM_res_err & Hp).
    assert (∃ val, value_of v k = Some val) as [val Hv].
    { destruct Hk as [vals Hk]. unfold value_of. rewrite Hk. cbn. apply Hne in Hk.
      destruct (last vals) eqn:Hl; [eauto|]. by apply last_None in Hl. }
    exists k, val. split_and!; [done..|]. intros m Hm.
    assert (step v s k = Ok (adds s m)) by (apply step_means; by exists val, m). congruence.
  - intros (k & val & Hk & Hv & Hm). destruct (Parse v) as [p|e] eqn:Hp.
    + exfalso. apply (foldM_res_elem _ _ _ _ k) in Hp as (s1 & s2 & (val' & m & Hv' & Hm' & _)%step_means).
      * rewrite Hv in Hv'. injection Hv' as <-. by apply (Hm m).
      * by apply elem_of_keys.
    + exists e. split; [done|]. intros ->. apply foldM_res_err in Hp as (s & k' & [vals Hk']%elem_of_keys & Hs).
      apply step_panic in Hs. unfold value_of in Hs. rewrite Hk' in Hs. apply last_None in Hs. by apply (Hne k' vals).
Qed.

(** A second bracket after [page[limit]] is dropped: the request pages as if it were not there. *)
Lemma page_second_bracket_dropped :
  Parse (list_to_map [("page[limit][lte]", ["50"])]) = Ok (mkParams [] [] [] 50 0).
Proof. by vm_compute. Qed.
