(* ===== verification/Frame.v ===== *)
(** * lib/gateway/frame: the control-plane frames

    [Frame] is the message of frame.go; [unmarshal] and [marshal_wire] are
    [json.Unmarshal] and [json.Marshal] of its wire struct, [Parse] and [Encode]
    the two directions.  An argument of type [any] is what [json.Marshal] makes of
    it.  Proved: what an accepted frame is, that encoding and parsing are inverse,
    and that the identifiers are UUIDs of version 4. *)

From S2P Require Import Prelude.
From S2P Require Import GoStrings.
From S2P Require Import GoJson.

(** ** Data *)

Definition Call : Z := 2.
Definition CallResult : Z := 3.
Definition CallError : Z := 4.

Definition MaxSize : nat := 64 * 1024.

Record Frame := mkFrame {
  Type_ : Z;
  ID : string;
  Action : string;
  Payload : string;
  Code : Z;
  Message : string
}.

#[global] Instance Frame_eq_dec : EqDecision Frame.
Proof. solve_decision. Defined.

(** The struct on the wire: nil pointers and the nil [RawMessage] are [None]. *)
Record wire := mkWire {
  T : option Z;
  U : string;
  A : string;
  P : option string;
  C : option Z;
  M : string
}.

Inductive frame_error : Type :=
  | ErrTooLarge
  | ErrJSON
  | MissingT
  | NotUUID
  | CallNeedsAction
  | CallErrorNeedsC
  | TypeNotAllowed (t : Z)
  | PayloadNotObject
  | CannotEncode (t : Z)
  | ErrMarshal.

#[global] Instance frame_error_eq_dec : EqDecision frame_error.
Proof. solve_decision. Defined.

(** ** The wire *)

(** An [*int] field after the members [l] of its name, in order: null makes it
    nil, an integer of 64 bits sets it, anything else is a type error. *)
Definition int_pointer (l : list json) : option (option Z) :=
  foldl (λ acc v,
    match acc, v with
    | Some _, JNull => Some None
    | Some _, JNum lex => n ← ParseInt lex 64; Some (Some n)
    | _, _ => None
    end) (Some None) l.

(** A string field takes strings and null. *)
Definition strings_only (l : list json) : bool :=
  forallb (λ v, match v with JStr _ | JNull => true | _ => false end) l.

(** The bytes of the last member of a name; [None] when there is none. *)
Definition raw_field (name : string) (raws : list (string * string)) : option string :=
  last (filter (λ r, folded (Unquote r.1) = folded name) raws).*2.

(** [json.Unmarshal(b, &w)]; [None] for its error. *)
Definition unmarshal (b : string) : option wire :=
  match parse b with
  | Some JNull => Some (mkWire None EmptyString EmptyString None None EmptyString)
  | Some (JObj l) =>
      t ← int_pointer (field_members "t" l);
      c ← int_pointer (field_members "c" l);
      raws ← raw_members b;
      if strings_only (field_members "u" l) && strings_only (field_members "a" l)
         && strings_only (field_members "m" l)
      then Some (mkWire t (string_field "u" l) (string_field "a" l) (raw_field "p" raws) c
                   (string_field "m" l))
      else None
  | _ => None
  end.

(** [json.Marshal(w)]: the fields in their order, [omitempty] on all but [t] and [u];
    [None] when the payload is not JSON. *)
Definition marshal_wire (w : wire) : option string :=
  p ← match P w with
      | None | Some EmptyString => Some []
      | Some raw => u ← parse raw; Some [("p", escape_html u)]
      end;
  let str k s := if is_empty s then [] else [(k, JStr (quote_lex s))] in
  let int z := JNum (Itoa z) in
  Some (print (JObj (
    [("t", from_option int JNull (T w)); ("u", JStr (quote_lex (U w)))]
    ++ str "a" (A w) ++ p ++ from_option (λ c, [("c", int c)]) [] (C w) ++ str "m" (M w)))).

(** ** Operations *)

(** The four dashes and the hex digits of a UUID's text. *)
Fixpoint uuid_from (i : nat) (s : string) : bool :=
  match s with
  | EmptyString => true
  | String c r =>
      (if bool_decide (i ∈ [8; 13; 18; 23]) then Ascii.eqb c "-" else is_hex c)
      && uuid_from (S i) r
  end.

Definition isUUID (s : string) : bool :=
  (String.length s =? 36)%nat && uuid_from 0 s.

(** The payload of [Parse]: an object, ["{}"] for none or null. *)
Definition payload_of (p : option string) : res frame_error string :=
  let p := TrimSpace (default EmptyString p) in
  if is_empty p || String.eqb p "null" then Ok "{}"
  else if HasPrefix p "{" then Ok p else Err PayloadNotObject.

Definition Parse (b : string) : res frame_error Frame :=
  throw_if (MaxSize <? String.length b)%nat ErrTooLarge;;
  w ← of_option (unmarshal b) ErrJSON;
  t ← of_option (T w) MissingT;
  throw_if (negb (isUUID (U w))) NotUUID;;
  code ← (if (t =? Call)%Z then
            throw_if (negb (HasPrefix (A w) "/")) CallNeedsAction;; Ok 0%Z
          else if (t =? CallResult)%Z then Ok 0%Z
          else if (t =? CallError)%Z then of_option (C w) CallErrorNeedsC
          else Err (TypeNotAllowed t));
  p ← payload_of (P w);
  Ok (mkFrame t (U w) (A w) p code (M w)).

Definition Encode (f : Frame) : res frame_error string :=
  w ← (if (Type_ f =? Call)%Z then
         Ok (mkWire (Some (Type_ f)) (ID f) (Action f) (Some (Payload f)) None EmptyString)
       else if (Type_ f =? CallResult)%Z then
         Ok (mkWire (Some (Type_ f)) (ID f) EmptyString (Some (Payload f)) None EmptyString)
       else if (Type_ f =? CallError)%Z then
         Ok (mkWire (Some (Type_ f)) (ID f) EmptyString None (Some (Code f)) (Message f))
       else Err (CannotEncode (Type_ f)));
  let w := if is_empty (default EmptyString (P w)) && negb (Type_ f =? CallError)%Z
           then mkWire (T w) (U w) (A w) (Some "{}") (C w) (M w) else w in
  of_option (marshal_wire w) ErrMarshal.

(** An argument of type [any]: nil, or a value with what [json.Marshal] gives for
    it (no bytes with an error). *)
Inductive any : Type :=
  | any_nil
  | any_value (marshalled : option string).

Definition payload_bytes (payload : any) : string :=
  match payload with
  | any_nil => "{}"
  | any_value m => default EmptyString m
  end.

Definition NewCall (id action : string) (payload : any) : Frame :=
  mkFrame Call id action (payload_bytes payload) 0 EmptyString.

Definition Result (f : Frame) (payload : any) : Frame :=
  mkFrame CallResult (ID f) EmptyString (payload_bytes payload) 0 EmptyString.

Definition Error (f : Frame) (code : Z) (msg : string) : Frame :=
  mkFrame CallError (ID f) EmptyString EmptyString code msg.

(** [%x] of bytes: two lower-case digits each. *)
Definition hex_bytes (l : list N) : string :=
  foldr (λ n s, String (hex_digit (n / 16)) (String (hex_digit (n mod 16)) s)) EmptyString l.

(** [NewID] with [b] the sixteen bytes [rand.Read] gave. *)
Definition NewID (b : list N) : string :=
  let b := <[6 := N.lor (N.land (nth 6 b 0%N) 15) 64]> b in
  let b := <[8 := N.lor (N.land (nth 8 b 0%N) 63) 128]> b in
  hex_bytes (take 4 b) +:+ "-" +:+ hex_bytes (take 2 (drop 4 b)) +:+ "-"
  +:+ hex_bytes (take 2 (drop 6 b)) +:+ "-" +:+ hex_bytes (take 2 (drop 8 b)) +:+ "-"
  +:+ hex_bytes (take 6 (drop 10 b)).

(** ** Lemmas *)

Lemma uuid_from_ascii i s : uuid_from i s = true → sforall is_ascii s = true.
Proof.
  revert i. induction s as [|c s IH]; intros i; [done|]. cbn [uuid_from sforall].
  intros [Hc Hs]%andb_true_iff. rewrite (IH _ Hs), andb_true_r.
  destruct (bool_decide _).
  - by apply Ascii.eqb_eq in Hc as ->.
  - by apply hex_ascii in Hc as [? _].
Qed.

Lemma isUUID_utf8 s : isUUID s = true → valid_utf8 s = true.
Proof.
  intros [_ H]%andb_true_iff. by eapply ascii_valid_utf8, uuid_from_ascii.
Qed.

Lemma raw_field_elem name raws p : raw_field name raws = Some p → ∃ k, (k, p) ∈ raws.
Proof.
  unfold raw_field. intros H%last_Some_elem_of.
  apply list_elem_of_fmap in H as ([k q] & -> & Hq). apply list_elem_of_filter in Hq as [_ Hq].
  by exists k.
Qed.

(** The payload of a struct decode is one of the documents of the text. *)
Lemma unmarshal_payload b w p : unmarshal b = Some w → P w = Some p →
  ∃ v, parse p = Some v ∧ skip_ws p = p ∧ (∀ l, v = JObj l → braced p).
Proof.
  unfold unmarshal. destruct (parse b) as [[| | | | |l]|] eqn:Hb; try done.
  { by intros [= <-]. }
  destruct (int_pointer (field_members "t" l)); cbn [mbind option_bind]; [|done].
  destruct (int_pointer (field_members "c" l)); cbn [mbind option_bind]; [|done].
  destruct (raw_members_parse b l Hb) as (raws & Hr & Hall). rewrite Hr.
  cbn [mbind option_bind]. destruct (_ && _); [|done]. intros [= <-]. cbn [P].
  intros (k & Hk)%raw_field_elem.
  destruct (Forall2_elem_l _ _ _ _ Hall Hk) as (kv & _ & _ & Hv). cbn in Hv.
  apply raw_members_front in Hr as Hf. apply raw_members_braced in Hr as Hbr.
  rewrite Forall_forall in Hf, Hbr.
  exists kv.2. split_and!; [done|by apply (Hf _ Hk)|].
  intros l' Hl'. apply (Hbr _ Hk l'). cbn. by rewrite Hv, Hl'.
Qed.

Lemma payload_of_ok b w p : unmarshal b = Some w → payload_of (P w) = Ok p →
  ∃ l, parse p = Some (JObj l).
Proof.
  intros Hw. unfold payload_of.
  destruct (is_empty _ || _) eqn:He; [intros [= <-]; by exists []|].
  destruct (HasPrefix _ "{") eqn:Hp; [|done]. intros [= <-].
  destruct (P w) as [raw|] eqn:Hraw; [|done]. cbn [default] in *. unfold id in *.
  destruct (unmarshal_payload b w raw Hw Hraw) as (v & Hv & Hws & Hbr).
  destruct (raw_member_object raw v Hv Hws Hp Hbr) as (l & -> & ->). by exists l.
Qed.

Lemma Parse_inv b f : Parse b = Ok f →
  String.length b ≤ MaxSize ∧ isUUID (ID f) = true ∧
  Type_ f ∈ [Call; CallResult; CallError] ∧
  (Type_ f = Call → HasPrefix (Action f) "/" = true) ∧
  (Type_ f ≠ CallError → Code f = 0%Z) ∧
  ∃ l, parse (Payload f) = Some (JObj l).
Proof.
  unfold Parse. destruct (MaxSize <? String.length b)%nat eqn:Hlen; cbn [throw_if mbind res_bind]; [done|].
  apply Nat.ltb_ge in Hlen.
  destruct (unmarshal b) as [w|] eqn:Hw; cbn [of_option mbind res_bind]; [|done].
  destruct (T w) as [t|]; cbn [of_option mbind res_bind]; [|done].
  destruct (isUUID (U w)) eqn:Hu; cbn [negb throw_if mbind res_bind]; [|done].
  intros H.
  assert (∃ code, t ∈ [Call; CallResult; CallError] ∧
    (t = Call → HasPrefix (A w) "/" = true) ∧ (t ≠ CallError → code = 0%Z) ∧
    (p ← payload_of (P w); Ok (mkFrame t (U w) (A w) p code (M w))) = Ok f)
    as (code & Ht & Hact & Hcode & Hp).
  { destruct (Z.eqb_spec t Call) as [->|].
    - destruct (HasPrefix (A w) "/"); [|done]. exists 0%Z. split_and!; try done; left.
    - destruct (Z.eqb_spec t CallResult) as [->|].
      + exists 0%Z. split_and!; try done. right; left.
      + destruct (Z.eqb_spec t CallError) as [->|]; [|done].
        destruct (C w) as [c|]; [|done]. exists c. split_and!; try done.
        by right; right; left. }
  destruct (payload_of (P w)) as [p|] eqn:Hpay; [|done]. injection Hp as <-.
  split_and!; try done. by eapply payload_of_ok.
Qed.

(** ** Lemmas: what is sent *)

Definition object_payload (p : string) : Prop :=
  p = EmptyString ∨ ∃ l, parse p = Some (JObj l) ∧ (json_depth (JObj l) ≤ 9999)%N.

Definition sendable (f : Frame) : Prop :=
  isUUID (ID f) = true ∧
  (Type_ f = Call ∧ HasPrefix (Action f) "/" = true ∧ valid_utf8 (Action f) = true
     ∧ object_payload (Payload f)
   ∨ Type_ f = CallResult ∧ object_payload (Payload f)
   ∨ Type_ f = CallError ∧ in_bits 64 (Code f) = true ∧ valid_utf8 (Message f) = true).

(** The frame the other side has: only the fields of its type travel, and the
    payload is compacted. *)
Definition received (f : Frame) : Frame :=
  if (Type_ f =? CallError)%Z
  then mkFrame (Type_ f) (ID f) EmptyString "{}" (Code f) (Message f)
  else mkFrame (Type_ f) (ID f)
         (if (Type_ f =? Call)%Z then Action f else EmptyString)
         (if is_empty (Payload f) then "{}" else default EmptyString (compact (Payload f)))
         0 EmptyString.

Lemma raw_field_print name (l : list (string * json)) :
  raw_field name ((λ kv, (kv.1, print kv.2)) <$> l) = print <$> last (field_members name l).
Proof.
  unfold raw_field, field_members, member_key. rewrite <- fmap_last. f_equal.
  induction l as [|kv l IH]; [done|]. rewrite fmap_cons, !filter_cons. cbn [fst].
  destruct (decide _); cbn; by rewrite IH.
Qed.

(** A struct decode of a printed object. *)
Lemma unmarshal_print l : json_ok (JObj l) → (json_depth (JObj l) ≤ 10000)%N →
  unmarshal (print (JObj l)) =
    t ← int_pointer (field_members "t" l);
    c ← int_pointer (field_members "c" l);
    if strings_only (field_members "u" l) && strings_only (field_members "a" l)
       && strings_only (field_members "m" l)
    then Some (mkWire t (string_field "u" l) (string_field "a" l)
                 (print <$> last (field_members "p" l)) c (string_field "m" l))
    else None.
Proof.
  intros Hok Hd. unfold unmarshal. rewrite parse_print by done.
  rewrite raw_members_print by done.
  destruct (int_pointer (field_members "t" l)); [|done]. cbn [mbind option_bind].
  destruct (int_pointer (field_members "c" l)); [|done]. cbn [mbind option_bind].
  by rewrite raw_field_print.
Qed.

(** ** Lemmas: the three frames *)

Lemma json_ok_obj2 l : Forall (λ kv : string * json, sforall plain_byte kv.1 = true ∧ json_ok kv.2) l →
  json_ok (JObj l).
Proof.
  intros H. constructor. eapply Forall_impl; [exact H|]. intros kv [Hk Hv].
  split; [by apply str_ok_plain|done].
Qed.

Lemma json_ok_null : json_ok JNull.
Proof. constructor. Qed.

Lemma object_depth (l : list (string * json)) n :
  Forall (λ kv, (json_depth kv.2 ≤ n)%N) l → (json_depth (JObj l) ≤ N.succ n)%N.
Proof.
  intros H. cbn [json_depth]. rewrite N.add_1_l, <- N.succ_le_mono.
  induction H as [|kv l Hkv _ IH]; cbn; lia.
Qed.

(** The payload member of a sent frame. *)
Lemma payload_member p : object_payload p →
  ∃ v, parse (if is_empty p then "{}" else p) = Some v ∧ json_ok (escape_html v) ∧
    (json_depth (escape_html v) ≤ 9999)%N ∧
    (∃ l, escape_html v = JObj l) ∧
    print (escape_html v) = (if is_empty p then "{}" else default EmptyString (compact p)).
Proof.
  intros [->|(l & Hl & Hd)].
  - exists (JObj []). split_and!; try done; [constructor; constructor|by exists []].
  - assert (is_empty p = false) as -> by (destruct p; [by vm_compute in Hl|done]).
    exists (JObj l). pose proof (parse_ok _ _ Hl) as [Hok _]. unfold compact. rewrite Hl.
    split_and!; try done; [by apply escape_html_ok| |by eexists].
    by rewrite escape_html_depth.
Qed.

Lemma payload_of_print v l : json_ok v → v = JObj l → payload_of (Some (print v)) = Ok (print v).
Proof.
  intros Hok ->. unfold payload_of. cbn [default]. unfold id.
  change (print (JObj l)) with (String "{" (print_members l +:+ one "}")).
  rewrite TrimSpace_solid by done. done.
Qed.

(** The members of an encoded frame. *)
Definition head_members (f : Frame) : list (string * json) :=
  [("t", JNum (Itoa (Type_ f))); ("u", JStr (quote_lex (ID f)))].

Definition members_of (f : Frame) (v : json) : list (string * json) :=
  head_members f ++
  (if (Type_ f =? CallError)%Z then
     [("c", JNum (Itoa (Code f)))]
     ++ (if is_empty (Message f) then [] else [("m", JStr (quote_lex (Message f)))])
   else (if (Type_ f =? Call)%Z then [("a", JStr (quote_lex (Action f)))] else [])
        ++ [("p", escape_html v)]).

Lemma Encode_print f v : sendable f →
  parse (if is_empty (Payload f) then "{}" else Payload f) = Some v →
  Encode f = Ok (print (JObj (members_of f v))).
Proof.
  intros (_ & Hs) Hv. unfold Encode, members_of, head_members.
  destruct Hs as [(Ht & Ha & _ & Hp)|[(Ht & Hp)|(Ht & Hc & Hm)]]; rewrite Ht.
  - destruct (Action f) as [|a act] eqn:Hact; [done|].
    cbn [Z.eqb Pos.eqb Call CallResult CallError negb andb mbind res_bind P default T U A C M].
    unfold id. destruct (Payload f) as [|c p]; cbn [is_empty andb] in *;
      unfold marshal_wire; cbn [P T U A C M mbind option_bind is_empty from_option app].
    + rewrite Hv. cbn [mbind option_bind]. done.
    + rewrite Hv. cbn [mbind option_bind]. done.
  - cbn [Z.eqb Pos.eqb Call CallResult CallError negb andb mbind res_bind P default T U A C M].
    unfold id. destruct (Payload f) as [|c p]; cbn [is_empty andb] in *;
      unfold marshal_wire; cbn [P T U A C M mbind option_bind is_empty from_option app].
    + rewrite Hv. cbn [mbind option_bind]. done.
    + rewrite Hv. cbn [mbind option_bind]. done.
  - done.
Qed.

Lemma members_of_ok f v : json_ok (escape_html v) → json_ok (JObj (members_of f v)).
Proof.
  intros Hv. apply json_ok_obj2. unfold members_of, head_members.
  destruct (Type_ f =? CallError)%Z, (is_empty (Message f)), (Type_ f =? Call)%Z; cbn [app];
    repeat (apply Forall_cons; split); try apply Forall_nil; try done;
    cbn; auto with platform.
Qed.

Lemma members_of_depth f v : (json_depth (escape_html v) ≤ 9999)%N →
  (json_depth (JObj (members_of f v)) ≤ 10000)%N.
Proof.
  intros Hv. change 10000%N with (N.succ 9999). apply object_depth.
  unfold members_of, head_members.
  destruct (Type_ f =? CallError)%Z, (is_empty (Message f)), (Type_ f =? Call)%Z; cbn [app];
    repeat (apply Forall_cons; split); try apply Forall_nil; try done; cbn; lia.
Qed.

Lemma int_pointer_Itoa z : in_bits 64 z = true → int_pointer [JNum (Itoa z)] = Some (Some z).
Proof. intros H. unfold int_pointer. cbn [foldl]. by rewrite ParseInt_Itoa. Qed.

(** Decoding the members of a sent frame. *)
Lemma unmarshal_members f v : sendable f → json_ok (escape_html v) →
  (json_depth (escape_html v) ≤ 9999)%N →
  unmarshal (print (JObj (members_of f v))) = Some (
    if (Type_ f =? CallError)%Z
    then mkWire (Some (Type_ f)) (ID f) EmptyString None (Some (Code f)) (Message f)
    else mkWire (Some (Type_ f)) (ID f)
           (if (Type_ f =? Call)%Z then Action f else EmptyString)
           (Some (print (escape_html v))) None EmptyString).
Proof.
  intros (Hid & Hs) Hv Hd.
  rewrite unmarshal_print by (by apply members_of_ok || by apply members_of_depth).
  apply isUUID_utf8 in Hid. unfold members_of, head_members.
  destruct Hs as [(Ht & _ & Ha & _)|[(Ht & _)|(Ht & Hc & Hm)]]; rewrite Ht;
    cbn [Z.eqb Pos.eqb Call CallResult CallError app].
  - eval_fields. rewrite int_pointer_Itoa by done. cbn [mbind option_bind int_pointer foldl].
    cbn. by rewrite !Unquote_quote.
  - eval_fields. rewrite int_pointer_Itoa by done. cbn [mbind option_bind int_pointer foldl].
    cbn. by rewrite !Unquote_quote.
  - destruct (Message f) as [|m msg]; cbn [is_empty]; eval_fields;
      rewrite !int_pointer_Itoa by done;
      cbn [mbind option_bind strings_only forallb last fmap option_fmap option_map andb];
      by rewrite !Unquote_quote.
Qed.

Lemma Parse_members f v : sendable f → json_ok (escape_html v) →
  (json_depth (escape_html v) ≤ 9999)%N → (∃ l, escape_html v = JObj l) →
  String.length (print (JObj (members_of f v))) ≤ MaxSize →
  Parse (print (JObj (members_of f v))) =
    Ok (if (Type_ f =? CallError)%Z
        then mkFrame (Type_ f) (ID f) EmptyString "{}" (Code f) (Message f)
        else mkFrame (Type_ f) (ID f)
               (if (Type_ f =? Call)%Z then Action f else EmptyString)
               (print (escape_html v)) 0 EmptyString).
Proof.
  intros Hs Hv Hd [l Hl] Hlen. unfold Parse.
  rewrite (proj2 (Nat.ltb_ge MaxSize _) Hlen). cbn [throw_if mbind res_bind].
  rewrite unmarshal_members by done. cbn [of_option mbind res_bind].
  destruct Hs as (Hid & [(Ht & Ha & _)|[(Ht & _)|(Ht & _)]]); rewrite Ht;
    cbn [Z.eqb Pos.eqb Call CallResult CallError T U A C P M of_option mbind res_bind];
    rewrite Hid; cbn [negb throw_if mbind res_bind].
  - rewrite Ha. cbn [negb throw_if mbind res_bind].
    rewrite (payload_of_print _ l) by done. done.
  - rewrite (payload_of_print _ l) by done. done.
  - done.
Qed.

(** ** Properties *)

(** A frame the gateway accepts is one of the protocol's: at most 64 KiB, a
    UUID as its identifier, one of the three types, an action that starts with [/]
    when it is a call, an error code only on an error, and a payload that is a JSON
    object. *)
Lemma Parse_valid b f : Parse b = Ok f →
  String.length b ≤ MaxSize ∧ isUUID (ID f) = true ∧
  Type_ f ∈ [Call; CallResult; CallError] ∧
  (Type_ f = Call → HasPrefix (Action f) "/" = true) ∧
  (Type_ f ≠ CallError → Code f = 0%Z) ∧
  ∃ l, parse (Payload f) = Some (JObj l).
Proof. apply Parse_inv. Qed.

Definition sample_id : string := "01020304-0506-4708-890a-0b0c0d0e0f10".

Lemma Parse_valid_witness :
  isUUID (ID (mkFrame Call sample_id "/gateway/ping" "{}" 0 EmptyString)) = true.
Proof.
  refine (proj1 (proj2 (Parse_valid
    (default EmptyString (marshal_wire (mkWire (Some 2%Z) sample_id "/gateway/ping" None None
       EmptyString)))
    (mkFrame Call sample_id "/gateway/ping" "{}" 0 EmptyString) _))).
  by vm_compute.
Defined.

Lemma parsed_back f : sendable f →
  ∃ b, Encode f = Ok b ∧ (String.length b ≤ MaxSize → Parse b = Ok (received f)).
Proof.
  intros Hs.
  assert (∃ v, parse (if is_empty (Payload f) then "{}" else Payload f) = Some v ∧
    json_ok (escape_html v) ∧ (json_depth (escape_html v) ≤ 9999)%N ∧
    (∃ l, escape_html v = JObj l) ∧
    print (escape_html v) = (if is_empty (Payload f) then "{}"
                             else default EmptyString (compact (Payload f)))
    ∨ Type_ f = CallError) as (v & [(Hp & Hv & Hd & Hl & Hpr)|Ht]).
  { destruct Hs as (_ & [(_ & _ & _ & Hp)|[(_ & Hp)|(Ht & _)]]); [..|by exists JNull; right];
      destruct (payload_member _ Hp) as (v & ?); exists v; by left. }
  - exists (print (JObj (members_of f v))). split; [by apply Encode_print|].
    intros Hlen. rewrite Parse_members by done. unfold received. by rewrite Hpr.
  - exists (print (JObj (members_of f (JObj [])))). split.
    + unfold Encode, members_of, head_members. by rewrite Ht.
    + intros Hlen. rewrite Parse_members; try done; [|repeat constructor|by exists []].
      unfold received. by rewrite Ht.
Qed.

(** C37. Encoding and parsing are inverse: every frame with a UUID, valid UTF-8
    texts, a 64-bit code and an object for a payload is encoded, and the other side
    parses the text (when it is within 64 KiB) into the same frame - the same type
    and identifier, the action of a call, the code and message of an error, the
    payload compacted. *)
Theorem Parse_Encode f : sendable f →
  ∃ b, Encode f = Ok b ∧ (String.length b ≤ MaxSize → Parse b = Ok (received f)).
Proof. apply parsed_back. Qed.

Definition sample_error : Frame := mkFrame CallError sample_id EmptyString EmptyString 404 "no <route>".

Lemma Parse_Encode_witness :
  ∃ b, Encode sample_error = Ok b ∧
    (String.length b ≤ MaxSize → Parse b = Ok (received sample_error)).
Proof.
  apply (Parse_Encode sample_error). split; [by vm_compute|]. right; right.
  split_and!; by vm_compute.
Defined.

(** ** Identifiers *)

Definition is_byte (n : N) : Prop := (n < 256)%N.

(** Both digits of a byte are hex digits. *)
Definition byte_hex (n : N) : bool := is_hex (hex_digit (n / 16)) && is_hex (hex_digit (n mod 16)).

Lemma byte_hex_ok n : is_byte n → byte_hex n = true.
Proof. apply (byte_forall byte_hex). by vm_compute. Qed.

Definition variant_digit (c : ascii) : bool := existsb (Ascii.eqb c) ["8"; "9"; "a"; "b"]%char.

Definition version_ok (n : N) : bool :=
  byte_hex (N.lor (N.land n 15) 64)
  && Ascii.eqb (hex_digit (N.lor (N.land n 15) 64 / 16)) "4".

Definition variant_ok (n : N) : bool :=
  byte_hex (N.lor (N.land n 63) 128)
  && variant_digit (hex_digit (N.lor (N.land n 63) 128 / 16)).

Lemma version_byte n : is_byte n → version_ok n = true.
Proof. apply (byte_forall version_ok). by vm_compute. Qed.

Lemma variant_byte n : is_byte n → variant_ok n = true.
Proof. apply (byte_forall variant_ok). by vm_compute. Qed.

(** A fresh identifier is a UUID the other side accepts, of version 4 and the
    RFC 9562 variant, whatever the sixteen random bytes are. *)
Lemma NewID_uuid4 b :
  length b = 16 → Forall is_byte b →
  isUUID (NewID b) = true ∧ String.get 14 (NewID b) = Some "4"%char ∧
  variant_digit <$> String.get 19 (NewID b) = Some true.
Proof.
  intros Hlen Hb.
  destruct b as [|b0 [|b1 [|b2 [|b3 [|b4 [|b5 [|b6 [|b7 [|b8 [|b9 [|b10 [|b11 [|b12 [|b13 [|b14 [|b15 [|]]]]]]]]]]]]]]]]];
    try done.
  rewrite !Forall_cons in Hb.
  destruct Hb as (B0 & B1 & B2 & B3 & B4 & B5 & B6 & B7 & B8 & B9 & B10 & B11 & B12 & B13 & B14 & B15 & _).
  pose proof (version_byte b6 B6) as Hv. pose proof (variant_byte b8 B8) as Hw.
  unfold version_ok, variant_ok in *. apply andb_true_iff in Hv as [Hv V], Hw as [Hw W].
  repeat match goal with H : is_byte _ |- _ => apply byte_hex_ok in H end.
  unfold byte_hex in *.
  repeat match goal with H : is_hex _ && is_hex _ = true |- _ =>
    apply andb_true_iff in H as [? ?] end.
  unfold NewID. cbn [nth insert list_insert take drop hex_bytes foldr].
  rewrite !sapp_cons, !sapp_nil_l. split_and!.
  - unfold isUUID. cbn [String.length Nat.eqb andb uuid_from].
    repeat match goal with |- context [bool_decide (?i ∈ ?l)] =>
      let d := eval vm_compute in (bool_decide (i ∈ l)) in
      change (bool_decide (i ∈ l)) with d; cbn iota end.
    repeat match goal with H : is_hex _ = true |- _ => rewrite H; clear H end.
    done.
  - cbn [String.get]. by apply Ascii.eqb_eq in V as ->.
  - cbn [String.get fmap option_fmap option_map]. by rewrite W.
Qed.

Lemma NewID_uuid4_witness :
  isUUID (NewID (repeat 255%N 16)) = true.
Proof.
  refine (proj1 (NewID_uuid4 (repeat 255%N 16) eq_refl _)).
  repeat constructor.
Defined.
