(* ===== verification/Sha2.v ===== *)
(** * crypto/sha256, crypto/sha512 and crypto/hmac

    The three hashes the token signatures use (FIPS 180-4) and HMAC over them (RFC
    2104), on byte strings.  A hash is its parameters ([sha]): the word width, the
    round constants, the rotations, the initial state and the length of the digest. *)

From S2P Require Import Prelude.
From S2P Require Import GoStrings.

Record sha := mkSha {
  width : N;               (* bits of a word *)
  rounds : list N;         (* the round constants *)
  Sigma0 : list N; Sigma1 : list N;   (* three rotations *)
  sigma0 : list N; sigma1 : list N;   (* two rotations and a shift *)
  initial : list N;
  digest_len : nat
}.

(** The constants of the standard: bits of the fractional parts of the square and cube
    roots of the first primes. *)
Definition prime (n : N) : bool :=
  forallb (λ d, negb (n mod N.of_nat d =? 0)%N) (seq 2 (N.to_nat (N.sqrt n) - 1)).
Definition primes : list N := filter (λ n, prime n = true) (N.of_nat <$> seq 2 408).

(** The greatest [r] below [2 ^ bits] with [r ^ 3 ≤ x], bit by bit. *)
Fixpoint cube_root (bits : nat) (r x : N) : N :=
  match bits with
  | 0 => r
  | S bits =>
      let r' := (r + 2 ^ N.of_nat bits)%N in
      cube_root bits (if (r' ^ 3 <=? x)%N then r' else r) x
  end.

(** The first 64 bits after the point. *)
Definition frac_sqrt (p : N) : N := (N.sqrt (p * 2 ^ 128) mod 2 ^ 64)%N.
Definition frac_cbrt (p : N) : N := (cube_root 68 0 (p * 2 ^ 192) mod 2 ^ 64)%N.

Definition K512 : list N := Eval vm_compute in frac_cbrt <$> take 80 primes.
Definition K256 : list N := Eval vm_compute in (λ k, N.shiftr k 32) <$> take 64 K512.
Definition H512 : list N := Eval vm_compute in frac_sqrt <$> take 8 primes.
Definition H384 : list N := Eval vm_compute in frac_sqrt <$> take 8 (drop 8 primes).
Definition H256 : list N := Eval vm_compute in (λ h, N.shiftr h 32) <$> H512.

Definition sha256 : sha :=
  mkSha 32 K256 [2; 13; 22]%N [6; 11; 25]%N [7; 18; 3]%N [17; 19; 10]%N H256 32.

Definition sha512_params (initial : list N) (len : nat) : sha :=
  mkSha 64 K512 [28; 34; 39]%N [14; 18; 41]%N [1; 8; 7]%N [19; 61; 6]%N initial len.

Definition sha384 : sha := sha512_params H384 48.
Definition sha512 : sha := sha512_params H512 64.

Section hash.
Context (a : sha).

Definition add (x y : N) : N := (x + y) mod 2 ^ width a.
Definition rotr (n x : N) : N :=
  N.lor (N.shiftr x n) (N.shiftl x (width a - n) mod 2 ^ width a).
Definition big_sigma (r : list N) (x : N) : N :=
  foldr (λ n acc, N.lxor (rotr n x) acc) 0%N r.
Definition small_sigma (r : list N) (x : N) : N :=
  match r with
  | [r1; r2; s] => N.lxor (N.lxor (rotr r1 x) (rotr r2 x)) (N.shiftr x s)
  | _ => 0%N
  end.
Definition not_word (x : N) : N := N.lxor x (2 ^ width a - 1).
Definition ch (x y z : N) : N := N.lxor (N.land x y) (N.land (not_word x) z).
Definition maj (x y z : N) : N :=
  N.lxor (N.lxor (N.land x y) (N.land x z)) (N.land y z).

Definition block_bytes : nat := 2 * N.to_nat (width a).

(** [n] bytes of [x], the most significant first. *)
Fixpoint be_bytes (n : nat) (x : N) : list N :=
  match n with
  | 0 => []
  | S n => be_bytes n (x / 256) ++ [(x mod 256)%N]
  end.
Definition be_word (l : list N) : N := foldl (λ acc b, acc * 256 + b)%N 0%N l.

(** The message, a 1 bit, zeros, and the length in bits on two words. *)
Definition pad (m : list N) : list N :=
  let lenb := N.to_nat (width a / 4) in
  let used := (length m + 1 + lenb) mod block_bytes in
  let zeros := (block_bytes - used) mod block_bytes in
  m ++ [128%N] ++ repeat 0%N zeros ++ be_bytes lenb (8 * N.of_nat (length m)).

Fixpoint chunks (n fuel : nat) (l : list N) : list (list N) :=
  match fuel, l with
  | S fuel, _ :: _ => take n l :: chunks n fuel (drop n l)
  | _, _ => []
  end.

(** The message schedule: [w] holds the words so far, the latest first. *)
Fixpoint schedule (n : nat) (w : list N) : list N :=
  match n with
  | 0 => w
  | S n =>
      let at_ i := nth i w 0%N in
      schedule n (add (add (small_sigma (sigma1 a) (at_ 1)) (at_ 6))
                      (add (small_sigma (sigma0 a) (at_ 14)) (at_ 15)) :: w)
  end.

Definition round (st : list N) (kw : N * N) : list N :=
  match st with
  | [va; vb; vc; vd; ve; vf; vg; vh] =>
      let t1 := add (add (add vh (big_sigma (Sigma1 a) ve)) (add (ch ve vf vg) kw.1)) kw.2 in
      let t2 := add (big_sigma (Sigma0 a) va) (maj va vb vc) in
      [add t1 t2; va; vb; vc; add vd t1; ve; vf; vg]
  | _ => st
  end.

Definition compress (st block : list N) : list N :=
  let nb := N.to_nat (width a / 8) in
  let w := be_word <$> chunks nb 16 block in
  let ws := List.rev (schedule (length (rounds a) - 16) (List.rev w)) in
  zip_with add st (foldl round st (zip (rounds a) ws)).

Definition hash_bytes (m : list N) : list N :=
  let p := pad m in
  let st := foldl compress (initial a) (chunks block_bytes (length p) p) in
  take (digest_len a) (flat_map (be_bytes (N.to_nat (width a / 8))) st).

(** [hmac.New(h, key)], [mac.Write(m)], [mac.Sum(nil)]. *)
Definition hmac_bytes (key m : list N) : list N :=
  let key := if (block_bytes <? length key)%nat then hash_bytes key else key in
  let key := key ++ repeat 0%N (block_bytes - length key) in
  let mask p := (λ b, N.lxor b p) <$> key in
  hash_bytes (mask 92%N ++ hash_bytes (mask 54%N ++ m)).
End hash.

Definition bytes_of (s : string) : list N := byte_n <$> String.list_ascii_of_string s.
Definition string_of (l : list N) : string := String.string_of_list_ascii (ascii_of_N <$> l).

Definition hmac (a : sha) (key m : string) : string :=
  string_of (hmac_bytes a (bytes_of key) (bytes_of m)).

(** ** Test vectors (FIPS 180-4, RFC 4231) *)

Example sha256_abc : string_of (firstn 4 (hash_bytes sha256 (bytes_of "abc")))
  = string_of [186; 120; 22; 191]%N.
Proof. by vm_compute. Qed.

Example sha384_abc : string_of (firstn 4 (hash_bytes sha384 (bytes_of "abc")))
  = string_of [203; 0; 117; 63]%N.
Proof. by vm_compute. Qed.

Example sha512_abc : string_of (firstn 4 (hash_bytes sha512 (bytes_of "abc")))
  = string_of [221; 175; 53; 161]%N.
Proof. by vm_compute. Qed.

Example hmac_jefe :
  string_of (firstn 4 (bytes_of (hmac sha256 "Jefe" "what do ya want for nothing?")))
  = string_of [91; 220; 193; 70]%N.
Proof. by vm_compute. Qed.
