(* ===== verification/Jwt.v ===== *)
(** * lib/auth/jwt: access tokens

    [Verify] and [Sign] of jwt.go over the real [encoding/base64] (URL alphabet, no
    padding), [encoding/json] and HMAC-SHA2.  A time is nanoseconds since the Unix
    epoch, [time.Unix] adds its offset in 64 bits as Go does.  Proved: an accepted
    token is signed with the key and algorithm of the audience it names, by an
    allowed issuer, and is not over; expiry and issuer are reported only behind a
    good signature; and [Verify] accepts what [Sign] makes. *)

From S2P Require Import Prelude.
From S2P Require Import GoStrings.
From S2P Require Import GoJson.
From S2P Require Import Sha2.

#[local] Ltac Zify.zify_post_hook ::= Z.to_euclidean_division_equations.

(** ** base64.RawURLEncoding *)

Definition b64_alphabet : string :=
  "ABCDEFGHIJKLMNOPQRSTUVWXYZabcdefghijklmnopqrstuvwxyz0123456789-_".

Definition enc6 (n : N) : ascii := default "A"%char (String.get (N.to_nat n) b64_alphabet).

Definition dec6 (c : ascii) : option N := N.of_nat <$> IndexByte b64_alphabet c.

Definition byte (n : N) : ascii := ascii_of_N n.

(** [EncodeToString]. *)
Fixpoint b64_encode (s : string) : string :=
  match s with
  | String a (String b (String c r)) =>
      let '(a, b, c) := (byte_n a, byte_n b, byte_n c) in
      String (enc6 (a / 4)) (String (enc6 (a mod 4 * 16 + b / 16))
        (String (enc6 (b mod 16 * 4 + c / 64)) (String (enc6 (c mod 64)) (b64_encode r))))
  | String a (String b EmptyString) =>
      let '(a, b) := (byte_n a, byte_n b) in
      String (enc6 (a / 4)) (String (enc6 (a mod 4 * 16 + b / 16))
        (one (enc6 (b mod 16 * 4))))
  | String a EmptyString =>
      let a := byte_n a in String (enc6 (a / 4)) (one (enc6 (a mod 4 * 16)))
  | EmptyString => EmptyString
  end%N.

(** The quanta of four digits; trailing bits of a short one are dropped. *)
Fixpoint b64_quanta (s : string) : option string :=
  match s with
  | EmptyString => Some EmptyString
  | String a (String b EmptyString) =>
      a ← dec6 a; b ← dec6 b; Some (one (byte (a * 4 + b / 16)))
  | String a (String b (String c EmptyString)) =>
      a ← dec6 a; b ← dec6 b; c ← dec6 c;
      Some (String (byte (a * 4 + b / 16)) (one (byte (b mod 16 * 16 + c / 4))))
  | String a (String b (String c (String d r))) =>
      a ← dec6 a; b ← dec6 b; c ← dec6 c; d ← dec6 d;
      t ← b64_quanta r;
      Some (String (byte (a * 4 + b / 16)) (String (byte (b mod 16 * 16 + c / 4))
              (String (byte (c mod 4 * 64 + d)) t)))
  | String _ EmptyString => None
  end%N.

Fixpoint drop_newlines (s : string) : string :=
  match s with
  | EmptyString => EmptyString
  | String c r => if Ascii.eqb c "010" || Ascii.eqb c "013" then drop_newlines r
                  else String c (drop_newlines r)
  end.

(** [DecodeString]: line breaks are skipped. *)
Definition b64_decode (s : string) : option string := b64_quanta (drop_newlines s).

(** ** Data *)

Inductive jwt_error : Type := ErrMalformed | ErrSignature | ErrAudience | ErrIssuer | ErrExpired.

#[global] Instance jwt_error_eq_dec : EqDecision jwt_error.
Proof. solve_decision. Defined.

Record Claims := mkClaims {
  Iss : string;
  Aud : string;
  Sub : string;
  Iat : Z;
  Exp : Z
}.

#[global] Instance Claims_eq_dec : EqDecision Claims.
Proof. solve_decision. Defined.

Record Key := mkKey { Alg : string; Secret : string }.

Record Keyring := mkKeyring {
  Audiences : gmap string Key;
  Issuers : list string
}.

(** ** Operations *)

Definition hasher (alg : string) : option sha :=
  if String.eqb alg "HS256" then Some sha256
  else if String.eqb alg "HS384" then Some sha384
  else if String.eqb alg "HS512" then Some sha512
  else None.

Definition contains (xs : list string) (s : string) : bool := existsb (λ x, String.eqb x s) xs.

(** An [int64] field after its members: null leaves it, an integer of 64 bits sets
    it; [None] is a type error. *)
Definition int64_field (l : list json) : option Z :=
  foldl (λ acc v,
    match acc, v with
    | Some z, JNull => Some z
    | Some _, JNum lex => ParseInt lex 64
    | _, _ => None
    end) (Some 0%Z) l.

Definition text_only (l : list json) : bool :=
  forallb (λ v, match v with JStr _ | JNull => true | _ => false end) l.

(** [json.Unmarshal] of the header: the value of [alg]. *)
Definition unmarshal_header (s : string) : option string :=
  match parse s with
  | Some JNull => Some EmptyString
  | Some (JObj l) =>
      if text_only (field_members "alg" l) then Some (string_field "alg" l) else None
  | _ => None
  end.

Definition unmarshal_claims (s : string) : option Claims :=
  match parse s with
  | Some JNull => Some (mkClaims EmptyString EmptyString EmptyString 0 0)
  | Some (JObj l) =>
      iat ← int64_field (field_members "iat" l);
      exp ← int64_field (field_members "exp" l);
      if text_only (field_members "iss" l) && text_only (field_members "aud" l)
         && text_only (field_members "sub" l)
      then Some (mkClaims (string_field "iss" l) (string_field "aud" l) (string_field "sub" l)
                   iat exp)
      else None
  | _ => None
  end.

(** A 64-bit signed value, wrapped around. *)
Definition wrap64 (z : Z) : Z := (z + 2 ^ 63) mod 2 ^ 64 - 2 ^ 63.

(** [time.Unix(sec, 0)] in nanoseconds: the seconds since the year 1 are an [int64]. *)
Definition unixToInternal : Z := 62135596800.
Definition Unix (sec : Z) : Z := (wrap64 (sec + unixToInternal) - unixToInternal) * 1000000000.

Definition Verify (k : Keyring) (token : string) (now : Z) : res jwt_error Claims :=
  match Split token "." with
  | [part0; part1; part2] =>
      hdrRaw ← of_option (b64_decode part0) ErrMalformed;
      alg ← of_option (unmarshal_header hdrRaw) ErrMalformed;
      _ ← of_option (hasher alg) ErrMalformed;
      body ← of_option (b64_decode part1) ErrMalformed;
      c ← of_option (unmarshal_claims body) ErrMalformed;
      throw_if (is_empty (Sub c) || is_empty (Aud c)) ErrMalformed;;
      key ← of_option (Audiences k !! Aud c) ErrAudience;
      throw_if (negb (String.eqb (Alg key) alg)) ErrSignature;;
      sig ← of_option (b64_decode part2) ErrMalformed;
      h ← of_option (hasher (Alg key)) ErrMalformed;
      throw_if (negb (String.eqb sig (hmac h (Secret key) (part0 +:+ "." +:+ part1)))) ErrSignature;;
      throw_if (negb (contains (Issuers k) (Iss c))) ErrIssuer;;
      throw_if ((Exp c =? 0)%Z || negb (now <? Unix (Exp c))%Z) ErrExpired;;
      Ok c
  | _ => Err ErrMalformed
  end.

Definition header_json (alg : string) : json :=
  JObj [("alg", JStr (quote_lex alg)); ("typ", JStr "JWT")].

Definition claims_json (c : Claims) : json :=
  let int k z := if (z =? 0)%Z then [] else [(k, JNum (Itoa z))] in
  JObj ([("iss", JStr (quote_lex (Iss c))); ("aud", JStr (quote_lex (Aud c)));
         ("sub", JStr (quote_lex (Sub c)))] ++ int "iat" (Iat c) ++ int "exp" (Exp c)).

(** [Sign]; [None] is the panic of [hmac.New] with no hash. *)
Definition Sign (c : Claims) (alg secret : string) : option string :=
  h ← hasher alg;
  let signables := b64_encode (print (header_json alg)) +:+ "."
                   +:+ b64_encode (print (claims_json c)) in
  Some (signables +:+ "." +:+ b64_encode (hmac h secret signables)).

(** ** Lemmas: base64 *)

Definition dec_enc_ok (n : N) : bool :=
  bool_decide (dec6 (enc6 n) = Some n) && negb (Ascii.eqb (enc6 n) ".")
  && negb (Ascii.eqb (enc6 n) "010") && negb (Ascii.eqb (enc6 n) "013").

Lemma dec_enc n : (n < 64)%N → dec_enc_ok n = true.
Proof.
  intros H. enough ((64 <=? n)%N || dec_enc_ok n = true) as Hn.
  { apply orb_true_iff in Hn as [Hn%N.leb_le|Hn]; [lia|done]. }
  apply (byte_forall (λ n, (64 <=? n)%N || dec_enc_ok n)); [by vm_compute|lia].
Qed.

Lemma dec6_enc6 n : (n < 64)%N → dec6 (enc6 n) = Some n.
Proof. intros H%dec_enc. unfold dec_enc_ok in H. by bool_to_prop. Qed.

(** A digit is neither a dot nor a line break. *)
Definition b64_byte (c : ascii) : bool :=
  negb (Ascii.eqb c ".") && negb (Ascii.eqb c "010") && negb (Ascii.eqb c "013").

Lemma enc6_byte n : (n < 64)%N → b64_byte (enc6 n) = true.
Proof.
  intros H%dec_enc. unfold dec_enc_ok in H. unfold b64_byte. bool_to_prop.
  by rewrite H0, H1, H2.
Qed.

Lemma byte_byte_n a n : n = byte_n a → byte n = a.
Proof. intros ->. apply ascii_N_embedding. Qed.

Lemma byte_n_lt a : (byte_n a < 256)%N.
Proof. apply N_ascii_bounded. Qed.

(** Induction on the quanta of three bytes. *)
Lemma quanta_ind (Q : string → Prop) :
  Q EmptyString → (∀ a, Q (one a)) → (∀ a b, Q (String a (one b))) →
  (∀ a b c r, Q r → Q (String a (String b (String c r)))) → ∀ s, Q s.
Proof.
  intros H0 H1 H2 H3. fix IH 1. intros [|a [|b [|c r]]]; [done|apply H1|apply H2|].
  apply H3, IH.
Qed.

Lemma b64_encode_byte s : sforall b64_byte (b64_encode s) = true.
Proof.
  induction s as [|a|a b|a b c r IH] using quanta_ind; [done|..]; cbn [b64_encode sforall one].
  all: pose proof (byte_n_lt a); try pose proof (byte_n_lt b); try pose proof (byte_n_lt c).
  all: rewrite ?enc6_byte by lia; done.
Qed.

Lemma drop_newlines_id s : sforall b64_byte s = true → drop_newlines s = s.
Proof.
  induction s as [|c r IH]; [done|]. cbn [sforall drop_newlines].
  intros [Hc Hr]%andb_true_iff. unfold b64_byte in Hc. bool_to_prop.
  rewrite H0, H1. cbn [orb]. by rewrite IH.
Qed.

Lemma b64_quanta_encode s : b64_quanta (b64_encode s) = Some s.
Proof.
  induction s as [|a|a b|a b c r IH] using quanta_ind; [done|..]; cbn [b64_encode one b64_quanta].
  all: pose proof (byte_n_lt a); try pose proof (byte_n_lt b); try pose proof (byte_n_lt c).
  all: rewrite !dec6_enc6 by lia; cbn [mbind option_bind].
  - unfold one. repeat f_equal. apply byte_byte_n. lia.
  - unfold one. repeat f_equal; apply byte_byte_n; lia.
  - rewrite IH. cbn [mbind option_bind]. repeat f_equal; apply byte_byte_n; lia.
Qed.

(** [DecodeString(EncodeToString(s))] is [s]. *)
Lemma b64_decode_encode s : b64_decode (b64_encode s) = Some s.
Proof.
  unfold b64_decode. rewrite drop_newlines_id by apply b64_encode_byte.
  apply b64_quanta_encode.
Qed.

Lemma b64_no_dot s : sforall (λ c, negb (Ascii.eqb c ".")) (b64_encode s) = true.
Proof.
  eapply sforall_impl; [|apply b64_encode_byte]. intros c H. unfold b64_byte in H.
  by apply andb_true_iff in H as [[? _]%andb_true_iff _].
Qed.

(** ** Lemmas: the token's documents *)

Lemma unmarshal_header_print alg : valid_utf8 alg = true →
  unmarshal_header (print (header_json alg)) = Some alg.
Proof.
  intros Ha. unfold unmarshal_header, header_json. rewrite parse_print.
  - eval_fields. cbn [text_only forallb andb]. by rewrite Unquote_quote.
  - constructor. repeat (apply Forall_cons; split); [..|constructor];
      (split; [by apply str_ok_plain|]); [apply json_ok_str|constructor; by apply str_ok_plain].
  - by vm_compute.
Qed.

Lemma hasher_utf8 alg h : hasher alg = Some h → valid_utf8 alg = true.
Proof.
  unfold hasher. destruct (String.eqb_spec alg "HS256") as [->|]; [by intros _; vm_compute|].
  destruct (String.eqb_spec alg "HS384") as [->|]; [by intros _; vm_compute|].
  destruct (String.eqb_spec alg "HS512") as [->|]; [by intros _; vm_compute|done].
Qed.

Definition signable (c : Claims) : Prop :=
  valid_utf8 (Iss c) = true ∧ valid_utf8 (Aud c) = true ∧ valid_utf8 (Sub c) = true ∧
  in_bits 64 (Iat c) = true ∧ in_bits 64 (Exp c) = true.

Lemma int_member_ok (b : bool) k z : sforall plain_byte k = true →
  Forall (λ kv, str_ok kv.1 ∧ json_ok kv.2) (if b then [] else [(k, JNum (Itoa z))]).
Proof.
  intros Hk. destruct b; constructor; [|constructor].
  split; [by apply str_ok_plain|apply json_ok_Itoa].
Qed.

Lemma claims_json_ok c : json_ok (claims_json c).
Proof.
  constructor. rewrite !Forall_app. split_and!.
  - repeat (apply Forall_cons; split); [..|constructor];
      (split; [by apply str_ok_plain|apply json_ok_str]).
  - by apply int_member_ok.
  - by apply int_member_ok.
Qed.

Lemma claims_json_depth c : (json_depth (claims_json c) ≤ 10000)%N.
Proof.
  unfold claims_json. destruct (Iat c =? 0)%Z, (Exp c =? 0)%Z; by vm_compute.
Qed.

Lemma int64_field_one z : in_bits 64 z = true → int64_field [JNum (Itoa z)] = Some z.
Proof. intros H. unfold int64_field. cbn [foldl]. by rewrite ParseInt_Itoa. Qed.

Lemma unmarshal_claims_print c : signable c →
  unmarshal_claims (print (claims_json c)) = Some c.
Proof.
  intros (Hi & Ha & Hs & Hiat & Hexp). unfold unmarshal_claims.
  rewrite parse_print by (apply claims_json_ok || apply claims_json_depth).
  unfold claims_json. destruct c as [iss aud sub iat exp]. cbn [Iss Aud Sub Iat Exp] in *.
  destruct (Z.eqb_spec iat 0) as [->|], (Z.eqb_spec exp 0) as [->|]; cbn [app]; eval_fields;
    rewrite ?int64_field_one by done;
    change (int64_field []) with (Some 0%Z);
    cbn [mbind option_bind text_only forallb andb]; by rewrite !Unquote_quote.
Qed.

(** ** Properties *)

(** The signature of a token under a key: the third part decodes to the HMAC of the
    first two under the key's secret, with the algorithm the header names. *)
Definition signed_by (key : Key) (token : string) : Prop :=
  ∃ p0 p1 p2 hdr h sig, Split token "." = [p0; p1; p2] ∧
    b64_decode p0 = Some hdr ∧ unmarshal_header hdr = Some (Alg key) ∧
    hasher (Alg key) = Some h ∧ b64_decode p2 = Some sig ∧
    sig = hmac h (Secret key) (p0 +:+ "." +:+ p1).

(** The claims a token carries, whoever made it. *)
Definition carries (token : string) (c : Claims) : Prop :=
  ∃ p0 p1 p2 body, Split token "." = [p0; p1; p2] ∧
    b64_decode p1 = Some body ∧ unmarshal_claims body = Some c.

(** Every verdict past the signature. *)
Lemma Verify_signed k token now r :
  Verify k token now = r → r ≠ Err ErrMalformed → r ≠ Err ErrAudience → r ≠ Err ErrSignature →
  ∃ c key, carries token c ∧ Sub c ≠ EmptyString ∧ Audiences k !! Aud c = Some key ∧
    signed_by key token ∧
    r = (if negb (contains (Issuers k) (Iss c)) then Err ErrIssuer
         else if (Exp c =? 0)%Z || negb (now <? Unix (Exp c))%Z then Err ErrExpired
         else Ok c).
Proof.
  unfold Verify. intros H Hm Ha Hs.
  destruct (Split token ".") as [|p0 [|p1 [|p2 [|]]]] eqn:Hsp; try congruence.
  destruct (b64_decode p0) as [hdr|] eqn:H0; cbn [of_option mbind res_bind] in H; [|congruence].
  destruct (unmarshal_header hdr) as [alg|] eqn:Halg; cbn [of_option mbind res_bind] in H; [|congruence].
  destruct (hasher alg) as [h|] eqn:Hh; cbn [of_option mbind res_bind] in H; [|congruence].
  destruct (b64_decode p1) as [body|] eqn:H1; cbn [of_option mbind res_bind] in H; [|congruence].
  destruct (unmarshal_claims body) as [c|] eqn:Hc; cbn [of_option mbind res_bind] in H; [|congruence].
  destruct (is_empty (Sub c) || is_empty (Aud c)) eqn:He; cbn [throw_if mbind res_bind] in H;
    [congruence|].
  destruct (Audiences k !! Aud c) as [key|] eqn:Hk; cbn [of_option mbind res_bind] in H; [|congruence].
  destruct (String.eqb_spec (Alg key) alg) as [Hka|]; cbn [negb throw_if mbind res_bind] in H;
    [|congruence].
  destruct (b64_decode p2) as [sig|] eqn:H2; cbn [of_option mbind res_bind] in H; [|congruence].
  rewrite Hka, Hh in H. cbn [of_option mbind res_bind] in H.
  destruct (String.eqb_spec sig (hmac h (Secret key) (p0 +:+ "." +:+ p1))) as [Hsig|];
    cbn [negb throw_if mbind res_bind] in H; [|congruence].
  exists c, key. apply orb_false_iff in He as [He _]. split_and!; try done.
  - by exists p0, p1, p2, body.
  - by destruct (Sub c).
  - exists p0, p1, p2, hdr, h, sig. by rewrite Hka.
  - rewrite <- H. destruct (negb (contains _ _)); [done|]. by destruct (_ || _).
Qed.

Lemma contains_spec xs s : contains xs s = true ↔ s ∈ xs.
Proof.
  unfold contains. rewrite existsb_exists. setoid_rewrite <- list_elem_of_In.
  setoid_rewrite String.eqb_eq. naive_solver.
Qed.

(** C7. An accepted token is genuine and current: [Verify] gives the claims of a
    token only when the token carries them, it is signed with the secret and the
    algorithm of the audience the claims name, the issuer is an allowed one, there
    is a session code, and the time of expiry is set and still to come. *)
Theorem Verify_sound k token now c :
  Verify k token now = Ok c →
  carries token c ∧ Sub c ≠ EmptyString ∧
  (∃ key, Audiences k !! Aud c = Some key ∧ signed_by key token) ∧
  Iss c ∈ Issuers k ∧ Exp c ≠ 0%Z ∧ (now < Unix (Exp c))%Z.
Proof.
  intros H. destruct (Verify_signed k token now _ H) as (c' & key & Hc & Hsub & Hk & Hs & Hr);
    try done.
  destruct (negb (contains _ _)) eqn:Hi; [done|]. destruct (_ || _) eqn:He; [done|].
  injection Hr as <-. bool_to_prop. split_and!; try done; [by exists key|].
  by apply contains_spec.
Qed.

(** The reasons behind a valid signature are told to its owner only: [Verify]
    says that a token has expired, or that its issuer is not allowed, only of a token
    signed with the key of an audience of the ring. *)
Lemma Verify_reasons k token now e :
  Verify k token now = Err e → e = ErrExpired ∨ e = ErrIssuer →
  ∃ c key, carries token c ∧ Audiences k !! Aud c = Some key ∧ signed_by key token ∧
    (e = ErrExpired → Iss c ∈ Issuers k ∧ (Exp c = 0%Z ∨ (Unix (Exp c) <= now)%Z)) ∧
    (e = ErrIssuer → Iss c ∉ Issuers k).
Proof.
  intros H He. destruct (Verify_signed k token now _ H) as (c & key & Hc & _ & Hk & Hs & Hr);
    [by destruct He as [->| ->]..|].
  exists c, key. split_and!; try done.
  - intros ->. destruct (negb (contains _ _)) eqn:Hi; [done|]. apply negb_false_iff in Hi.
    split; [by apply contains_spec|].
    destruct (Z.eqb_spec (Exp c) 0); [by left|]. cbn [orb] in Hr.
    destruct (Z.ltb_spec now (Unix (Exp c))); [done|]. right. lia.
  - intros ->. rewrite <- contains_spec. destruct (contains _ _); [|done].
    cbn [negb] in Hr. by destruct (_ || _).
Qed.

(** A token [Sign] makes passes [Verify]. *)
Lemma signed_verifies k c key now :
  Audiences k !! Aud c = Some key → is_Some (hasher (Alg key)) → signable c →
  Sub c ≠ EmptyString → Aud c ≠ EmptyString → Iss c ∈ Issuers k →
  Exp c ≠ 0%Z → (now < Unix (Exp c))%Z →
  ∃ token, Sign c (Alg key) (Secret key) = Some token ∧ Verify k token now = Ok c.
Proof.
  intros Hk [h Hh] Hc Hsub Haud Hiss Hexp Hnow. unfold Sign. rewrite Hh.
  cbn [mbind option_bind]. eexists. split; [done|]. unfold Verify.
  rewrite !sapp_assoc, !sapp_cons, !sapp_nil_l.
  rewrite Split_app by apply b64_no_dot.
  rewrite Split_app by apply b64_no_dot.
  rewrite Split_none by apply b64_no_dot.
  rewrite !b64_decode_encode. cbn [of_option mbind res_bind].
  rewrite unmarshal_header_print by (by eapply hasher_utf8). cbn [of_option mbind res_bind].
  rewrite Hh. cbn [of_option mbind res_bind].
  cbn [of_option mbind res_bind].
  rewrite unmarshal_claims_print by done. cbn [of_option mbind res_bind].
  destruct (Sub c) eqn:?; [done|]. destruct (Aud c) eqn:Ha; [done|].
  cbn [is_empty orb throw_if mbind res_bind]. rewrite Hk. cbn [of_option mbind res_bind].
  rewrite String.eqb_refl. cbn [negb throw_if mbind res_bind].
  cbn [of_option mbind res_bind].
  rewrite Hh. cbn [of_option mbind res_bind].
  rewrite String.eqb_refl. cbn [negb throw_if mbind res_bind].
  apply contains_spec in Hiss. rewrite Hiss. cbn [negb throw_if mbind res_bind].
  apply Z.eqb_neq in Hexp. apply Z.ltb_lt in Hnow. rewrite Hexp, Hnow. done.
Qed.

(** C36. [Verify] accepts what the platform signs: a token [Sign] makes with the key
    of its audience, from an allowed issuer and with a time to go, gives its claims
    back. *)
Theorem Verify_Sign k c key now :
  Audiences k !! Aud c = Some key → is_Some (hasher (Alg key)) → signable c →
  Sub c ≠ EmptyString → Aud c ≠ EmptyString → Iss c ∈ Issuers k →
  Exp c ≠ 0%Z → (now < Unix (Exp c))%Z →
  ∃ token, Sign c (Alg key) (Secret key) = Some token ∧ Verify k token now = Ok c.
Proof. apply signed_verifies. Qed.

Definition sample_ring : Keyring :=
  mkKeyring {[ "web-client" := mkKey "HS256" "secret" ]} ["accounts"].
Definition sample_claims : Claims := mkClaims "accounts" "web-client" "session-1" 1 2000000000.

Lemma Verify_Sign_witness :
  ∃ token, Sign sample_claims "HS256" "secret" = Some token ∧
    Verify sample_ring token 1999999999999999999 = Ok sample_claims.
Proof.
  apply (Verify_Sign sample_ring sample_claims (mkKey "HS256" "secret"));
    [done|by eexists|by repeat split|done|done|by left|done|done].
Defined.

Definition sample_token : string :=
  default EmptyString (Sign sample_claims "HS256" "secret").

Lemma Verify_sound_witness : (1 < Unix (Exp sample_claims))%Z.
Proof.
  refine (proj2 (proj2 (proj2 (proj2 (proj2
    (Verify_sound sample_ring sample_token 1 sample_claims _)))))).
  by vm_compute.
Defined.

Lemma Verify_reasons_witness :
  ∃ c key, carries sample_token c ∧ Audiences sample_ring !! Aud c = Some key ∧
    signed_by key sample_token ∧
    (ErrExpired = ErrExpired → Iss c ∈ Issuers sample_ring ∧
       (Exp c = 0%Z ∨ (Unix (Exp c) <= 2000000000000000000)%Z)) ∧
    (ErrExpired = ErrIssuer → Iss c ∉ Issuers sample_ring).
Proof.
  apply (Verify_reasons sample_ring sample_token 2000000000000000000 ErrExpired);
    [by vm_compute|by left].
Defined.
