(* ===== verification/Db.v ===== *)
(** * The database as the source sees it: pgx

    PostgreSQL and its driver are not part of the repository.  What the source does
    with them is a program over five operations ([op]): start a transaction from the
    pool, query, execute, commit, roll back.  A [prog] is such a program; [run]
    interprets it with a [driver], an arbitrary function that answers each
    operation, and keeps the trace of operations and answers.  [M] is the monad of
    the request road: a program that also threads the process's own state ([St]).

    [TxLaws] states the documented behaviour of PostgreSQL transactions the source
    relies on: a commit that succeeds makes the statements of the transaction
    durable, a rollback to a savepoint drops those since the savepoint, and nothing
    else makes anything durable. *)

From S2P Require Import Prelude.
From S2P Require Import GoStrings.
From S2P Require Import GoJson.
From S2P Require Import GoTime.
From S2P Require Import Problem.
From S2P Require Import Jwt.

(** ** Values *)

(** A Go value of type [any] as the source passes it: nil, the scalars, a
    [json.RawMessage], bytes, a time, a pointer (perhaps a nil one, which is not the nil
    interface) and a [pgtx.Typed]. *)
Inductive value : Type :=
  | VNil
  | VStr (s : string)
  | VInt (z : Z)
  | VBool (b : bool)
  | VRaw (s : string)
  | VBytes (s : string)
  | VTime (t : Time)
  | VPtr (v : option value)
  | VTyped (v : value) (type : string).

(** [v == nil] for an [any]. *)
Definition is_nil (v : value) : bool := match v with VNil => true | _ => false end.

(** [json.Marshal] of bytes: base64 with padding. *)
Definition std_base64 (s : string) : string :=
  smap (λ c, if Ascii.eqb c "-" then "+" else if Ascii.eqb c "_" then "/" else c)%char
    (b64_encode s)
  +:+ match String.length s mod 3 with 1 => "==" | 2 => "=" | _ => EmptyString end.

(** [json.Marshal(v)]; [None] for its error (a raw message that is not JSON). *)
Fixpoint marshal_value (v : value) : option string :=
  match v with
  | VNil | VPtr None => Some "null"
  | VStr s => Some (Quote s)
  | VInt z => Some (Itoa z)
  | VBool b => Some (if b then "true" else "false")
  | VRaw s => compact s
  | VBytes s => Some (quoted (std_base64 s))
  | VTime t => quoted <$> marshal_time t
  | VPtr (Some v) => marshal_value v
  | VTyped v _ => marshal_value v
  end.

(** A parameter of a statement: a value, the time since the request started (its
    amount is the clock's), a list of texts. *)
Inductive param : Type :=
  | PVal (v : value)
  | PElapsed
  | PTexts (l : list string).

(** ** Errors *)

(** The Go errors of the road: a [*problem.Problem], a [*pgconn.PgError] with its
    SQLSTATE and message, [pgx.ErrNoRows], another error, and one that wraps. *)
Inductive error : Type :=
  | EProblem (p : Problem)
  | EPg (code message : string)
  | ENoRows
  | EText (s : string)
  | EWrap (s : string) (e : error).

(** [errors.As(err, &p)] for a problem, for a PgError; [errors.Is] for ErrNoRows. *)
Fixpoint as_problem (e : error) : option Problem :=
  match e with EProblem p => Some p | EWrap _ e => as_problem e | _ => None end.

Fixpoint as_pg (e : error) : option (string * string) :=
  match e with EPg c m => Some (c, m) | EWrap _ e => as_pg e | _ => None end.

Fixpoint is_no_rows (e : error) : bool :=
  match e with ENoRows => true | EWrap _ e => is_no_rows e | _ => false end.

(** ** Operations *)

(** The contexts the source makes: the request's, the one of [begin] with its
    timeout, the two that a client's hang-up does not cancel (two seconds for the
    journal and for a lookup), and the one of the deferred rollback. *)
Inductive ctx : Type := Cx | CxBegin | CxJournal | CxLookup | CxDeferred.

#[global] Instance ctx_eq_dec : EqDecision ctx.
Proof. solve_decision. Defined.

(** The pool itself, or a transaction by its number. *)
Inductive conn : Type := Pool | Tx (n : nat).

Inductive op : Type :=
  | Begin (n : nat) (c : ctx)
  | Query (on : conn) (c : ctx) (sql : string) (args : list param)
  | Exec (n : nat) (c : ctx) (sql : string)
  | Commit (n : nat) (c : ctx)
  | Rollback (n : nat) (c : ctx).

Definition row := list value.
Definition answer := res error (list row).

Inductive prog (A : Type) : Type :=
  | Ret (a : A)
  | Op (o : op) (k : answer → prog A).
Arguments Ret {A} a.
Arguments Op {A} o k.

Fixpoint prog_bind {A B} (p : prog A) (f : A → prog B) : prog B :=
  match p with
  | Ret a => f a
  | Op o k => Op o (λ x, prog_bind (k x) f)
  end.

(** A driver answers an operation and goes to its next state. *)
Definition driver (D : Type) := D → op → answer * D.

Abbreviation event := (op * answer)%type.
Abbreviation trace := (list (op * answer)).

(** The result, the trace, and the driver's state at the end. *)
Fixpoint run {A D} (drv : driver D) (p : prog A) (d : D) : A * trace * D :=
  match p with
  | Ret a => (a, [], d)
  | Op o k =>
      let '(x, d) := drv d o in
      let '(a, t, d) := run drv (k x) d in
      (a, (o, x) :: t, d)
  end.

(** ** Scanning a row *)

Definition ScanError {A} : res error A := Err (EText "can't scan into dest").

Definition scan_bool (v : value) : res error bool :=
  match v with VBool b => Ok b | _ => ScanError end.
Definition scan_text (v : value) : res error string :=
  match v with VStr s => Ok s | _ => ScanError end.
Definition scan_int64 (v : value) : res error Z :=
  match v with VInt z => if in_bits 64 z then Ok z else ScanError | _ => ScanError end.
Definition scan_int32 (v : value) : res error Z :=
  match v with VInt z => if in_bits 32 z then Ok z else ScanError | _ => ScanError end.

(** Into a pointer: NULL is nil. *)
Definition scan_ptr {A} (f : value → res error A) (v : value) : res error (option A) :=
  match v with VNil => Ok None | v => x ← f v; Ok (Some x) end.

(** Into [[]byte] from a json column: NULL is nil. *)
Definition scan_bytes (v : value) : res error (option string) :=
  match v with
  | VNil => Ok None
  | VRaw s | VStr s | VBytes s => Ok (Some s)
  | _ => ScanError
  end.

(** [QueryRow(…).Scan(…)]: the first row, or ErrNoRows. *)
Definition first_row {A} (f : row → res error A) (x : answer) : res error A :=
  match x with
  | Err e => Err e
  | Ok [] => Err ENoRows
  | Ok (r :: _) => f r
  end.

Definition scan1 {A} (f : value → res error A) (r : row) : res error A :=
  match r with [v] => f v | _ => ScanError end.
Definition scan2 {A B} (f : value → res error A) (g : value → res error B) (r : row)
    : res error (A * B) :=
  match r with [v; w] => x ← f v; y ← g w; Ok (x, y) | _ => ScanError end.

(** ** The monad of the road *)

Section monad.
Context {St : Type}.

Definition M (A : Type) : Type := St → prog (A * St).

#[global] Instance M_ret : MRet M := λ A a s, Ret (a, s).
#[global] Instance M_bind : MBind M := λ A B f m s,
  prog_bind (m s) (λ '(a, s'), f a s').
Definition get : M St := λ s, Ret (s, s).
Definition put (s : St) : M unit := λ _, Ret (tt, s).
Definition modify (f : St → St) : M unit := λ s, Ret (tt, f s).
Definition call (o : op) : M answer := λ s, Op o (λ x, Ret (x, s)).
End monad.
Arguments M St A : clear implicits.

(** ** Lemmas *)

Lemma run_bind {A B D} (drv : driver D) (p : prog A) (f : A → prog B) d :
  run drv (prog_bind p f) d =
    let '(a, t, d1) := run drv p d in
    let '(b, t', d2) := run drv (f a) d1 in (b, t ++ t', d2).
Proof.
  revert d. induction p as [a|o k IH]; intros d; cbn.
  - by destruct (run drv (f a) d) as [[b t'] d2].
  - destruct (drv d o) as [x d1]. rewrite IH.
    destruct (run drv (k x) d1) as [[a t] d2].
    by destruct (run drv (f a) d2) as [[b t'] d3].
Qed.

(** ** What PostgreSQL promises *)

(** [pending d n] are the statements of the transaction [n] that its commit will
    make durable, [saved d n] those there were at its savepoint, [aborted d n] says
    that a statement failed in it and it refuses everything until it is rolled back,
    [durable d] is what is committed.  An operation on a transaction leaves the other
    ones alone ([others]). *)
Class TxLaws {D : Type} (drv : driver D) := {
  durable : D → list op;
  pending : D → nat → list op;
  saved : D → nat → list op;
  aborted : D → nat → bool;
  (* a transaction starts empty *)
  law_begin d n c x d' : drv d (Begin n c) = (x, d') →
    durable d' = durable d ∧ (is_ok x = true → pending d' n = [] ∧ aborted d' n = false);
  (* a statement joins its transaction; one that fails aborts it, unless it never
     reached the server *)
  law_query d n c sql args x d' : drv d (Query (Tx n) c sql args) = (x, d') →
    durable d' = durable d ∧ saved d' n = saved d n ∧
    (is_ok x = true → aborted d n = false ∧ aborted d' n = false ∧
       pending d' n = pending d n ++ [Query (Tx n) c sql args]) ∧
    (is_ok x = false → aborted d' n = true ∨
       aborted d' n = aborted d n ∧ pending d' n = pending d n);
  (* a query of the pool is a transaction of its own, for reading here *)
  law_pool d c sql args x d' n : drv d (Query Pool c sql args) = (x, d') →
    durable d' = durable d ∧ pending d' n = pending d n ∧ saved d' n = saved d n
    ∧ aborted d' n = aborted d n;
  law_savepoint d n c x d' : drv d (Exec n c "SAVEPOINT request") = (x, d') →
    durable d' = durable d ∧
    (is_ok x = true → aborted d n = false ∧ aborted d' n = false ∧
       pending d' n = pending d n ∧ saved d' n = pending d n);
  (* a rollback to the savepoint restores it, and the transaction is usable again *)
  law_rollback_to d n c x d' : drv d (Exec n c "ROLLBACK TO SAVEPOINT request") = (x, d') →
    durable d' = durable d ∧
    (is_ok x = true → aborted d' n = false ∧ pending d' n = saved d n ∧ saved d' n = saved d n);
  (* a commit makes the transaction durable, or nothing; this is an idealisation: a commit whose
     acknowledgement is lost is an error to the client, and PostgreSQL may have made the
     transaction durable, which the laws leave out *)
  law_commit d n c x d' : drv d (Commit n c) = (x, d') →
    (is_ok x = true → aborted d n = false ∧ durable d' = durable d ++ pending d n) ∧
    (is_ok x = false → durable d' = durable d);
  law_rollback d n c x d' : drv d (Rollback n c) = (x, d') → durable d' = durable d
}.

(** ** Reasoning about programs *)

(** [post p Q]: whatever the answers, the result satisfies [Q]. *)
Fixpoint post {A} (p : prog A) (Q : A → Prop) : Prop :=
  match p with
  | Ret a => Q a
  | Op _ k => ∀ x, post (k x) Q
  end.

(** [only P p]: whatever the answers, the operations satisfy [P]. *)
Fixpoint only {A} (P : op → Prop) (p : prog A) : Prop :=
  match p with
  | Ret _ => True
  | Op o k => P o ∧ ∀ x, only P (k x)
  end.

(** [wp drv p d Q]: run from [d], the result and the state at the end satisfy [Q]. *)
Definition wp {A D} (drv : driver D) (p : prog A) (d : D) (Q : A → D → Prop) : Prop :=
  let '(a, _, d') := run drv p d in Q a d'.

Lemma post_bind {A B} (p : prog A) (f : A → prog B) Q :
  post p (λ a, post (f a) Q) → post (prog_bind p f) Q.
Proof. induction p as [a|o k IH]; cbn; [done|]. intros H x. by apply IH. Qed.

Lemma post_mono {A} (p : prog A) (Q R : A → Prop) :
  (∀ a, Q a → R a) → post p Q → post p R.
Proof. intros HQ. induction p as [a|o k IH]; cbn; [apply HQ|]. intros H x. by apply IH. Qed.

Lemma post_true {A} (p : prog A) : post p (λ _, True).
Proof. by induction p. Qed.

(** What holds whatever the answers holds of a run. *)
Lemma post_run {A D} (drv : driver D) (p : prog A) d Q :
  post p Q → Q (run drv p d).1.1.
Proof.
  revert d. induction p as [a|o k IH]; intros d; cbn; [done|]. intros H.
  destruct (drv d o) as [x d1]. specialize (IH x d1 (H x)).
  by destruct (run drv (k x) d1) as [[a t] d2].
Qed.

Lemma only_bind {A B} P (p : prog A) (f : A → prog B) :
  only P p → (∀ a, only P (f a)) → only P (prog_bind p f).
Proof.
  intros Hp Hf. induction p as [a|o k IH]; cbn in *; [apply Hf|].
  destruct Hp as [Ho Hp]. split; [done|]. intros x. by apply IH.
Qed.

Lemma only_trace {A D} (drv : driver D) P (p : prog A) d :
  only P p → Forall (λ e, P e.1) (run drv p d).1.2.
Proof.
  revert d. induction p as [a|o k IH]; intros d; cbn; [constructor|]. intros [Ho H].
  destruct (drv d o) as [x d1]. specialize (IH x d1 (H x)).
  destruct (run drv (k x) d1) as [[a t] d2]. by constructor.
Qed.

Section wp.
Context {D : Type} (drv : driver D).

Lemma wp_ret {A} (a : A) d Q : Q a d → wp drv (Ret a) d Q.
Proof. done. Qed.

Lemma wp_op {A} o (k : answer → prog A) d Q :
  (∀ x d', drv d o = (x, d') → wp drv (k x) d' Q) → wp drv (Op o k) d Q.
Proof.
  intros H. unfold wp in *. cbn. destruct (drv d o) as [x d'] eqn:Hd.
  specialize (H x d' eq_refl). by destruct (run drv (k x) d') as [[a t] d2].
Qed.

Lemma wp_bind {A B} (p : prog A) (f : A → prog B) d Q :
  wp drv p d (λ a d', wp drv (f a) d' Q) → wp drv (prog_bind p f) d Q.
Proof.
  unfold wp. rewrite run_bind. destruct (run drv p d) as [[a t] d1].
  by destruct (run drv (f a) d1) as [[b t'] d2].
Qed.

Lemma wp_mono {A} (p : prog A) d (Q R : A → D → Prop) :
  (∀ a d', Q a d' → R a d') → wp drv p d Q → wp drv p d R.
Proof. unfold wp. destruct (run drv p d) as [[a t] d']. auto. Qed.

(** A step of the road's monad. *)
Lemma wp_mbind {St A B} (m : M St A) (f : A → M St B) s d Q :
  wp drv (m s) d (λ '(a, s') d', wp drv (f a s') d' Q) → wp drv ((m ≫= f) s) d Q.
Proof.
  intros H. apply wp_bind. eapply wp_mono; [|exact H]. by intros [a s'] d'.
Qed.

Lemma wp_call {St} o (s : St) d Q :
  (∀ x d', drv d o = (x, d') → Q (x, s) d') → wp drv (call o s) d Q.
Proof. intros H. apply wp_op. intros x d' Hx. by apply wp_ret, H. Qed.
End wp.

(** The successful statements of a trace. *)
Definition done_ops (t : trace) : list op := fst <$> filter (λ e, is_ok e.2 = true) t.

(** The statements of a transaction [n], and nothing else. *)
Definition queries (n : nat) (o : op) : Prop := ∃ c sql args, o = Query (Tx n) c sql args.

(** A program that only queries in a transaction adds its successful statements to
    it, or aborts it; it makes nothing durable and leaves the savepoint alone. *)
Lemma queries_pending {A D} (drv : driver D) `{!TxLaws drv} n (p : prog A) d :
  only (queries n) p →
  durable (run drv p d).2 = durable d ∧ saved (run drv p d).2 n = saved d n ∧
  (aborted d n = true → aborted (run drv p d).2 n = true) ∧
  (aborted (run drv p d).2 n = true ∨
   pending (run drv p d).2 n = pending d n ++ done_ops (run drv p d).1.2).
Proof.
  revert d. induction p as [a|o k IH]; intros d; cbn.
  - intros _. split_and!; try done. right. by rewrite app_nil_r.
  - intros [(c & sql & args & ->) Hk]. destruct (drv d _) as [x d1] eqn:Hd.
    destruct (law_query _ _ _ _ _ _ _ Hd) as (Hdur & Hsav & Hok & Herr).
    destruct (IH x d1 (Hk x)) as (H1 & H2 & H3 & H4).
    destruct (run drv (k x) d1) as [[a t] d2]. cbn [fst snd] in *.
    unfold done_ops in *. rewrite filter_cons. cbn [fst snd].
    split_and!; [congruence|congruence|..]; destruct x as [rows|e]; cbn [is_ok] in *.
    + destruct (Hok eq_refl) as (Hab & _). congruence.
    + intros Hab. apply H3. destruct (Herr eq_refl) as [|[-> _]]; done.
    + destruct (Hok eq_refl) as (_ & _ & Hp). destruct H4 as [|H4]; [by left|right].
      rewrite decide_True by done. rewrite H4, Hp, fmap_cons, <- app_assoc. done.
    + destruct H4 as [|H4]; [by left|]. rewrite decide_False by done.
      destruct (Herr eq_refl) as [Hab|[_ Hp]]; [left; by apply H3|right].
      by rewrite H4, Hp.
Qed.

(** ** A database that keeps the promises

    It answers each operation by a given function, unless the transaction is
    aborted; a failing statement aborts its transaction. *)

Record toy := mkToy {
  toy_durable : list op;
  toy_pending : nat → list op;
  toy_saved : nat → list op;
  toy_aborted : nat → bool
}.

Definition upd {A} (f : nat → A) (n : nat) (a : A) : nat → A :=
  λ m, if (m =? n)%nat then a else f m.

Definition AbortedError : error :=
  EPg "25P02" "current transaction is aborted, commands ignored until end of transaction block".

Definition toy_step (d : toy) (o : op) (ok : bool) : toy :=
  let '(mkToy dur pen sav abo) := d in
  match o with
  | Begin n _ => if ok then mkToy dur (upd pen n []) sav (upd abo n false) else d
  | Query Pool _ _ _ => d
  | Query (Tx n) _ _ _ =>
      if ok then mkToy dur (upd pen n (pen n ++ [o])) sav abo else mkToy dur pen sav (upd abo n true)
  | Exec n _ sql =>
      if String.eqb sql "SAVEPOINT request" then
        if ok then mkToy dur pen (upd sav n (pen n)) abo else d
      else if String.eqb sql "ROLLBACK TO SAVEPOINT request" then
        if ok then mkToy dur (upd pen n (sav n)) sav (upd abo n false) else d
      else d
  | Commit n _ => if ok then mkToy (dur ++ pen n) pen sav abo else d
  | Rollback n _ => mkToy dur (upd pen n []) sav (upd abo n false)
  end.

(** An aborted transaction takes a rollback only. *)
Definition toy_refuses (d : toy) (o : op) : bool :=
  match o with
  | Query (Tx n) _ _ _ | Commit n _ => toy_aborted d n
  | Exec n _ sql => toy_aborted d n && negb (String.eqb sql "ROLLBACK TO SAVEPOINT request")
  | _ => false
  end.

Definition toy_driver (ans : op → answer) : driver toy := λ d o,
  let x := if toy_refuses d o then Err AbortedError else ans o in
  (x, toy_step d o (is_ok x)).

Definition toy_init : toy := mkToy [] (λ _, []) (λ _, []) (λ _, false).

Lemma upd_eq {A} (f : nat → A) n a : upd f n a n = a.
Proof. unfold upd. by rewrite Nat.eqb_refl. Qed.

#[export] Program Instance toy_laws ans : TxLaws (toy_driver ans) := {|
  durable := toy_durable; pending := toy_pending; saved := toy_saved; aborted := toy_aborted
|}.
Next Obligation.
  intros ans [dur pen sav abo] n c x d' [= <- <-]. cbn.
  destruct (is_ok (ans (Begin n c))); cbn; rewrite ?upd_eq; done.
Qed.
Next Obligation.
  intros ans [dur pen sav abo] n c sql args x d' [= <- <-]. cbn.
  destruct (abo n) eqn:Hab; cbn; [by rewrite upd_eq; split_and!; auto|].
  destruct (is_ok (ans (Query (Tx n) c sql args))); cbn; rewrite ?upd_eq; split_and!; auto; done.
Qed.
Next Obligation. by intros ans [dur pen sav abo] c sql args x d' n [= <- <-]. Qed.
Next Obligation.
  intros ans [dur pen sav abo] n c x d' [= <- <-]. cbn.
  destruct (abo n) eqn:Hab; cbn; [done|].
  destruct (is_ok (ans (Exec n c "SAVEPOINT request"))); cbn; rewrite ?upd_eq; done.
Qed.
Next Obligation.
  intros ans [dur pen sav abo] n c x d' [= <- <-]. cbn. rewrite andb_false_r.
  destruct (is_ok (ans (Exec n c "ROLLBACK TO SAVEPOINT request"))); cbn; rewrite ?upd_eq; done.
Qed.
Next Obligation.
  intros ans [dur pen sav abo] n c x d' [= <- <-]. cbn.
  destruct (abo n) eqn:Hab; cbn; [done|].
  destruct (is_ok (ans (Commit n c))); cbn; done.
Qed.
Next Obligation. by intros ans [dur pen sav abo] n c x d' [= <- <-]. Qed.

(** ** Rules for the road's monad *)

Section rules.
Context {St : Type}.

Lemma post_mbind {A B} (m : M St A) (f : A → M St B) s Q :
  post (m s) (λ '(a, s'), post (f a s') Q) → post ((m ≫= f) s) Q.
Proof.
  intros H. apply post_bind. eapply post_mono; [|exact H]. by intros [a s'].
Qed.

Lemma post_any {A B} (m : M St A) (f : A → M St B) s Q :
  (∀ a s', post (f a s') Q) → post ((m ≫= f) s) Q.
Proof.
  intros H. apply post_mbind. eapply post_mono; [|apply post_true]. by intros [a s'] _.
Qed.

Lemma get_bind {B} (f : St → M St B) s : (get ≫= f) s = f s s.
Proof. done. Qed.
Lemma modify_bind {B} g (f : unit → M St B) s : (modify g ≫= f) s = f tt (g s).
Proof. done. Qed.
Lemma ret_bind {A B} (a : A) (f : A → M St B) s : (mret a ≫= f) s = f a s.
Proof. done. Qed.
Lemma call_bind {B} o (f : answer → M St B) s : (call o ≫= f) s = Op o (λ x, f x s).
Proof. done. Qed.

Lemma only_mbind {A B} P (m : M St A) (f : A → M St B) s :
  only P (m s) → (∀ a s', only P (f a s')) → only P ((m ≫= f) s).
Proof. intros Hm Hf. apply only_bind; [done|]. by intros [a s']. Qed.
End rules.

#[export] Hint Rewrite @get_bind @modify_bind @ret_bind @call_bind : platform.

(** A query of the pool. *)
Definition pool_query (o : op) : Prop := ∃ c sql args, o = Query Pool c sql args.

(** A program that only queries the pool changes nothing in any transaction. *)
Lemma pool_frame {A D} (drv : driver D) `{!TxLaws drv} (p : prog A) d n :
  only pool_query p →
  durable (run drv p d).2 = durable d ∧ pending (run drv p d).2 n = pending d n ∧
  saved (run drv p d).2 n = saved d n ∧ aborted (run drv p d).2 n = aborted d n.
Proof.
  revert d. induction p as [a|o k IH]; intros d; cbn; [done|].
  intros [(c & sql & args & ->) Hk]. destruct (drv d _) as [x d1] eqn:Hd.
  destruct (law_pool _ _ _ _ _ _ n Hd) as (H1 & H2 & H3 & H4).
  specialize (IH x d1 (Hk x)). destruct (run drv (k x) d1) as [[a t] d2].
  cbn in *. intuition congruence.
Qed.

(** ** Programs with a past

    [sat P past p Q]: after the events [past], whatever the answers, each operation
    of [p] is one that [P] allows after the events before it, and the result and the
    whole past at the end satisfy [Q]. *)
Fixpoint sat {A} (P : trace → op → Prop) (past : trace) (p : prog A) (Q : A → trace → Prop)
    : Prop :=
  match p with
  | Ret a => Q a past
  | Op o k => P past o ∧ ∀ x, sat P (past ++ [(o, x)]) (k x) Q
  end.

Lemma sat_mono {A} P (p : prog A) : ∀ past (Q R : A → trace → Prop),
  (∀ a t, past `prefix_of` t → Q a t → R a t) → sat P past p Q → sat P past p R.
Proof.
  induction p as [a|o k IH]; intros past Q R HQ; cbn; [by apply HQ|].
  intros [Ho Hk]. split; [done|]. intros x. eapply IH; [|apply Hk].
  intros a t Ht. apply HQ. etrans; [|exact Ht]. by eexists.
Qed.

Lemma sat_bind {A B} P (p : prog A) (f : A → prog B) : ∀ past Q,
  sat P past p (λ a t, sat P t (f a) Q) → sat P past (prog_bind p f) Q.
Proof.
  induction p as [a|o k IH]; intros past Q; cbn; [done|].
  intros [Ho Hk]. split; [done|]. intros x. by apply IH.
Qed.

Lemma sat_mbind {St A B} P (m : M St A) (f : A → M St B) s past Q :
  sat P past (m s) (λ r t, sat P t (f r.1 r.2) Q) → sat P past ((m ≫= f) s) Q.
Proof. intros H. apply sat_bind. eapply sat_mono; [|exact H]. by intros [a s']. Qed.

(** A program whose operations are allowed after any past. *)
Lemma sat_only {A} P (p : prog A) R : ∀ past Q,
  only (λ o, ∀ t, P t o) p → post p R →
  (∀ a t, past `prefix_of` t → R a → Q a t) → sat P past p Q.
Proof.
  induction p as [a|o k IH]; intros past Q; cbn; [by intros _ HR HQ; apply HQ|].
  intros [Ho Hk] HR HQ. split; [done|]. intros x. apply IH; [done|done|].
  intros a t Ht. apply HQ. etrans; [|exact Ht]. by eexists.
Qed.

Lemma only_mono {A} (P R : op → Prop) (p : prog A) : (∀ o, P o → R o) → only P p → only R p.
Proof.
  intros HP. induction p as [a|o k IH]; cbn; [done|]. intros [Ho Hk]. split; auto.
Qed.

(** What [sat] says of a run. *)
Lemma sat_run {A D} (drv : driver D) P (p : prog A) : ∀ d past Q,
  sat P past p Q →
  let '(a, t, _) := run drv p d in
  Q a (past ++ t) ∧ (∀ t1 o x t2, t = t1 ++ (o, x) :: t2 → P (past ++ t1) o).
Proof.
  induction p as [a|o k IH]; intros d past Q; cbn.
  - intros HQ. rewrite app_nil_r. split; [done|]. by intros [|??] ? ? ?.
  - intros [Ho Hk]. destruct (drv d o) as [x d1]. specialize (IH x d1 _ _ (Hk x)).
    destruct (run drv (k x) d1) as [[a t] d2]. destruct IH as [HQ HP].
    rewrite <- app_assoc in HQ. split; [done|]. intros t1 o' x' t2 Heq.
    destruct t1 as [|e t1]; cbn in Heq; injection Heq as -> -> || injection Heq as <- Heq.
    + by rewrite app_nil_r.
    + rewrite (cons_middle (o, x)), app_assoc. by eapply HP.
Qed.
