(* ===== verification/GoNet.v ===== *)
(** * net/netip and net, as far as the source uses them

    Addresses as numbers of 32 or 128 bits (an IPv6 one with its zone), their texts
    in both directions ([ParseAddr], [String], [ParseAddrPort]), prefixes
    ([ParsePrefix], [Masked], [Contains]), and [net.ParseIP(s).String()]. *)

From S2P Require Import Prelude.
From S2P Require Import GoStrings.

#[local] Open Scope N_scope.

(** ** Addresses *)

Inductive Addr : Type :=
  | V4 (n : N)
  | V6 (n : N) (zone : string).

#[global] Instance Addr_eq_dec : EqDecision Addr.
Proof. solve_decision. Defined.

Definition Is4In6 (a : Addr) : bool :=
  match a with V6 n _ => n / 2 ^ 32 =? 65535 | V4 _ => false end.

Definition Unmap (a : Addr) : Addr :=
  match a with
  | V6 n z => if n / 2 ^ 32 =? 65535 then V4 (n mod 2 ^ 32) else a
  | V4 _ => a
  end.

Definition WithoutZone (a : Addr) : Addr :=
  match a with V6 n _ => V6 n EmptyString | V4 _ => a end.

Definition BitLen (a : Addr) : Z := match a with V4 _ => 32 | V6 _ _ => 128 end%Z.

(** ** Reading *)

(** One field of a dotted address: digits without a leading zero, at most 255. *)
Definition parse_octet (s : string) : option N :=
  if is_empty s || negb (sforall is_digit s) then None
  else if (1 <? String.length s)%nat && HasPrefix s "0" then None
  else v ← digits_val 0 s; if (v <=? 255)%Z then Some (Z.to_N v) else None.

Definition parse4 (s : string) : option N :=
  match Split s "." with
  | [a; b; c; d] =>
      a ← parse_octet a; b ← parse_octet b; c ← parse_octet c; d ← parse_octet d;
      Some (((a * 256 + b) * 256 + c) * 256 + d)
  | _ => None
  end.

Definition hex_digit_val (c : ascii) : option N :=
  if is_digit c then Some (byte_n c - 48)
  else if in_range "a" "f" c then Some (byte_n c - 87)
  else if in_range "A" "F" c then Some (byte_n c - 55)
  else None.

(** The hex digits at the front of [s]: their number, their value, the rest. *)
Fixpoint hex_run (acc : N) (s : string) : nat * N * string :=
  match s with
  | String c r =>
      match hex_digit_val c with
      | Some d => let '(n, v, k) := hex_run (acc * 16 + d) r in (S n, v, k)
      | None => (0%nat, acc, s)
      end
  | EmptyString => (0%nat, acc, s)
  end.

(** The groups of an IPv6 text: [acc] the groups read (16 bits each, a dotted tail
    is two), [ell] how many there were at the [::]; a group is read per round. *)
Fixpoint parse6_groups (fuel : nat) (s : string) (acc : list N) (ell : option nat)
    : option (list N * option nat) :=
  match fuel with
  | O => None
  | S fuel =>
      let '(n, v, k) := hex_run 0 s in
      if (n =? 0)%nat || (4 <? n)%nat then None
      else
        match k with
        | String c k1 =>
            if Ascii.eqb c "." then
              if (bool_decide (ell = None) && negb (length acc =? 6)%nat)
                 || (6 <? length acc)%nat then None
              else v4 ← parse4 s; Some (acc ++ [v4 / 65536; v4 mod 65536], ell)
            else
              let acc := acc ++ [v] in
              if negb (Ascii.eqb c ":") || is_empty k1 then None
              else
                match k1 with
                | String d k2 =>
                    if Ascii.eqb d ":" then
                      if bool_decide (ell = None) then
                        if is_empty k2 || (length acc =? 8)%nat
                        then if is_empty k2 then Some (acc, Some (length acc)) else None
                        else parse6_groups fuel k2 acc (Some (length acc))
                      else None
                    else if (length acc =? 8)%nat then None
                    else parse6_groups fuel k1 acc ell
                | EmptyString => None
                end
        | EmptyString => Some (acc ++ [v], ell)
        end
  end.

Definition groups_val (l : list N) : N := foldl (λ a g, a * 65536 + g) 0 l.

(** Fills the [::] with at least one group of zeros. *)
Definition expand6 (l : list N) (ell : option nat) : option N :=
  match ell with
  | None => if (length l =? 8)%nat then Some (groups_val l) else None
  | Some e => if (length l <? 8)%nat
              then Some (groups_val (take e l ++ repeat 0 (8 - length l) ++ drop e l))
              else None
  end.

Definition parse6 (s : string) : option Addr :=
  let '(addr, zone, has_zone) := Cut s "%" in
  if has_zone && is_empty zone then None
  else
    let result l ell := n ← expand6 l ell; Some (V6 n zone) in
    if HasPrefix addr "::" then
      if (String.length addr =? 2)%nat then Some (V6 0 zone)
      else '(l, ell) ← parse6_groups 8 (sdrop 2 addr) [] (Some 0%nat); result l ell
    else '(l, ell) ← parse6_groups 8 addr [] None; result l ell.

(** [netip.ParseAddr]: the first of [.], [:], [%] decides. *)
Fixpoint addr_kind (s : string) : option ascii :=
  match s with
  | EmptyString => None
  | String c r =>
      if Ascii.eqb c "." || Ascii.eqb c ":" || Ascii.eqb c "%" then Some c else addr_kind r
  end.

Definition ParseAddr (s : string) : option Addr :=
  match addr_kind s with
  | Some c => if Ascii.eqb c "." then V4 <$> parse4 s
              else if Ascii.eqb c ":" then parse6 s else None
  | None => None
  end.

(** [strings.LastIndexByte] as a cut: before and after the last [sep]. *)
Fixpoint CutLast (s : string) (sep : ascii) : option (string * string) :=
  match s with
  | EmptyString => None
  | String c r =>
      match CutLast r sep with
      | Some (b, a) => Some (String c b, a)
      | None => if Ascii.eqb c sep then Some (EmptyString, r) else None
      end
  end.

Definition parse_port (s : string) : option N :=
  if is_empty s || negb (sforall is_digit s) then None
  else v ← digits_val 0 s; if (v <? 65536)%Z then Some (Z.to_N v) else None.

(** [netip.ParseAddrPort(s)], its address. *)
Definition ParseAddrPort (s : string) : option Addr :=
  '(ip, port) ← CutLast s ":";
  if is_empty ip || is_empty port then None
  else
    let bracketed := HasPrefix ip "[" in
    if bracketed && ((String.length ip <? 2)%nat || negb (HasSuffix ip "]")) then None
    else
      let ip := if bracketed then stake (String.length ip - 2) (sdrop 1 ip) else ip in
      _ ← parse_port port;
      a ← ParseAddr ip;
      match a with
      | V4 _ => if bracketed then None else Some a
      | V6 _ _ => if bracketed then Some a else None
      end.

(** ** Printing *)

Definition dec (n : N) : string := Itoa (Z.of_N n).

Definition print4 (n : N) : string :=
  dec (n / 2 ^ 24) +:+ "." +:+ dec (n / 2 ^ 16 mod 256) +:+ "." +:+ dec (n / 256 mod 256)
  +:+ "." +:+ dec (n mod 256).

Definition hex_char (n : N) : ascii := ascii_of_N (if n <? 10 then 48 + n else 87 + n).

(** A group in hex, without leading zeros. *)
Definition hex_group (g : N) : string :=
  let d n := one (hex_char n) in
  (if 4096 <=? g then d (g / 4096) else EmptyString)
  +:+ (if 256 <=? g then d (g / 256 mod 16) else EmptyString)
  +:+ (if 16 <=? g then d (g / 16 mod 16) else EmptyString)
  +:+ d (g mod 16).

Definition groups_of (n : N) : list N :=
  (λ i, n / 2 ^ (16 * (7 - i)) mod 65536) <$> [0; 1; 2; 3; 4; 5; 6; 7].

Fixpoint zero_run (l : list N) : nat :=
  match l with g :: l => if g =? 0 then S (zero_run l) else 0%nat | [] => 0%nat end.

(** The first longest run of two zero groups or more: its start and its length. *)
Fixpoint longest_zeros (i : nat) (best : nat * nat) (l : list N) : nat * nat :=
  match l with
  | [] => best
  | _ :: l' =>
      let r := zero_run l in
      longest_zeros (S i) (if (2 <=? r)%nat && (best.2 <? r)%nat then (i, r) else best) l'
  end.

Definition print6 (n : N) : string :=
  let g := groups_of n in
  let '(start, len) := longest_zeros 0 (0%nat, 0%nat) g in
  if (len =? 0)%nat then Join (hex_group <$> g) ":"
  else Join (hex_group <$> take start g) ":" +:+ "::" +:+ Join (hex_group <$> drop (start + len) g) ":".

(** [a.String()]. *)
Definition AddrString (a : Addr) : string :=
  match a with
  | V4 n => print4 n
  | V6 n z =>
      (if n / 2 ^ 32 =? 65535 then "::ffff:" +:+ print4 (n mod 2 ^ 32) else print6 n)
      +:+ (if is_empty z then EmptyString else "%" +:+ z)
  end.

(** [net.ParseIP(s)] and its [String()]: no zone, an IPv4-mapped address as IPv4. *)
Definition ParseIP_String (s : string) : option string :=
  a ← ParseAddr s;
  match a with
  | V6 n (String _ _) => None
  | _ => Some (AddrString (Unmap a))
  end.

(** ** Prefixes *)

(** [None] for the address is the invalid prefix, which contains nothing. *)
Record Prefix := mkPrefix { prefix_addr : option Addr; prefix_bits : Z }.

Definition invalid_prefix : Prefix := mkPrefix None 0.

Definition PrefixFrom (a : Addr) (bits : Z) : Prefix :=
  if ((bits <? 0) || (BitLen a <? bits))%Z then invalid_prefix else mkPrefix (Some a) bits.

(** [netip.ParsePrefix]. *)
Definition ParsePrefix (s : string) : option Prefix :=
  '(ip, bits) ← CutLast s "/";
  a ← ParseAddr ip;
  match a with
  | V6 _ (String _ _) => None
  | _ =>
      if (1 <? String.length bits)%nat && negb (HasPrefix bits "1" || HasPrefix bits "2"
           || HasPrefix bits "3" || HasPrefix bits "4" || HasPrefix bits "5" || HasPrefix bits "6"
           || HasPrefix bits "7" || HasPrefix bits "8" || HasPrefix bits "9") then None
      else b ← Atoi bits;
           if ((b <? 0) || (BitLen a <? b))%Z then None else Some (mkPrefix (Some a) b)
  end.

Definition host_bits (a : Addr) (bits : Z) : N := Z.to_N (BitLen a - bits).

(** [p.Masked()]. *)
Definition Masked (p : Prefix) : Prefix :=
  match prefix_addr p with
  | Some a =>
      let h := host_bits a (prefix_bits p) in
      let cut n := N.shiftl (N.shiftr n h) h in
      mkPrefix (Some match a with V4 n => V4 (cut n) | V6 n _ => V6 (cut n) EmptyString end)
        (prefix_bits p)
  | None => invalid_prefix
  end.

(** [p.Contains(a)]. *)
Definition Contains (p : Prefix) (a : Addr) : bool :=
  match prefix_addr p, a with
  | Some (V4 m), V4 n =>
      let h := host_bits a (prefix_bits p) in N.shiftr m h =? N.shiftr n h
  | Some (V6 m _), V6 n EmptyString =>
      let h := host_bits a (prefix_bits p) in N.shiftr m h =? N.shiftr n h
  | _, _ => false
  end.

(** ** net *)

(** [net.SplitHostPort]; [None] for its error. *)
Definition SplitHostPort (s : string) : option (string * string) :=
  match s with
  | String c r =>
      if Ascii.eqb c "[" then
        match Cut r "]" with
        | (host, String d port, true) =>
            if Ascii.eqb d ":" && negb (contains_byte port ":")
               && negb (contains_byte host "[" || contains_byte port "[" || contains_byte port "]")
            then Some (host, port) else None
        | _ => None
        end
      else
        '(host, port) ← CutLast s ":";
        if contains_byte host ":" || contains_byte s "[" || contains_byte s "]"
        then None else Some (host, port)
  | EmptyString => None
  end.

(** [net.ParseIP]: an address without a zone. *)
Definition ParseIP (s : string) : option Addr :=
  a ← ParseAddr s;
  match a with V6 _ (String _ _) => None | _ => Some a end.

(** [ip.To4()]: an IPv4 address, or an IPv4-mapped one. *)
Definition To4 (a : Addr) : option N :=
  match Unmap a with V4 n => Some n | V6 _ _ => None end.

(** [ip.IsPrivate()] and [ip.IsLoopback()] of an IPv4 address. *)
Definition IsPrivate4 (n : N) : bool :=
  (n / 2 ^ 24 =? 10) || (n / 2 ^ 20 =? 172 * 16 + 1) || (n / 2 ^ 16 =? 192 * 256 + 168).
Definition IsLoopback4 (n : N) : bool := n / 2 ^ 24 =? 127.

(** ** Lemmas: a printed IPv4 address *)

Lemma parse_octet_dec n : n <= 255 → parse_octet (dec n) = Some n.
Proof.
  intros Hn. assert (H : forallb (λ k, bool_decide (parse_octet (dec (N.of_nat k)) = Some (N.of_nat k)))
    (seq 0 256) = true) by (vm_compute; reflexivity).
  rewrite forallb_forall in H. specialize (H (N.to_nat n)). rewrite N2Nat.id in H.
  apply (bool_decide_unpack _), Is_true_eq_left, H, in_seq. lia.
Qed.

Lemma dec_digits n : sforall is_digit (dec n) = true.
Proof.
  unfold dec. destruct (Itoa_shape (Z.of_N n)) as (c & r & -> & Hc & Hr & _).
  destruct (Z.ltb_spec (Z.of_N n) 0); [lia|]. cbn. by rewrite Hc, Hr.
Qed.

(** Digits are no separators. *)
Lemma digits_no_byte b s : is_digit b = false → sforall is_digit s = true →
  sforall (λ c, negb (Ascii.eqb c b)) s = true.
Proof.
  intros Hb. apply sforall_impl. intros c Hc. apply negb_true_iff, Ascii.eqb_neq. intros ->. congruence.
Qed.

Definition ipv4 (n : N) : Prop := n < 2 ^ 32.

Lemma parse4_print4 n : ipv4 n → parse4 (print4 n) = Some n.
Proof.
  intros Hn. unfold ipv4 in Hn. change (2 ^ 32) with 4294967296 in Hn.
  unfold parse4, print4. change (2 ^ 24) with 16777216. change (2 ^ 16) with 65536.
  assert (Hd : ∀ k, sforall (λ c, negb (Ascii.eqb c ".")) (dec k) = true)
    by (intros k; apply digits_no_byte; [done|apply dec_digits]).
  rewrite !sapp_cons, !sapp_nil_l.
  rewrite (Split_app _ (dec (n / 65536 mod 256) +:+ String "." (dec (n / 256 mod 256) +:+ String "." (dec (n mod 256)))))
    by done.
  rewrite (Split_app (dec (n / 65536 mod 256))), (Split_app (dec (n / 256 mod 256))), Split_none by done.
  rewrite !parse_octet_dec by (try (apply N.lt_succ_r, N.mod_lt; done);
    apply N.lt_succ_r, N.Div0.div_lt_upper_bound; lia).
  cbn [mbind option_bind]. f_equal.
  pose proof (N.div_mod n 256 ltac:(done)) as H0. pose proof (N.div_mod (n / 256) 256 ltac:(done)) as H1.
  pose proof (N.div_mod (n / 65536) 256 ltac:(done)) as H2. rewrite N.Div0.div_div in H1, H2.
  change (256 * 256) with 65536 in H1. change (65536 * 256) with 16777216 in H2. lia.
Qed.

Lemma addr_kind_digits d c r : sforall is_digit d = true →
  Ascii.eqb c "." || Ascii.eqb c ":" || Ascii.eqb c "%" = true → addr_kind (d +:+ String c r) = Some c.
Proof.
  intros Hd Hc. induction d as [|x d IH]; [rewrite sapp_nil_l; cbn [addr_kind]; by rewrite Hc|]. cbn [sforall] in Hd.
  apply andb_true_iff in Hd as [Hx Hd]. rewrite sapp_cons. cbn [addr_kind].
  assert (Ascii.eqb x "." || Ascii.eqb x ":" || Ascii.eqb x "%" = false) as ->
    by (clear -Hx; byte_cases x; done). by apply IH.
Qed.

Lemma ParseIP_print4 n : ipv4 n → ParseIP (print4 n) = Some (V4 n).
Proof.
  intros Hn. unfold ParseIP, ParseAddr. unfold print4 at 1. rewrite sapp_cons, sapp_nil_l.
  rewrite addr_kind_digits by (try done; apply dec_digits).
  change (Ascii.eqb "." ".") with true. cbn iota. by rewrite parse4_print4.
Qed.

Lemma CutLast_none s sep : sforall (λ c, negb (Ascii.eqb c sep)) s = true → CutLast s sep = None.
Proof.
  induction s as [|c s IH]; [done|]. cbn [sforall]. rewrite andb_true_iff, negb_true_iff. intros [Hc Hs].
  cbn [CutLast]. by rewrite (IH Hs), Hc.
Qed.

Lemma CutLast_app a b sep : sforall (λ c, negb (Ascii.eqb c sep)) b = true →
  CutLast (a +:+ String sep b) sep = Some (a, b).
Proof.
  intros Hb. induction a as [|c a IH].
  - rewrite sapp_nil_l. cbn [CutLast]. rewrite CutLast_none by done. by rewrite Ascii.eqb_refl.
  - rewrite sapp_cons. cbn [CutLast]. by rewrite IH.
Qed.

Lemma contains_byte_app s t b : contains_byte (s +:+ t) b = contains_byte s b || contains_byte t b.
Proof. unfold contains_byte. by rewrite sforall_app, negb_andb. Qed.

Lemma contains_byte_dec n b : is_digit b = false → contains_byte (dec n) b = false.
Proof. intros Hb. unfold contains_byte. by rewrite digits_no_byte by (try done; apply dec_digits). Qed.

Lemma contains_byte_print4 n b : is_digit b = false → Ascii.eqb "." b = false →
  contains_byte (print4 n) b = false.
Proof.
  intros Hb Hd. unfold print4. rewrite !contains_byte_app, !contains_byte_dec by done.
  unfold contains_byte. cbn [sforall]. by rewrite Hd.
Qed.

Lemma SplitHostPort_print4 n port : SplitHostPort (print4 n +:+ ":" +:+ dec port) = Some (print4 n, dec port).
Proof.
  assert (Hd : sforall (λ c, negb (Ascii.eqb c ":")) (dec port) = true)
    by (apply digits_no_byte; [done|apply dec_digits]).
  assert (Hb : ∀ b, is_digit b = false → Ascii.eqb "." b = false → Ascii.eqb ":" b = false →
    contains_byte (print4 n +:+ ":" +:+ dec port) b = false).
  { intros b H1 H2 H3. rewrite !contains_byte_app, contains_byte_print4, contains_byte_dec by done.
    unfold contains_byte. cbn [sforall]. by rewrite H3. }
  unfold SplitHostPort. rewrite !Hb by done. rewrite sapp_cons, sapp_nil_l, CutLast_app by done.
  rewrite sapp_cons, sapp_nil_l in Hb.
  destruct (print4 n +:+ String ":" (dec port)) as [|c s] eqn:Hs; [by destruct (print4 n)|].
  destruct (Ascii.eqb_spec c "[") as [->|_].
  { specialize (Hb "["%char eq_refl eq_refl eq_refl). by cbn in Hb. }
  cbn [mbind option_bind]. by rewrite contains_byte_print4.
Qed.
