(* ===== verification/Url.v ===== *)
(** * net/url and path, as far as the source uses them

    [url.ParseQuery] and [URL.Query] (the second drops what the first complains
    about), percent decoding, and [path.Clean]. *)

From S2P Require Import Prelude.
From S2P Require Import GoStrings.
From S2P Require Import GoJson.

(** ** Percent decoding *)

(** [url.QueryUnescape] ([plus] is true) and [url.PathUnescape]; [None] for a [%]
    that two hex digits do not follow. *)
Fixpoint unescape (plus : bool) (s : string) : option string :=
  match s with
  | EmptyString => Some EmptyString
  | String c r =>
      if Ascii.eqb c "%" then
        match r with
        | String h (String l r') =>
            if is_hex h && is_hex l
            then String (ascii_of_N (16 * hex_val h + hex_val l)) <$> unescape plus r'
            else None
        | _ => None
        end
      else String (if plus && Ascii.eqb c "+" then " "%char else c) <$> unescape plus r
  end.

Definition QueryUnescape : string → option string := unescape true.
Definition PathUnescape : string → option string := unescape false.

(** ** Queries *)

(** [url.Values]. *)
Abbreviation Values := (gmap string (list string)).

(** One part of the query between two [&]: nothing, a pair, or an error. *)
Definition query_pair (part : string) : res unit (option (string * string)) :=
  if contains_byte part ";" then Err tt
  else if is_empty part then Ok None
  else
    let '(k, v, _) := Cut part "=" in
    match QueryUnescape k, QueryUnescape v with
    | Some k, Some v => Ok (Some (k, v))
    | _, _ => Err tt
    end.

Definition add_pair (v : Values) (kv : string * string) : Values :=
  <[kv.1 := default [] (v !! kv.1) ++ [kv.2]]> v.

(** The pairs of a query, in order, the erroneous ones left out. *)
Definition query_pairs (q : string) : list (string * string) :=
  omap (λ p, match query_pair p with Ok x => x | Err _ => None end) (Split q "&").

(** [r.URL.Query()]: what cannot be unescaped is dropped. *)
Definition Query (q : string) : Values := foldl add_pair ∅ (query_pairs q).

(** [url.ParseQuery(q)] without an error. *)
Definition ParseQuery_ok (q : string) : bool :=
  forallb (λ p, is_ok (query_pair p)) (Split q "&").

(** [v.Get(k)]. *)
Definition values_get (v : Values) (k : string) : string :=
  default EmptyString (head (default [] (v !! k))).

(** ** path.Clean *)

(** The segments kept so far, the last one first; [..] takes one back, or stays when
    the path is not rooted and there is none to take. *)
Definition clean_step (rooted : bool) (out : list string) (seg : string) : list string :=
  if is_empty seg || String.eqb seg "." then out
  else if String.eqb seg ".." then
    match out with
    | [] => if rooted then [] else [".."]
    | top :: rest => if String.eqb top ".." then ".." :: out else rest
    end
  else seg :: out.

Definition Clean (p : string) : string :=
  let rooted := HasPrefix p "/" in
  let body := Join (rev (foldl (clean_step rooted) [] (Split p "/"))) "/" in
  if rooted then "/" +:+ body else if is_empty body then "." else body.

(** ** Lemmas *)

(** When the query parses, no part of it is lost: each part that holds anything is a
    pair of [Query]. *)
Lemma ParseQuery_ok_pairs q part :
  ParseQuery_ok q = true → part ∈ Split q "&" → part ≠ EmptyString →
  ∃ k v, query_pair part = Ok (Some (k, v)) ∧ (k, v) ∈ query_pairs q.
Proof.
  intros Hq Hin Hne. unfold ParseQuery_ok in Hq.
  rewrite forallb_forall in Hq. specialize (Hq part (proj1 (list_elem_of_In _ _) Hin)).
  destruct (query_pair part) as [[[k v]|]|] eqn:Hp; [|exfalso|done].
  - exists k, v. split; [done|]. apply list_elem_of_omap. exists part. by rewrite Hp.
  - unfold query_pair in Hp. destruct (contains_byte _ _); [done|].
    destruct part; [done|]. cbn [is_empty] in Hp.
    destruct (Cut _ _) as [[k v] f]. by repeat case_match.
Qed.

Lemma add_pairs_lookup l (v : Values) k :
  default [] (foldl add_pair v l !! k) = default [] (v !! k) ++ (filter (λ kv, kv.1 = k) l).*2.
Proof.
  revert v. induction l as [|[k' x] l IH]; intros v; cbn [foldl].
  - by rewrite app_nil_r.
  - rewrite IH, filter_cons. unfold add_pair. cbn [fst snd]. destruct (decide (k' = k)) as [->|Hk].
    + rewrite lookup_insert_eq. cbn. by rewrite <- app_assoc.
    + by rewrite lookup_insert_ne.
Qed.

(** The values of a key are those of its pairs, in the order of the query. *)
Lemma Query_lookup q k :
  default [] (Query q !! k) = (filter (λ kv, kv.1 = k) (query_pairs q)).*2.
Proof. unfold Query. rewrite add_pairs_lookup. by rewrite lookup_empty. Qed.

(** ** Lemmas: clean paths *)

(** A segment that [Clean] keeps. *)
Definition kept (s : string) : Prop := s ≠ EmptyString ∧ s ≠ "." ∧ s ≠ "..".

Definition no_slash (s : string) : Prop := sforall (λ c, negb (Ascii.eqb c "/")) s = true.

Lemma clean_step_kept rooted out s : kept s → clean_step rooted out s = s :: out.
Proof.
  intros (He & Hd & Hdd). unfold clean_step.
  rewrite (proj2 (String.eqb_neq s ".")), (proj2 (String.eqb_neq s "..")) by done.
  by destruct s.
Qed.

Lemma clean_kept l : Forall kept l → ∀ out, foldl (clean_step true) out l = rev l ++ out.
Proof.
  induction 1 as [|s l Hs Hl IH]; intros out; [done|]. cbn [foldl rev].
  rewrite clean_step_kept, IH, <- app_assoc by done. done.
Qed.

(** Whatever is cleaned, the segments left are ones that [Clean] keeps. *)
Lemma clean_inv (l out : list string) : Forall no_slash l → Forall (λ s, kept s ∧ no_slash s) out →
  Forall (λ s, kept s ∧ no_slash s) (foldl (clean_step true) out l).
Proof.
  intros Hl. revert out. induction Hl as [|s l Hs Hl IH]; intros out Hout; [done|].
  cbn [foldl]. apply IH. unfold clean_step.
  destruct (is_empty s) eqn:He; [done|]. destruct (String.eqb_spec s "."); [done|]. cbn [orb].
  destruct (String.eqb_spec s "..").
  - destruct out as [|top rest]; [done|]. apply Forall_cons in Hout as [(Hk & _) Hrest].
    destruct (String.eqb_spec top ".."); [by destruct Hk as (_ & _ & ?)|done].
  - constructor; [|done]. split; [|done]. split_and!; try done.
    intros ->. done.
Qed.

(** A joined path without its last slash: its last segment is not empty. *)
Lemma Join_kept_suffix l : l ≠ [] → Forall (λ s, kept s ∧ no_slash s) l →
  HasSuffix ("/" +:+ Join l "/") "/" = false.
Proof.
  intros Hne Hl. destruct (HasSuffix _ _) eqn:Hs; [|done]. exfalso.
  apply HasSuffix_spec in Hs as [r Hr].
  assert (Hj : Split (Join l (one "/")) "/" = l).
  { apply Split_Join; [done|]. eapply Forall_impl; [exact Hl|]. by intros s [_ ?]. }
  destruct r as [|c r].
  - destruct (Join l "/") eqn:He; [|done]. change (one "/") with "/" in Hj. rewrite He in Hj.
    cbn in Hj. subst l. apply Forall_cons in Hl as [((? & _) & _) _]. done.
  - rewrite !sapp_cons, sapp_nil_l in Hr.
    injection Hr as _ Hr. change "/" with (one "/") in Hr. rewrite Hr, Split_snoc in Hj.
    rewrite <- Hj in Hl. apply Forall_app in Hl as [_ Hl].
    apply Forall_cons in Hl as [((? & _) & _) _]. done.
Qed.

Lemma Join_snoc l x sep : l ≠ [] → Join (l ++ [x]) sep = Join l sep +:+ sep +:+ x.
Proof.
  induction l as [|y l IH]; [done|]. intros _. destruct l as [|z l]; [done|].
  cbn [app] in *. rewrite !Join_cons, IH by done. by rewrite !sapp_assoc.
Qed.
