(* ===== verification/Mux.v ===== *)
(** * net/http.ServeMux, for the patterns the source registers

    A pattern of the source is a method, a space and a path of literal segments and
    [{name}] wildcards; none ends in a slash or in [{name...}], so the mux never
    redirects a canonical path.  The mux is the list of what was registered; [find]
    is the search of its tree: the exact method, GET for a HEAD, no method; in
    each a literal segment before a wildcard, with backtracking.  A pattern that is not
    [valid_pattern], or two that [conflict], make [Handle] panic at start. *)

From S2P Require Import Prelude.
From S2P Require Import GoStrings.
From S2P Require Import Url.

(** ** Patterns *)

Inductive seg : Type :=
  | Lit (s : string)
  | Wild (name : string).

#[global] Instance seg_eq_dec : EqDecision seg.
Proof. solve_decision. Defined.

(** A segment of a pattern: [{name}] is a wildcard. *)
Definition parse_seg (s : string) : seg :=
  if HasPrefix s "{" && HasSuffix s "}"
  then Wild (stake (String.length s - 2) (sdrop 1 s)) else Lit s.

(** The segments of a path: what follows each slash. *)
Definition segments (path : string) : list string := tail (Split path "/").

Record pattern := mkPattern { p_method : string; p_segs : list seg }.

(** ["GET /api/v2/users/{id}"]; a pattern without a space has no method. *)
Definition parse_pattern (s : string) : pattern :=
  match Cut s " " with
  | (m, path, true) => mkPattern m (parse_seg <$> segments path)
  | (path, _, false) => mkPattern EmptyString (parse_seg <$> segments path)
  end.

(** ** Matching *)

Section mux.
Context {H : Type}.

(** A registered route: its pattern and its handler. *)
Definition route : Type := (string * H)%type.
Definition mux : Type := list route.

Definition HandleFunc (pat : string) (h : H) (m : mux) : mux := m ++ [(pat, h)].

(** A node of the tree: what is left of each pattern that reaches it, with the
    values of its wildcards so far. *)
Definition node : Type := list (list seg * list (string * string) * route).

Definition lit_child (s : string) (n : node) : node :=
  omap (λ '(p, b, r), match p with
                      | Lit l :: p => if String.eqb l s then Some (p, b, r) else None
                      | _ => None
                      end) n.

Definition wild_child (s : string) (n : node) : node :=
  omap (λ '(p, b, r), match p with
                      | Wild x :: p => Some (p, b ++ [(x, s)], r)
                      | _ => None
                      end) n.

Fixpoint match_path (n : node) (segs : list string) : option (list (string * string) * route) :=
  match segs with
  | [] => head (omap (λ '(p, b, r), match p with [] => Some (b, r) | _ => None end) n)
  | s :: segs =>
      match match_path (lit_child s n) segs with
      | Some x => Some x
      | None => if String.eqb s "/" then None else match_path (wild_child s n) segs
      end
  end.

(** The root of the tree for one method. *)
Definition method_child (method : string) (m : mux) : node :=
  omap (λ r, let p := parse_pattern r.1 in
             if String.eqb (p_method p) method then Some (p_segs p, [], r) else None) m.

(** A segment of the request: unescaped, or as it came when it cannot be; the one
    after a trailing slash is the slash. *)
Definition path_segments (escaped : string) : list string :=
  (λ s, if is_empty s then "/" else default s (PathUnescape s)) <$> segments escaped.

(** [mux.Handler(r)]: the wildcards' values and the route. *)
Definition find (m : mux) (method escaped : string) : option (list (string * string) * route) :=
  let segs := path_segments escaped in
  match match_path (method_child method m) segs with
  | Some x => Some x
  | None =>
      match (if String.eqb method "HEAD" then match_path (method_child "GET" m) segs else None) with
      | Some x => Some x
      | None => match_path (method_child EmptyString m) segs
      end
  end.
End mux.
Arguments route H : clear implicits.
Arguments mux H : clear implicits.
Arguments node H : clear implicits.

(** ** What [Handle] accepts *)

(** How the requests of one pattern relate to those of another. *)
Inductive relationship : Type := Equivalent | MoreGeneral | MoreSpecific | Overlaps | Disjoint.

Definition combine (a b : relationship) : relationship :=
  match a, b with
  | Disjoint, _ | _, Disjoint => Disjoint
  | Equivalent, r | r, Equivalent => r
  | MoreGeneral, MoreGeneral => MoreGeneral
  | MoreSpecific, MoreSpecific => MoreSpecific
  | _, _ => Overlaps
  end.

Definition compareSegments (a b : seg) : relationship :=
  match a, b with
  | Wild _, Wild _ => Equivalent
  | Wild _, Lit _ => MoreGeneral
  | Lit _, Wild _ => MoreSpecific
  | Lit x, Lit y => if String.eqb x y then Equivalent else Disjoint
  end.

Fixpoint comparePaths (p q : list seg) : relationship :=
  match p, q with
  | [], [] => Equivalent
  | a :: p, b :: q => combine (compareSegments a b) (comparePaths p q)
  | _, _ => Disjoint
  end.

Definition compareMethods (a b : string) : relationship :=
  if String.eqb a b then Equivalent
  else if is_empty a then MoreGeneral
  else if is_empty b then MoreSpecific
  else if String.eqb a "GET" && String.eqb b "HEAD" then MoreGeneral
  else if String.eqb a "HEAD" && String.eqb b "GET" then MoreSpecific
  else Disjoint.

Definition conflict (p q : pattern) : bool :=
  match combine (compareMethods (p_method p) (p_method q)) (comparePaths (p_segs p) (p_segs q)) with
  | Equivalent | Overlaps => true
  | _ => false
  end.

Definition wilds (l : list seg) : list string :=
  omap (λ s, match s with Wild x => Some x | Lit _ => None end) l.

(** A method, a space, a path of segments: literal ones without braces that a clean
    path may hold, wildcards with distinct names. *)
Definition valid_pattern (s : string) : bool :=
  match Cut s " " with
  | (m, path, true) =>
      let segs := parse_seg <$> segments path in
      negb (is_empty m) && sforall is_upper m && HasPrefix path "/"
      && forallb (λ sg, match sg with
                        | Lit l => negb (is_empty l) && negb (String.eqb l ".") && negb (String.eqb l "..")
                                   && sforall (λ c, is_lower c || is_digit c || Ascii.eqb c "-") l
                        | Wild x => is_ident x
                        end) segs
      && bool_decide (NoDup (wilds segs))
  | _ => false
  end.

(** The mux holds the routes: none of them made [Handle] panic. *)
Definition registers {H} (m : mux H) : Prop :=
  Forall (λ r, valid_pattern r.1 = true) m ∧ NoDup m.*1 ∧
  ∀ r r', r ∈ m → r' ∈ m → r.1 ≠ r'.1 → conflict (parse_pattern r.1) (parse_pattern r'.1) = false.

(** ** Lemmas *)

(** [fits p segs b]: the pattern's segments against a path's, with the values [b]. *)
Inductive fits : list seg → list string → list (string * string) → Prop :=
  | fits_nil : fits [] [] []
  | fits_lit s p segs b : fits p segs b → fits (Lit s :: p) (s :: segs) b
  | fits_wild x s p segs b : s ≠ "/" → fits p segs b → fits (Wild x :: p) (s :: segs) ((x, s) :: b).

Lemma lit_child_elem {H} s (n : node H) p b r :
  (p, b, r) ∈ lit_child s n ↔ (Lit s :: p, b, r) ∈ n.
Proof.
  unfold lit_child. rewrite list_elem_of_omap. split.
  - intros ([[p' b'] r'] & Hin & Heq). destruct p' as [|[l|x] p']; try done.
    destruct (String.eqb_spec l s) as [->|]; [|done]. by injection Heq as -> -> ->.
  - intros Hin. exists (Lit s :: p, b, r). split; [done|]. by rewrite String.eqb_refl.
Qed.

Lemma wild_child_elem {H} s (n : node H) p b r :
  (p, b, r) ∈ wild_child s n ↔
  ∃ x b0, (Wild x :: p, b0, r) ∈ n ∧ b = b0 ++ [(x, s)].
Proof.
  unfold wild_child. rewrite list_elem_of_omap. split.
  - intros ([[p' b'] r'] & Hin & Heq). destruct p' as [|[l|x] p']; try done.
    injection Heq as -> <- ->. by exists x, b'.
  - intros (x & b0 & Hin & ->). by exists (Wild x :: p, b0, r).
Qed.

Lemma match_path_sound {H} segs : ∀ (n : node H) b r,
  match_path n segs = Some (b, r) →
  ∃ p b0 b1, (p, b0, r) ∈ n ∧ fits p segs b1 ∧ b = b0 ++ b1.
Proof.
  induction segs as [|s segs IH]; intros n b r; cbn [match_path].
  - intros Hh. apply head_Some_elem_of in Hh. apply list_elem_of_omap in Hh as ([[p b0] r0] & Hin & Heq).
    destruct p; [|done]. injection Heq as -> ->. exists [], b, [].
    split_and!; [done|constructor|by rewrite app_nil_r].
  - destruct (match_path (lit_child s n) segs) as [[b' r']|] eqn:Hl.
    + intros [= -> ->]. apply IH in Hl as (p & b0 & b1 & Hin & Hfit & ->).
      exists (Lit s :: p), b0, b1. split_and!; [by apply lit_child_elem|by constructor|done].
    + destruct (String.eqb_spec s "/") as [|Hs]; [done|]. intros Hw. apply IH in Hw as (p & b0 & b1 & Hin & Hfit & ->).
      apply wild_child_elem in Hin as (x & b2 & Hin & ->).
      exists (Wild x :: p), b2, ((x, s) :: b1).
      split_and!; [done|by constructor|]. by rewrite <- app_assoc.
Qed.

Lemma match_path_complete {H} segs : ∀ (n : node H) p b0 b1 r,
  (p, b0, r) ∈ n → fits p segs b1 → is_Some (match_path n segs).
Proof.
  induction segs as [|s segs IH]; intros n p b0 b1 r Hin Hfit; inversion Hfit; subst; cbn.
  - destruct (omap (M:=list) _ n) as [|x l] eqn:Ho; [|by eexists].
    assert (Hx : (b0, r) ∈ omap (M:=list) (λ '(p, b, r), match p with [] => Some (b, r) | _ => None end) n)
      by (apply list_elem_of_omap; by exists ([], b0, r)).
    rewrite Ho in Hx. by apply elem_of_nil in Hx.
  - destruct (IH (lit_child s n) p0 b0 b1 r) as [x ->]; [by apply lit_child_elem|done|by eexists].
  - destruct (match_path (lit_child s n) segs); [by eexists|].
    rewrite (proj2 (String.eqb_neq s "/")) by done.
    eapply IH; [|eassumption]. apply wild_child_elem. by exists x, b0.
Qed.

(** What [find] gives is a registered route whose pattern the path fits. *)
Lemma find_sound {H} (m : mux H) method escaped b r :
  find m method escaped = Some (b, r) →
  r ∈ m ∧ fits (p_segs (parse_pattern r.1)) (path_segments escaped) b ∧
  (p_method (parse_pattern r.1) = method ∨ p_method (parse_pattern r.1) = EmptyString ∨
   method = "HEAD" ∧ p_method (parse_pattern r.1) = "GET").
Proof.
  assert (Hone : ∀ me b r, match_path (method_child me m) (path_segments escaped) = Some (b, r) →
    r ∈ m ∧ fits (p_segs (parse_pattern r.1)) (path_segments escaped) b ∧
    p_method (parse_pattern r.1) = me).
  { intros me b' r' Hm. apply match_path_sound in Hm as (p & b0 & b1 & Hin & Hfit & ->).
    apply list_elem_of_omap in Hin as (r0 & Hin & Heq).
    cbv zeta in Heq. destruct (String.eqb_spec (p_method (parse_pattern r0.1)) me) as [Hme|]; [|done].
    injection Heq as <- <- ->. done. }
  unfold find. destruct (match_path (method_child method m) _) as [[b1 r1]|] eqn:H1.
  { intros [= -> ->]. apply Hone in H1 as (? & ? & ?). auto. }
  destruct (String.eqb_spec method "HEAD") as [->|].
  - destruct (match_path (method_child "GET" m) _) as [[b1 r1]|] eqn:H2.
    { intros [= -> ->]. apply Hone in H2 as (? & ? & ?). auto 6. }
    intros (? & ? & ?)%Hone. auto.
  - intros (? & ? & ?)%Hone. auto.
Qed.

(** ** The order of registration *)

(** What of a pattern decides where it is found: its literals, and where its wildcards
    are. *)
Definition shape (p : list seg) : list (option string) :=
  (λ s, match s with Lit l => Some l | Wild _ => None end) <$> p.

Lemma shape_conflict p q : shape p = shape q → comparePaths p q = Equivalent.
Proof.
  revert q. induction p as [|[l|x] p IH]; intros [|[l'|x'] q]; cbn; try done; intros [=].
  - subst l'. rewrite String.eqb_refl. by rewrite (IH q).
  - by rewrite (IH q).
Qed.

Lemma compareMethods_refl a : compareMethods a a = Equivalent.
Proof. unfold compareMethods. by rewrite String.eqb_refl. Qed.

Section order.
Context {H : Type}.

(** No two patterns of a node have the same shape. *)
Definition apart (n : node H) : Prop := NoDup ((λ x, shape x.1.1) <$> n).

Lemma apart_child (f : list seg * list (string * string) * route H →
    option (list seg * list (string * string) * route H)) (c : option string) n :
  (∀ x y, f x = Some y → shape x.1.1 = c :: shape y.1.1) → apart n → apart (omap f n).
Proof.
  intros Hf. unfold apart. induction n as [|x n IH]; [done|]. rewrite fmap_cons, NoDup_cons.
  intros [Hx Hn]. cbn [omap list_omap]. destruct (f x) as [y|] eqn:Hy; [|by apply IH].
  rewrite fmap_cons, NoDup_cons. split; [|by apply IH]. contradict Hx.
  apply list_elem_of_fmap in Hx as (z & Hz & Hin). apply list_elem_of_omap in Hin as (x' & Hin & Hx').
  apply list_elem_of_fmap. exists x'. split; [|done]. rewrite (Hf _ _ Hy), (Hf _ _ Hx'). by f_equal.
Qed.

Lemma apart_lit s n : apart n → apart (lit_child s n).
Proof.
  apply apart_child with (c := Some s). intros [[[|[l|x] p] b] r] y; try done.
  destruct (String.eqb_spec l s) as [->|]; [|done]. by intros [= <-].
Qed.

Lemma apart_wild s n : apart n → apart (wild_child s n).
Proof.
  apply apart_child with (c := None). intros [[[|[l|x] p] b] r] y; try done. by intros [= <-].
Qed.

Lemma ends_once (n : node H) : apart n →
  length (omap (λ '(p, b, r), match p with [] => Some (b, r) | _ => None end) n) ≤ 1.
Proof.
  unfold apart. induction n as [|[[p b] r] n IH]; [cbn; lia|]. rewrite fmap_cons, NoDup_cons.
  intros [Hx Hn]. cbn [omap list_omap]. destruct p as [|sg p]; [|by apply IH].
  destruct (omap _ n) as [|y l] eqn:Ho; [cbn; lia|]. exfalso.
  assert (Hy : y ∈ omap (M:=list) (λ '(p, b, r), match p with [] => Some (b, r) | _ => None end) n)
    by (rewrite Ho; left). apply list_elem_of_omap in Hy as ([[p b'] r'] & Hin & Hy).
  destruct p; [|done]. apply Hx. apply list_elem_of_fmap. by exists ([], b', r').
Qed.

Lemma Permutation_short {A} (l k : list A) : l ≡ₚ k → length l ≤ 1 → l = k.
Proof.
  intros Hp Hl. destruct l as [|x [|y l]]; [by apply Permutation_nil in Hp as ->| |cbn in Hl; lia].
  by apply Permutation_singleton_l in Hp as ->.
Qed.

Lemma match_path_order segs : ∀ n n' : node H, n ≡ₚ n' → apart n →
  match_path n segs = match_path n' segs.
Proof.
  induction segs as [|s segs IH]; intros n n' Hp Ha; cbn [match_path].
  - f_equal. apply Permutation_short; [by rewrite Hp|by apply ends_once].
  - rewrite (IH (lit_child s n) (lit_child s n'));
      [|unfold lit_child; by rewrite Hp|by apply apart_lit].
    destruct (match_path _ _); [done|]. destruct (String.eqb s "/"); [done|].
    apply IH; [unfold wild_child; by rewrite Hp|by apply apart_wild].
Qed.

Lemma method_apart me (m : mux H) : registers m → apart (method_child me m).
Proof.
  intros (_ & Hn & Hc). unfold apart, method_child. induction m as [|r m IH]; [constructor|].
  apply NoDup_cons in Hn as [Hr Hn]. cbn [omap list_omap].
  destruct (String.eqb_spec (p_method (parse_pattern r.1)) me) as [Hme|].
  2: { apply IH; [done|]. intros a b Ha Hb. apply Hc; by right. }
  rewrite fmap_cons, NoDup_cons. split; [|apply IH; [done|]; intros a b Ha Hb; apply Hc; by right].
  intros Hin. apply list_elem_of_fmap in Hin as ([[p b] r'] & Hs & Hin). cbn [fst] in Hs.
  apply list_elem_of_omap in Hin as (r2 & Hin & Heq).
  destruct (String.eqb_spec (p_method (parse_pattern r2.1)) me) as [Hme2|]; [|done].
  injection Heq as <- <- <-. assert (Hne : r.1 ≠ r2.1).
  { intros He. apply Hr. rewrite He. apply list_elem_of_fmap. by exists r2. }
  pose proof (Hc r r2 ltac:(by left) ltac:(by right) Hne) as Hf. revert Hf. unfold conflict.
  by rewrite Hme, Hme2, compareMethods_refl, (shape_conflict _ _ Hs).
Qed.

(** What the mux finds does not depend on the order of the routes. *)
Lemma find_order (m m' : mux H) method escaped : registers m → m ≡ₚ m' →
  find m method escaped = find m' method escaped.
Proof.
  intros Hm Hp. unfold find.
  assert (He : ∀ me, match_path (method_child me m) (path_segments escaped) =
                     match_path (method_child me m') (path_segments escaped)).
  { intros me. apply match_path_order; [unfold method_child; by rewrite Hp|by apply method_apart]. }
  by rewrite !He.
Qed.
End order.
