(* ===== verification/Pgtx.v ===== *)
(** * lib/pgtx: one HTTP request as one database transaction

    The runner of pgtx.go, the calls of call.go and the daemon road of daemon.go, as
    programs over the operations of [Db].  The state they share is the runner (what
    [Detect] found, the catalogue titles, the looked-up ones) and the [*Request],
    whose status the handler may set and whose log id the road sets.  A handler is a
    program that is given the transaction and the context marks [Call] reads; what it
    leaves in captured variables is its result.

    Logging is left out (it changes nothing), and so are the texts of the errors that
    only reach the log. *)

From S2P Require Import Prelude.
From S2P Require Import GoStrings.
From S2P Require Import GoJson.
From S2P Require Import Problem.
From S2P Require Import Frame.
From S2P Require Import GoNet.
From S2P Require Import Db.

(** ** Data *)

Record Session := mkSession { SCode : string; Token : string; Agent : string; Host : string }.

Record Features := mkFeatures {
  AuthorizeLocal : bool;
  LogRequest : bool;
  LogRequestErr : bool;
  ParseMessage : bool;
  Daemon : bool
}.

#[global] Instance Features_eq_dec : EqDecision Features.
Proof. solve_decision. Defined.

(** [Runner]: [has_pool] is [r.Pool != nil]. *)
Record Runner := mkRunner {
  features : Features;
  titles : gmap string string;
  looked : gmap string string;
  has_pool : bool
}.

(** [Request]: a payload of no bytes is the nil one. *)
Record Request := mkRequest {
  Method : string;
  Path : string;
  Payload : string;
  RequestID : string;
  Status : Z;
  LogID : Z
}.

Definition set_LogID (id : Z) (q : Request) : Request :=
  mkRequest (Method q) (Path q) (Payload q) (RequestID q) (Status q) id.
Definition set_Status (st : Z) (q : Request) : Request :=
  mkRequest (Method q) (Path q) (Payload q) (RequestID q) st (LogID q).

(** The state of the road: the runner and the request, [None] for a nil one. *)
Record road := mkRoad { runner : Runner; request : option Request }.

Abbreviation M := (Db.M road).

Definition modify_runner (f : Runner → Runner) : M unit :=
  modify (λ s, mkRoad (f (runner s)) (request s)).
Definition modify_request (f : Request → Request) : M unit :=
  modify (λ s, mkRoad (runner s) (f <$> request s)).

(** The transaction a handler is given: the connection, whether it is a [daemonTx],
    whether the context has the road's mark, and the context. *)
Record handle := mkHandle { on : conn; daemon_tx : bool; road_key : bool; cx : ctx }.

(** [req.status()]. *)
Definition status (q : option Request) : Z :=
  match q with
  | Some q => if (Status q =? 0)%Z then 200 else Status q
  | None => 200
  end%Z.

Definition text (s : string) : param := PVal (VStr s).
Definition nilIfEmpty (s : string) : value := if is_empty s then VNil else VStr s.
Definition raw_or_nil (s : string) : value := if is_empty s then VNil else VRaw s.
Definition uuid_or_nil (s : string) : value := if isUUID s then VStr s else VNil.
Definition host_value (s : string) : value := from_option VStr VNil (ParseIP_String s).

(** ** What the database offers *)

Record proc := mkProc { schema : string; proc_name : string; nargs : Z; exec : bool }.

Definition daemonRoad : list string := ["begin"; "call"; "end"; "error"; "routes"].
Definition titleCodes : list string := [CodeLoginFailed; CodeTokenExpired].

(** The loop of [featuresFrom] over one row: the features so far and the functions
    of the daemon road the role may call. *)
Definition feature_step (acc : Features * gmap string bool) (p : proc)
    : Features * gmap string bool :=
  let '(f, rd) := acc in
  if String.eqb (schema p) "daemon"
  then (f, <[proc_name p := default false (rd !! proc_name p) || exec p]> rd)
  else if String.eqb (proc_name p) "authorize_local"
  then (mkFeatures true (LogRequest f) (LogRequestErr f) (ParseMessage f) (Daemon f), rd)
  else if String.eqb (proc_name p) "log_request"
  then (mkFeatures (AuthorizeLocal f) true (LogRequestErr f || (7 <=? nargs p)%Z)
          (ParseMessage f) (Daemon f), rd)
  else if String.eqb (proc_name p) "parse_message"
  then (mkFeatures (AuthorizeLocal f) (LogRequest f) (LogRequestErr f) true (Daemon f), rd)
  else (f, rd).

Definition featuresFrom (procs : list proc) : Features :=
  let '(f, rd) := foldl feature_step (mkFeatures false false false false false, ∅) procs in
  mkFeatures (AuthorizeLocal f) (LogRequest f) (LogRequestErr f) (ParseMessage f)
    (forallb (λ name, default false (rd !! name)) daemonRoad).

Definition usableTitle (msg : string) : bool :=
  negb (is_empty msg) && negb (contains_byte msg "%").

(** [r.Title(code, fallback)]: an empty title counts as none. *)
Definition Title (r : Runner) (code fallback : string) : string :=
  match titles r !! code with
  | Some t => if is_empty t then fallback else t
  | None => fallback
  end.

Definition scan_proc (r : row) : res error proc :=
  match r with
  | [s; n; k; x] =>
      s ← scan_text s; n ← scan_text n; k ← scan_int64 k; x ← scan_bool x;
      Ok (mkProc s n k x)
  | _ => ScanError
  end.

Definition detect_sql : string :=
  "SELECT n.nspname, p.proname, p.pronargs, has_schema_privilege(p.pronamespace, 'USAGE') AND has_function_privilege(p.oid, 'EXECUTE') FROM pg_proc p JOIN pg_namespace n ON n.oid = p.pronamespace WHERE n.nspname = 'api' AND p.proname IN ('authorize_local', 'log_request', 'parse_message') OR n.nspname = 'daemon' AND p.proname = ANY ($1)".

(** [loadTitles]: a failure leaves the titles as they are. *)
Definition loadTitles : M unit :=
  s ← get;
  let sql := if Daemon (features (runner s))
             then "SELECT c, e->>'message' FROM unnest($1::text[]) c, daemon.error(c) e"
             else "SELECT e.code, e.message FROM unnest($1::text[]) c, api.get_error_by_code(c) e" in
  x ← call (Query Pool Cx sql [PTexts titleCodes]);
  match x ≫= mapM_res (scan2 scan_text (scan_ptr scan_text)) with
  | Ok rows =>
      let add m '(code, msg) :=
        match msg with
        | Some msg => if usableTitle msg then <[code := msg]> m else m
        | None => m
        end in
      let ts : gmap string string := foldl add ∅ rows in
      modify_runner (λ r, mkRunner (features r) ts (looked r) (has_pool r))
  | Err _ => mret tt
  end.

Definition Detect : M (res error unit) :=
  x ← call (Query Pool Cx detect_sql [PTexts daemonRoad]);
  match x ≫= mapM_res scan_proc with
  | Err e => mret (Err e)
  | Ok procs =>
      modify_runner (λ r, mkRunner (featuresFrom procs) (titles r) (looked r) (has_pool r));;
      loadTitles;;
      mret (Ok tt)
  end.

Definition authorizeSQL (f : Features) : string :=
  if AuthorizeLocal f
  then "SELECT authorized, message FROM api.authorize_local($1, $2, $3::inet)"
  else "SELECT authorized, message FROM api.authorize($1, $2, $3::inet)".

(** ** Failures *)

Definition internal (where_ : string) : error :=
  EProblem (New 500 "internal" "Internal error" (where_ +:+ " failed")).

Inductive kind : Type :=
  | kindProblem | kindCatalogue | kindRaise | kindConstraint | kindData | kindInternal.

(** [classify]: the code, the detail, the kind. *)
Definition classify (e : error) : string * string * kind :=
  match as_problem e with
  | Some _ => (EmptyString, EmptyString, kindProblem)
  | None =>
      match as_pg e with
      | Some (code, msg) =>
          if String.eqb code "P0001" then
            match Problem.ParseMessage msg with
            | Some (c, t) => (c, t, kindCatalogue)
            | None => (EmptyString, msg, kindRaise)
            end
          else if HasPrefix code "23" then (code, msg, kindConstraint)
          else if HasPrefix code "22" then (code, msg, kindData)
          else (EmptyString, EmptyString, kindInternal)
      | None => (EmptyString, EmptyString, kindInternal)
      end
  end.

(** [catalogueTitle]: one lookup per code, the answer remembered. *)
Definition catalogueTitle (code fallback : string) : M string :=
  s ← get;
  let r := runner s in
  let known := default EmptyString (titles r !! code) in
  if negb (is_empty known) then mret known
  else if negb (has_pool r) then mret fallback
  else
    match looked r !! code with
    | Some t => mret (if is_empty t then fallback else t)
    | None =>
        let sql := if Daemon (features r)
                   then "SELECT e->>'message' FROM daemon.error($1) e"
                   else "SELECT message FROM api.get_error_by_code($1)" in
        x ← call (Query Pool CxLookup sql [text code]);
        let msg := first_row (scan1 (scan_ptr scan_text)) x in
        let remember t : M string :=
          modify_runner (λ r, mkRunner (features r) (titles r) (<[code := t]> (looked r)) (has_pool r));;
          mret (if is_empty t then fallback else t) in
        match msg with
        | Ok (Some m) => remember (if usableTitle m then m else EmptyString)
        | Ok None => remember EmptyString
        | Err e => if is_no_rows e then remember EmptyString else mret fallback
        end
    end.

Definition scan_parsed (r : row) : res error (Z * string * string) :=
  match r with
  | [c; m; e] => c ← scan_int64 c; m ← scan_text m; e ← scan_text e; Ok (c, m, e)
  | _ => ScanError
  end.

(** [explain]. *)
Definition explain (e : error) : M error :=
  s ← get;
  let '(code, detail, k) := classify e in
  match k with
  | kindProblem => mret e
  | kindCatalogue =>
      if Daemon (features (runner s)) then
        title ← catalogueTitle code detail;
        mret (EProblem (FromCode code title detail))
      else if has_pool (runner s) then
        let title := detail in
        let message := from_option snd EmptyString (as_pg e) in
        detail ← (if ParseMessage (features (runner s)) then
                    x ← call (Query Pool CxLookup
                          "SELECT code, message, error FROM api.parse_message($1)" [text message]);
                    mret (match first_row scan_parsed x with
                          | Ok (_, m, _) => if is_empty m then detail else m
                          | Err _ => detail
                          end)
                  else mret detail);
        x ← call (Query Pool CxLookup "SELECT message FROM api.get_error_by_code($1)" [text code]);
        let title := match first_row (scan1 scan_text) x with
                     | Ok msg => if usableTitle msg then msg else title
                     | Err _ => title
                     end in
        mret (EProblem (FromCode code title detail))
      else mret (EProblem (FromCode code detail detail))
  | kindRaise => mret (EProblem (New 400 "raise" "Request refused" detail))
  | kindConstraint =>
      let on_delete := match request s with
                       | Some q => String.eqb (Method q) "DELETE"
                       | None => false
                       end in
      mret (EProblem
        (if String.eqb code "23505" || String.eqb code "23503" && on_delete
         then New 409 "conflict" "Conflict" detail
         else New 400 "validation" "Bad request" detail))
  | kindData => mret (EProblem (New 400 "validation" "Bad request" detail))
  | kindInternal => mret (internal "request")
  end.

(** ** The direct road *)

(** [begin]: the request's transaction is number 0. *)
Definition begin_ : M answer := call (Begin 0 CxBegin).

(** The deferred rollback of the request's transaction, on every way out. *)
Definition with_rollback {A} (body : M A) : M A :=
  r ← body; _ ← call (Rollback 0 CxDeferred); mret r.

(** [logRequest] on the transaction [n]; it sets the log id. *)
Definition logRequest (n : nat) (c : ctx) (status : Z) (code : string) : M (option error) :=
  s ← get;
  match request s with
  | None => mret (Some (EText "nil request"))
  | Some q =>
      let args := [text (Method q); text (Path q); PVal (raw_or_nil (Payload q)); PVal (VInt status);
                   PElapsed; PVal (uuid_or_nil (RequestID q))] in
      x ← (if LogRequestErr (features (runner s))
           then call (Query (Tx n) c
                  "SELECT api.log_request($1, $2, $3::jsonb, $4, $5::interval, $6::uuid, $7::text)"
                  (args ++ [PVal (nilIfEmpty code)]))
           else call (Query (Tx n) c
                  "SELECT api.log_request($1, $2, $3::jsonb, $4, $5::interval, $6::uuid)" args));
      match first_row (scan1 scan_int64) x with
      | Ok id => modify_request (set_LogID id);; mret None
      | Err e => mret (Some e)
      end
  end.

(** The status and the catalogue code journalled for a refusal. *)
Definition refusal_status (p : error) : Z * string :=
  match as_problem p with
  | Some pr => (Problem.Status pr, default EmptyString (Problem.Code pr))
  | None => (500%Z, EmptyString)
  end.

(** [journalRefusal]: the audit row of a refusal and its commit, or no log id. *)
Definition journalRefusal (n : nat) (p : error) : M unit :=
  let '(status, code) := refusal_status p in
  e ← logRequest n CxJournal status code;
  e ← (match e with
       | None => x ← call (Commit n CxJournal);
                 mret (match x with Ok _ => None | Err e => Some e end)
       | Some e => mret (Some e)
       end);
  match e with
  | Some _ => modify_request (set_LogID 0)
  | None => mret tt
  end.

(** The refusal of a session [authorize] raised: the request's transaction is
    aborted, a fresh one (number 1) takes the audit row. *)
Definition refuse_raised (journal : bool) (p : error) : M unit :=
  if journal then
    _ ← call (Rollback 0 CxJournal);
    x ← call (Begin 1 CxJournal);
    match x with
    | Ok _ => journalRefusal 1 p;; _ ← call (Rollback 1 CxJournal); mret tt
    | Err _ => mret tt
    end
  else mret tt.

(** The refusal of the handler: its work undone, the audit row written. *)
Definition refuse_handler (journal : bool) (p : error) : M unit :=
  if journal then
    x ← call (Exec 0 CxJournal "ROLLBACK TO SAVEPOINT request");
    match x with Ok _ => journalRefusal 0 p | Err _ => mret tt end
  else mret tt.

(** What ends a request whose handler succeeded: the audit row, the commit. *)
Definition finish {A} (journal : bool) (a : A) : M (res error A) :=
  s ← get;
  e ← (if journal then logRequest 0 Cx (status (request s)) EmptyString else mret None);
  match e with
  | Some e => p ← explain e; mret (Err p)
  | None =>
      x ← call (Commit 0 Cx);
      match x with
      | Ok _ => mret (Ok a)
      | Err e => modify_request (set_LogID 0);; p ← explain e; mret (Err p)
      end
  end.

(** The answer of [authorize]: whether the session is authorized, and a message. *)
Definition authorize (s : Session) : M (res error (bool * option string)) :=
  st ← get;
  x ← call (Query (Tx 0) Cx (authorizeSQL (features (runner st)))
        [text (SCode s); PVal (nilIfEmpty (Agent s)); PVal (host_value (Host s))]);
  mret (first_row (scan2 scan_bool (scan_ptr scan_text)) x).

(** The savepoint the journal needs, the handler, and the end of the request. *)
Definition serve {A} (journal : bool) (fn : handle → M (res error A)) : M (res error A) :=
  x ← (if journal then call (Exec 0 Cx "SAVEPOINT request") else mret (Ok []));
  match x with
  | Err _ => mret (Err (internal "savepoint"))
  | Ok _ =>
      r ← fn (mkHandle (Tx 0) false false Cx);
      match r with
      | Err e => p ← explain e; refuse_handler journal p;; mret (Err p)
      | Ok a => finish journal a
      end
  end.

(** [Do] on the direct road. *)
Definition doDirect {A} (s : Session) (fn : handle → M (res error A)) : M (res error A) :=
  modify_request (set_LogID 0);;
  b ← begin_;
  match b with
  | Err _ => mret (Err (internal "begin"))
  | Ok _ =>
      with_rollback (
        st ← get;
        let journal := LogRequest (features (runner st)) && bool_decide (is_Some (request st)) in
        r ← authorize s;
        match r with
        | Err e => p ← explain e; refuse_raised journal p;; mret (Err p)
        | Ok (false, message) =>
            let p := EProblem (Unauthorized (Some (Title (runner st))) CodeLoginFailed
                                 (default EmptyString message)) in
            (if journal then journalRefusal 0 p else mret tt);; mret (Err p)
        | Ok (true, _) => serve journal fn
        end)
  end.

(** ** The daemon road *)

(** [end]: [text] is the refusal's, nil on success. *)
Definition end_ (c : ctx) (status : Z) (txt : value) : M (option error) :=
  x ← call (Query (Tx 0) c "SELECT log_id FROM daemon.end($1, $2)" [PVal (VInt status); PVal txt]);
  match first_row (scan1 (scan_ptr scan_int64)) x with
  | Err e => mret (Some e)
  | Ok (Some id) => modify_request (set_LogID id);; mret None
  | Ok None => mret None
  end.

(** [salvage]: the handler's work undone, the journal line committed. *)
Definition salvage : M unit :=
  x ← call (Exec 0 CxJournal "ROLLBACK TO SAVEPOINT request");
  match x with
  | Ok _ => _ ← call (Commit 0 CxJournal); mret tt
  | Err _ => mret tt
  end.

(** [refusalOf]: the status and the text [daemon.end] journals. *)
Definition refusalOf (p cause : error) : Z * value :=
  match as_pg cause with
  | Some (_, msg) => (from_option Problem.Status 500%Z (as_problem p), VStr msg)
  | None =>
      match as_problem p with
      | None => (500%Z, VNil)
      | Some pr =>
          match Problem.Code pr with
          | Some c => (Problem.Status pr, VStr (c +:+ ": " +:+ Detail pr))
          | None => (Problem.Status pr, nilIfEmpty (Detail pr))
          end
      end
  end.

Definition codeNotAccepted : string := "ERR-401-002".

Definition with_status (st : Z) (p : Problem) : Problem :=
  mkProblem (Problem.Type_ p) (Problem.Title p) st (Detail p) (Instance_ p)
    (Problem.RequestID p) (Problem.Code p) (noCredentials p).

(** [refusal]: the problem for what [daemon.begin] refused. *)
Definition refusal (status : option Z) (code message : option string) : M error :=
  let st := default 500%Z status in
  let c := default EmptyString code in
  let detail := default EmptyString message in
  if (st =? 401)%Z then
    let c := if is_empty c then CodeLoginFailed else c in
    let detail := if String.eqb c codeNotAccepted then "The access token was not accepted."
                  else detail in
    s ← get;
    mret (EProblem (Unauthorized (Some (Title (runner s))) c detail))
  else if negb (is_empty c) then
    title ← catalogueTitle c detail;
    mret (EProblem (with_status st (FromCode c title detail)))
  else mret (internal "begin").

(** The row of [daemon.begin]. *)
Record verdict := mkVerdict {
  authorized : bool;
  v_status : option Z;
  v_code : option string;
  v_message : option string
}.

Definition scan_verdict (r : row) : res error verdict :=
  match r with
  | [a; s; c; m] =>
      a ← scan_bool a; s ← scan_ptr scan_int32 s; c ← scan_ptr scan_text c;
      m ← scan_ptr scan_text m; Ok (mkVerdict a s c m)
  | _ => ScanError
  end.

(** [strings.ToUpper] of the method, HEAD as GET. *)
Definition guard_method (method : string) : string :=
  let m := ToUpper method in if String.eqb m "HEAD" then "GET" else m.

Definition daemon_begin (s : Session) (q : Request) : M (res error verdict) :=
  x ← call (Query (Tx 0) Cx
        "SELECT authorized, status, error, message FROM daemon.begin($1, $2, $3::inet, $4, $5, $6::jsonb, $7::uuid)"
        [text (Token s); PVal (nilIfEmpty (Agent s)); PVal (host_value (Host s));
         text (guard_method (Method q)); text (Path q); PVal (raw_or_nil (Payload q));
         PVal (uuid_or_nil (RequestID q))]);
  mret (first_row scan_verdict x).

(** The refusal of the handler on the daemon road. *)
Definition refuse_daemon (p cause : error) : M unit :=
  x ← call (Exec 0 CxJournal "ROLLBACK TO SAVEPOINT request");
  match x with
  | Err _ => mret tt
  | Ok _ =>
      let '(status, txt) := refusalOf p cause in
      e ← end_ CxJournal status txt;
      match e with
      | Some _ => modify_request (set_LogID 0);; salvage
      | None =>
          x ← call (Commit 0 CxJournal);
          match x with Ok _ => mret tt | Err _ => modify_request (set_LogID 0) end
      end
  end.

(** The end of a request whose handler succeeded. *)
Definition finish_daemon {A} (a : A) : M (res error A) :=
  s ← get;
  e ← end_ Cx (status (request s)) VNil;
  match e with
  | Some _ => modify_request (set_LogID 0);; salvage;; mret (Err (internal "end"))
  | None =>
      x ← call (Commit 0 Cx);
      match x with
      | Ok _ => mret (Ok a)
      | Err e => modify_request (set_LogID 0);; p ← explain e; mret (Err p)
      end
  end.

Definition serve_daemon {A} (fn : handle → M (res error A)) : M (res error A) :=
  x ← call (Exec 0 Cx "SAVEPOINT request");
  match x with
  | Err _ => mret (Err (internal "savepoint"))
  | Ok _ =>
      r ← fn (mkHandle (Tx 0) true true Cx);
      match r with
      | Err e => p ← explain e; refuse_daemon p e;; mret (Err p)
      | Ok a => finish_daemon a
      end
  end.

Definition doDaemon {A} (s : Session) (fn : handle → M (res error A)) : M (res error A) :=
  st ← get;
  match request st with
  | None => mret (Err (internal "begin"))
  | Some q =>
      modify_request (set_LogID 0);;
      b ← begin_;
      match b with
      | Err _ => mret (Err (internal "begin"))
      | Ok _ =>
          with_rollback (
            r ← daemon_begin s q;
            match r with
            | Err _ => mret (Err (internal "begin"))
            | Ok v =>
                if authorized v then serve_daemon fn
                else
                  _ ← call (Commit 0 CxJournal);
                  p ← refusal (v_status v) (v_code v) (v_message v);
                  mret (Err p)
            end)
      end
  end.

(** [Do]. *)
Definition Do {A} (s : Session) (fn : handle → M (res error A)) : M (res error A) :=
  st ← get;
  if Daemon (features (runner st)) then doDaemon s fn else doDirect s fn.

(** ** Routes *)

Record Route := mkRoute { route_path : string; route_method : string }.

(** [Routes]: [None] is the nil slice of the direct road. *)
Definition Routes (version : string) : M (res error (option (list Route))) :=
  s ← get;
  if negb (Daemon (features (runner s))) then mret (Ok None)
  else
    x ← call (Query Pool Cx "SELECT path, method FROM daemon.routes($1)" [text version]);
    mret (match x ≫= mapM_res (scan2 scan_text scan_text) with
          | Ok rows => Ok (Some ((λ '(p, m), mkRoute p m) <$> rows))
          | Err e => Err e
          end).

(** ** Calls *)

(** [Args]; a nil map is the empty one. *)
Abbreviation Args := (gmap string value).

(** [JSON(b)] of call.go. *)
Definition JSON_arg (b : option string) : value :=
  match b with
  | None | Some EmptyString => VNil
  | Some s => VRaw s
  end.

(** [args.JSON()]: the object with its keys sorted; [None] when a value is not JSON. *)
Definition args_json (a : Args) : option string :=
  members ← mapM (λ k, v ← a !! k; s ← marshal_value v; Some (Quote k +:+ ":" +:+ s))
              (sort_Strings (map_to_list a).*1);
  Some ("{" +:+ Join members "," +:+ "}").

Definition sqlTypes : list string :=
  ["uuid"; "text"; "integer"; "bigint"; "smallint"; "numeric"; "boolean"; "date"; "timestamp";
   "timestamptz"; "json"; "jsonb"].

Definition NotAFunction : error := EText "pgtx: not a function of schema api".
Definition NotAParameter : error := EText "pgtx: not a parameter name".
Definition BareBytes : error := EText "pgtx: []byte - pass JSON as json.RawMessage".
Definition NotAType : error := EText "pgtx: not a type name".

(** One argument of the direct call: its text with the placeholder [i], its value. *)
Definition call_part (args : Args) (i : nat) (k : string) : res error (string * value) :=
  let v := default VNil (args !! k) in
  match v with
  | VBytes _ => Err BareBytes
  | VTyped v t =>
      throw_if (negb (bool_decide (t ∈ sqlTypes))) NotAType;;
      Ok ("p" +:+ k +:+ " => $" +:+ Itoa (Z.of_nat i) +:+ "::" +:+ t, v)
  | v => Ok ("p" +:+ k +:+ " => $" +:+ Itoa (Z.of_nat i), v)
  end.

(** [callSQL] when the map is iterated in the order [keys]. *)
Definition callSQL_from (keys : list string) (fn : string) (args : Args)
    : res error (string * list value) :=
  let name := TrimPrefix fn "api." in
  throw_if (negb (is_ident name)) NotAFunction;;
  throw_if (negb (forallb is_ident keys)) NotAParameter;;
  parts ← mapM_res (λ '(i, k), call_part args i k)
            (zip (seq 1 (length keys)) (sort_Strings keys));
  Ok ("SELECT to_json(t) FROM api." +:+ name +:+ "(" +:+ Join parts.*1 ", " +:+ ") t", parts.*2).

Definition callSQL (fn : string) (args : Args) : res error (string * list value) :=
  callSQL_from (map_to_list args).*1 fn args.

(** The rows of one json column; a NULL is the nil [RawMessage]. *)
Definition scan_rows (x : answer) : res error (list (option string)) :=
  rows ← x; mapM_res (scan1 scan_bytes) rows.

Definition onDaemonRoad (h : handle) : bool := daemon_tx h || road_key h.

(** [callDaemon]. *)
Definition callDaemon (h : handle) (fn : string) (args : Args)
    : M (res error (list (option string))) :=
  let name := TrimPrefix fn "api." in
  let keys := (map_to_list args).*1 in
  if negb (is_ident name) then mret (Err NotAFunction)
  else if negb (forallb is_ident keys) then mret (Err NotAParameter)
  else if existsb (λ kv, match kv.2 with VBytes _ => true | _ => false end) (map_to_list args)
  then mret (Err BareBytes)
  else
    match args_json args with
    | None => mret (Err (EText "pgtx: arguments do not marshal"))
    | Some body =>
        x ← call (Query (on h) (cx h) "SELECT c FROM daemon.call($1, $2::jsonb) c"
              [text name; text body]);
        mret (scan_rows x)
    end.

(** [Call]. *)
Definition Call (h : handle) (fn : string) (args : Args) : M (res error (list (option string))) :=
  if onDaemonRoad h then callDaemon h fn args
  else
    match callSQL fn args with
    | Err e => mret (Err e)
    | Ok (sql, vals) => x ← call (Query (on h) (cx h) sql (PVal <$> vals)); mret (scan_rows x)
    end.

Definition ErrNoRow : error := EText "pgtx: no row".

(** [CallRow]: the first row. *)
Definition CallRow (h : handle) (fn : string) (args : Args) : M (res error (option string)) :=
  r ← Call h fn args;
  mret (match r with
        | Err e => Err e
        | Ok [] => Err ErrNoRow
        | Ok (x :: _) => Ok x
        end).

(** [CallScalar] into a target that decodes with [dec] ([None] for the error of
    [json.Unmarshal]); [Ok None] leaves the target untouched. *)
Definition CallScalar {A} (dec : string → option A) (h : handle) (fn : string) (args : Args)
    : M (res error (option A)) :=
  r ← CallRow h fn args;
  mret (match r with
        | Err e => Err e
        | Ok None => Ok None
        | Ok (Some s) => match dec s with
                         | Some a => Ok (Some a)
                         | None => Err (EText "json: cannot unmarshal")
                         end
        end).
