(* ===== verification/Pool.v ===== *)
(** * lib/pgtx: the pool

    What [NewPool] decides of the configuration pgx parsed from a DSN: the parameters the
    DSN names are kept, the others get the limits of the platform, an option wins over
    both.  The configuration [pgxpool.ParseConfig] gives and the pool itself are pgx's,
    so the former is an argument; so is whether [url.Parse] takes a DSN. *)

From S2P Require Import Prelude.
From S2P Require Import GoStrings.
From S2P Require Import Url.

(** ** The parameters a DSN names *)

(** Past the spaces. *)
Fixpoint skip_spaces (s : string) : string :=
  match s with String c r => if Ascii.eqb c " " then skip_spaces r else s | EmptyString => s end.

(** A key: up to an equals sign or a space. *)
Fixpoint take_key (s : string) : string * string :=
  match s with
  | String c r =>
      if Ascii.eqb c "=" || Ascii.eqb c " " then (EmptyString, s)
      else let '(k, r) := take_key r in (String c k, r)
  | EmptyString => (EmptyString, s)
  end.

(** Past a value: a quoted one up to its closing quote, another up to a space; a
    backslash takes the byte after it along. *)
Fixpoint skip_value (quoted : bool) (s : string) : string :=
  match s with
  | EmptyString => EmptyString
  | String c r =>
      if Ascii.eqb c (if quoted then "'" else " ") then (if quoted then r else s)
      else if Ascii.eqb c bslash then match r with String _ r => skip_value quoted r | EmptyString => EmptyString end
      else skip_value quoted r
  end.

(** Past a value that begins at [s]. *)
Definition past_value (s : string) : string :=
  match s with
  | String c r => if Ascii.eqb c "'" then skip_value true r else skip_value false s
  | EmptyString => EmptyString
  end.

(** The pairs of the keyword form; a round takes at least one byte. *)
Fixpoint pair_keys (fuel : nat) (s : string) : list string :=
  match fuel with
  | O => []
  | S fuel =>
      match s with
      | EmptyString => []
      | _ =>
          let '(k, r) := take_key (skip_spaces s) in
          match skip_spaces r with
          | String c r => 
              if Ascii.eqb c "="
              then (if is_empty k then [] else [k]) ++ pair_keys fuel (past_value (skip_spaces r))
              else pair_keys fuel (String c r)
          | EmptyString => []
          end
      end
  end.

Section dsn.
(* whether url.Parse takes a text *)
Context (url_Parse : string → bool).

(** The query of a URL: between the first question mark and the fragment. *)
Definition raw_query (u : string) : string := (Cut (Cut u "#").1.1 "?").1.2.

Definition dsnKeys (dsn : string) : gset string :=
  if HasPrefix dsn "postgres://" || HasPrefix dsn "postgresql://"
  then if url_Parse dsn then dom (Query (raw_query dsn)) else ∅
  else list_to_set (pair_keys (S (String.length dsn)) dsn).

(** ** The configuration *)

Definition Second : Z := 1000000000.
Definition DefaultBeginTimeout : Z := (5 * Second)%Z.
Definition DefaultConnectTimeout : Z := (5 * Second)%Z.
Definition DefaultMaxConns : Z := 10.
Definition DefaultMaxConnIdleTime : Z := (5 * 60 * Second)%Z.

Record PoolConfig := mkPoolConfig { ConnectTimeout : Z; MaxConns : Z; MaxConnIdleTime : Z }.

Definition PoolOption : Type := PoolConfig → PoolConfig.

Definition WithMaxConns (n : Z) : PoolOption := λ c,
  if (1 <=? n)%Z then mkPoolConfig (ConnectTimeout c) n (MaxConnIdleTime c) else c.

(** [NewPool] up to the pool: [parsed] is what ParseConfig gave. *)
Definition NewPool (parsed : PoolConfig) (dsn : string) (opts : list PoolOption) : PoolConfig :=
  let set := dsnKeys dsn in
  let c := mkPoolConfig
    (if negb (bool_decide ("connect_timeout" ∈ set)) && (ConnectTimeout parsed =? 0)%Z
     then DefaultConnectTimeout else ConnectTimeout parsed)
    (if bool_decide ("pool_max_conns" ∈ set) then MaxConns parsed else DefaultMaxConns)
    (if bool_decide ("pool_max_conn_idle_time" ∈ set) then MaxConnIdleTime parsed
     else DefaultMaxConnIdleTime) in
  foldl (λ c o, o c) c opts.

(** [r.beginTimeout()] of the Runner's field. *)
Definition beginTimeout (t : Z) : Z := if (t <=? 0)%Z then DefaultBeginTimeout else t.

End dsn.

(** ** A DSN's own parameters are found *)

Fixpoint escape_value (v : string) : string :=
  match v with
  | String c r =>
      if Ascii.eqb c "'" || Ascii.eqb c bslash then String bslash (String c (escape_value r))
      else String c (escape_value r)
  | EmptyString => EmptyString
  end.

(** A pair of the keyword form, its value quoted. *)
Definition pair_text (kv : string * string) : string :=
  kv.1 +:+ "=" +:+ String "'" (escape_value kv.2 +:+ "'").

Definition keyword_dsn (l : list (string * string)) : string := Join (pair_text <$> l) " ".

Definition key_ok (k : string) : Prop :=
  k ≠ EmptyString ∧ sforall (λ c, negb (Ascii.eqb c "=" || Ascii.eqb c " ")) k = true.

Lemma take_key_app k r : sforall (λ c, negb (Ascii.eqb c "=" || Ascii.eqb c " ")) k = true →
  take_key (k +:+ String "=" r) = (k, String "=" r).
Proof.
  induction k as [|c k IH]; [done|]. cbn [sforall]. rewrite andb_true_iff, negb_true_iff.
  intros [Hc Hk]. rewrite sapp_cons. cbn [take_key]. by rewrite Hc, (IH Hk).
Qed.

Lemma skip_value_quoted v r : skip_value true (escape_value v +:+ String "'" r) = r.
Proof.
  induction v as [|c v IH]; [done|]. cbn [escape_value].
  destruct (Ascii.eqb c "'") eqn:Hq; cbn [orb]; [by rewrite !sapp_cons|].
  destruct (Ascii.eqb c bslash) eqn:Hb; [by rewrite !sapp_cons|].
  rewrite sapp_cons. cbn [skip_value]. by rewrite Hq, Hb.
Qed.

(** A round reads one pair, with the space before it when there is one. *)
Lemma pair_round fuel (sp k v rest : string) : key_ok k → sp = EmptyString ∨ sp = " " →
  pair_keys (S fuel) (sp +:+ pair_text (k, v) +:+ rest) = k :: pair_keys fuel rest.
Proof.
  intros [Hne Hk] Hsp. unfold pair_text. cbn [fst snd].
  set (tail := String "'" (escape_value v +:+ "'")).
  assert (Hs : skip_spaces (sp +:+ (k +:+ "=" +:+ tail) +:+ rest) = k +:+ String "=" (tail +:+ rest)).
  { destruct k as [|c k]; [done|]. cbn [sforall] in Hk. apply andb_true_iff in Hk as [Hc _].
    rewrite negb_true_iff, orb_false_iff in Hc. destruct Hc as [_ Hc].
    replace ((String c k +:+ "=" +:+ tail) +:+ rest) with (String c (k +:+ String "=" (tail +:+ rest)))
      by (rewrite !sapp_cons, !sapp_assoc; done).
    destruct Hsp as [-> | ->]; [rewrite sapp_nil_l|rewrite sapp_cons, sapp_nil_l];
      cbn [skip_spaces]; [|change (Ascii.eqb " " " ") with true; cbn iota]; by rewrite Hc. }
  remember (sp +:+ (k +:+ "=" +:+ tail) +:+ rest) as s eqn:He. clear He.
  destruct s as [|c0 s0]; [by destruct k|].
  cbn [pair_keys]. rewrite Hs, take_key_app by done. cbn [skip_spaces].
  change (Ascii.eqb "=" " ") with false. change (Ascii.eqb "=" "=") with true. cbn iota.
  destruct k as [|c k]; [done|]. cbn [is_empty app]. do 2 f_equal. unfold tail.
  rewrite sapp_cons. cbn [skip_spaces]. change (Ascii.eqb "'" " ") with false. cbn iota.
  cbn [past_value]. change (Ascii.eqb "'" "'") with true. cbn iota.
  rewrite sapp_assoc. exact (skip_value_quoted v rest).
Qed.

Fixpoint chained (l : list (string * string)) : string :=
  match l with [] => EmptyString | kv :: l => " " +:+ pair_text kv +:+ chained l end.

Lemma keyword_dsn_chained kv l : keyword_dsn (kv :: l) = pair_text kv +:+ chained l.
Proof.
  unfold keyword_dsn. revert kv. induction l as [|kv' l IH]; intros kv; [by rewrite sapp_nil_r|].
  rewrite fmap_cons, fmap_cons. rewrite Join_cons by done. rewrite <- fmap_cons, IH. done.
Qed.

Lemma chained_keys l : ∀ fuel, Forall (λ kv, key_ok kv.1) l → (String.length (chained l) < fuel)%nat →
  pair_keys fuel (chained l) = l.*1.
Proof.
  induction l as [|[k v] l IH]; intros fuel Hok Hf; [by destruct fuel|].
  apply Forall_cons in Hok as [Hk Hl]. destruct fuel as [|fuel]; [lia|]. cbn [chained] in *.
  rewrite fmap_cons, (pair_round fuel " " k v (chained l) Hk) by by right. f_equal. apply IH; [done|].
  rewrite !length_sapp in Hf. cbn in Hf. lia.
Qed.

(** Every parameter a DSN sets is seen: of a DSN in the keyword form, whatever its
    values hold, [dsnKeys] gives exactly the keys — a name inside a value is none — so
    what it names is what the pool keeps. *)
Lemma dsnKeys_pairs ok kv l : Forall (λ kv, key_ok kv.1) (kv :: l) →
  HasPrefix (keyword_dsn (kv :: l)) "postgres" = false →
  dsnKeys ok (keyword_dsn (kv :: l)) = list_to_set (kv :: l).*1.
Proof.
  intros Hok Hp. unfold dsnKeys.
  assert (HasPrefix (keyword_dsn (kv :: l)) "postgres://" = false ∧
          HasPrefix (keyword_dsn (kv :: l)) "postgresql://" = false) as [-> ->].
  { split; apply not_true_iff_false; intros [r Hr]%HasPrefix_spec; apply not_true_iff_false in Hp;
      apply Hp, HasPrefix_spec; rewrite Hr; by eexists. }
  cbn [orb]. f_equal. apply Forall_cons in Hok as [Hk Hl]. rewrite keyword_dsn_chained, fmap_cons.
  destruct kv as [k v]. rewrite <- (sapp_nil_l (pair_text (k, v) +:+ chained l)).
  rewrite (pair_round _ EmptyString k v (chained l) Hk) by by left. f_equal.
  apply chained_keys; [done|]. unfold pair_text. rewrite sapp_nil_l, !length_sapp.
  cbn [String.length fst snd]. lia.
Qed.

(** What the DSN names stays, the rest has the limits of the platform. *)
Lemma NewPool_limits ok parsed dsn : let c := NewPool ok parsed dsn [] in
  MaxConns c = (if decide ("pool_max_conns" ∈ dsnKeys ok dsn) then MaxConns parsed else DefaultMaxConns) ∧
  MaxConnIdleTime c = (if decide ("pool_max_conn_idle_time" ∈ dsnKeys ok dsn)
                       then MaxConnIdleTime parsed else DefaultMaxConnIdleTime) ∧
  (ConnectTimeout parsed ≠ 0%Z → ConnectTimeout c = ConnectTimeout parsed).
Proof.
  unfold NewPool. cbv zeta. cbn [foldl MaxConns MaxConnIdleTime ConnectTimeout].
  split_and!; [by case_bool_decide; case_decide..|].
  intros H. rewrite (proj2 (Z.eqb_neq _ _) H). by rewrite andb_false_r.
Qed.

(** A line break is a blank of the keyword form too, as pgx reads it; here it is not,
    and what follows it is taken for the value: the ceiling the DSN names is lost. *)
Lemma dsnKeys_line_break :
  let dsn := "host=db" +:+ one "010" +:+ "pool_max_conns=50" in
  dsnKeys (λ _, true) dsn = {[ "host" ]} ∧
  MaxConns (NewPool (λ _, true) (mkPoolConfig 0 50 0) dsn []) = DefaultMaxConns.
Proof. by vm_compute. Qed.

Lemma dsnKeys_pairs_witness :
  dsnKeys (λ _, true) (keyword_dsn [("host", "db pool_max_conns=9"); ("password", "it's")]) =
  list_to_set ["host"; "password"].
Proof.
  apply (dsnKeys_pairs (λ _, true) ("host", "db pool_max_conns=9") [("password", "it's")]).
  - repeat constructor; cbn; discriminate.
  - reflexivity.
Defined.
