(* ===== verification/PgtxLaws.v ===== *)
(** * lib/pgtx: what the request transaction guarantees

    The theorems about [Pgtx]: what an error of the road is, that a refused request
    leaves nothing of the handler behind and a served one all of it together with
    its journal line, that a refusal is journalled, that a call is built from
    identifiers only, and that the road is chosen whatever the order of the
    catalogue's rows. *)

From S2P Require Import Prelude.
From S2P Require Import GoStrings.
From S2P Require Import GoJson.
From S2P Require Import Problem.
From S2P Require Import Db.
From S2P Require Import Pgtx.

(** ** Lemmas: errors are problems *)

Definition failed {A} (r : res error A) : Prop :=
  match r with Ok _ => True | Err e => is_Some (as_problem e) end.

Lemma internal_problem w : is_Some (as_problem (internal w)).
Proof. by eexists. Qed.

Lemma explain_problem e s : post (explain e s) (λ r, is_Some (as_problem r.1)).
Proof.
  unfold explain. rewrite get_bind.
  destruct (classify e) as [[code detail] k] eqn:Hk. destruct k; try by eexists.
  - unfold classify in Hk. cbn. destruct (as_problem e); [by eexists|].
    destruct (as_pg e) as [[c m]|]; [|done]. repeat case_match; done.
  - destruct (Daemon _).
    { apply post_any. by eexists. }
    destruct (has_pool _); [|by eexists].
    apply post_any. intros a s'. apply post_any. by eexists.
Qed.

Lemma refusal_problem st c m s : post (refusal st c m s) (λ r, is_Some (as_problem r.1)).
Proof.
  unfold refusal. destruct (_ =? 401)%Z; [by eexists|].
  destruct (negb (is_empty _)); [|by eexists]. apply post_any. by eexists.
Qed.

(** A failure explained, something done about it, the problem returned. *)
Lemma post_explained {A} e (f : error → M unit) s :
  post ((p ← explain e; f p;; mret (Err p) : M (res error A)) s) (λ r, failed r.1).
Proof.
  apply post_mbind. eapply post_mono; [|apply explain_problem].
  intros [p s'] Hp. cbn in Hp. apply post_any. intros [] s''. exact Hp.
Qed.

Lemma finish_failed {A} journal (a : A) s : post (finish journal a s) (λ r, failed r.1).
Proof.
  unfold finish. apply post_any. intros st s1. apply post_any. intros [e|] s2.
  - apply post_mbind. eapply post_mono; [|apply explain_problem]. by intros [p s'] Hp.
  - apply post_any. intros [rows|e] s3; [done|]. apply post_any. intros [] s4.
    apply post_mbind. eapply post_mono; [|apply explain_problem]. by intros [p s'] Hp.
Qed.

Lemma finish_daemon_failed {A} (a : A) s : post (finish_daemon a s) (λ r, failed r.1).
Proof.
  unfold finish_daemon. apply post_any. intros st s1. apply post_any. intros [e|] s2.
  - apply post_any. intros [] s3. apply post_any. intros [] s4. by eexists.
  - apply post_any. intros [rows|e] s3; [done|]. apply post_any. intros [] s4.
    apply post_mbind. eapply post_mono; [|apply explain_problem]. by intros [p s'] Hp.
Qed.

Lemma with_rollback_post {A} (m : M A) s Q :
  post (m s) (λ r, Q r.1) → post (with_rollback m s) (λ r, Q r.1).
Proof.
  intros H. apply post_mbind. eapply post_mono; [|exact H]. intros [a s'] Ha.
  apply post_any. intros x s''. exact Ha.
Qed.

Lemma doDirect_failed {A} ss (fn : handle → M (res error A)) s :
  post (doDirect ss fn s) (λ r, failed r.1).
Proof.
  unfold doDirect. apply post_any. intros [] s1. apply post_any. intros [rows|e] s2; [|by eexists].
  apply with_rollback_post. apply post_any. intros st s3. apply post_any.
  intros [[[] msg]|e] s4.
  - unfold serve. apply post_any. intros [sv|e] s5; [|by eexists].
    apply post_any. intros [a|e] s6; [apply finish_failed|].
    apply (post_explained e (refuse_handler _)).
  - apply post_any. intros [] s5. by eexists.
  - apply (post_explained e (refuse_raised _)).
Qed.

Lemma doDaemon_failed {A} ss (fn : handle → M (res error A)) s :
  post (doDaemon ss fn s) (λ r, failed r.1).
Proof.
  unfold doDaemon. rewrite get_bind.
  destruct (request s) as [q|]; [|by eexists].
  apply post_any. intros [] s1. apply post_any. intros [rows|e] s2; [|by eexists].
  apply with_rollback_post. apply post_any. intros [v|e] s3; [|by eexists].
  destruct (authorized v).
  - unfold serve_daemon. apply post_any. intros [sv|e] s5; [|by eexists].
    apply post_any. intros [a|e] s6; [apply finish_daemon_failed|].
    apply (post_explained e (λ p, refuse_daemon p e)).
  - apply post_any. intros x s4. apply post_mbind.
    eapply post_mono; [|apply refusal_problem]. by intros [p s'] Hp.
Qed.

(** ** Properties: errors *)

(** The error a request ends with is always a problem the handler can answer as
    it is: whatever the handler is, whatever the database answers to each statement,
    and on either road, an error of [Do] holds a [*problem.Problem]. *)
Lemma Do_error_is_problem {A D} (drv : driver D) ss (fn : handle → M (res error A)) s d e :
  (run drv (Do ss fn s) d).1.1.1 = Err e → is_Some (as_problem e).
Proof.
  intros He.
  assert (post (Do ss fn s) (λ r, failed r.1)) as Hp.
  { unfold Do. rewrite get_bind. destruct (Daemon _); [apply doDaemon_failed|apply doDirect_failed]. }
  apply (post_run drv _ d) in Hp. by rewrite He in Hp.
Qed.

(** ** Lemmas: the statements of the road *)

Definition road_texts : list string :=
  ["SELECT authorized, message FROM api.authorize_local($1, $2, $3::inet)";
   "SELECT authorized, message FROM api.authorize($1, $2, $3::inet)";
   "SELECT api.log_request($1, $2, $3::jsonb, $4, $5::interval, $6::uuid, $7::text)";
   "SELECT api.log_request($1, $2, $3::jsonb, $4, $5::interval, $6::uuid)";
   "SELECT authorized, status, error, message FROM daemon.begin($1, $2, $3::inet, $4, $5, $6::jsonb, $7::uuid)";
   "SELECT log_id FROM daemon.end($1, $2)"].

(** A statement the road makes itself: authorize, the audit row, begin and end. *)
Definition road_statement (o : op) : Prop :=
  ∃ n c sql args, o = Query (Tx n) c sql args ∧ sql ∈ road_texts.

Definition log_texts : list string :=
  ["SELECT api.log_request($1, $2, $3::jsonb, $4, $5::interval, $6::uuid, $7::text)";
   "SELECT api.log_request($1, $2, $3::jsonb, $4, $5::interval, $6::uuid)"].
Definition end_text : string := "SELECT log_id FROM daemon.end($1, $2)".

(** The journal line of a request with the status [st]: its row, or the end of it. *)
Definition journal_line (st : Z) (o : op) : Prop :=
  ∃ n c sql args, o = Query (Tx n) c sql args ∧
    (sql ∈ log_texts ∧ args !! 3 = Some (PVal (VInt st)) ∨
     sql = end_text ∧ args !! 0 = Some (PVal (VInt st))).

Lemma journal_road st o : journal_line st o → road_statement o.
Proof.
  intros (n & c & sql & args & -> & H). do 4 eexists. split; [done|].
  destruct H as [[H _]|[-> _]]; [|by do 5 right; left].
  repeat (apply elem_of_cons in H as [->|H]; [first [by do 2 right; left|by do 3 right; left]|]).
  by apply elem_of_nil in H.
Qed.

(** The lookups that explain a failure. *)
Definition lookup_texts : list string :=
  ["SELECT e->>'message' FROM daemon.error($1) e"; "SELECT message FROM api.get_error_by_code($1)";
   "SELECT code, message, error FROM api.parse_message($1)"].
Definition pool_lookup (o : op) : Prop :=
  ∃ sql args, sql ∈ lookup_texts ∧ o = Query Pool CxLookup sql args.

Ltac pool_lookup := do 2 eexists; split; [|done]; unfold lookup_texts; repeat (first [by left|right]).

Lemma lookup_pool {A} (p : prog A) : only pool_lookup p → only pool_query p.
Proof. apply only_mono. intros o (sql & args & _ & ->). by repeat eexists. Qed.

Lemma catalogueTitle_lookup code fallback s : only pool_lookup (catalogueTitle code fallback s).
Proof.
  unfold catalogueTitle. rewrite get_bind.
  destruct (negb _); [done|]. destruct (negb _); [done|].
  destruct (looked _ !! _); [done|]. rewrite call_bind. split; [destruct (Daemon _); pool_lookup|].
  intros x. by repeat case_match.
Qed.

Lemma refusal_lookup st c m s : only pool_lookup (refusal st c m s).
Proof.
  unfold refusal. destruct (_ =? 401)%Z; [done|]. destruct (negb (is_empty _)); [|done].
  by apply only_mbind; [apply catalogueTitle_lookup|].
Qed.

Lemma explain_lookup e s : only pool_lookup (explain e s).
Proof.
  unfold explain. rewrite get_bind. destruct (classify e) as [[code detail] k].
  destruct k; try done. destruct (Daemon _).
  - by apply only_mbind; [apply catalogueTitle_lookup|].
  - destruct (has_pool _); [|done]. apply only_mbind.
    + destruct (ParseMessage _); [|done]. rewrite call_bind. split; [pool_lookup|done].
    + intros det s'. rewrite call_bind. split; [pool_lookup|done].
Qed.

Lemma refusal_pool st c m s : only pool_query (refusal st c m s).
Proof. apply lookup_pool, refusal_lookup. Qed.

Lemma explain_pool e s : only pool_query (explain e s).
Proof. apply lookup_pool, explain_lookup. Qed.

Section atomic.
Context {D : Type} (drv : driver D) {HL : TxLaws drv}.

(** What an explained failure changes in the database: nothing. *)
Lemma wp_explain e s d (Q : error * road → D → Prop) :
  (∀ p s' d', durable d' = durable d → (∀ n, pending d' n = pending d n ∧
     saved d' n = saved d n ∧ aborted d' n = aborted d n) → Q (p, s') d') →
  wp drv (explain e s) d Q.
Proof.
  intros HQ. unfold wp. pose proof (pool_frame drv (explain e s) d) as H.
  destruct (run drv (explain e s) d) as [[[p s'] t] d']. cbn in H.
  apply HQ; [apply (H 0), explain_pool|]. intros n. by apply H, explain_pool.
Qed.

Lemma wp_refusal st c m s d (Q : error * road → D → Prop) :
  (∀ p s' d', durable d' = durable d → Q (p, s') d') → wp drv (refusal st c m s) d Q.
Proof.
  intros HQ. unfold wp. pose proof (pool_frame drv (refusal st c m s) d 0) as H.
  destruct (run drv (refusal st c m s) d) as [[[p s'] t] d']. cbn in H.
  apply HQ, H, refusal_pool.
Qed.

(** What a road program may make durable: nothing, or [before] and a statement of
    the road's own. *)
Definition kept (d d' : D) (before : list op) : Prop :=
  durable d' = durable d ∨
  ∃ o, road_statement o ∧ durable d' = durable d ++ before ++ [o].

Lemma wp_logRequest n c st code s d Q :
  (∀ e s' d', durable d' = durable d → saved d' n = saved d n →
     (e = None → ∃ o, journal_line st o ∧ aborted d n = false ∧ aborted d' n = false ∧
        pending d' n = pending d n ++ [o]) → Q (e, s') d') →
  wp drv (logRequest n c st code s) d Q.
Proof.
  intros HQ. unfold logRequest. rewrite get_bind. destruct (request s) as [q|].
  2: { apply wp_ret, HQ; [done|done|]. by intros [=]. }
  set (args := [_; _; _; _; _; _]).
  assert (Hstep : ∀ sql args', sql ∈ log_texts → args' !! 3 = Some (PVal (VInt st)) →
    wp drv ((x ← call (Query (Tx n) c sql args');
      match first_row (scan1 scan_int64) x with
      | Ok id => modify_request (set_LogID id);; mret None
      | Err e => mret (Some e)
      end : M (option error)) s) d Q).
  { intros sql args' Hsql Hst. rewrite call_bind. apply wp_op. intros x d1 Hd.
    destruct (law_query _ _ _ _ _ _ _ Hd) as (Hdur & Hsav & Hok & _).
    destruct (first_row _ x) as [id|e] eqn:Hx.
    - unfold modify_request. rewrite modify_bind. apply wp_ret, HQ; [done|done|]. intros _.
      destruct x as [rows|]; [|done]. destruct (Hok eq_refl) as (? & ? & ?).
      eexists. split; [|done]. repeat eexists. by left.
    - apply wp_ret, HQ; [done|done|]. by intros [=]. }
  destruct (LogRequestErr _).
  - apply Hstep; [left|done].
  - apply Hstep; [right; left|done].
Qed.

Lemma wp_journalRefusal n p s d Q :
  (∀ s' d', kept d d' (pending d n) → Q (tt, s') d') →
  wp drv (journalRefusal n p s) d Q.
Proof.
  intros HQ. unfold journalRefusal. destruct (refusal_status p) as [st code].
  apply wp_mbind, wp_logRequest. intros e s1 d1 Hdur Hsav Ho. apply wp_mbind.
  destruct e as [e|].
  - apply wp_ret. unfold modify_request. apply wp_ret, HQ. by left.
  - rewrite call_bind. apply wp_op. intros x d2 Hd.
    destruct (law_commit _ _ _ _ _ Hd) as [Hok Herr]. apply wp_ret.
    destruct (Ho eq_refl) as (o & Hro%journal_road & _ & _ & Hpen).
    destruct x as [rows|e]; cbn [is_ok] in *; apply wp_ret, HQ.
    + right. exists o. split; [done|]. destruct (Hok eq_refl) as [_ ->]. congruence.
    + left. rewrite Herr by done. done.
Qed.
(** The handler's part: it only queries on the request's transaction. *)
Lemma wp_handler {A} (fn : handle → M (res error A)) h s d Q :
  only (queries 0) (fn h s) →
  (∀ r s' d', durable d' = durable d → saved d' 0 = saved d 0 → Q (r, s') d') →
  wp drv (fn h s) d Q.
Proof.
  intros Hfn HQ. unfold wp.
  destruct (queries_pending drv 0 (fn h s) d Hfn) as (Hdur & Hsav & _).
  destruct (run drv (fn h s) d) as [[[r s'] t] d']. by apply HQ.
Qed.

(** An error leaves the journal at most: one commit of [before] and a statement of
    the road, or of one statement of the road alone. *)
Definition refused {A} (d : D) (r : res error A) (d' : D) : Prop :=
  match r with
  | Ok _ => True
  | Err _ => ∃ l, durable d' = durable d ++ l ∧ Forall road_statement l
  end.

Lemma refused_same {A} d d' (e : error) : durable d' = durable d → refused d (@Err error A e) d'.
Proof. intros H. exists []. by rewrite app_nil_r. Qed.

Lemma refused_kept {A} d d1 d' before (e : error) :
  durable d1 = durable d → kept d1 d' before → Forall road_statement before →
  refused d (@Err error A e) d'.
Proof.
  intros Hd [H|(o & Ho & H)] Hb; [apply refused_same; congruence|].
  exists (before ++ [o]). split; [congruence|]. apply Forall_app. by repeat constructor.
Qed.

Lemma wp_rollback_last {A} (m : M (res error A)) s d d0 :
  wp drv (m s) d (λ '(r, _) d', refused d0 r d') →
  wp drv (with_rollback m s) d (λ '(r, _) d', refused d0 r d').
Proof.
  intros H. unfold with_rollback. apply wp_mbind. eapply wp_mono; [|exact H].
  intros [r s'] d' Hr. rewrite call_bind. apply wp_op. intros x d2 Hd.
  apply law_rollback in Hd. apply wp_ret. destruct r; [done|].
  destruct Hr as (l & Hl & Hf). exists l. by rewrite Hd.
Qed.

(** The direct road's ways to refuse. *)
Lemma wp_refuse_handler {A} journal p s d d0 before :
  durable d = durable d0 → saved d 0 = before → Forall road_statement before →
  wp drv ((refuse_handler journal p;; mret (Err p) : M (res error A)) s) d
    (λ '(r, _) d', refused d0 r d').
Proof.
  intros Hdur Hsav Hb. apply wp_mbind. unfold refuse_handler. destruct journal.
  - rewrite call_bind. apply wp_op. intros x d1 Hd.
    destruct (law_rollback_to _ _ _ _ _ Hd) as [Hd1 Hok]. destruct x as [rows|e].
    + destruct (Hok eq_refl) as (_ & Hpen & _). apply wp_journalRefusal.
      intros s' d' Hk. apply wp_ret. apply (refused_kept d0 d1 d' before); congruence.
    + apply wp_ret, wp_ret, refused_same. congruence.
  - apply wp_ret, wp_ret. by apply refused_same.
Qed.

Lemma wp_refuse_raised {A} journal p s d d0 :
  durable d = durable d0 →
  wp drv ((refuse_raised journal p;; mret (Err p) : M (res error A)) s) d
    (λ '(r, _) d', refused d0 r d').
Proof.
  intros Hdur. apply wp_mbind. unfold refuse_raised. destruct journal.
  2: { apply wp_ret, wp_ret. by apply refused_same. }
  rewrite call_bind. apply wp_op. intros x1 d1 Hd1. apply law_rollback in Hd1.
  rewrite call_bind. apply wp_op. intros x2 d2 Hd2. apply law_begin in Hd2 as [Hd2 Hpen].
  destruct x2 as [rows|e].
  - destruct (Hpen eq_refl) as [Hp0 _]. apply wp_mbind, wp_journalRefusal.
    rewrite Hp0. intros s' d3 Hk. rewrite call_bind. apply wp_op. intros x4 d4 Hd4.
    apply law_rollback in Hd4. apply wp_ret, wp_ret.
    apply (refused_kept d0 d2 d4 []); [congruence| |constructor].
    destruct Hk as [Hk|(o & Ho & Hk)]; [left; congruence|].
    right. exists o. split; [done|]. congruence.
  - apply wp_ret, wp_ret, refused_same. congruence.
Qed.

Lemma wp_finish_refused {A} journal (a : A) s d d0 :
  durable d = durable d0 →
  wp drv (finish journal a s) d (λ '(r, _) d', refused d0 r d').
Proof.
  intros Hdur. unfold finish. rewrite get_bind. apply wp_mbind.
  assert (Hrest : ∀ e s1 d1, durable d1 = durable d0 →
    wp drv ((match e with
      | Some e => p ← explain e; mret (Err p)
      | None =>
          x ← call (Commit 0 Cx);
          match x with
          | Ok _ => mret (Ok a)
          | Err e => modify_request (set_LogID 0);; p ← explain e; mret (Err p)
          end
      end : M (res error A)) s1) d1 (λ '(r, _) d', refused d0 r d')).
  { intros e s1 d1 Hd1. destruct e as [e|].
    - apply wp_mbind, wp_explain. intros p s2 d2 Hd2 _. apply wp_ret, refused_same. congruence.
    - rewrite call_bind. apply wp_op. intros x d2 Hd2.
      destruct (law_commit _ _ _ _ _ Hd2) as [_ Herr]. destruct x as [rows|e]; [done|].
      unfold modify_request. rewrite modify_bind.
      apply wp_mbind, wp_explain. intros p s3 d3 Hd3 _. apply wp_ret, refused_same.
      rewrite Hd3, Herr by done. done. }
  destruct journal.
  - apply wp_logRequest. intros e s1 d1 Hd1 _ _. apply (Hrest e). congruence.
  - apply wp_ret. by apply (Hrest None).
Qed.

Lemma wp_serve_refused {A} journal (fn : handle → M (res error A)) s d d0 :
  (∀ h s, on h = Tx 0 → only (queries 0) (fn h s)) →
  durable d = durable d0 → Forall road_statement (pending d 0) →
  wp drv (serve journal fn s) d (λ '(r, _) d', refused d0 r d').
Proof.
  intros Hfn Hdur Hpen. unfold serve.
  assert (Hrest : ∀ s1 d1, durable d1 = durable d0 →
    (journal = true → saved d1 0 = pending d 0) →
    wp drv ((r ← fn (mkHandle (Tx 0) false false Cx);
             match r with
             | Err e => p ← explain e; refuse_handler journal p;; mret (Err p)
             | Ok a => finish journal a
             end) s1) d1 (λ '(r, _) d', refused d0 r d')).
  { intros s1 d1 Hd1 Hs1. apply wp_mbind, wp_handler; [by apply Hfn|].
    intros r s2 d2 Hd2 Hs2. destruct r as [a|e].
    - apply wp_finish_refused. congruence.
    - apply wp_mbind, wp_explain. intros p s3 d3 Hd3 Hn3. destruct (Hn3 0) as (_ & Hs3 & _).
      destruct journal.
      + apply (wp_refuse_handler true p s3 d3 d0 (pending d 0)); [congruence| |done].
        rewrite Hs3, Hs2. by apply Hs1.
      + apply wp_mbind, wp_ret, wp_ret. apply refused_same. congruence. }
  destruct journal.
  - rewrite call_bind. apply wp_op. intros x d1 Hd.
    destruct (law_savepoint _ _ _ _ _ Hd) as [Hd1 Hok]. destruct x as [rows|e].
    + destruct (Hok eq_refl) as (_ & _ & _ & Hs). apply Hrest; [congruence|done].
    + apply wp_ret, refused_same. congruence.
  - rewrite ret_bind. by apply Hrest.
Qed.
Lemma road_forall n c sql args : sql ∈ road_texts →
  Forall road_statement [Query (Tx n) c sql args].
Proof. intros H. constructor; [|constructor]. by repeat eexists. Qed.

Lemma wp_doDirect_refused {A} ss (fn : handle → M (res error A)) s d :
  (∀ h s, on h = Tx 0 → only (queries 0) (fn h s)) →
  wp drv (doDirect ss fn s) d (λ '(r, _) d', refused d r d').
Proof.
  intros Hfn. unfold doDirect, modify_request. rewrite modify_bind.
  unfold begin_. rewrite call_bind. apply wp_op. intros x d1 Hd.
  destruct (law_begin _ _ _ _ _ Hd) as [Hd1 Hp1].
  destruct x as [rows|e]; [|apply wp_ret, refused_same; congruence].
  apply wp_rollback_last. rewrite get_bind. cbv zeta. apply wp_mbind.
  unfold authorize. rewrite get_bind, call_bind. apply wp_op. intros x d2 Hq.
  destruct (law_query _ _ _ _ _ _ _ Hq) as (Hd2 & _ & Hok & _). apply wp_ret.
  destruct (first_row _ x) as [[ok msg]|e] eqn:Hx.
  - destruct x as [rs|]; [|done]. destruct (Hok eq_refl) as (_ & _ & Hp2).
    destruct (Hp1 eq_refl) as [Hp1' _]. rewrite Hp1' in Hp2. cbn [app] in Hp2.
    assert (Forall road_statement (pending d2 0)) as Hf.
    { rewrite Hp2. apply road_forall. unfold authorizeSQL. destruct (AuthorizeLocal _); [left|].
      right. left. }
    destruct ok; [apply wp_serve_refused; [done|congruence|done]|].
    apply wp_mbind. destruct (_ && _).
    + apply wp_journalRefusal. intros s' d' Hk. apply wp_ret.
      by apply (refused_kept d d2 d' (pending d2 0)); [congruence| |].
    + apply wp_ret, wp_ret, refused_same. congruence.
  - apply wp_mbind, wp_explain. intros p s3 d3 Hd3 _. apply wp_refuse_raised. congruence.
Qed.

(** The daemon road. *)
Lemma wp_salvage s d Q :
  (∀ s' d', (durable d' = durable d ∨ durable d' = durable d ++ saved d 0) → Q (tt, s') d') →
  wp drv (salvage s) d Q.
Proof.
  intros HQ. unfold salvage. rewrite call_bind. apply wp_op. intros x d1 Hd.
  destruct (law_rollback_to _ _ _ _ _ Hd) as [Hd1 Hok].
  destruct x as [rows|e]; [|apply wp_ret, HQ; by left].
  destruct (Hok eq_refl) as (_ & Hpen & _). rewrite call_bind. apply wp_op. intros x d2 Hc.
  destruct (law_commit _ _ _ _ _ Hc) as [Hc1 Hc2]. apply wp_ret, HQ.
  destruct x; [right; destruct (Hc1 eq_refl) as [_ ->]; congruence|left].
  rewrite Hc2 by done. done.
Qed.

Lemma wp_end c st txt s d Q :
  (∀ e s' d', durable d' = durable d → saved d' 0 = saved d 0 →
     (e = None → ∃ o, journal_line st o ∧ pending d' 0 = pending d 0 ++ [o]
        ∧ aborted d 0 = false ∧ aborted d' 0 = false) → Q (e, s') d') →
  wp drv (end_ c st txt s) d Q.
Proof.
  intros HQ. unfold end_. rewrite call_bind. apply wp_op. intros x d1 Hd.
  destruct (law_query _ _ _ _ _ _ _ Hd) as (Hdur & Hsav & Hok & _).
  assert (Ho : is_ok x = true → ∃ o, journal_line st o ∧ pending d1 0 = pending d 0 ++ [o]
    ∧ aborted d 0 = false ∧ aborted d1 0 = false).
  { intros H. destruct (Hok H) as (? & ? & ?). eexists. split_and!; [|done..].
    do 4 eexists. split; [done|]. by right. }
  destruct (first_row _ x) as [[id|]|e] eqn:Hx;
    (destruct x as [rs|]; [|try done]); unfold modify_request; try rewrite modify_bind;
    apply wp_ret, HQ; try done; intros _; by apply Ho.
Qed.

Lemma refused_list {A} d d' l (e : error) :
  durable d' = durable d ++ l → Forall road_statement l → refused d (@Err error A e) d'.
Proof. intros H Hl. by exists l. Qed.

Lemma wp_refuse_daemon {A} p cause s d d0 before :
  durable d = durable d0 → saved d 0 = before → Forall road_statement before →
  wp drv ((refuse_daemon p cause;; mret (Err p) : M (res error A)) s) d
    (λ '(r, _) d', refused d0 r d').
Proof.
  intros Hdur Hsav Hb. apply wp_mbind. unfold refuse_daemon.
  rewrite call_bind. apply wp_op. intros x d1 Hd.
  destruct (law_rollback_to _ _ _ _ _ Hd) as [Hd1 Hok].
  destruct x as [rows|e]; [|apply wp_ret, wp_ret, refused_same; congruence].
  destruct (Hok eq_refl) as (_ & Hpen & Hsv). destruct (refusalOf p cause) as [st txt].
  apply wp_mbind, wp_end. intros e s1 d2 Hd2 Hs2 Ho. destruct e as [e|].
  - unfold modify_request. rewrite modify_bind. apply wp_salvage. intros s2 d3 [H|H].
    + apply wp_ret, refused_same. congruence.
    + apply wp_ret, (refused_list _ _ before); congruence.
  - destruct (Ho eq_refl) as (o & Hro%journal_road & Hp2 & _). rewrite call_bind. apply wp_op.
    intros x d3 Hc. destruct (law_commit _ _ _ _ _ Hc) as [Hc1 Hc2]. destruct x as [rs|e].
    + destruct (Hc1 eq_refl) as [_ Hc3]. apply wp_ret, wp_ret, (refused_list _ _ (before ++ [o])).
      * congruence.
      * apply Forall_app. by repeat constructor.
    + unfold modify_request. apply wp_ret, wp_ret, refused_same. rewrite Hc2 by done. congruence.
Qed.

Lemma wp_finish_daemon_refused {A} (a : A) s d d0 before :
  durable d = durable d0 → saved d 0 = before → Forall road_statement before →
  wp drv (finish_daemon a s) d (λ '(r, _) d', refused d0 r d').
Proof.
  intros Hdur Hsav Hb. unfold finish_daemon. rewrite get_bind.
  apply wp_mbind, wp_end. intros e s1 d1 Hd1 Hs1 _. destruct e as [e|].
  - unfold modify_request. rewrite modify_bind. apply wp_mbind, wp_salvage.
    intros s2 d2 [H|H]; apply wp_ret.
    + apply refused_same. congruence.
    + apply (refused_list _ _ before); congruence.
  - rewrite call_bind. apply wp_op. intros x d2 Hd2.
    destruct (law_commit _ _ _ _ _ Hd2) as [_ Herr]. destruct x as [rows|e]; [done|].
    unfold modify_request. rewrite modify_bind.
    apply wp_mbind, wp_explain. intros p s3 d3 Hd3 _. apply wp_ret, refused_same.
    rewrite Hd3, Herr by done. congruence.
Qed.

Lemma wp_doDaemon_refused {A} ss (fn : handle → M (res error A)) s d :
  (∀ h s, on h = Tx 0 → only (queries 0) (fn h s)) →
  wp drv (doDaemon ss fn s) d (λ '(r, _) d', refused d r d').
Proof.
  intros Hfn. unfold doDaemon. rewrite get_bind.
  destruct (request s) as [q|]; [|by apply wp_ret, refused_same].
  unfold modify_request. rewrite modify_bind.
  unfold begin_. rewrite call_bind. apply wp_op. intros x d1 Hd.
  destruct (law_begin _ _ _ _ _ Hd) as [Hd1 Hp1].
  destruct x as [rows|e]; [|apply wp_ret, refused_same; congruence].
  destruct (Hp1 eq_refl) as [Hp1' _].
  apply wp_rollback_last, wp_mbind. unfold daemon_begin. rewrite call_bind. apply wp_op.
  intros x d2 Hq. destruct (law_query _ _ _ _ _ _ _ Hq) as (Hd2 & _ & Hok & _). apply wp_ret.
  destruct (first_row _ x) as [v|e] eqn:Hx; [|apply wp_ret, refused_same; congruence].
  destruct x as [rs|]; [|done]. destruct (Hok eq_refl) as (_ & _ & Hp2).
  rewrite Hp1' in Hp2. cbn [app] in Hp2.
  assert (Forall road_statement (pending d2 0)) as Hf.
  { rewrite Hp2. apply road_forall. do 4 right. left. }
  destruct (authorized v).
  - unfold serve_daemon. rewrite call_bind. apply wp_op. intros x d3 Hs.
    destruct (law_savepoint _ _ _ _ _ Hs) as [Hd3 Hok3].
    destruct x as [rs'|e]; [|apply wp_ret, refused_same; congruence].
    destruct (Hok3 eq_refl) as (_ & _ & _ & Hsv).
    apply wp_mbind, wp_handler; [by apply Hfn|]. intros r s4 d4 Hd4 Hs4. destruct r as [a|e].
    + apply (wp_finish_daemon_refused a s4 d4 d (pending d2 0)); [congruence|congruence|done].
    + apply wp_mbind, wp_explain. intros p s5 d5 Hd5 Hn5. destruct (Hn5 0) as (_ & Hs5 & _).
      apply (wp_refuse_daemon p e s5 d5 d (pending d2 0)); [congruence|congruence|done].
  - rewrite call_bind. apply wp_op. intros x d3 Hc.
    destruct (law_commit _ _ _ _ _ Hc) as [Hc1 Hc2].
    assert (∃ l, durable d3 = durable d ++ l ∧ Forall road_statement l) as (l & Hl & Hfl).
    { destruct x as [rs'|e].
      - destruct (Hc1 eq_refl) as [_ Hc3]. exists (pending d2 0). split; [congruence|done].
      - exists []. rewrite Hc2 by done. rewrite app_nil_r. split; [congruence|constructor]. }
    apply wp_mbind, wp_refusal. intros p s4 d4 Hd4.
    apply wp_ret, (refused_list _ _ l); [congruence|done].
Qed.
End atomic.

(** C1. A refused request leaves nothing of the handler's work: on either road, with
    or without a journal, whatever statements the handler makes on its transaction
    and whatever the database answers, when [Do] ends with an error everything made
    durable meanwhile is statements of the road itself - the authorization, the
    journal line - and none of the handler's. *)
Theorem Do_refused_atomic {A D} (drv : driver D) (HL : TxLaws drv) ss
    (fn : handle → M (res error A)) s d e s' t d' :
  (∀ h s, on h = Tx 0 → only (queries 0) (fn h s)) →
  run drv (Do ss fn s) d = (Err e, s', t, d') →
  ∃ l, durable d' = durable d ++ l ∧ Forall road_statement l.
Proof.
  intros Hfn Hrun.
  assert (wp drv (Do ss fn s) d (λ '(r, _) d', refused drv d r d')) as Hwp.
  { unfold Do. rewrite get_bind. destruct (Daemon _);
      [by apply wp_doDaemon_refused|by apply wp_doDirect_refused]. }
  unfold wp in Hwp. rewrite Hrun in Hwp. exact Hwp.
Qed.

(** ** Lemmas: a request that is served *)

Definition journalled (s : road) : Prop :=
  Daemon (features (runner s)) = true ∨
  LogRequest (features (runner s)) = true ∧ is_Some (request s).

Section served.
Context {D : Type} (drv : driver D) {HL : TxLaws drv}.
Context {A : Type} (fn : handle → M (res error A)).
Context (Hfn : ∀ h s, on h = Tx 0 → only (queries 0) (fn h s)).

(** What is durable after a request that was served: in one commit, the statement
    that authorized it, the successful statements of the one run of the handler
    that gave the result, and the journal line with the request's status. *)
Definition served (s : road) (d : D) (r : res error A) (d' : D) : Prop :=
  match r with
  | Err _ => True
  | Ok a =>
      ∃ first h s1 d1 s2 t2 d2 journal,
        run drv (fn h s1) d1 = (Ok a, s2, t2, d2) ∧
        on h = Tx 0 ∧ Status <$> request s1 = Status <$> request s ∧
        road_statement first ∧
        durable d' = durable d ++ first :: done_ops t2 ++ journal ∧
        (journalled s → ∃ o, journal = [o] ∧ journal_line (status (request s2)) o) ∧
        (¬ journalled s → journal = [])
  end.

Lemma served_rollback (m : M (res error A)) st s d d0 :
  wp drv (m s) d (λ '(r, _) d', served st d0 r d') →
  wp drv (with_rollback m s) d (λ '(r, _) d', served st d0 r d').
Proof.
  intros H. unfold with_rollback. apply wp_mbind. eapply wp_mono; [|exact H].
  intros [r s'] d' Hr. rewrite call_bind. apply wp_op. intros x d2 Hd.
  apply law_rollback in Hd. apply wp_ret. destruct r; [|done]. cbn. by rewrite Hd.
Qed.

(** The request goes to the handler with its status. *)
Lemma unlogged_status s :
  Status <$> request (mkRoad (runner s) (set_LogID 0 <$> request s)) = Status <$> request s.
Proof. cbn. by destruct (request s). Qed.

(** The handler runs on a transaction whose only statement is [first]. *)
Lemma served_handler (k : res error A → M (res error A)) st h s d d0 first :
  on h = Tx 0 → Status <$> request s = Status <$> request st →
  durable d = durable d0 → pending d 0 = [first] → road_statement first →
  (∀ a s2 d2 hs, durable d2 = durable d0 → aborted d2 0 = true ∨ pending d2 0 = first :: hs →
     (∀ d' journal, durable d' = durable d0 ++ first :: hs ++ journal →
        (journalled st → ∃ o, journal = [o] ∧ journal_line (status (request s2)) o) →
        (¬ journalled st → journal = []) → served st d0 (Ok a) d') →
     wp drv (k (Ok a) s2) d2 (λ '(r, _) d', served st d0 r d')) →
  (∀ e s2 d2, wp drv (k (Err e) s2) d2 (λ '(r, _) d', served st d0 r d')) →
  wp drv ((r ← fn h; k r) s) d (λ '(r, _) d', served st d0 r d').
Proof.
  intros Hh Hst Hdur Hpen Hfirst Hok Herr. apply wp_mbind. unfold wp at 1.
  destruct (queries_pending drv 0 (fn h s) d (Hfn h s Hh)) as (H1 & _ & _ & H4).
  destruct (run drv (fn h s) d) as [[[r s2] t2] d2] eqn:Hrun. cbn [fst snd] in *.
  destruct r as [a|e]; [|apply Herr].
  apply (Hok a s2 d2 (done_ops t2)); [congruence| |].
  - destruct H4 as [H4|H4]; [by left|right]. rewrite H4, Hpen. done.
  - intros d' journal Hd' Hj Hnj. exists first, h, s, d, s2, t2, d2, journal.
    by split_and!.
Qed.

Lemma wp_err_served (m : M error) st s d d0 :
  wp drv ((p ← m; mret (Err p) : M (res error A)) s) d (λ '(r, _) d', served st d0 r d').
Proof.
  apply wp_mbind. unfold wp. by destruct (run drv (m s) d) as [[[p s1] t] d1].
Qed.

Lemma wp_err2_served {B} (m : M B) (p : error) st s d d0 :
  wp drv ((m;; mret (Err p) : M (res error A)) s) d (λ '(r, _) d', served st d0 r d').
Proof.
  apply wp_mbind. unfold wp. by destruct (run drv (m s) d) as [[[b s1] t] d1].
Qed.

Lemma wp_explained_served (f : error → M unit) e st s d d0 :
  wp drv ((p ← explain e; f p;; mret (Err p) : M (res error A)) s) d
    (λ '(r, _) d', served st d0 r d').
Proof.
  apply wp_mbind. unfold wp at 1. destruct (run drv (explain e s) d) as [[[p s1] t] d1].
  apply wp_err2_served.
Qed.
(** The end of a served request on the direct road. *)
Lemma served_finish (journal : bool) (a : A) st s d d0 first hs :
  (journal = true ↔ journalled st) →
  durable d = durable d0 → aborted d 0 = true ∨ pending d 0 = first :: hs →
  (∀ d' l, durable d' = durable d0 ++ first :: hs ++ l →
     (journalled st → ∃ o, l = [o] ∧ journal_line (status (request s)) o) →
     (¬ journalled st → l = []) → served st d0 (Ok a) d') →
  wp drv (finish journal a s) d (λ '(r, _) d', served st d0 r d').
Proof.
  intros Hj Hdur Hpen Hend. unfold finish. rewrite get_bind. apply wp_mbind.
  assert (Hrest : ∀ s1 d1 l, durable d1 = durable d0 →
    (aborted d1 0 = false → pending d1 0 = first :: hs ++ l) →
    (journalled st → ∃ o, l = [o] ∧ journal_line (status (request s)) o) →
    (¬ journalled st → l = []) →
    wp drv ((x ← call (Commit 0 Cx);
      match x with
      | Ok _ => mret (Ok a)
      | Err e => modify_request (set_LogID 0);; p ← explain e; mret (Err p)
      end : M (res error A)) s1) d1 (λ '(r, _) d', served st d0 r d')).
  { intros s1 d1 l Hd1 Hp1 Hl1 Hl2. rewrite call_bind. apply wp_op. intros x d2 Hd2.
    destruct (law_commit _ _ _ _ _ Hd2) as [Hok _]. destruct x as [rows|e].
    - destruct (Hok eq_refl) as [Hab Hd3]. apply wp_ret, (Hend d2 l); [|done|done].
      by rewrite Hd3, Hp1, Hd1.
    - unfold modify_request. rewrite modify_bind. apply wp_err_served. }
  destruct journal.
  - apply (wp_logRequest drv). intros e s1 d1 Hd1 _ Ho. destruct e as [e|]; [apply wp_err_served|].
    destruct (Ho eq_refl) as (o & Hro & Hab & _ & Hp1).
    destruct Hpen as [Hpen|Hpen]; [congruence|].
    apply (Hrest s1 d1 [o]); [congruence| | |].
    + intros _. by rewrite Hp1, Hpen.
    + intros _. by exists o.
    + intros Hn. destruct Hn. by apply Hj.
  - apply wp_ret. apply (Hrest s d []); [done| | |done].
    + rewrite app_nil_r. intros Hab. destruct Hpen; [congruence|done].
    + intros H%Hj. done.
Qed.

Lemma served_doDirect ss s d :
  Daemon (features (runner s)) = false →
  wp drv (doDirect ss fn s) d (λ '(r, _) d', served s d r d').
Proof.
  intros Hroad. unfold doDirect, modify_request. rewrite modify_bind.
  unfold begin_. rewrite call_bind. apply wp_op. intros x d1 Hd.
  destruct (law_begin _ _ _ _ _ Hd) as [Hd1 Hp1]. destruct x as [rows|e]; [|done].
  destruct (Hp1 eq_refl) as [Hp1' _].
  apply served_rollback. rewrite get_bind. cbn [runner request]. cbv zeta. apply wp_mbind.
  unfold authorize. rewrite get_bind, call_bind. apply wp_op. intros x d2 Hq.
  destruct (law_query _ _ _ _ _ _ _ Hq) as (Hd2 & _ & Hok & _). apply wp_ret.
  destruct (first_row _ x) as [[ok msg]|e] eqn:Hx.
  2: { apply (wp_explained_served (refuse_raised _)). }
  destruct ok; [|apply wp_err2_served].
  destruct x as [rs|]; [|done]. destruct (Hok eq_refl) as (_ & _ & Hp2).
  rewrite Hp1' in Hp2. cbn [app runner] in Hp2.
  match type of Hp2 with _ = [?o] => set (first := o) in Hp2 end.
  assert (road_statement first) as Hfirst.
  { do 4 eexists. split; [done|]. unfold authorizeSQL. destruct (AuthorizeLocal _); [left|].
    right. left. }
  set (journal := _ && _).
  assert (journal = true ↔ journalled s) as Hj.
  { unfold journal, journalled. rewrite andb_true_iff, bool_decide_eq_true, fmap_is_Some, Hroad.
    naive_solver. }
  unfold serve.
  assert (Hrest : ∀ s3 d3, Status <$> request s3 = Status <$> request s →
    durable d3 = durable d → pending d3 0 = [first] →
    wp drv ((r ← fn (mkHandle (Tx 0) false false Cx);
             match r with
             | Err e => p ← explain e; refuse_handler journal p;; mret (Err p)
             | Ok a => finish journal a
             end) s3) d3 (λ '(r, _) d', served s d r d')).
  { intros s3 d3 Hs3 Hd3 Hp3. apply (served_handler (λ r, match r with
      | Err e => p ← explain e; refuse_handler journal p;; mret (Err p)
      | Ok a => finish journal a end)) with (first := first); [done|done|done|done|done|..].
    - intros a s4 d4 hs Hd4 Hp4 Hend. by apply (served_finish journal a s s4 d4 d first hs).
    - intros e s4 d4. apply (wp_explained_served (refuse_handler _)). }
  destruct journal.
  - rewrite call_bind. apply wp_op. intros x d3 Hs.
    destruct (law_savepoint _ _ _ _ _ Hs) as [Hd3 Hok3]. destruct x as [rs'|e]; [|done].
    destruct (Hok3 eq_refl) as (_ & _ & Hp3 & _). apply Hrest; [apply unlogged_status|congruence..].
  - rewrite ret_bind. apply Hrest; [apply unlogged_status|congruence..].
Qed.
Lemma served_finish_daemon (a : A) st s d d0 first hs :
  journalled st →
  durable d = durable d0 → aborted d 0 = true ∨ pending d 0 = first :: hs →
  (∀ d' l, durable d' = durable d0 ++ first :: hs ++ l →
     (journalled st → ∃ o, l = [o] ∧ journal_line (status (request s)) o) →
     (¬ journalled st → l = []) → served st d0 (Ok a) d') →
  wp drv (finish_daemon a s) d (λ '(r, _) d', served st d0 r d').
Proof.
  intros Hj Hdur Hpen Hend. unfold finish_daemon. rewrite get_bind. apply wp_mbind.
  apply (wp_end drv). intros e s1 d1 Hd1 _ Ho. destruct e as [e|].
  - unfold modify_request. rewrite modify_bind. apply wp_err2_served.
  - destruct (Ho eq_refl) as (o & Hro & Hp1 & Hab & _).
    destruct Hpen as [Hpen|Hpen]; [congruence|].
    rewrite call_bind. apply wp_op. intros x d2 Hd2.
    destruct (law_commit _ _ _ _ _ Hd2) as [Hok _]. destruct x as [rows|e].
    + destruct (Hok eq_refl) as [_ Hd3]. apply wp_ret, (Hend d2 [o]).
      * rewrite Hd3, Hp1, Hpen, Hd1, Hdur. done.
      * intros _. by exists o.
      * by intros Hn.
    + unfold modify_request. rewrite modify_bind. apply wp_err_served.
Qed.

Lemma served_doDaemon ss s d :
  Daemon (features (runner s)) = true →
  wp drv (doDaemon ss fn s) d (λ '(r, _) d', served s d r d').
Proof.
  intros Hroad. unfold doDaemon. rewrite get_bind. destruct (request s) as [q|] eqn:Hq; [|done].
  unfold modify_request. rewrite modify_bind.
  unfold begin_. rewrite call_bind. apply wp_op. intros x d1 Hd.
  destruct (law_begin _ _ _ _ _ Hd) as [Hd1 Hp1]. destruct x as [rows|e]; [|done].
  destruct (Hp1 eq_refl) as [Hp1' _].
  apply served_rollback, wp_mbind. unfold daemon_begin. rewrite call_bind. apply wp_op.
  intros x d2 Hqu. destruct (law_query _ _ _ _ _ _ _ Hqu) as (Hd2 & _ & Hok & _). apply wp_ret.
  destruct (first_row _ x) as [v|e] eqn:Hx; [|done].
  destruct (authorized v).
  2: { rewrite call_bind. apply wp_op. intros x3 d3 _. apply wp_err_served. }
  destruct x as [rs|]; [|done]. destruct (Hok eq_refl) as (_ & _ & Hp2).
  rewrite Hp1' in Hp2. cbn [app] in Hp2.
  match type of Hp2 with _ = [?o] => set (first := o) in Hp2 end.
  assert (road_statement first) as Hfirst.
  { do 4 eexists. split; [done|]. do 4 right. left. }
  unfold serve_daemon. rewrite call_bind. apply wp_op. intros x d3 Hs.
  destruct (law_savepoint _ _ _ _ _ Hs) as [Hd3 Hok3]. destruct x as [rs'|e]; [|done].
  destruct (Hok3 eq_refl) as (_ & _ & Hp3 & _).
  apply (served_handler (λ r, match r with
    | Err e => p ← explain e; refuse_daemon p e;; mret (Err p)
    | Ok a => finish_daemon a end)) with (first := first);
    [done|apply unlogged_status|congruence|congruence|done|..].
  - intros a s4 d4 hs Hd4 Hp4 Hend.
    apply (served_finish_daemon a s s4 d4 d first hs); [by left|done|done|done].
  - intros e s4 d4. apply (wp_explained_served (λ p, refuse_daemon p e)).
Qed.
End served.

(** C2. A served request is durable as a whole: on either road, whatever the
    database answers, when [Do] returns the handler's result one commit has made
    durable exactly the statement that authorized the request, every successful
    statement of the one run of the handler - on the request's transaction, from the
    request's status - that gave this result, and, when the database journals, one
    journal line with the status the handler left. *)
Theorem Do_served_atomic {A D} (drv : driver D) (HL : TxLaws drv) ss
    (fn : handle → M (res error A)) s d a s' t d' :
  (∀ h s, on h = Tx 0 → only (queries 0) (fn h s)) →
  run drv (Do ss fn s) d = (Ok a, s', t, d') →
  ∃ first h s1 d1 s2 t2 d2 journal,
    run drv (fn h s1) d1 = (Ok a, s2, t2, d2) ∧
    on h = Tx 0 ∧ Status <$> request s1 = Status <$> request s ∧
    road_statement first ∧
    durable d' = durable d ++ first :: done_ops t2 ++ journal ∧
    (journalled s → ∃ o, journal = [o] ∧ journal_line (status (request s2)) o) ∧
    (¬ journalled s → journal = []).
Proof.
  intros Hfn Hrun.
  assert (wp drv (Do ss fn s) d (λ '(r, _) d', served drv fn s d r d')) as Hwp.
  { unfold Do. rewrite get_bind. destruct (Daemon _) eqn:Hr;
      [by apply served_doDaemon|by apply served_doDirect]. }
  unfold wp in Hwp. rewrite Hrun in Hwp. exact Hwp.
Qed.

(** ** A sample handler and a sample database *)

Lemma Call_queries h fn args s n : on h = Tx n → only (queries n) (Call h fn args s).
Proof.
  intros Hn. unfold Call, callDaemon. rewrite Hn.
  destruct (onDaemonRoad h).
  - destruct (negb _); [done|]. destruct (negb _); [done|]. destruct (existsb _ _); [done|].
    destruct (args_json args); [|done]. rewrite call_bind. split; [by repeat eexists|done].
  - destruct (callSQL fn args) as [[sql vals]|e]; [|done].
    rewrite call_bind. split; [by repeat eexists|done].
Qed.

Definition sample_handler (h : handle) : M (res error (list (option string))) :=
  Call h "list_user" {[ "limit" := VInt 10 ]}.

(** It fails after a call that succeeded. *)
Definition failing_handler (h : handle) : M (res error (list (option string))) :=
  _ ← Call h "update_user" {[ "id" := VStr "7f" ]};
  mret (Err (EPg "P0001" "ERR-404-012: no such user")).

Lemma sample_queries h s : on h = Tx 0 → only (queries 0) (sample_handler h s).
Proof. apply Call_queries. Qed.

Lemma failing_queries h s : on h = Tx 0 → only (queries 0) (failing_handler h s).
Proof. intros Hh. apply only_mbind; [by apply Call_queries|done]. Qed.

Definition sample_answers (o : op) : answer :=
  match o with
  | Query _ _ sql _ =>
      if HasPrefix sql "SELECT authorized, message" then Ok [[VBool true; VNil]]
      else if HasPrefix sql "SELECT authorized, status" then Ok [[VBool true; VNil; VNil; VNil]]
      else if HasPrefix sql "SELECT api.log_request" then Ok [[VInt 41]]
      else if HasPrefix sql "SELECT log_id" then Ok [[VInt 41]]
      else Ok [[VRaw "{}"]]
  | _ => Ok []
  end.

Definition sample_road (daemon : bool) : road :=
  mkRoad (mkRunner (mkFeatures true true true true daemon) ∅ ∅ false)
    (Some (mkRequest "GET" "/api/v2/users" EmptyString EmptyString 0 0)).

Definition sample_session : Session := mkSession "code" "token" "curl" "192.0.2.1".

Definition sample_run {A} (daemon : bool) (fn : handle → M (res error A)) :=
  run (toy_driver sample_answers) (Do sample_session fn (sample_road daemon)) toy_init.

Lemma Do_refused_atomic_witness :
  ∃ l, toy_durable (sample_run true failing_handler).2 = l ∧ length l = 2 ∧
    Forall road_statement l.
Proof.
  destruct (sample_run true failing_handler) as [[[r s'] t] d'] eqn:Hrun.
  assert (∃ e, r = Err e) as [e ->].
  { apply (f_equal (λ x, x.1.1.1)) in Hrun. vm_compute in Hrun. rewrite <- Hrun. by eexists. }
  destruct (Do_refused_atomic (toy_driver sample_answers) _ sample_session failing_handler
    (sample_road true) toy_init e s' t d' failing_queries Hrun) as (l & Hl & Hf).
  exists l. split_and!; [exact Hl| |exact Hf].
  apply (f_equal (λ x, length (toy_durable x.2))) in Hrun. vm_compute in Hrun.
  cbn in Hl. rewrite <- Hl. by symmetry.
Defined.

Lemma Do_served_atomic_witness :
  ∃ first h s1 d1 s2 t2 d2 journal,
    run (toy_driver sample_answers) (sample_handler h s1) d1 = (Ok [Some "{}"], s2, t2, d2) ∧
    on h = Tx 0 ∧ Status <$> request s1 = Status <$> request (sample_road false) ∧
    road_statement first ∧
    toy_durable (sample_run false sample_handler).2 = first :: done_ops t2 ++ journal ∧
    (journalled (sample_road false) → ∃ o, journal = [o] ∧ journal_line (status (request s2)) o) ∧
    (¬ journalled (sample_road false) → journal = []).
Proof.
  destruct (sample_run false sample_handler) as [[[r s'] t] d'] eqn:Hrun.
  assert (r = Ok [Some "{}"]) as ->.
  { apply (f_equal (λ x, x.1.1.1)) in Hrun. vm_compute in Hrun. by symmetry. }
  exact (Do_served_atomic (toy_driver sample_answers) _ sample_session sample_handler
    (sample_road false) toy_init _ s' t d' sample_queries Hrun).
Defined.

(** ** Lemmas: a refusal is on record *)

Definition begin_text : string :=
  "SELECT authorized, status, error, message FROM daemon.begin($1, $2, $3::inet, $4, $5, $6::jsonb, $7::uuid)".

(** A database that answers the road's own statements: those of the direct road, or of the daemon's.
    [daemon.begin] gives a verdict and does not raise one. *)
Class JournalWorks {D} (drv : driver D) {HL : TxLaws drv} (daemon : bool) := {
  works_begin d n c : is_ok (drv d (Begin n c)).1 = true;
  works_savepoint d n c : aborted d n = false →
    is_ok (drv d (Exec n c "SAVEPOINT request")).1 = true;
  works_rollback_to d n c : is_ok (drv d (Exec n c "ROLLBACK TO SAVEPOINT request")).1 = true;
  works_log d n c sql args : daemon = false → sql ∈ log_texts → aborted d n = false →
    ∃ id, in_bits 64 id = true ∧ (drv d (Query (Tx n) c sql args)).1 = Ok [[VInt id]];
  works_verdict d n c args : daemon = true → aborted d n = false →
    is_ok (first_row scan_verdict (drv d (Query (Tx n) c begin_text args)).1) = true;
  works_end d n c args : daemon = true → aborted d n = false →
    is_ok (first_row (scan1 (scan_ptr scan_int64)) (drv d (Query (Tx n) c end_text args)).1) = true;
  works_commit d n c : aborted d n = false → is_ok (drv d (Commit n c)).1 = true
}.

(** A handler as the platform writes them: it queries on its transaction, it keeps
    the request, and its success means that no statement failed. *)
Record good_handler {A D} (drv : driver D) {HL : TxLaws drv} (fn : handle → M (res error A)) := {
  good_queries h s : on h = Tx 0 → only (queries 0) (fn h s);
  good_request h s : is_Some (request s) → post (fn h s) (λ r, is_Some (request r.2));
  good_success h s d a s' t d' : on h = Tx 0 → aborted d 0 = false →
    run drv (fn h s) d = (Ok a, s', t, d') → aborted d' 0 = false
}.

Lemma catalogueTitle_request code fallback s :
  post (catalogueTitle code fallback s) (λ r, request r.2 = request s).
Proof.
  unfold catalogueTitle. rewrite get_bind.
  destruct (negb _); [done|]. destruct (negb _); [done|].
  destruct (looked _ !! _); [done|]. rewrite call_bind. intros x. by repeat case_match.
Qed.

Lemma explain_request e s : post (explain e s) (λ r, request r.2 = request s).
Proof.
  unfold explain. rewrite get_bind. destruct (classify e) as [[code detail] k].
  destruct k; try done. destruct (Daemon _).
  - apply post_mbind. eapply post_mono; [|apply catalogueTitle_request]. by intros [t s'].
  - destruct (has_pool _); [|done]. destruct (ParseMessage _); rewrite ?call_bind; done.
Qed.

(** The status [refusal] gives a verdict's problem. *)
Definition told (v : verdict) : Z :=
  let st := default 500%Z (v_status v) in
  if is_empty (default EmptyString (v_code v)) && negb (st =? 401)%Z then 500%Z else st.

Lemma refusal_told v s : post (refusal (v_status v) (v_code v) (v_message v) s)
  (λ r, (refusal_status r.1).1 = told v).
Proof.
  unfold refusal, told. destruct (Z.eqb_spec (default 500%Z (v_status v)) 401) as [->|_].
  - rewrite andb_false_r. done.
  - rewrite andb_true_r. destruct (is_empty (default EmptyString (v_code v))); [done|].
    apply post_any. by intros t s'.
Qed.

(** [daemon.end] takes the status of the problem. *)
Lemma refusalOf_status p cause : (refusalOf p cause).1 = (refusal_status p).1.
Proof.
  unfold refusalOf, refusal_status. destruct (as_pg cause) as [[]|]; destruct (as_problem p) as [pr|]; try done.
  by destruct (Problem.Code pr).
Qed.

(** The line of a request [daemon.begin] refused with the verdict [v]. *)
Definition begin_line {D} (drv : driver D) (v : verdict) (o : op) : Prop :=
  authorized v = false ∧ ∃ c args d, o = Query (Tx 0) c begin_text args ∧
    first_row scan_verdict (drv d o).1 = Ok v.

(** The journal has the request with the status [z]: the last statement that is durable is its line; on
    the daemon road what [daemon.begin] refused has its line alone, [z] the verdict's. *)
Definition in_journal {D} (drv : driver D) {HL : TxLaws drv} (daemon : bool) (z : Z) (d d' : D) : Prop :=
  (∃ l o, durable d' = durable d ++ l ++ [o] ∧ journal_line z o) ∨
  daemon = true ∧ ∃ v o, durable d' = durable d ++ [o] ∧ begin_line drv v o ∧ z = told v.

Section record.
Context {D : Type} (drv : driver D) {HL : TxLaws drv} {daemon : bool} {HW : JournalWorks drv daemon}.

(** A refusal is on record with the status of its problem. *)
Definition recorded {A} (d : D) (r : res error A) (d' : D) : Prop :=
  match r with Ok _ => True | Err e => in_journal drv daemon (refusal_status e).1 d d' end.

Lemma wp_explain_works e s d (Q : error * road → D → Prop) :
  (∀ p s' d', durable d' = durable d → request s' = request s → (∀ n, pending d' n = pending d n ∧
     saved d' n = saved d n ∧ aborted d' n = aborted d n) → Q (p, s') d') →
  wp drv (explain e s) d Q.
Proof.
  intros HQ. unfold wp. pose proof (pool_frame drv (explain e s) d) as H.
  pose proof (post_run drv _ d _ (explain_request e s)) as Hr.
  destruct (run drv (explain e s) d) as [[[p s'] t] d']. cbn in H, Hr.
  apply HQ; [apply (H 0), explain_pool|done|]. intros n. by apply H, explain_pool.
Qed.

Lemma wp_log_works n c st code s d Q :
  daemon = false → aborted d n = false → is_Some (request s) →
  (∀ o s' d', journal_line st o → durable d' = durable d → aborted d' n = false →
     pending d' n = pending d n ++ [o] → is_Some (request s') → Q (None, s') d') →
  wp drv (logRequest n c st code s) d Q.
Proof.
  intros Hdm Hab [q Hq] HQ. unfold logRequest. rewrite get_bind, Hq.
  set (args := [_; _; _; _; _; _]).
  assert (Hstep : ∀ sql args', sql ∈ log_texts → args' !! 3 = Some (PVal (VInt st)) →
    wp drv ((x ← call (Query (Tx n) c sql args');
      match first_row (scan1 scan_int64) x with
      | Ok id => modify_request (set_LogID id);; mret None
      | Err e => mret (Some e)
      end : M (option error)) s) d Q).
  { intros sql args' Hsql Hst. rewrite call_bind. apply wp_op. intros x d1 Hd.
    destruct (law_query _ _ _ _ _ _ _ Hd) as (Hdur & Hsav & Hok & _).
    destruct (works_log d n c sql args' Hdm Hsql Hab) as (id & Hid & Hx).
    rewrite Hd in Hx. cbn in Hx. subst x. cbn. rewrite Hid. cbn.
    destruct (Hok eq_refl) as (_ & Hab' & Hpen). apply wp_ret.
    eapply HQ; [|done|done|exact Hpen|by rewrite Hq]. do 4 eexists. split; [done|by left]. }
  destruct (LogRequestErr _).
  - apply Hstep; [left|done].
  - apply Hstep; [right; left|done].
Qed.

Lemma wp_journalRefusal_works n p s d Q :
  daemon = false → aborted d n = false → is_Some (request s) →
  (∀ o s' d', journal_line (refusal_status p).1 o →
     durable d' = durable d ++ pending d n ++ [o] → Q (tt, s') d') →
  wp drv (journalRefusal n p s) d Q.
Proof.
  intros Hdm Hab Hq HQ. unfold journalRefusal. destruct (refusal_status p) as [st code].
  apply wp_mbind, wp_log_works; [done..|]. intros o s1 d1 Ho Hd1 Hab1 Hp1 _.
  apply wp_mbind. rewrite call_bind. apply wp_op. intros x d2 Hc.
  pose proof (works_commit d1 n CxJournal Hab1) as Hx. rewrite Hc in Hx. cbn in Hx.
  destruct (law_commit _ _ _ _ _ Hc) as [Hok _]. destruct (Hok Hx) as [_ Hd2].
  destruct x; [|done]. apply wp_ret, wp_ret. eapply HQ; [done|]. congruence.
Qed.

Lemma recorded_rollback {A} (m : M (res error A)) s d d0 :
  wp drv (m s) d (λ '(r, _) d', recorded d0 r d') →
  wp drv (with_rollback m s) d (λ '(r, _) d', recorded d0 r d').
Proof.
  intros H. unfold with_rollback. apply wp_mbind. eapply wp_mono; [|exact H].
  intros [r s'] d' Hr. rewrite call_bind. apply wp_op. intros x d2 Hd.
  apply law_rollback in Hd. apply wp_ret. destruct r; [done|]. unfold recorded, in_journal. by rewrite Hd.
Qed.

Lemma recorded_refusal {A} n p s d d0 :
  daemon = false → durable d = durable d0 → aborted d n = false → is_Some (request s) →
  wp drv ((journalRefusal n p;; mret (Err p) : M (res error A)) s) d
    (λ '(r, _) d', recorded d0 r d').
Proof.
  intros Hdm Hdur Hab Hq. apply wp_mbind, wp_journalRefusal_works; [done..|].
  intros o s' d' Ho Hd'. apply wp_ret. left. exists (pending d n), o. by rewrite Hd', Hdur.
Qed.

Lemma recorded_serve {A} (fn : handle → M (res error A)) s d d0 :
  daemon = false → good_handler drv fn → durable d = durable d0 → aborted d 0 = false → is_Some (request s) →
  wp drv (serve true fn s) d (λ '(r, _) d', recorded d0 r d').
Proof.
  intros Hdm [Hgq Hgr Hgs] Hdur Hab Hq. unfold serve. rewrite call_bind. apply wp_op.
  intros x d1 Hd. pose proof (works_savepoint d 0 Cx Hab) as Hx. rewrite Hd in Hx. cbn in Hx.
  destruct (law_savepoint _ _ _ _ _ Hd) as [Hd1 Hok]. destruct (Hok Hx) as (_ & Hab1 & _).
  destruct x as [rows0|]; [|done]. set (h := mkHandle _ _ _ _).
  apply wp_mbind. unfold wp at 1.
  destruct (queries_pending drv 0 (fn h s) d1 (Hgq h s eq_refl)) as (H1 & _).
  pose proof (post_run drv _ d1 _ (Hgr h s Hq)) as Hreq.
  destruct (run drv (fn h s) d1) as [[[r s2] t2] d2] eqn:Hrun. cbn [fst snd] in *.
  destruct r as [a|e].
  - specialize (Hgs h _ _ _ _ _ _ eq_refl Hab1 Hrun). unfold finish. rewrite get_bind.
    apply wp_mbind, wp_log_works; [done..|]. intros o s3 d3 _ _ Hab3 _ _.
    rewrite call_bind. apply wp_op. intros x d4 Hc.
    pose proof (works_commit d3 0 Cx Hab3) as Hx4. rewrite Hc in Hx4. by destruct x.
  - apply wp_mbind, wp_explain_works. intros p s3 d3 Hd3 Hs3 _. apply wp_mbind.
    unfold refuse_handler. rewrite call_bind. apply wp_op. intros x d4 Hr4.
    pose proof (works_rollback_to d3 0 CxJournal) as Hx4. rewrite Hr4 in Hx4. cbn in Hx4.
    destruct (law_rollback_to _ _ _ _ _ Hr4) as [Hd4 Hok4].
    destruct (Hok4 Hx4) as (Hab4 & _). destruct x; [|done].
    apply wp_journalRefusal_works; [done|done|by rewrite Hs3|].
    intros o s5 d5 Ho Hd5. apply wp_ret. left. exists (pending d4 0), o. split; [|done]. congruence.
Qed.
Lemma recorded_direct {A} ss (fn : handle → M (res error A)) s d :
  daemon = false → good_handler drv fn → LogRequest (features (runner s)) = true →
  is_Some (request s) → wp drv (doDirect ss fn s) d (λ '(r, _) d', recorded d r d').
Proof.
  intros Hdm Hfn Hlog Hq. unfold doDirect, modify_request.
  rewrite modify_bind. unfold begin_. rewrite call_bind. apply wp_op. intros x d1 Hd.
  pose proof (works_begin d 0 CxBegin) as Hx. rewrite Hd in Hx. cbn in Hx.
  destruct (law_begin _ _ _ _ _ Hd) as [Hd1 Hp1]. destruct (Hp1 Hx) as [_ Hab1].
  destruct x; [|done]. apply recorded_rollback. rewrite get_bind. cbn [runner request].
  rewrite Hlog, bool_decide_true by (by apply fmap_is_Some). cbv zeta. cbn [andb].
  apply wp_mbind. unfold authorize. rewrite get_bind, call_bind. apply wp_op. intros x d2 Hqu.
  destruct (law_query _ _ _ _ _ _ _ Hqu) as (Hd2 & _ & Hok & _). apply wp_ret.
  destruct (first_row _ x) as [[ok msg]|e2] eqn:Hfr.
  - destruct x as [rs|]; [|done]. destruct (Hok eq_refl) as (_ & Hab2 & _). destruct ok.
    + apply recorded_serve; [done|done|congruence|done|by apply fmap_is_Some].
    + apply recorded_refusal; [done|congruence|done|by apply fmap_is_Some].
  - apply wp_mbind, wp_explain_works. intros p s3 d3 Hd3 Hs3 _. apply wp_mbind.
    unfold refuse_raised. rewrite call_bind. apply wp_op. intros x4 d4 Hr4.
    apply law_rollback in Hr4. rewrite call_bind. apply wp_op. intros x5 d5 Hb5.
    pose proof (works_begin d4 1 CxJournal) as Hx5. rewrite Hb5 in Hx5. cbn in Hx5.
    destruct (law_begin _ _ _ _ _ Hb5) as [Hd5 Hp5]. destruct (Hp5 Hx5) as [_ Hab5].
    destruct x5; [|done]. apply wp_mbind, wp_journalRefusal_works; [done|done| |].
    { rewrite Hs3. by apply fmap_is_Some. }
    intros o s6 d6 Ho Hd6. rewrite call_bind. apply wp_op. intros x7 d7 Hr7.
    apply law_rollback in Hr7. apply wp_ret, wp_ret. left. exists (pending d5 1), o.
    split; [congruence|done].
Qed.

(** The daemon road: its journal line, completed with a status. *)
Lemma wp_end_works c st txt s d Q :
  daemon = true → aborted d 0 = false →
  (∀ o s' d', journal_line st o → durable d' = durable d → aborted d' 0 = false →
     pending d' 0 = pending d 0 ++ [o] → Q (None, s') d') →
  wp drv (end_ c st txt s) d Q.
Proof.
  intros Hdm Hab HQ. unfold end_. rewrite call_bind. apply wp_op. intros x d1 Hd.
  pose proof (works_end d 0 c [PVal (VInt st); PVal txt] Hdm Hab) as Hx. unfold end_text in Hx.
  rewrite Hd in Hx. cbn [fst] in Hx. destruct (law_query _ _ _ _ _ _ _ Hd) as (Hd1 & _ & Hok & _).
  destruct (first_row _ x) as [id|e] eqn:Hfr; [|done]. destruct x as [rs|]; [|done].
  destruct (Hok eq_refl) as (_ & Hab1 & Hp1).
  assert (Hj : journal_line st (Query (Tx 0) c end_text [PVal (VInt st); PVal txt])).
  { do 4 eexists. split; [done|by right]. }
  destruct id as [id|]; [unfold modify_request; rewrite modify_bind|]; apply wp_ret; by eapply HQ.
Qed.

Lemma recorded_serve_daemon {A} (fn : handle → M (res error A)) s d d0 :
  daemon = true → good_handler drv fn → durable d = durable d0 → aborted d 0 = false →
  is_Some (request s) → wp drv (serve_daemon fn s) d (λ '(r, _) d', recorded d0 r d').
Proof.
  intros Hdm [Hgq Hgr Hgs] Hdur Hab Hq. unfold serve_daemon. rewrite call_bind. apply wp_op.
  intros x d1 Hd. pose proof (works_savepoint d 0 Cx Hab) as Hx. rewrite Hd in Hx. cbn in Hx.
  destruct (law_savepoint _ _ _ _ _ Hd) as [Hd1 Hok]. destruct (Hok Hx) as (_ & Hab1 & _).
  destruct x as [rows0|]; [|done]. set (h := mkHandle _ _ _ _). apply wp_mbind. unfold wp at 1.
  destruct (queries_pending drv 0 (fn h s) d1 (Hgq h s eq_refl)) as (H1 & _).
  destruct (run drv (fn h s) d1) as [[[r s2] t2] d2] eqn:Hrun. cbn [fst snd] in *. destruct r as [a|e].
  - specialize (Hgs h _ _ _ _ _ _ eq_refl Hab1 Hrun). unfold finish_daemon. rewrite get_bind.
    apply wp_mbind, wp_end_works; [done|done|]. intros o s3 d3 _ _ Hab3 _. rewrite call_bind. apply wp_op.
    intros x d4 Hc. pose proof (works_commit d3 0 Cx Hab3) as Hx4. rewrite Hc in Hx4. by destruct x.
  - apply wp_mbind, wp_explain_works. intros p s3 d3 Hd3 Hs3 _. apply wp_mbind.
    unfold refuse_daemon. rewrite call_bind. apply wp_op. intros x d4 Hr4.
    pose proof (works_rollback_to d3 0 CxJournal) as Hx4. rewrite Hr4 in Hx4. cbn in Hx4.
    destruct (law_rollback_to _ _ _ _ _ Hr4) as [Hd4 Hok4]. destruct (Hok4 Hx4) as (Hab4 & _).
    destruct x; [|done]. destruct (refusalOf p e) as [st txt] eqn:Hro.
    apply wp_mbind, wp_end_works; [done|done|]. intros o s5 d5 Ho Hd5 Hab5 Hp5. rewrite call_bind. apply wp_op.
    intros x d6 Hc. pose proof (works_commit d5 0 CxJournal Hab5) as Hx6. rewrite Hc in Hx6. cbn in Hx6.
    destruct (law_commit _ _ _ _ _ Hc) as [Hok6 _]. destruct (Hok6 Hx6) as [_ Hd6].
    destruct x; [|done]. apply wp_ret, wp_ret. left. exists (pending d4 0), o. split; [congruence|].
    pose proof (refusalOf_status p e) as Hst. rewrite Hro in Hst. cbn [fst] in Hst. by rewrite <- Hst.
Qed.

Lemma recorded_daemon {A} ss (fn : handle → M (res error A)) s d :
  daemon = true → good_handler drv fn → is_Some (request s) →
  wp drv (doDaemon ss fn s) d (λ '(r, _) d', recorded d r d').
Proof.
  intros Hdm Hfn [q Hq]. unfold doDaemon. rewrite get_bind, Hq. unfold modify_request. rewrite modify_bind.
  unfold begin_. rewrite call_bind. apply wp_op. intros x d1 Hd.
  pose proof (works_begin d 0 CxBegin) as Hx. rewrite Hd in Hx. cbn in Hx.
  destruct (law_begin _ _ _ _ _ Hd) as [Hd1 Hp1]. destruct (Hp1 Hx) as [Hpen1 Hab1].
  destruct x; [|done]. apply recorded_rollback. apply wp_mbind. unfold daemon_begin. rewrite call_bind.
  fold begin_text. set (args := [_; _; _; _; _; _; _]). apply wp_op. intros x d2 Hqu.
  pose proof (works_verdict d1 0 Cx args Hdm Hab1) as Hv. rewrite Hqu in Hv. cbn [fst] in Hv.
  destruct (law_query _ _ _ _ _ _ _ Hqu) as (Hd2 & _ & Hok & _). apply wp_ret.
  destruct (first_row _ x) as [v|] eqn:Hfr; [|done]. destruct x as [rs|]; [|done].
  destruct (Hok eq_refl) as (_ & Hab2 & Hp2). destruct (authorized v) eqn:Hav.
  - apply recorded_serve_daemon; [done|done|congruence|done|]. cbn. rewrite Hq. by eexists.
  - rewrite call_bind. apply wp_op. intros x d3 Hc.
    pose proof (works_commit d2 0 CxJournal Hab2) as Hx3. rewrite Hc in Hx3. cbn in Hx3.
    destruct (law_commit _ _ _ _ _ Hc) as [Hok3 _]. destruct (Hok3 Hx3) as [_ Hd3].
    apply wp_mbind. unfold wp. match goal with |- context [run drv (refusal ?a ?b ?c ?s)] =>
      pose proof (post_run drv _ d3 _ (refusal_told v s)) as Ht;
      pose proof (pool_frame drv (refusal a b c s) d3 0 (refusal_pool a b c s)) as Hf end.
    destruct (run drv (refusal _ _ _ _) d3) as [[[p s4] t4] d4]. cbn [fst snd] in *. destruct Hf as [Hd4 _].
    apply wp_ret. right. split; [done|]. exists v, (Query (Tx 0) Cx begin_text args). split_and!.
    + by rewrite Hd4, Hd3, Hp2, Hpen1, Hd2, Hd1.
    + split; [done|]. do 3 eexists. split; [done|]. rewrite Hqu. exact Hfr.
    + exact Ht.
Qed.

Lemma wp_Do_recorded {A} ss (fn : handle → M (res error A)) s d :
  good_handler drv fn → Daemon (features (runner s)) = daemon → journalled s → is_Some (request s) →
  wp drv (Do ss fn s) d (λ '(r, _) d', recorded d r d').
Proof.
  intros Hfn Hroad Hj Hq. unfold Do. rewrite get_bind. destruct (Daemon _) eqn:Hd.
  - by apply recorded_daemon.
  - apply recorded_direct; try done. destruct Hj as [Hj|[Hj _]]; [congruence|done].
Qed.
End record.

(** C3. A refusal is on record: on either road, over a database that journals and answers the
    road's own statements, whatever it answers to the others, a request [Do] refuses -
    its session unknown, its session refused with an exception, its route closed, its handler
    failed - ends with a durable journal line that carries the status of the problem the
    client is sent; what [daemon.begin] refused has the line of this statement, and the
    problem the status of its verdict. *)
Theorem Do_refusal_recorded {A D} (drv : driver D) (HL : TxLaws drv) ss (fn : handle → M (res error A)) s
    (HW : JournalWorks drv (Daemon (features (runner s)))) d e s' t d' :
  good_handler drv fn → journalled s → is_Some (request s) →
  run drv (Do ss fn s) d = (Err e, s', t, d') →
  in_journal drv (Daemon (features (runner s))) (refusal_status e).1 d d'.
Proof.
  intros Hfn Hj Hq Hrun. pose proof (wp_Do_recorded drv ss fn s d Hfn eq_refl Hj Hq) as Hwp.
  unfold wp in Hwp. rewrite Hrun in Hwp. exact Hwp.
Qed.

(** Answers that let the road work. *)
Record road_answers (ans : op → answer) : Prop := {
  answers_begin n c : is_ok (ans (Begin n c)) = true;
  answers_exec n c sql : is_ok (ans (Exec n c sql)) = true;
  answers_commit n c : is_ok (ans (Commit n c)) = true;
  answers_log t c sql args : sql ∈ log_texts →
    ∃ id, in_bits 64 id = true ∧ ans (Query t c sql args) = Ok [[VInt id]];
  answers_verdict t c args : is_ok (first_row scan_verdict (ans (Query t c begin_text args))) = true;
  answers_end t c args : is_ok (first_row (scan1 (scan_ptr scan_int64)) (ans (Query t c end_text args))) = true
}.

Lemma toy_works ans daemon : road_answers ans → JournalWorks (toy_driver ans) daemon.
Proof.
  intros [Hb He Hc Hl Hv Hend]. split; unfold toy_driver; cbn.
  - intros d n c. apply Hb.
  - intros d n c ->. apply He.
  - intros d n c. rewrite andb_false_r. apply He.
  - intros d n c sql args _ Hsql ->. by apply Hl.
  - intros d n c args _ ->. apply Hv.
  - intros d n c args _ ->. apply Hend.
  - intros d n c ->. apply Hc.
Qed.

Lemma sample_road_answers : road_answers sample_answers.
Proof.
  split; try done. intros t c sql args Hsql. exists 41%Z. split; [done|].
  unfold log_texts in Hsql. repeat (apply elem_of_cons in Hsql as [->|Hsql]; [done|]).
  by apply elem_of_nil in Hsql.
Qed.

Lemma Call_request h fn args s :
  is_Some (request s) → post (Call h fn args s) (λ r, is_Some (request r.2)).
Proof.
  intros Hs. unfold Call, callDaemon. destruct (onDaemonRoad h).
  - destruct (negb _); [done|]. destruct (negb _); [done|]. destruct (existsb _ _); [done|].
    destruct (args_json args); [|done]. rewrite call_bind. by intros x.
  - destruct (callSQL fn args) as [[sql vals]|e]; [|done]. rewrite call_bind. by intros x.
Qed.

Lemma failing_good : good_handler (toy_driver sample_answers) failing_handler.
Proof.
  split; [apply failing_queries| |].
  - intros h s Hs. apply post_mbind. eapply post_mono; [|by apply Call_request].
    by intros [r s'] ?.
  - intros h s d a s' t d' _ _ Hrun. exfalso.
    assert (post (failing_handler h s) (λ r, is_ok r.1 = false)) as Hp
      by (apply post_any; done).
    apply (post_run (toy_driver sample_answers) _ d) in Hp. by rewrite Hrun in Hp.
Qed.

Lemma Do_error_is_problem_witness : ∃ e,
  (sample_run true failing_handler).1.1.1 = Err e ∧ is_Some (as_problem e).
Proof.
  destruct ((sample_run true failing_handler).1.1.1) as [a|e] eqn:He.
  { exfalso. vm_compute in He. discriminate He. }
  exists e. split; [done|]. exact (Do_error_is_problem _ _ _ _ _ _ He).
Defined.

Lemma Do_refusal_recorded_witness :
  ∃ e l o, (sample_run true failing_handler).1.1.1 = Err e ∧
    toy_durable (sample_run true failing_handler).2 = l ++ [o] ∧
    journal_line (refusal_status e).1 o.
Proof.
  assert (Hlen : length (toy_durable (sample_run true failing_handler).2) = 2) by (vm_compute; reflexivity).
  destruct (sample_run true failing_handler) as [[[r s'] t] d'] eqn:Hrun.
  destruct r as [a|e].
  { exfalso. apply (f_equal (λ x, x.1.1.1)) in Hrun. vm_compute in Hrun. discriminate Hrun. }
  destruct (Do_refusal_recorded (toy_driver sample_answers) _ sample_session failing_handler
    (sample_road true) (toy_works _ _ sample_road_answers) toy_init e s' t d' failing_good (or_introl eq_refl)
    ltac:(by eexists) Hrun) as [(l & o & Hl & Ho)|(_ & v & o & Hl & _)].
  - exists e, l, o. split_and!; [done|exact Hl|exact Ho].
  - exfalso. cbn in Hlen, Hl. rewrite Hl in Hlen. discriminate Hlen.
Defined.
