(* ===== verification/CallLaws.v ===== *)
(** * The text of a call

    What [Pgtx.callSQL] builds out of a function name and its arguments is made of identifiers,
    placeholders and listed types only. *)
From S2P Require Import Prelude.
From S2P Require Import GoStrings.
From S2P Require Import GoJson.
From S2P Require Import Problem.
From S2P Require Import Db.
From S2P Require Import Pgtx.

(** ** Lemmas: the text of a call *)

(** The bytes a call's text may hold: letters, digits and the punctuation of its
    form; no quote, semicolon, dash, slash, backslash or line break. *)
Definition sql_byte (c : ascii) : bool :=
  is_lower c || is_upper c || is_digit c
  || existsb (Ascii.eqb c) (String.list_ascii_of_string " _.,()$=>:").

Definition call_cast (v : value) : string :=
  match v with VTyped _ t => "::" +:+ t | _ => EmptyString end.
Definition call_value (v : value) : value := match v with VTyped v _ => v | v => v end.
Definition typed_ok (v : value) : bool :=
  match v with VTyped _ t => bool_decide (t ∈ sqlTypes) | VBytes _ => false | _ => true end.

Definition call_arg (args : Args) (ik : nat * string) : string :=
  "p" +:+ ik.2 +:+ " => $" +:+ Itoa (Z.of_nat ik.1) +:+ call_cast (default VNil (args !! ik.2)).

(** The text of the call of [name] with the parameters [ks], in this order. *)
Definition call_text (name : string) (args : Args) (ks : list string) : string :=
  "SELECT to_json(t) FROM api." +:+ name +:+ "("
  +:+ Join (call_arg args <$> zip (seq 1 (length ks)) ks) ", " +:+ ") t".

Lemma call_part_ok args i k p : call_part args i k = Ok p ↔
  typed_ok (default VNil (args !! k)) = true ∧
  p = (call_arg args (i, k), call_value (default VNil (args !! k))).
Proof.
  unfold call_part, call_arg, typed_ok, call_cast, call_value. cbn [fst snd].
  destruct (default VNil (args !! k)); rewrite ?sapp_nil_r; try naive_solver.
  destruct (bool_decide _); cbn; naive_solver.
Qed.

Lemma call_parts_ok args l parts :
  mapM_res (λ '(i, k), call_part args i k) l = Ok parts ↔
  Forall (λ ik : nat * string, typed_ok (default VNil (args !! ik.2)) = true) l ∧
  parts = (λ ik, (call_arg args ik, call_value (default VNil (args !! ik.2)))) <$> l.
Proof.
  revert parts. induction l as [|[i k] l IH]; intros parts; cbn [mapM_res].
  - rewrite Forall_nil. naive_solver.
  - rewrite Forall_cons, fmap_cons. destruct (call_part args i k) as [p|e] eqn:Hp; cbn.
    + apply call_part_ok in Hp as [Ht ->].
      destruct (mapM_res _ l) as [ps|e] eqn:Hps; cbn.
      * destruct (proj1 (IH ps) eq_refl) as [Hf ->]. naive_solver.
      * split; [done|]. intros [[_ Hf] _].
        pose proof (proj2 (IH _) (conj Hf eq_refl)). congruence.
    + split; [done|]. intros [[Ht _] _].
      by rewrite (proj2 (call_part_ok args i k _) (conj Ht eq_refl)) in Hp.
Qed.

Lemma zip_seq_fmap (f : string → value) n (ks : list string) :
  (λ ik : nat * string, f ik.2) <$> zip (seq n (length ks)) ks = f <$> ks.
Proof. revert n. induction ks as [|k ks IH]; intros n; [done|]. cbn. by rewrite IH. Qed.

(** [callSQL], as a whole. *)
Lemma callSQL_from_spec keys fn args sql vals :
  callSQL_from keys fn args = Ok (sql, vals) ↔
  let name := TrimPrefix fn "api." in
  let ks := sort_Strings keys in
  is_ident name = true ∧ Forall (λ k, is_ident k = true) keys ∧
  Forall (λ k, typed_ok (default VNil (args !! k)) = true) ks ∧
  sql = call_text name args ks ∧ vals = (λ k, call_value (default VNil (args !! k))) <$> ks.
Proof.
  cbv zeta. unfold callSQL_from.
  destruct (is_ident (TrimPrefix fn "api.")); cbn [negb throw_if mbind res_bind]; [|naive_solver].
  destruct (forallb is_ident keys) eqn:Hk; cbn [negb throw_if mbind res_bind].
  2: { split; [done|]. intros (_ & H & _). exfalso. revert Hk.
       induction H as [|k l Hk _ IH]; cbn; [done|]. by rewrite Hk. }
  assert (Forall (λ k, is_ident k = true) keys) as Hf.
  { revert Hk. clear. induction keys as [|k l IH]; cbn; [constructor|].
    intros [? ?]%andb_true_iff. constructor; auto. }
  assert (length keys = length (sort_Strings keys)) as Hlen
    by (unfold sort_Strings; by rewrite merge_sort_Permutation).
  assert (Hall : Forall (λ ik : nat * string, typed_ok (default VNil (args !! ik.2)) = true)
      (zip (seq 1 (length keys)) (sort_Strings keys)) ↔
    Forall (λ k, typed_ok (default VNil (args !! k)) = true) (sort_Strings keys)).
  { rewrite Hlen. clear. generalize 1. induction (sort_Strings keys) as [|k l IH]; intros n; cbn.
    - by rewrite !Forall_nil.
    - rewrite !Forall_cons. cbn [snd]. specialize (IH (S n)). tauto. }
  destruct (mapM_res _ _) as [parts|e] eqn:Hp; cbn [mbind res_bind].
  - apply call_parts_ok in Hp as [Ht ->]. rewrite Hall in Ht.
    unfold call_text. rewrite <- !list_fmap_compose, Hlen.
    rewrite <- (zip_seq_fmap (λ k, call_value (default VNil (args !! k))) 1).
    split; [intros [= <- <-]; done|]. intros (_ & _ & _ & -> & ->). done.
  - split; [done|]. intros (_ & _ & Ht & _). rewrite <- Hall in Ht.
    rewrite (proj2 (call_parts_ok args _ _) (conj Ht eq_refl)) in Hp. done.
Qed.

Lemma sql_byte_ident s : is_ident s = true → sforall sql_byte s = true.
Proof.
  intros H%is_ident_tail. revert H. apply sforall_impl. intros c Hc. unfold sql_byte.
  unfold ident_tail, lower_or_us in Hc.
  apply orb_true_iff in Hc as [[->|Hc]%orb_true_iff| ->]; rewrite ?orb_true_r; try done.
  by apply Ascii.eqb_eq in Hc as ->.
Qed.

Lemma sql_byte_digits s : sforall is_digit s = true → sforall sql_byte s = true.
Proof. apply sforall_impl. intros c Hc. unfold sql_byte. by rewrite Hc, orb_true_r. Qed.

Lemma sql_byte_nat n : sforall sql_byte (Itoa (Z.of_nat n)) = true.
Proof.
  destruct (Itoa_shape (Z.of_nat n)) as (c & r & -> & Hc & Hr & _).
  destruct (Z.ltb_spec (Z.of_nat n) 0); [lia|].
  apply sql_byte_digits. cbn. by rewrite Hc.
Qed.

Lemma sql_byte_cast v : typed_ok v = true → sforall sql_byte (call_cast v) = true.
Proof.
  destruct v; try done. cbn [typed_ok call_cast]. intros H%bool_decide_eq_true.
  rewrite sforall_app. apply andb_true_iff. split; [done|]. revert H. unfold sqlTypes.
  repeat (rewrite elem_of_cons; intros [->|H]; [by vm_compute|revert H]).
  by rewrite elem_of_nil.
Qed.

Lemma sforall_Join p l sep : sforall p sep = true → Forall (λ s, sforall p s = true) l →
  sforall p (Join l sep) = true.
Proof.
  intros Hsep. induction 1 as [|x l Hx Hl IH]; [done|].
  destruct l as [|y l]; [done|]. rewrite Join_cons, !sforall_app, Hx, Hsep. done.
Qed.

Lemma call_text_bytes name args ks : is_ident name = true → Forall (λ k, is_ident k = true) ks →
  Forall (λ k, typed_ok (default VNil (args !! k)) = true) ks → sforall sql_byte (call_text name args ks) = true.
Proof.
  intros Hn Hid Ht. unfold call_text. rewrite !sforall_app, (sql_byte_ident name) by done.
  assert (∀ n, sforall sql_byte (Join (call_arg args <$> zip (seq n (length ks)) ks) ", ") = true) as ->; [|done].
  intros n. apply sforall_Join; [done|]. revert n.
  induction ks as [|k l IH]; intros n; [constructor|]. cbn [length seq zip fmap list_fmap].
  apply Forall_cons in Hid as [Hkid Hid]. apply Forall_cons in Ht as [Hkt Ht].
  constructor; [|by apply IH]. unfold call_arg. cbn [fst snd].
  rewrite !sforall_app, sql_byte_nat, (sql_byte_ident k), (sql_byte_cast _ Hkt) by done. done.
Qed.

(** ** The calls, written out *)

(** The types a value may be pinned to. *)
Definition pinned : list string :=
  ["uuid"; "text"; "integer"; "bigint"; "smallint"; "numeric"; "boolean"; "date"; "timestamp"; "timestamptz";
   "json"; "jsonb"].

(** A value that goes as it is: not pinned, and not bytes. *)
Definition plain (v : value) : Prop :=
  match v with VTyped _ _ | VBytes _ => False | _ => True end.

(** The arguments of a call from the placeholder [i] on: the names, their texts and their values. *)
Inductive arguments (args : Args) : nat → list string → list string → list value → Prop :=
  | no_argument i : arguments args i [] [] []
  | plain_argument i k v ks texts vals : identifier k → args !! k = Some v → plain v →
      arguments args (S i) ks texts vals →
      arguments args i (k :: ks) (("p" +:+ k +:+ " => $" +:+ Itoa (Z.of_nat i)) :: texts) (v :: vals)
  | pinned_argument i k v t ks texts vals : identifier k → args !! k = Some (VTyped v t) → t ∈ pinned →
      arguments args (S i) ks texts vals →
      arguments args i (k :: ks) (("p" +:+ k +:+ " => $" +:+ Itoa (Z.of_nat i) +:+ "::" +:+ t) :: texts) (v :: vals).

Lemma arguments_of args ks : Forall (λ k, is_Some (args !! k)) ks → Forall (λ k, is_ident k = true) ks →
  Forall (λ k, typed_ok (default VNil (args !! k)) = true) ks → ∀ i,
  arguments args i ks (call_arg args <$> zip (seq i (length ks)) ks)
    ((λ k, call_value (default VNil (args !! k))) <$> ks).
Proof.
  intros Hin Hid Ht. induction ks as [|k ks IH]; intros i; [constructor|].
  apply Forall_cons in Hin as [[v Hv] Hin]. apply Forall_cons in Hid as [Hk Hid]. apply Forall_cons in Ht as [Hkt Ht].
  specialize (IH Hin Hid Ht (S i)). apply is_ident_spec in Hk. cbn [length seq zip fmap list_fmap].
  unfold call_arg at 1. cbn [fst snd]. rewrite Hv in Hkt |- *. cbn [default from_option] in Hkt |- *.
  destruct v; cbn [call_cast call_value typed_ok] in *; rewrite ?sapp_nil_r;
    first [discriminate Hkt|by eapply plain_argument|by eapply pinned_argument; [| |apply bool_decide_eq_true in Hkt|]].
Qed.

(** C30. A call is built from identifiers and placeholders only: when [callSQL] gives a text, it is that of
    a call of an identifier of schema api, given with the schema or without it; its arguments are, in
    the order of the sorted names, each an identifier after a p, its placeholder by its number
    and, for a pinned value, a cast to one of twelve types; the values are those the placeholders
    number; the text has letters, figures and the punctuation of such a call alone; and
    nothing of it depends on the order Go iterates the map in. *)
Theorem callSQL_safe fn args keys sql vals :
  keys ≡ₚ (map_to_list args).*1 →
  callSQL_from keys fn args = Ok (sql, vals) →
  callSQL fn args = Ok (sql, vals) ∧ sforall sql_byte sql = true ∧
  ∃ name texts, identifier name ∧ (fn = name ∨ fn = "api." +:+ name) ∧
    sql = "SELECT to_json(t) FROM api." +:+ name +:+ "(" +:+ Join texts ", " +:+ ") t" ∧
    arguments args 1 (sort_Strings (map_to_list args).*1) texts vals.
Proof.
  intros Hperm H. pose proof (sort_Strings_perm _ _ Hperm) as Hsort.
  apply callSQL_from_spec in H as (Hn & Hk & Ht & -> & ->). rewrite Hsort in *.
  set (ks := sort_Strings (map_to_list args).*1) in *.
  assert (Hks : ∀ k, k ∈ ks ↔ k ∈ keys) by (intros k; unfold ks; by rewrite elem_of_sort_Strings, Hperm).
  assert (Hid : Forall (λ k, is_ident k = true) ks).
  { apply Forall_forall. intros k Hin%Hks. rewrite Forall_forall in Hk. by apply Hk. }
  split_and!.
  - apply callSQL_from_spec. split_and!; try done. by rewrite <- Hperm.
  - by apply call_text_bytes.
  - exists (TrimPrefix fn "api."), (call_arg args <$> zip (seq 1 (length ks)) ks).
    split; [by apply is_ident_spec|]. split; [|split; [done|]].
    + unfold TrimPrefix. destruct (HasPrefix fn "api.") eqn:Hp; [right|by left].
      apply HasPrefix_spec in Hp as [r ->]. by rewrite sdrop_app.
    + apply arguments_of; [|done..]. apply Forall_forall. intros k Hin.
      unfold ks in Hin. apply elem_of_sort_Strings, list_elem_of_fmap in Hin as ([k' v] & -> & Hv%elem_of_map_to_list).
      by exists v.
Qed.

Lemma callSQL_safe_witness :
  let args : Args := {[ "limit" := VInt 10; "area" := VTyped (VStr "7f") "uuid" ]} in
  ∃ name texts, "SELECT to_json(t) FROM api.list_user(parea => $1::uuid, plimit => $2) t" =
      "SELECT to_json(t) FROM api." +:+ name +:+ "(" +:+ Join texts ", " +:+ ") t" ∧ identifier name ∧
    arguments args 1 ["area"; "limit"] texts [VStr "7f"; VInt 10].
Proof.
  cbv zeta. set (args := {[ "limit" := _; "area" := _ ]} : Args).
  assert (Hp : ["limit"; "area"] ≡ₚ (map_to_list args).*1) by (apply (bool_decide_unpack _); by vm_compute).
  assert (Hc : callSQL_from ["limit"; "area"] "api.list_user" args =
    Ok ("SELECT to_json(t) FROM api.list_user(parea => $1::uuid, plimit => $2) t", [VStr "7f"; VInt 10]))
    by (vm_compute; reflexivity).
  destruct (callSQL_safe "api.list_user" args ["limit"; "area"] _ _ Hp Hc) as (_ & _ & name & texts & Hn & _ & Hs & Ha).
  assert (Hks : sort_Strings (map_to_list args).*1 = ["area"; "limit"]) by (vm_compute; reflexivity).
  rewrite Hks in Ha. exists name, texts. split; [exact Hs|]. split; [exact Hn|exact Ha].
Defined.
