(* ===== verification/Host.v ===== *)
(** * module.go: the host that composes modules into one handler

    [New], the prefixes a process announces ([Prefixes], [OpenPrefixes]), the gate
    every request passes ([ServeHTTP]: the token, the canonical path, the mux, the
    query) and the client's address behind trusted proxies ([clientAddr]).  A module's
    handler is any [H]; [ServeHTTP] is given how a handler answers.  Logging is left
    out. *)

From S2P Require Import Prelude.
From S2P Require Import GoStrings.
From S2P Require Import GoJson.
From S2P Require Import Http.
From S2P Require Import Problem.
From S2P Require Import Jwt.
From S2P Require Import Db.
From S2P Require Import GoNet.
From S2P Require Import Url.
From S2P Require Import Mux.
From S2P Require Pgtx.

(** ** Data *)

Record Module (H : Type) := mkModule {
  Name : string;
  module_Prefixes : list string;
  Routes : list (string * H)
}.
Arguments mkModule {H} _ _ _.
Arguments Name {H} _.
Arguments module_Prefixes {H} _.
Arguments Routes {H} _.

(** [Config]: the clock is the time of the request; [TrustedProxies] of [None] is the
    nil slice. *)
Record Config := mkConfig {
  Keys : Keyring;
  Now : Z;
  config_Catalogue : Catalogue;
  TrustedProxies : option (list Prefix)
}.

Record host (H : Type) := mkHost { cfg : Config; host_mux : mux H }.
Arguments mkHost {H} _ _.
Arguments cfg {H} _.
Arguments host_mux {H} _.

(** ** Composing modules *)

Inductive host_error : Type :=
  | NoModules
  | PrefixClaimed (p by_ name : string).

(** The inner loop of [New] over one module's prefixes. *)
Definition claim (name : string) (owner : gmap string string) (p : string)
    : res host_error (gmap string string) :=
  match owner !! p with
  | Some by_ => Err (PrefixClaimed p by_ name)
  | None => Ok (<[p := name]> owner)
  end.

(** The loop of [New] over the modules. *)
Definition compose {H} (acc : gmap string string * mux H) (m : Module H)
    : res host_error (gmap string string * mux H) :=
  owner ← foldM_res (claim (Name m)) (module_Prefixes m) acc.1;
  Ok (owner, foldl (λ x r, HandleFunc r.1 r.2 x) acc.2 (Routes m)).

Definition New {H} (c : Config) (modules : list (Module H)) : res host_error (host H) :=
  match modules with
  | [] => Err NoModules
  | _ => acc ← foldM_res compose modules (∅, []); Ok (mkHost c acc.2)
  end.

(** [q] is above [p]: the condition of [Prefixes]. *)
Definition under (p q : string) : bool :=
  negb (String.eqb q p) && HasPrefix (p +:+ "/") (q +:+ "/").

Definition Prefixes {H} (modules : list (Module H)) : list string :=
  let all := concat (module_Prefixes <$> modules) in
  filter (λ p, existsb (under p) all = false) all.

(** A route lies on the prefix, under it or above it. *)
Definition on_line (p : string) (rt : Pgtx.Route) : bool :=
  String.eqb (Pgtx.route_path rt) p
  || HasPrefix (Pgtx.route_path rt) (p +:+ "/")
  || HasPrefix p (Pgtx.route_path rt +:+ "/").

(** [OpenPrefixes]: the open ones and the closed ones; routes of [None] are nil. *)
Definition OpenPrefixes (prefixes : list string) (routes : option (list Pgtx.Route))
    (always : list string) : list string * list string :=
  match routes with
  | None => (prefixes, [])
  | Some routes =>
      let ok p := existsb (String.eqb p) always || existsb (on_line p) routes in
      (filter (λ p, ok p = true) prefixes, filter (λ p, ok p = false) prefixes)
  end.

(** ** The client's address *)

Definition isTrusted (a : Addr) (trusted : list Prefix) : bool :=
  existsb (λ p, Contains p a) trusted.

Definition addrOf (s : string) : option Addr :=
  match ParseAddrPort s with
  | Some a => Some (WithoutZone (Unmap a))
  | None =>
      let s := if HasPrefix s "[" && HasSuffix s "]"
               then stake (String.length s - 2) (sdrop 1 s) else s in
      WithoutZone ∘ Unmap <$> ParseAddr s
  end.

Definition forwardedChain (values : list string) : list string :=
  filter (λ e, e ≠ EmptyString) (TrimSpace <$> concat ((λ v, Split v ",") <$> values)).

(** The walk of [clientAddr] from the right: [chain] is reversed. *)
Fixpoint walk (trusted : list Prefix) (last_ : string) (chain : list string) : string :=
  match chain with
  | [] => last_
  | e :: chain =>
      match addrOf e with
      | None => last_
      | Some a =>
          if isTrusted a trusted then walk trusted (AddrString a) chain else AddrString a
      end
  end.

Definition clientAddr (r : Request) (trusted : option (list Prefix)) : string :=
  let peer := addrOf (RemoteAddr r) in
  let last_ := from_option AddrString EmptyString peer in
  let chain := forwardedChain (hdr_values (ReqHeader r) "X-Forwarded-For") in
  match trusted with
  | None =>
      match last chain with
      | None => last_
      | Some e => match addrOf e with Some a => AddrString a | None => last_ end
      end
  | Some trusted =>
      match peer with
      | None => last_
      | Some a => if isTrusted a trusted then walk trusted last_ (rev chain) else last_
      end
  end.

(** One element of the list: a CIDR, or an address. *)
Definition trusted_proxy (s : string) : res string Prefix :=
  match ParsePrefix s with
  | Some p =>
      let p := match prefix_addr p with
               | Some a => if Is4In6 a then PrefixFrom (Unmap a) (prefix_bits p - 96) else p
               | None => p
               end in
      Ok (Masked p)
  | None =>
      a ← of_option (ParseAddr s) s;
      let a := Unmap a in Ok (PrefixFrom a (BitLen a))
  end.

(** [ParseTrustedProxies]; the error is the element it names. *)
Definition ParseTrustedProxies (list_ : string) : res string (list Prefix) :=
  mapM_res trusted_proxy (filter (λ s, s ≠ EmptyString) (TrimSpace <$> Split list_ ",")).

(** ** A request *)

(** [canonical]. *)
Definition canonical (p : string) : bool :=
  HasPrefix p "/" &&
  (let c := Clean p in
   let c := if HasSuffix p "/" && negb (HasSuffix c "/") then c +:+ "/" else c in
   String.eqb c p).

(** The methods [Allow] names, of those the host asks the mux for. *)
Definition allowed {H} (m : mux H) (escaped : string) : list string :=
  concat ((λ me, match find m me escaped with
                 | Some _ => if String.eqb me "GET" then ["GET"; "HEAD"] else [me]
                 | None => []
                 end) <$> ["GET"; "POST"; "PATCH"; "DELETE"]).

(** Where a request ends: answered by the host, or given to a module's handler with
    the session the host established. *)
Inductive outcome (H : Type) : Type :=
  | Answered (w : ResponseWriter)
  | Dispatched (h : H) (r : Request) (s : Pgtx.Session) (w : ResponseWriter).
Arguments Answered {H} w.
Arguments Dispatched {H} h r s w.

Section serve.
Context {H : Type}.
(* the text of the error of [url.ParseQuery] *)
Context (query_error : string → string).

Definition unauthorized (c : Config) : string → string → Problem :=
  Problem.Unauthorized (config_Catalogue c).

Definition not_found : Problem := Problem.New 404 "not-found" "Not found" EmptyString.
Definition method_not_allowed : Problem :=
  Problem.New 405 "method-not-allowed" "Method not allowed" EmptyString.

(** What [ServeHTTP] does once the session is established. *)
Definition dispatch (h : host H) (s : Pgtx.Session) (r : Request) (w : ResponseWriter)
    : outcome H :=
  if negb (canonical (URL_Path r)) then Answered (Write not_found (Some r) w)
  else
    match find (host_mux h) (Method r) (EscapedPath r) with
    | None =>
        match allowed (host_mux h) (EscapedPath r) with
        | [] => Answered (Write not_found (Some r) w)
        | allow => Answered (Write method_not_allowed (Some r) (SetHeader "Allow" (Join allow ", ") w))
        end
    | Some (b, rt) =>
        if negb (ParseQuery_ok (RawQuery r))
        then Answered (Write (Problem.New 400 "validation" "Bad request"
                                ("query: " +:+ query_error (RawQuery r))) (Some r) w)
        else Dispatched rt.2 (with_PathValues (list_to_map b) r) s w
    end.

(** [ServeHTTP] up to the module's handler. *)
Definition gate (h : host H) (r : Request) (w : ResponseWriter) : outcome H :=
  let rid := hdr_get (ReqHeader r) "X-Request-Id" in
  let w := if is_empty rid then w else SetHeader "X-Request-Id" rid w in
  let auth := hdr_get (ReqHeader r) "Authorization" in
  let tok := TrimPrefix auth "Bearer " in
  if is_empty tok || String.eqb tok auth
  then Answered (Write (NoCredentials (unauthorized (cfg h) CodeLoginFailed "Bearer token required"))
                   (Some r) w)
  else
    match Verify (Keys (cfg h)) tok (Now (cfg h)) with
    | Err ErrExpired =>
        Answered (Write (unauthorized (cfg h) CodeTokenExpired "The access token has expired.")
                    (Some r) w)
    | Err _ =>
        Answered (Write (unauthorized (cfg h) CodeLoginFailed "The access token could not be verified.")
                    (Some r) w)
    | Ok claims =>
        dispatch h (Pgtx.mkSession (Sub claims) tok (hdr_get (ReqHeader r) "User-Agent")
                      (clientAddr r (TrustedProxies (cfg h)))) r w
    end.

(** [Add] of the in-flight counter, 32 bits wide; no counter is [None]. *)
Definition add32 (d n : Z) : Z := ((n + d + 2 ^ 31) mod 2 ^ 32 - 2 ^ 31)%Z.

(** [ServeHTTP]: the counter as the handler sees it, and after the deferred [Add]. *)
Definition ServeHTTP (serve : H → Request → Pgtx.Session → option Z → ResponseWriter → ResponseWriter)
    (h : host H) (count : option Z) (r : Request) (w : ResponseWriter)
    : ResponseWriter * option Z :=
  let count := add32 1 <$> count in
  let w := match gate h r w with
           | Answered w => w
           | Dispatched hd r s w => serve hd r s count w
           end in
  (w, add32 (-1) <$> count).
End serve.

(** ** Lemmas: prefixes *)

Lemma under_spec p q : under p q = true ↔ q ≠ p ∧ ∃ r, p +:+ "/" = q +:+ "/" +:+ r.
Proof.
  unfold under. rewrite andb_true_iff, negb_true_iff, String.eqb_neq, HasPrefix_spec.
  split; intros [? [r Hr]]; (split; [done|]); exists r; rewrite Hr; by rewrite sapp_assoc.
Qed.

Lemma under_length p q : under p q = true → String.length q < String.length p.
Proof.
  intros [Hne [r Hr]]%under_spec.
  pose proof (f_equal String.length Hr) as Hl. rewrite !length_sapp in Hl. cbn in Hl.
  destruct (Nat.eq_dec (String.length q) (String.length p)) as [Heq|]; [|lia].
  exfalso. apply Hne. assert (r = EmptyString) as -> by (destruct r; cbn in *; [done|lia]).
  rewrite sapp_nil_r in Hr. apply (f_equal (stake (String.length q))) in Hr.
  rewrite stake_app, Heq, stake_app in Hr. done.
Qed.

Lemma under_trans p q r : under p q = true → under q r = true → under p r = true.
Proof.
  intros Hpq Hqr. pose proof (under_length _ _ Hpq). pose proof (under_length _ _ Hqr).
  apply under_spec in Hpq as [_ [a Ha]]. apply under_spec in Hqr as [_ [b Hb]].
  apply under_spec. split; [intros ->; lia|].
  exists (b +:+ a). rewrite Ha, <- sapp_assoc, Hb. by rewrite !sapp_assoc.
Qed.

(** Above every prefix there is one that nothing is above of. *)
Lemma topmost all p : p ∈ all →
  ∃ q, q ∈ all ∧ existsb (under q) all = false ∧ (q = p ∨ under p q = true).
Proof.
  remember (String.length p) as n eqn:Hn. revert p Hn.
  induction (lt_wf n) as [n _ IH]. intros p -> Hp.
  destruct (existsb (under p) all) eqn:He.
  - apply existsb_exists in He as (q & Hq & Hu). apply list_elem_of_In in Hq.
    destruct (IH _ (under_length _ _ Hu) q eq_refl Hq) as (t & Ht & Hno & Hor).
    exists t. split_and!; [done|done|right]. destruct Hor as [->|Hor]; [done|].
    by eapply under_trans.
  - exists p. auto.
Qed.

(** The prefixes a process announces are the topmost ones of its modules: each is a
    module's own, none lies under another, and whatever any module claims is one of
    them or lies under one of them, so the gateway accepts the list and every
    request the modules serve reaches the process. *)
Lemma Prefixes_topmost {H} (modules : list (Module H)) :
  let all := concat (module_Prefixes <$> modules) in
  (∀ p, p ∈ Prefixes modules → p ∈ all) ∧
  (∀ p q, p ∈ Prefixes modules → q ∈ Prefixes modules → under p q = false) ∧
  (∀ p, p ∈ all → ∃ q, q ∈ Prefixes modules ∧ (q = p ∨ under p q = true)).
Proof.
  cbv zeta. unfold Prefixes. set (all := concat _). split_and!.
  - intros p. rewrite list_elem_of_filter. by intros [_ ?].
  - intros p q [Hp _]%list_elem_of_filter [_ Hq]%list_elem_of_filter.
    destruct (under p q) eqn:Hu; [|done]. exfalso.
    assert (existsb (under p) all = true) by (apply existsb_exists; exists q; split;
      [by apply list_elem_of_In|done]). congruence.
  - intros p Hp. destruct (topmost all p Hp) as (q & Hq & Hno & Hor).
    exists q. split; [by apply list_elem_of_filter|done].
Qed.

(** [OpenPrefixes] splits the prefixes, in their order: an open one is announced
    whatever the routes say or has a guarded route on its line, a closed one has
    neither; with no routes in the database every prefix is open. *)
Lemma OpenPrefixes_split prefixes routes always :
  let '(open, closed) := OpenPrefixes prefixes routes always in
  (open ++ closed) ≡ₚ prefixes ∧ sublist open prefixes ∧ sublist closed prefixes ∧
  match routes with
  | None => closed = []
  | Some rts =>
      (∀ p, p ∈ open → p ∈ always ∨ ∃ rt, rt ∈ rts ∧ on_line p rt = true) ∧
      (∀ p, p ∈ closed → (p ∉ always) ∧ (∀ rt, rt ∈ rts → on_line p rt = false))
  end.
Proof.
  destruct routes as [rts|]; cbn [OpenPrefixes];
    [|split_and!; [by rewrite app_nil_r|reflexivity|apply sublist_nil_l|done]].
  set (ok := λ p, existsb (String.eqb p) always || existsb (on_line p) rts).
  assert (Hok : ∀ p, ok p = true ↔ p ∈ always ∨ ∃ rt, rt ∈ rts ∧ on_line p rt = true).
  { intros p. unfold ok. rewrite orb_true_iff, !existsb_exists. split; intros [H|H]; auto.
    - destruct H as (x & Hx & ->%String.eqb_eq). left. by apply list_elem_of_In.
    - destruct H as (x & Hx & Ho). right. exists x. by rewrite list_elem_of_In.
    - left. exists p. split; [by apply list_elem_of_In|apply String.eqb_refl].
    - destruct H as (x & Hx & Ho). right. exists x. by rewrite <- list_elem_of_In. }
  split_and!.
  - apply (filter_split ok).
  - apply sublist_filter.
  - apply sublist_filter.
  - by intros p [?%Hok _]%list_elem_of_filter.
  - intros p [Hp _]%list_elem_of_filter. change (ok p = false) in Hp. split.
    + intros Ha. assert (ok p = true) by (apply Hok; by left). congruence.
    + intros rt Hrt. destruct (on_line p rt) eqn:Ho; [|done].
      assert (ok p = true) by (apply Hok; eauto). congruence.
Qed.

(** ** Lemmas: the client's address *)

Lemma dec_ne n : dec n ≠ EmptyString.
Proof.
  unfold dec. destruct (Itoa_shape (Z.of_N n)) as (c & r & -> & _).
  by destruct (_ <? _)%Z.
Qed.

Lemma sapp_ne_l (s t : string) : s ≠ EmptyString → s +:+ t ≠ EmptyString.
Proof. by destruct s. Qed.

Lemma print6_ne n : print6 n ≠ EmptyString.
Proof.
  unfold print6. destruct (longest_zeros _ _ _) as [start len].
  destruct (len =? 0)%nat; [|by destruct (Join _ _)].
  unfold groups_of. cbn [fmap list_fmap]. rewrite Join_cons. apply sapp_ne_l.
  unfold hex_group. repeat (destruct (_ <=? _)%N); done.
Qed.

Lemma AddrString_ne a : AddrString a ≠ EmptyString.
Proof.
  destruct a as [n|n z]; cbn.
  - unfold print4. apply sapp_ne_l, dec_ne.
  - apply sapp_ne_l. destruct (_ =? _)%N; [done|apply print6_ne].
Qed.

(** The elements [suf] are the addresses [as_], and every one of them is trusted. *)
Definition trusted_run (T : list Prefix) (suf : list string) (as_ : list Addr) : Prop :=
  Forall2 (λ s a, addrOf s = Some a ∧ isTrusted a T = true) suf as_.

Lemma walk_trusted T suf as_ : trusted_run T suf as_ → ∀ a0 rest,
  walk T (AddrString a0) (rev suf ++ rest) = walk T (AddrString (hd a0 as_)) rest.
Proof.
  unfold trusted_run. induction 1 as [|s a suf as_ [Hs Ha] Hf IH] using Forall2_ind;
    intros a0 rest; [done|].
  cbn [rev]. rewrite <- app_assoc. rewrite IH. cbn. rewrite Hs, Ha. done.
Qed.

Lemma walk_ne T chain : ∀ l, l ≠ EmptyString → walk T l chain ≠ EmptyString.
Proof.
  induction chain as [|e chain IH]; intros l Hl; cbn; [done|].
  destruct (addrOf e); [|done]. destruct (isTrusted _ _); [apply IH|]; apply AddrString_ne.
Qed.

(** C16. A client cannot choose the address it is known by: with a list of trusted
    proxies a peer outside it is the client whatever header it sends; behind a
    trusted peer the elements the trusted proxies wrote are skipped from the right
    and the first other one decides - its address, or, when it is none, the address
    of the proxy that wrote it - whatever a client wrote on the left of it; and a
    request whose peer can be read never has an empty address. *)
Theorem clientAddr_decided r T peer :
  addrOf (RemoteAddr r) = Some peer →
  let chain := forwardedChain (hdr_values (ReqHeader r) "X-Forwarded-For") in
  (isTrusted peer T = false → clientAddr r (Some T) = AddrString peer) ∧
  (isTrusted peer T = true → ∀ suf as_, trusted_run T suf as_ →
     (chain = suf → clientAddr r (Some T) = AddrString (hd peer as_)) ∧
     (∀ forged e, chain = forged ++ e :: suf →
        (∀ a, addrOf e = Some a → isTrusted a T = false →
           clientAddr r (Some T) = AddrString a) ∧
        (addrOf e = None → clientAddr r (Some T) = AddrString (hd peer as_)))) ∧
  (∀ trusted, clientAddr r trusted ≠ EmptyString).
Proof.
  cbv zeta. intros Hp. unfold clientAddr. rewrite Hp. cbn [from_option]. split_and!.
  - by intros ->.
  - intros -> suf as_ Hrun. split.
    + intros ->. rewrite <- (app_nil_r (rev suf)), (walk_trusted T suf as_) by done. done.
    + intros forged e ->. rewrite rev_app_distr. cbn [rev]. rewrite <- !app_assoc.
      rewrite (walk_trusted T suf as_) by done. cbn. split.
      * intros a -> Ha. by rewrite Ha.
      * by intros ->.
  - intros [trusted|].
    + destruct (isTrusted peer trusted); [apply walk_ne|]; apply AddrString_ne.
    + destruct (last _) as [e|]; [|apply AddrString_ne].
      destruct (addrOf e); apply AddrString_ne.
Qed.

(** A request through a proxy at 10.0.0.2, with a forged element. *)
Definition proxied_request : Request :=
  mkRequest "GET" "/" "/" EmptyString
    {[ "X-Forwarded-For" := ["127.0.0.1, 198.51.100.7"; "10.0.0.1"] ]}
    EmptyString false "10.0.0.2:40112" ∅.

Lemma clientAddr_decided_witness : ∃ T,
  ParseTrustedProxies "10.0.0.0/8" = Ok T ∧
  clientAddr proxied_request (Some T) = "198.51.100.7".
Proof.
  eexists. split; [by vm_compute|].
  pose proof (clientAddr_decided proxied_request [mkPrefix (Some (V4 167772160)) 8] (V4 167772162)
    ltac:(by vm_compute)) as (_ & H & _).
  specialize (H ltac:(by vm_compute) ["10.0.0.1"] [V4 167772161]
    ltac:(constructor; [split; by vm_compute|constructor])) as [_ H].
  specialize (H ["127.0.0.1"] "198.51.100.7" ltac:(by vm_compute)) as [H _].
  rewrite (H (V4 3325256711) ltac:(by vm_compute) ltac:(by vm_compute)). by vm_compute.
Defined.

(** ** Lemmas: canonical paths *)

Lemma Clean_segments q :
  Clean (String "/" q) = String "/" (Join (rev (foldl (clean_step true) [] (Split q "/"))) "/").
Proof. unfold Clean. reflexivity. Qed.

(** The segments of a canonical path: kept by [Clean], and a trailing slash perhaps. *)
Definition clean_segments (l : list string) : Prop :=
  ∃ g, Forall kept g ∧ (l = g ∨ l = g ++ [EmptyString]).

Lemma clean_segments_spec l : l ≠ [] →
  clean_segments l ↔
  ∀ i s, l !! i = Some s → s ≠ "." ∧ s ≠ ".." ∧ (s = EmptyString → S i = length l).
Proof.
  intros Hne. split.
  - intros (g & Hg & Hl) i s Hi. rewrite Forall_lookup in Hg. destruct Hl as [->| ->].
    + destruct (Hg i s Hi) as (? & ? & ?). by split_and!.
    + apply lookup_app_Some in Hi as [Hi|[Hlen Hi]].
      * destruct (Hg i s Hi) as (? & ? & ?). by split_and!.
      * apply list_lookup_singleton_Some in Hi as [Hi <-].
        split_and!; try done. intros _. rewrite length_app. cbn. lia.
  - intros H. destruct (rev l) as [|s g] eqn:Hr.
    { apply (f_equal (@rev string)) in Hr. rewrite List.rev_involutive in Hr. done. }
    apply (f_equal (@rev string)) in Hr. rewrite List.rev_involutive in Hr. cbn in Hr.
    subst l. exists (if is_empty s then rev g else rev g ++ [s]). split.
    + apply Forall_lookup. intros i x Hi.
      assert ((rev g ++ [s]) !! i = Some x ∧ (x = EmptyString → is_empty s = false ∧ S i = length (rev g ++ [s])))
        as [Hx Hemp].
      { destruct (is_empty s) eqn:Hs.
        - split; [by apply lookup_app_l_Some|]. intros ->.
          destruct (H i EmptyString) as (_ & _ & Hl); [by apply lookup_app_l_Some|].
          apply lookup_lt_Some in Hi. specialize (Hl eq_refl). rewrite length_app in Hl. cbn in Hl. lia.
        - split; [done|]. intros ->. split; [done|]. by apply (proj2 (proj2 (H i _ Hi))). }
      destruct (H i x Hx) as (Hd & Hdd & _). split_and!; try done. intros ->.
      destruct (Hemp eq_refl) as [Hs Hlast].
      rewrite (lookup_app_r (rev g)) in Hx by (rewrite length_app in Hlast; cbn in Hlast; lia).
      apply list_lookup_singleton_Some in Hx as [_ ->]. done.
    + destruct (is_empty s) eqn:Hs; [right|by left]. by apply is_empty_spec in Hs as ->.
Qed.

Lemma canonical_segments q : canonical (String "/" q) = true ↔ clean_segments (Split q "/").
Proof.
  unfold canonical. rewrite Clean_segments. cbn [HasPrefix andb].
  change (HasPrefix (String "/" q) "/") with (HasPrefix q EmptyString).
  replace (HasPrefix q EmptyString) with true by (by destruct q). cbn [andb].
  set (g := rev (foldl _ _ _)).
  assert (Hg : Forall (λ s, kept s ∧ no_slash s) g).
  { apply Forall_rev, clean_inv; [apply Split_no_sep|constructor]. }
  assert (Hjoin : g ≠ [] → Split (Join g "/") "/" = g).
  { intros Hne. apply (Split_Join g "/"); [done|]. eapply Forall_impl; [exact Hg|].
    by intros s [_ ?]. }
  assert (Hk : Forall kept g) by (eapply Forall_impl; [exact Hg|]; by intros s [? _]).
  pose proof (Join_Split q "/") as Hq. change (one "/") with "/" in Hq. split.
  - clearbody g. intros Heq. apply String.eqb_eq in Heq. exists g. split; [done|].
    destruct (HasSuffix (String "/" q) "/" && _) eqn:Hs.
    + rewrite sapp_cons in Heq. injection Heq as <-. right.
      change "/" with (one "/") at 2. by destruct g as [|x g']; [|rewrite Split_snoc, Hjoin].
    + injection Heq as <-. destruct g as [|x g']; [by right|left]. by rewrite Hjoin.
  - intros (g' & Hg' & Hl). apply String.eqb_eq.
    assert (Hgg : g = g').
    { unfold g. destruct Hl as [-> | ->].
      - by rewrite clean_kept, app_nil_r, List.rev_involutive.
      - rewrite foldl_app, (clean_kept g'), app_nil_r by done. apply List.rev_involutive. }
    clearbody g. subst g'. destruct Hl as [Hl|Hl]; rewrite Hl in Hq; subst q.
    + destruct (HasSuffix _ _) eqn:Hs; cbn [negb andb]; done.
    + destruct g as [|x g]; [done|].
      assert (Hs : String "/" (Join ((x :: g) ++ [EmptyString]) "/")
        = String "/" (Join (x :: g) "/") +:+ "/") by (by rewrite sapp_cons, Join_snoc, sapp_nil_r).
      rewrite Hs. rewrite (proj2 (HasSuffix_spec _ "/")) by (by eexists).
      pose proof (Join_kept_suffix (x :: g) ltac:(done) Hg) as Hn.
      change ("/" +:+ Join (x :: g) "/") with (String "/" (Join (x :: g) "/")) in Hn.
      by rewrite Hn.
Qed.

(** The host serves exactly the paths the mux would not redirect: [canonical] holds of
    a path that starts with a slash, none of whose segments is a dot or two, and
    whose only empty segment, if any, is the one after a trailing slash. *)
Lemma canonical_spec p :
  canonical p = true ↔
  HasPrefix p "/" = true ∧
  ∀ i s, segments p !! i = Some s →
    s ≠ "." ∧ s ≠ ".." ∧ (s = EmptyString → S i = length (segments p)).
Proof.
  destruct (HasPrefix p "/") eqn:Hp; [|unfold canonical; rewrite Hp; naive_solver].
  apply HasPrefix_spec in Hp as [q ->]. change ("/" +:+ q) with (String "/" q).
  rewrite canonical_segments, clean_segments_spec by apply Split_ne.
  change (segments (String "/" q)) with (Split q "/"). tauto.
Qed.

(** ** Properties: the gate *)

Lemma bearer_token auth :
  let tok := TrimPrefix auth "Bearer " in
  is_empty tok || String.eqb tok auth = false →
  auth = "Bearer " +:+ tok ∧ tok ≠ EmptyString.
Proof.
  cbv zeta. intros [He Hne]%orb_false_iff. apply String.eqb_neq in Hne.
  unfold TrimPrefix in *. destruct (HasPrefix auth "Bearer ") eqn:Hp; [|done].
  apply HasPrefix_spec in Hp as [r ->]. rewrite sdrop_app in *. split; [done|].
  by intros ->.
Qed.

(** The pairs of a query that the host lets through are all there. *)
Definition query_kept (q : string) : Prop :=
  ∀ part, part ∈ Split q "&" → part ≠ EmptyString →
    ∃ k v, query_pair part = Ok (Some (k, v)) ∧ v ∈ default [] (Query q !! k).

Lemma ParseQuery_kept q : ParseQuery_ok q = true → query_kept q.
Proof.
  intros Hq part Hin Hne. destruct (ParseQuery_ok_pairs q part Hq Hin Hne) as (k & v & Hp & Hkv).
  exists k, v. split; [done|]. rewrite Query_lookup. apply list_elem_of_fmap.
  exists (k, v). split; [done|]. by apply list_elem_of_filter.
Qed.

Section gate.
Context {H : Type} (query_error : string → string).

(** C8. A module's handler runs for a verified session only: when the gate dispatches a
    request, it carried a bearer token the keyring accepts now, the session is made
    of that token's subject, the token, the agent and the decided address, the path
    is canonical and fits the pattern of a registered route of the method (a HEAD
    may be a GET's), which is the handler's, the path values are the pattern's, and
    every part of the query reaches the handler. *)
Theorem gate_dispatched (h : host H) r w hd r' s w' :
  gate query_error h r w = Dispatched hd r' s w' →
  ∃ tok claims b pat,
    hdr_get (ReqHeader r) "Authorization" = "Bearer " +:+ tok ∧ tok ≠ EmptyString ∧
    Verify (Keys (cfg h)) tok (Now (cfg h)) = Ok claims ∧
    s = Pgtx.mkSession (Sub claims) tok (hdr_get (ReqHeader r) "User-Agent")
          (clientAddr r (TrustedProxies (cfg h))) ∧
    canonical (URL_Path r) = true ∧ (pat, hd) ∈ host_mux h ∧
    fits (p_segs (parse_pattern pat)) (path_segments (EscapedPath r)) b ∧
    (p_method (parse_pattern pat) = Method r ∨ p_method (parse_pattern pat) = EmptyString ∨
     Method r = "HEAD" ∧ p_method (parse_pattern pat) = "GET") ∧
    r' = with_PathValues (list_to_map b) r ∧ query_kept (RawQuery r).
Proof.
  unfold gate. destruct (_ || _) eqn:Hb; [done|]. apply bearer_token in Hb as [Ha Hne].
  set (tok := TrimPrefix _ _) in *.
  destruct (Verify _ _ _) as [claims|e] eqn:Hv; [|by destruct e]. unfold dispatch.
  destruct (canonical _) eqn:Hc; cbn [negb]; [|done].
  destruct (find _ _ _) as [[b [pat hd']]|] eqn:Hf; [|by case_match].
  destruct (ParseQuery_ok _) eqn:Hq; cbn [negb]; [|done]. intros [= -> <- <- <-].
  destruct (find_sound _ _ _ _ _ Hf) as (Hin & Hfit & Hme).
  exists tok, claims, b, pat. split_and!; try done. by apply ParseQuery_kept.
Qed.

(** Why the host answers a request itself, with the status it answers. *)
Inductive refused (h : host H) (r : Request) : Z → Prop :=
  | refused_no_token :
      (∀ tok, tok ≠ EmptyString → hdr_get (ReqHeader r) "Authorization" ≠ "Bearer " +:+ tok) →
      refused h r 401
  | refused_token tok e : hdr_get (ReqHeader r) "Authorization" = "Bearer " +:+ tok →
      Verify (Keys (cfg h)) tok (Now (cfg h)) = Err e → refused h r 401
  | refused_path : canonical (URL_Path r) = false → refused h r 404
  | refused_route :
      (∀ me, me ∈ [Method r; "GET"; "POST"; "PATCH"; "DELETE"] →
         find (host_mux h) me (EscapedPath r) = None) → refused h r 404
  | refused_method me : find (host_mux h) (Method r) (EscapedPath r) = None →
      me ∈ ["GET"; "POST"; "PATCH"; "DELETE"] → is_Some (find (host_mux h) me (EscapedPath r)) → refused h r 405
  | refused_query : ParseQuery_ok (RawQuery r) = false → refused h r 400.

Lemma allowed_none (m : mux H) escaped me : allowed m escaped = [] →
  me ∈ ["GET"; "POST"; "PATCH"; "DELETE"] → find m me escaped = None.
Proof.
  unfold allowed. cbn [fmap list_fmap concat]. intros Ha Hin.
  repeat (apply app_eq_nil in Ha as [? Ha]).
  repeat (apply elem_of_cons in Hin as [->|Hin]); [..|by apply elem_of_nil in Hin];
    match goal with |- find ?m ?me ?e = _ => destruct (find m me e) eqn:He end; by rewrite ?He in *.
Qed.

Lemma allowed_some (m : mux H) escaped : allowed m escaped ≠ [] →
  ∃ me, me ∈ ["GET"; "POST"; "PATCH"; "DELETE"] ∧ is_Some (find m me escaped).
Proof.
  intros Ha. destruct (decide (Exists (λ me, is_Some (find m me escaped)) ["GET"; "POST"; "PATCH"; "DELETE"]))
    as [(me & Hin & Hme)%Exists_exists|Hno]; [by exists me|]. destruct Ha. unfold allowed.
  rewrite <- Forall_Exists_neg, !Forall_cons in Hno. cbn [fmap list_fmap concat].
  destruct Hno as (->%eq_None_not_Some & ->%eq_None_not_Some & ->%eq_None_not_Some & ->%eq_None_not_Some & _). done.
Qed.

(** C38. What the host answers itself is a problem document with the status of its
    reason: 401 when there is no bearer token or the keyring refuses it, 404 when
    the path is not canonical or has no route for the request's own method and none for GET,
    POST, PATCH and DELETE, 405 when one of these four has, 400 when a part of the query
    cannot be read - always application/problem+json, before any module and before the
    database.  PUT is not among the methods tried, so a path where only PUT is routed answers
    another method with 404 ([allow_omits_PUT]). *)
Theorem gate_answered (h : host H) r w w' :
  w_status w = None → gate query_error h r w = Answered w' →
  ∃ st, refused h r st ∧ sent_status w' = Some st ∧
    sent_header w' "Content-Type" = "application/problem+json".
Proof.
  intros Hw.
  assert (Hwrite : ∀ p w1 st, w_status w1 = None → Status p = st → refused h r st →
    Answered (Write p (Some r) w1) = Answered (H:=H) w' →
    ∃ st, refused h r st ∧ sent_status w' = Some st ∧
      sent_header w' "Content-Type" = "application/problem+json").
  { intros p w1 st Hw1 Hst Href [= <-]. exists st.
    destruct (Write_headers p (Some r) w1 Hw1) as (-> & -> & _). by subst st. }
  unfold gate. set (w0 := if is_empty _ then w else _).
  assert (Hw0 : w_status w0 = None) by (unfold w0; by destruct (is_empty _)).
  destruct (_ || _) eqn:Hb.
  { apply Hwrite with 401%Z; [done|done|]. constructor. intros tok Hne Ha.
    rewrite Ha, TrimPrefix_app in Hb. apply orb_true_iff in Hb as [Hb|Hb].
    - by apply is_empty_spec in Hb.
    - apply String.eqb_eq in Hb. apply (f_equal String.length) in Hb.
      rewrite length_sapp in Hb. cbn in Hb. lia. }
  apply bearer_token in Hb as [Ha _]. set (tok := TrimPrefix _ _) in *.
  destruct (Verify _ _ _) as [claims|e] eqn:Hv.
  2: { assert (Hr : refused h r 401) by (by eapply refused_token).
       destruct e; apply Hwrite with 401%Z; done. }
  unfold dispatch. destruct (canonical _) eqn:Hc; cbn [negb].
  2: { apply Hwrite with 404%Z; [done|done|by constructor]. }
  destruct (find _ (Method r) _) as [[b rt]|] eqn:Hf.
  - destruct (ParseQuery_ok _) eqn:Hq; cbn [negb]; [done|].
    apply Hwrite with 400%Z; [done|done|by constructor].
  - destruct (allowed _ _) as [|m0 ms] eqn:Hal.
    + apply Hwrite with 404%Z; [done|done|]. apply refused_route.
      intros me [->|Hin]%elem_of_cons; [done|]. by eapply allowed_none.
    + apply Hwrite with 405%Z; [done|done|].
      destruct (allowed_some (host_mux h) (EscapedPath r)) as (me & Hin & Hme); [by rewrite Hal|].
      by apply refused_method with me.
Qed.
End gate.

(** The methods of [Allow] leave PUT out: a path with a GET, a PUT and a DELETE route
    answers a POST without naming PUT, and one with only a PUT route answers 404. *)
Lemma allow_omits_PUT :
  allowed [("GET /v", 1); ("PUT /v", 2); ("DELETE /v", 3)] "/v" = ["GET"; "HEAD"; "DELETE"] ∧
  allowed [("PUT /v", 2)] "/v" = [].
Proof. split; by vm_compute. Qed.

(** ** A sample host *)

Definition sample_host : host nat :=
  mkHost (mkConfig sample_ring 1 None None)
    [("GET /api/v2/users/{id}", 1); ("PATCH /api/v2/users/{id}", 2)].

Definition sample_get (auth query : string) : Request :=
  mkRequest "HEAD" "/api/v2/users/7f" "/api/v2/users/7f" query
    (hdr_set ∅ "Authorization" auth) EmptyString false "192.0.2.1:9" ∅.

Lemma gate_dispatched_witness : ∃ hd r' s w',
  gate (λ _, EmptyString) sample_host (sample_get ("Bearer " +:+ sample_token) "fields=id")
    new_writer = Dispatched hd r' s w' ∧
  ∃ tok claims, Verify (Keys (cfg sample_host)) tok (Now (cfg sample_host)) = Ok claims ∧
    Pgtx.SCode s = Sub claims.
Proof.
  destruct (gate (λ _, EmptyString) sample_host
    (sample_get ("Bearer " +:+ sample_token) "fields=id") new_writer) as [w|hd r' s w'] eqn:Hg.
  { exfalso. vm_compute in Hg. discriminate Hg. }
  exists hd, r', s, w'. split; [exact eq_refl|].
  destruct (gate_dispatched _ _ _ _ _ _ _ _ Hg) as (tok & claims & b & pat & _ & _ & Hv & -> & _).
  exists tok, claims. split; [exact Hv|reflexivity].
Defined.

Lemma gate_answered_witness : ∃ w' st,
  gate (λ _, EmptyString) sample_host (sample_get "Basic x" EmptyString) new_writer = Answered w' ∧
  refused sample_host (sample_get "Basic x" EmptyString) st.
Proof.
  destruct (gate (λ _, EmptyString) sample_host (sample_get "Basic x" EmptyString) new_writer)
    as [w|hd r' s w'] eqn:Hg.
  - destruct (gate_answered (λ _, EmptyString) sample_host (sample_get "Basic x" EmptyString)
      new_writer w eq_refl Hg) as (st & Hr & _). exists w, st. split; [reflexivity|exact Hr].
  - exfalso. vm_compute in Hg. discriminate Hg.
Defined.
