(* ===== verification/Decode.v ===== *)
(** * encoding/json into a struct, and the texts of library errors

    A body of the source is a struct of JSON keys and types; decoding an object sets
    its fields in the order of the members, the first failure (an unknown key, when
    those are refused, or a value of another type) being the error.  The texts the
    standard library gives its errors, and [%q], are parameters ([Texts]): they only
    reach the detail of an answer. *)

From S2P Require Import Prelude.
From S2P Require Import GoStrings.
From S2P Require Import GoJson.
From S2P Require Import Db.

(** ** Fields *)

(** The types of the fields of the source's bodies. *)
Inductive ftype : Type :=
  | TStr                 (* string *)
  | TStrP                (* *string *)
  | TInt (bits : Z)      (* int, int32, int64 *)
  | TIntP (bits : Z)     (* *int, *int32, *int64 *)
  | TBool                (* bool *)
  | TBoolP               (* *bool *)
  | TRaw.                (* json.RawMessage *)

(** The fields of a struct: JSON key and type, in order. *)
Definition schema := list (string * ftype).

(** A struct: the value of each key. *)
Abbreviation struct := (gmap string value).

Definition zero_value (t : ftype) : value :=
  match t with
  | TStr => VStr EmptyString
  | TInt _ => VInt 0
  | TBool => VBool false
  | TRaw => VRaw EmptyString
  | TStrP | TIntP _ | TBoolP => VPtr None
  end.

Definition zero_struct (sc : schema) : struct :=
  list_to_map ((λ kt, (kt.1, zero_value kt.2)) <$> sc).

(** A value into a field that holds [old]; [None] for a type error. *)
Definition decode_field (t : ftype) (old : value) (v : json) (raw : string) : option value :=
  match t, v with
  | TRaw, _ => Some (VRaw raw)
  | (TStrP | TIntP _ | TBoolP), JNull => Some (VPtr None)
  | _, JNull => Some old
  | TStr, JStr lex => Some (VStr (Unquote lex))
  | TStrP, JStr lex => Some (VPtr (Some (VStr (Unquote lex))))
  | TInt bits, JNum lex => VInt <$> ParseInt lex bits
  | TIntP bits, JNum lex => z ← ParseInt lex bits; Some (VPtr (Some (VInt z)))
  | TBool, JBool b => Some (VBool b)
  | TBoolP, JBool b => Some (VPtr (Some (VBool b)))
  | _, _ => None
  end.

(** The field of a key: its exact name first, then a name that folds to the same. *)
Definition find_field {X} (sc : list (string * X)) (key : string) : option (string * X) :=
  match head (filter (λ kt, kt.1 = key) sc) with
  | Some f => Some f
  | None => head (filter (λ kt, folded kt.1 = folded key) sc)
  end.

Inductive decode_error : Type :=
  | BadJSON
  | UnknownField (key : string)
  | BadType.

(** One member: the struct so far, or the first error. *)
Definition decode_member (strict : bool) (sc : schema) (st : struct) (m : string * string)
    : res decode_error struct :=
  let key := Unquote m.1 in
  match find_field sc key with
  | None => if strict then Err (UnknownField key) else Ok st
  | Some (k, t) =>
      v ← of_option (parse m.2) BadJSON;
      x ← of_option (decode_field t (default VNil (st !! k)) v m.2) BadType;
      Ok (<[k := x]> st)
  end.

(** The text of the first value of [s]. *)
Definition first_text (s rest : string) : string :=
  stake (String.length s - String.length rest) s.

(** [json.NewDecoder(s).Decode(&x)] into a struct: its members in order, onto the zero
    value; only the first value of the text is read, and null leaves the zero value. *)
Definition decode_object {A} (member : A → string * string → res decode_error A) (zero : A)
    (s : string) : res decode_error A :=
  match decode_first s with
  | None => Err BadJSON
  | Some (JNull, _) => Ok zero
  | Some (JObj _, rest) =>
      ms ← of_option (raw_members (first_text s rest)) BadJSON;
      foldM_res member ms zero
  | Some _ => Err BadType
  end.

(** Into the fields of a schema; unknown keys are refused when [strict]. *)
Definition decode_struct (strict : bool) (sc : schema) : string → res decode_error struct :=
  decode_object (decode_member strict sc) (zero_struct sc).

(** [*p] of a string field, [None] for nil. *)
Definition str_ptr (st : struct) (k : string) : option string :=
  match st !! k with Some (VPtr (Some (VStr s))) => Some s | _ => None end.
Definition str_of (st : struct) (k : string) : string :=
  match st !! k with Some (VStr s) => s | _ => EmptyString end.
Definition int_ptr (st : struct) (k : string) : option Z :=
  match st !! k with Some (VPtr (Some (VInt z))) => Some z | _ => None end.
Definition bool_ptr (st : struct) (k : string) : option bool :=
  match st !! k with Some (VPtr (Some (VBool b))) => Some b | _ => None end.
Definition raw_of (st : struct) (k : string) : string :=
  match st !! k with Some (VRaw s) => s | _ => EmptyString end.
(** The field as an argument of a call. *)
Definition field (st : struct) (k : string) : value := default VNil (st !! k).

(** ** The texts of the library *)

Class Texts := {
  go_quote : string → string;                   (* strconv.Quote *)
  decode_text : decode_error → string → string; (* the decoder's errors *)
  ParseQuery_text : string → string             (* url.ParseQuery's *)
}.

(** Some texts. *)
Definition plain_texts : Texts := {|
  go_quote s := one dquote +:+ s +:+ one dquote;
  decode_text e _ := match e with
                     | UnknownField k => "json: unknown field " +:+ one dquote +:+ k +:+ one dquote
                     | _ => "invalid JSON"
                     end;
  ParseQuery_text _ := "invalid URL escape"
|}.

(** ** Lemmas *)

(** A struct keeps the keys of its schema. *)
Lemma zero_struct_keys sc k : is_Some (zero_struct sc !! k) ↔ k ∈ sc.*1.
Proof.
  unfold zero_struct. induction sc as [|[k0 t] sc IH]; rewrite ?fmap_cons, ?fmap_nil.
  - rewrite elem_of_nil. split; [by intros [? ?]|done].
  - rewrite elem_of_cons, <- IH. cbn [list_to_map foldr fst snd]. destruct (decide (k0 = k)) as [->|].
    + rewrite lookup_insert_eq. naive_solver.
    + rewrite lookup_insert_ne by done. naive_solver.
Qed.

Lemma find_field_elem {X} (sc : list (string * X)) key f : find_field sc key = Some f → f ∈ sc.
Proof.
  unfold find_field. destruct (head (filter _ sc)) as [f'|] eqn:Hf.
  - intros [= ->]. apply head_Some_elem_of, list_elem_of_filter in Hf. by destruct Hf.
  - intros Hf'. apply head_Some_elem_of, list_elem_of_filter in Hf'. by destruct Hf'.
Qed.

Lemma decode_struct_keys strict sc s st k :
  decode_struct strict sc s = Ok st → is_Some (st !! k) ↔ k ∈ sc.*1.
Proof.
  rewrite <- zero_struct_keys. unfold decode_struct, decode_object.
  destruct (decode_first s) as [[v rest]|]; [|done]. destruct v; try done; [by intros [= <-]|].
  intros H. invert_res. revert H.
  apply (foldM_res_inv (λ st, is_Some (st !! k) ↔ is_Some (zero_struct sc !! k))); [|done].
  intros m s1 s2 _ Hs Hm. rewrite <- Hs. unfold decode_member in Hm.
  destruct (find_field sc _) as [[k0 t]|] eqn:Hf; [|destruct strict; by invert_res].
  invert_res. apply find_field_elem in Hf.
  destruct (decide (k0 = k)) as [->|]; [|by rewrite lookup_insert_ne].
  rewrite lookup_insert_eq, Hs, zero_struct_keys. split; [|by eexists].
  intros _. apply list_elem_of_fmap. by exists (k, t).
Qed.
