(* ===== verification/Doer.v ===== *)
(** * The request transaction as an interface

    lib/rest and the packages over it know the transaction as the interface
    [rest.Doer]: one method, [Do].  [DoerLaws] is what they rely on, in one law:
    besides operations of its own, [Do] runs the program it is given on a
    transaction, at most once and with the request it was given; what it returns
    without an error is what the program returned, and the request keeps the status
    the program left; and an error is a problem.  [Runner_laws] shows that
    [Pgtx.Do] keeps it on both roads. *)

From S2P Require Import Prelude.
From S2P Require Import GoStrings.
From S2P Require Import Problem.
From S2P Require Import Db.
From S2P Require Import Pgtx.
From S2P Require Import PgtxLaws.

(** ** The interface *)

Class Doer := {
  Do : ∀ {A}, Session → Pgtx.Request → (handle → M (res error A)) → M (res error A)
}.

(** [req.Status], after [Do]. *)
Definition req_status (st : road) : Z := from_option Pgtx.Status 0%Z (request st).

(** The savepoint before the handler, and the way back to it. *)
Definition savepoint_texts : list string := ["SAVEPOINT request"; "ROLLBACK TO SAVEPOINT request"].

(** An operation of the road itself. *)
Inductive road_op : op → Prop :=
  | road_begin n c : road_op (Begin n c)
  | road_exec n c sql : sql ∈ savepoint_texts → road_op (Exec n c sql)
  | road_commit n c : road_op (Commit n c)
  | road_rollback n c : road_op (Rollback n c)
  | road_pool o : pool_lookup o → road_op o
  | road_own o : road_statement o → road_op o.

#[export] Hint Constructors road_op : platform.

Class DoerLaws {DO : Doer} := {
  do_sat {A} (P : trace → op → Prop) ss req (fn : handle → M (res error A)) st past
      (Q : res error A * road → trace → Prop) :
    (∀ t o, road_op o → P t o) →
    (∀ h s t, (∃ n, on h = Tx n) → req_status s = Pgtx.Status req → past `prefix_of` t →
       sat P t (fn h s) (λ r t', ∀ a s' t'', r.1 = Ok a → req_status s' = req_status r.2 →
         t' `prefix_of` t'' → Q (Ok a, s') t'')) →
    (∀ e s' t, is_Some (as_problem e) → past `prefix_of` t → Q (Err e, s') t) →
    sat P past (Do ss req fn st) Q
}.

(** [pgtx.Runner]: the request is the one the handler made. *)
#[export] Instance Runner_Doer : Doer := {|
  Do A ss req fn := modify (λ st, mkRoad (runner st) (Some req));; Pgtx.Do ss fn
|}.

(** ** Lemmas: the road's programs *)

(** The road's, but not the beginning of the request's transaction. *)
Definition own (o : op) : Prop := road_op o ∧ ∀ c, o ≠ Begin 0 c.

Lemma own_road o : own o → road_op o.
Proof. by intros [H _]. Qed.

Lemma own_stmt n c sql args : sql ∈ road_texts → own (Query (Tx n) c sql args).
Proof. intros H. split; [|done]. apply road_own. by do 4 eexists. Qed.

Ltac own_stmt := apply own_stmt; unfold road_texts; repeat (first [by left|right]).
Ltac own_exec := split; [apply road_exec; unfold savepoint_texts; repeat (first [by left|right])|done].
Ltac own_op := first [split; [by constructor|done]|own_exec|own_stmt].

Ltac road_own := apply own_road; own_op.

Lemma own_lookup {A} (p : prog A) : only pool_lookup p → only own p.
Proof. apply only_mono. intros o Ho. split; [by constructor|]. by destruct Ho as (? & ? & _ & ->). Qed.

Lemma explain_own e s : only own (explain e s).
Proof. apply own_lookup, explain_lookup. Qed.

Lemma refusal_own st c m s : only own (refusal st c m s).
Proof. apply own_lookup, refusal_lookup. Qed.

Lemma logRequest_own n c st code s : only own (logRequest n c st code s).
Proof.
  unfold logRequest. rewrite get_bind. destruct (request s); [|done].
  apply only_mbind.
  - destruct (LogRequestErr _); (split; [own_stmt|done]).
  - intros x s'. by destruct (first_row _ x).
Qed.

Lemma journalRefusal_own n p s : only own (journalRefusal n p s).
Proof.
  unfold journalRefusal. destruct (refusal_status p) as [st code].
  apply only_mbind; [apply logRequest_own|]. intros e s1. apply only_mbind.
  - destruct e; [done|]. rewrite call_bind. split; [own_op|done].
  - intros [e'|] s2; done.
Qed.

Lemma refuse_raised_own journal p s : only own (refuse_raised journal p s).
Proof.
  unfold refuse_raised. destruct journal; [|done]. rewrite call_bind. split; [own_op|].
  intros x. rewrite call_bind. split; [own_op|]. intros [rows|e]; [|done].
  apply only_mbind; [apply journalRefusal_own|]. intros [] s'. rewrite call_bind.
  split; [own_op|done].
Qed.

Lemma refuse_handler_own journal p s : only own (refuse_handler journal p s).
Proof.
  unfold refuse_handler. destruct journal; [|done]. rewrite call_bind. split; [own_op|].
  intros [rows|e]; [apply journalRefusal_own|done].
Qed.

Lemma finish_own {A} journal (a : A) s : only own (finish journal a s).
Proof.
  unfold finish. rewrite get_bind. apply only_mbind.
  - destruct journal; [apply logRequest_own|done].
  - intros [e|] s'; [by apply only_mbind; [apply explain_own|]|].
    rewrite call_bind. split; [own_op|]. intros [rows|e]; [done|].
    apply only_mbind; [done|]. intros [] s2. by apply only_mbind; [apply explain_own|].
Qed.

Lemma end_own c st txt s : only own (end_ c st txt s).
Proof.
  unfold end_. rewrite call_bind. split; [own_op|].
  intros x. by destruct (first_row _ x) as [[id|]|].
Qed.

Lemma salvage_own s : only own (salvage s).
Proof.
  unfold salvage. rewrite call_bind. split; [own_op|].
  intros [rows|e]; [|done]. rewrite call_bind. split; [own_op|done].
Qed.

Lemma refuse_daemon_own p cause s : only own (refuse_daemon p cause s).
Proof.
  unfold refuse_daemon. rewrite call_bind. split; [own_op|]. intros [rows|e]; [|done].
  destruct (refusalOf p cause) as [st txt]. apply only_mbind; [apply end_own|].
  intros [e|] s'; [apply only_mbind; [done|intros [] s2; apply salvage_own]|].
  rewrite call_bind. split; [own_op|]. by intros [rows'|e].
Qed.

Lemma finish_daemon_own {A} (a : A) s : only own (finish_daemon a s).
Proof.
  unfold finish_daemon. rewrite get_bind. apply only_mbind; [apply end_own|].
  intros [e|] s'.
  - apply only_mbind; [done|]. intros [] s2. by apply only_mbind; [apply salvage_own|].
  - rewrite call_bind. split; [own_op|]. intros [rows|e]; [done|].
    apply only_mbind; [done|]. intros [] s2. by apply only_mbind; [apply explain_own|].
Qed.

(** A request that ends well ends with the handler's result and its status. *)
Definition ends {A} (a : A) (s : road) (r : res error A * road) : Prop :=
  match r.1 with
  | Ok a' => a' = a ∧ req_status r.2 = req_status s
  | Err e => is_Some (as_problem e)
  end.

Lemma modify_request_status (f : Pgtx.Request → Pgtx.Request) s :
  (∀ q, Pgtx.Status (f q) = Pgtx.Status q) →
  req_status (mkRoad (runner s) (f <$> request s)) = req_status s.
Proof. intros Hf. unfold req_status. cbn. destruct (request s); [apply Hf|done]. Qed.

Lemma logRequest_status n c st code s :
  post (logRequest n c st code s) (λ r, req_status r.2 = req_status s).
Proof.
  unfold logRequest. rewrite get_bind. destruct (request s) eqn:Hq; [|done].
  apply post_mbind. destruct (LogRequestErr _); intros x; cbn [post];
    destruct (first_row _ x); [|done| |done]; unfold modify_request; rewrite modify_bind; cbn;
    by apply modify_request_status.
Qed.

Lemma end_status c st txt s : post (end_ c st txt s) (λ r, req_status r.2 = req_status s).
Proof.
  unfold end_. rewrite call_bind. intros x. destruct (first_row _ x) as [[id|]|]; [|done..].
  unfold modify_request. rewrite modify_bind. by apply modify_request_status.
Qed.

Lemma finish_ends {A} journal (a : A) s : post (finish journal a s) (ends a s).
Proof.
  unfold finish. rewrite get_bind. apply post_mbind.
  assert (post ((if journal then logRequest 0 Cx (status (request s)) EmptyString
                 else mret None : M (option error)) s) (λ r, req_status r.2 = req_status s)) as Hl
    by (destruct journal; [apply logRequest_status|done]).
  eapply post_mono; [|exact Hl]. intros [[e|] s1] Hs1; cbn in Hs1.
  - apply post_mbind. eapply post_mono; [|apply explain_problem]. by intros [p s'] Hp.
  - rewrite call_bind. intros [rows|e]; [by split|]. apply post_any. intros [] s4.
    apply post_mbind. eapply post_mono; [|apply explain_problem]. by intros [p s'] Hp.
Qed.

Lemma finish_daemon_ends {A} (a : A) s : post (finish_daemon a s) (ends a s).
Proof.
  unfold finish_daemon. rewrite get_bind. apply post_mbind.
  eapply post_mono; [|apply end_status]. intros [[e|] s1] Hs1; cbn in Hs1.
  - apply post_any. intros [] s3. apply post_any. intros [] s4. by eexists.
  - rewrite call_bind. intros [rows|e]; [by split|]. apply post_any. intros [] s4.
    apply post_mbind. eapply post_mono; [|apply explain_problem]. by intros [p s'] Hp.
Qed.

(** ** The runner keeps the promise *)

Section runner.
Context (P : trace → op → Prop) (HP : ∀ t o, road_op o → P t o).

Lemma sat_own {A} (p : prog A) R past Q : only own p → post p R →
  (∀ a t, past `prefix_of` t → R a → Q a t) → sat P past p Q.
Proof.
  intros Ho. apply sat_only. eapply only_mono; [|exact Ho]. intros o [Hop _] t. by apply HP.
Qed.

Lemma sat_call {A} o (f : answer → M A) s past Q : road_op o →
  (∀ x, sat P (past ++ [(o, x)]) (f x s) Q) → sat P past ((call o ≫= f) s) Q.
Proof. intros Ho Hf. rewrite call_bind. split; [by apply HP|done]. Qed.

Context {A : Type} (past : trace) (Q : res error A * road → trace → Prop).
Context (Herr : ∀ e s' t, is_Some (as_problem e) → past `prefix_of` t → Q (Err e, s') t).

(** An error of the road, whatever its own operations after it. *)
Lemma sat_failed (m : M (res error A)) s t : past `prefix_of` t →
  only own (m s) → post (m s) (λ r, failed r.1 ∧ ∀ a, r.1 ≠ Ok a) →
  sat P t (m s) (λ r t', ∀ s' t'', (∀ a, r.1 = Ok a → req_status s' = req_status r.2) →
    t' `prefix_of` t'' → Q (r.1, s') t'').
Proof.
  intros Ht Ho Hp. eapply sat_own; [done|exact Hp|]. intros [r s1] t1 Ht1 [Hf Hne] s' t'' _ Ht''.
  cbn in *. destruct r as [a|e]; [by destruct (Hne a)|]. apply Herr; [done|].
  etrans; [exact Ht|]. by etrans.
Qed.

Lemma explained_err (e : error) (f : error → M unit) s :
  post ((p ← explain e; f p;; mret (Err p) : M (res error A)) s)
    (λ r, failed r.1 ∧ ∀ a, r.1 ≠ Ok a).
Proof.
  apply post_mbind. eapply post_mono; [|apply explain_problem].
  intros [p s'] Hp. cbn in Hp. apply post_any. intros [] s''. by split.
Qed.

Lemma explained_own (e : error) (f : error → M unit) s : (∀ p s, only own (f p s)) →
  only own ((p ← explain e; f p;; mret (Err p) : M (res error A)) s).
Proof.
  intros Hf. apply only_mbind; [apply explain_own|]. intros p s'. by apply only_mbind.
Qed.

(** What the road's state after the program may be, for [Q]. *)
Definition later (r : res error A * road) (t : trace) : Prop :=
  ∀ s' t'', (∀ a, r.1 = Ok a → req_status s' = req_status r.2) → t `prefix_of` t'' →
    Q (r.1, s') t''.

Lemma sat_rollback (m : M (res error A)) s t :
  sat P t (m s) later → sat P t (with_rollback m s) Q.
Proof.
  intros H. unfold with_rollback. apply sat_mbind. eapply sat_mono; [|exact H].
  intros [r s1] t1 _ Hl. apply sat_call; [road_own|]. intros x.
  apply (Hl s1); [done|]. by eexists.
Qed.

(** The end of a program that ran: its result, or its error explained. *)
Context (st : Z) (fn : handle → M (res error A)).
Context (Hfn : ∀ h s t, (∃ n, on h = Tx n) → req_status s = st → past `prefix_of` t →
  sat P t (fn h s) (λ r t', ∀ a s' t'', r.1 = Ok a → req_status s' = req_status r.2 →
    t' `prefix_of` t'' → Q (Ok a, s') t'')).

Lemma sat_served (h : handle) (good : A → M (res error A)) (bad : error → M (res error A)) s t :
  (∃ n, on h = Tx n) → req_status s = st → past `prefix_of` t →
  (∀ a s, only own (good a s) ∧ post (good a s) (ends a s)) →
  (∀ e s, only own (bad e s) ∧ post (bad e s) (λ r, failed r.1 ∧ ∀ a, r.1 ≠ Ok a)) →
  sat P t ((r ← fn h; match r with Ok a => good a | Err e => bad e end) s) later.
Proof.
  intros Hh Hs Ht Hgood Hbad. apply sat_mbind. eapply sat_mono; [|by apply Hfn].
  intros [[a|e] s1] t1 Ht1 Hr; cbn [fst snd] in *.
  - destruct (Hgood a s1) as [Ho Hp]. eapply sat_own; [exact Ho|exact Hp|].
    intros [[a'|e] s2] t2 Ht2 He s' t'' Hs' Ht''; unfold ends in He; cbn [fst snd] in *.
    + destruct He as [-> He]. apply (Hr _ s' t'' eq_refl); [|by etrans].
      by rewrite (Hs' _ eq_refl).
    + apply Herr; [done|]. etrans; [exact Ht|]. etrans; [exact Ht1|]. by etrans.
  - destruct (Hbad e s1) as [Ho Hp]. apply sat_failed; [by etrans|done|done].
Qed.

Lemma later_failed e s t : is_Some (as_problem e) → past `prefix_of` t → later (Err e, s) t.
Proof. intros He Ht s' t'' _ Ht''. apply Herr; [done|]. by etrans. Qed.

Lemma sat_doDaemon ss q s : request s = Some q → Pgtx.Status q = st → sat P past (doDaemon ss fn s) Q.
Proof.
  intros Hq Hst. unfold doDaemon. rewrite get_bind, Hq. unfold modify_request. rewrite modify_bind.
  apply sat_call; [constructor|]. intros [rows|e].
  2: { apply Herr; [by eexists|]. by eexists. }
  apply sat_rollback, sat_call; [road_own|]. intros x.
  destruct (first_row _ x) as [v|e]; [|apply later_failed; [by eexists|by rewrite <- app_assoc; eexists]].
  destruct (authorized v).
  - unfold serve_daemon. apply sat_call; [road_own|]. intros [rows'|e].
    2: { apply later_failed; [by eexists|]. rewrite <- !app_assoc. by eexists. }
    apply (sat_served _ finish_daemon (λ e, p ← explain e; refuse_daemon p e;; mret (Err p))); [by eexists| | | |].
    + unfold req_status. cbn. by rewrite Hq.
    + rewrite <- !app_assoc. by eexists.
    + intros a s'. split; [apply finish_daemon_own|apply finish_daemon_ends].
    + intros e s'. split; [|by apply (explained_err e (λ p, refuse_daemon p e))].
      apply (explained_own e (λ p, refuse_daemon p e)). intros p s2. apply refuse_daemon_own.
  - apply sat_call; [road_own|]. intros y.
    apply (sat_failed (p ← refusal (v_status v) (v_code v) (v_message v); mret (Err p))).
    + rewrite <- !app_assoc. by eexists.
    + apply only_mbind; [apply refusal_own|done].
    + apply post_mbind. eapply post_mono; [|apply refusal_problem]. by intros [p s'] Hp.
Qed.

Lemma sat_serve journal s t : past `prefix_of` t → req_status s = st → sat P t (serve journal fn s) later.
Proof.
  intros Ht Hs. unfold serve. apply sat_mbind.
  assert (Hsv : ∀ R : answer * road → trace → Prop, (∀ x t', t `prefix_of` t' → R (x, s) t') →
    sat P t ((if journal then call (Exec 0 Cx "SAVEPOINT request") else mret (Ok [])) s) R).
  { intros R HR. destruct journal; [|by apply HR]. split; [apply HP; road_own|].
    intros y. apply HR. by eexists. }
  apply Hsv. intros [rows'|e] t2 Ht2; cbn [fst snd].
  2: { apply later_failed; [by eexists|by etrans]. }
  apply (sat_served _ (finish journal) (λ e, p ← explain e; refuse_handler journal p;; mret (Err p)));
    [by eexists|done|by etrans| |].
  - intros a s'. split; [apply finish_own|apply finish_ends].
  - intros e s'. split; [|by apply (explained_err e (refuse_handler journal))].
    apply (explained_own e (refuse_handler journal)). intros p s2. apply refuse_handler_own.
Qed.

Lemma sat_doDirect ss q s : request s = Some q → Pgtx.Status q = st → sat P past (doDirect ss fn s) Q.
Proof.
  intros Hq Hst. unfold doDirect, modify_request. rewrite modify_bind. unfold begin_.
  apply sat_call; [constructor|]. intros [rows|e].
  2: { apply Herr; [by eexists|]. by eexists. }
  apply sat_rollback. rewrite get_bind. cbv zeta. set (journal := _ && _). set (s1 := mkRoad _ _).
  apply sat_mbind. unfold authorize. rewrite get_bind. apply sat_call.
  { unfold authorizeSQL. destruct (AuthorizeLocal _); road_own. }
  intros x. cbn [sat mret M_ret fst snd]. set (t1 := _ ++ _).
  assert (Ht1 : past `prefix_of` t1) by (unfold t1; rewrite <- app_assoc; by eexists).
  destruct (first_row _ x) as [[[] msg]|e].
  - apply sat_serve; [done|]. unfold req_status, s1. cbn. by rewrite Hq.
  - set (p := EProblem _). apply (sat_failed ((if journal then journalRefusal 0 p else mret tt);; mret (Err p))); [done| |].
    + apply only_mbind; [destruct journal; [apply journalRefusal_own|done]|done].
    + apply post_any. intros [] s'. split; [by eexists|done].
  - apply (sat_failed (p ← explain e; refuse_raised journal p;; mret (Err p))); [done| |].
    + apply (explained_own e (refuse_raised journal)). intros p s'. apply refuse_raised_own.
    + by apply (explained_err e (refuse_raised journal)).
Qed.
End runner.

#[export] Instance Runner_laws : DoerLaws.
Proof.
  split. intros A P ss req fn st past Q HP Hfn Herr. cbn.
  rewrite modify_bind. unfold Pgtx.Do. rewrite get_bind. cbn [runner].
  destruct (Daemon _); [by eapply sat_doDaemon|by eapply sat_doDirect].
Qed.

(** ** A request opens one transaction *)

(** An operation after the beginning: the road's own, or a query on the request's transaction. *)
Definition inside (o : op) : Prop := own o ∨ queries 0 o.

(** Nothing, or the beginning of the request's transaction and what is inside it. *)
Definition one_transaction (t : trace) : Prop :=
  t = [] ∨ ∃ c x t', t = (Begin 0 c, x) :: t' ∧ Forall (λ e, inside e.1) t'.

Definition opens {A} (p : prog A) : Prop :=
  match p with
  | Ret _ => True
  | Op o k => (∃ c, o = Begin 0 c) ∧ ∀ x, only inside (k x)
  end.

Lemma opens_run {A D} (drv : driver D) (p : prog A) d : opens p → one_transaction (run drv p d).1.2.
Proof.
  destruct p as [a|o k]; [by left|]. intros [[c ->] Hk]. cbn. right. destruct (drv d _) as [x d1].
  pose proof (only_trace drv _ (k x) d1 (Hk x)) as Ht. destruct (run drv (k x) d1) as [[a t] d2].
  by exists c, x, t.
Qed.

Lemma opens_bind {A B} (m : M A) (f : A → M B) s :
  opens (m s) → (∀ a s, ∃ b, f a s = Ret b) → opens ((m ≫= f) s).
Proof.
  intros Hm Hf. unfold mbind, M_bind. destruct (m s) as [[a s']|o k]; cbn.
  - by destruct (Hf a s') as [b ->].
  - destruct Hm as [Ho Hk]. split; [exact Ho|]. intros x. apply only_bind; [apply Hk|].
    intros [a s']. by destruct (Hf a s') as [b ->].
Qed.

Section opens.
Context {A : Type} (fn : handle → M (res error A)).
Context (Hfn : ∀ h s, on h = Tx 0 → only (queries 0) (fn h s)).

Lemma inside_own {B} (p : prog B) : only own p → only inside p.
Proof. apply only_mono. by left. Qed.

Lemma inside_fn h s : on h = Tx 0 → only inside (fn h s).
Proof. intros Hh. eapply only_mono; [|by apply Hfn]. by right. Qed.

Lemma inside_rollback (m : M (res error A)) s : only inside (m s) → only inside (with_rollback m s).
Proof.
  intros Hm. unfold with_rollback. apply only_mbind; [exact Hm|]. intros r s'. rewrite call_bind.
  split; [left; own_op|done].
Qed.

Lemma serve_inside journal s : only inside (serve journal fn s).
Proof.
  unfold serve. apply only_mbind.
  - destruct journal; [|done]. split; [left; own_op|done].
  - intros [rows|e] s1; [|done]. apply only_mbind; [by apply inside_fn|]. intros [a|e] s2.
    + apply inside_own, finish_own.
    + apply inside_own, (explained_own e (refuse_handler journal)). intros p s'. apply refuse_handler_own.
Qed.

Lemma serve_daemon_inside s : only inside (serve_daemon fn s).
Proof.
  unfold serve_daemon. rewrite call_bind. split; [left; own_op|]. intros [rows|e]; [|done].
  apply only_mbind; [by apply inside_fn|]. intros [a|e] s2.
  - apply inside_own, finish_daemon_own.
  - apply inside_own, (explained_own e (λ p, refuse_daemon p e)). intros p s'. apply refuse_daemon_own.
Qed.

Lemma doDirect_opens ss s : opens (doDirect ss fn s).
Proof.
  unfold doDirect, modify_request. rewrite modify_bind. unfold begin_. rewrite call_bind. cbn [opens].
  split; [by eexists|]. intros [rows|e]; [|done]. apply inside_rollback. rewrite get_bind. cbv zeta.
  apply only_mbind.
  - unfold authorize. rewrite get_bind, call_bind. split; [|done]. left.
    unfold authorizeSQL. destruct (AuthorizeLocal _); own_op.
  - intros [[[] msg]|e] s1; [apply serve_inside|..]; apply inside_own.
    + apply only_mbind; [case_match; [apply journalRefusal_own|done]|done].
    + apply (explained_own e (refuse_raised _)). intros p s'. apply refuse_raised_own.
Qed.

Lemma doDaemon_opens ss s : opens (doDaemon ss fn s).
Proof.
  unfold doDaemon. rewrite get_bind. destruct (request s) as [q|]; [|done].
  unfold modify_request. rewrite modify_bind. unfold begin_. rewrite call_bind. cbn [opens].
  split; [by eexists|]. intros [rows|e]; [|done]. apply inside_rollback, only_mbind.
  - unfold daemon_begin. rewrite call_bind. split; [left; own_op|done].
  - intros [v|e] s1; [|done]. destruct (authorized v); [apply serve_daemon_inside|]. apply inside_own.
    rewrite call_bind. split; [own_op|]. intros y. apply only_mbind; [apply refusal_own|done].
Qed.

Lemma Do_opens ss req s : opens (Do ss req fn s).
Proof.
  cbn. rewrite modify_bind. unfold Pgtx.Do. rewrite get_bind.
  destruct (Daemon _); [apply doDaemon_opens|apply doDirect_opens].
Qed.
End opens.
