(* ===== verification/Rest.v ===== *)
(** * lib/rest: the conventions of /api/v2

    The answers every package repeats over api.*: lists, single rows with an ETag,
    bodies, Idempotency-Key (rest.go), the five verbs of a writable resource
    (writable.go) and the access form (access.go).  A handler is a program of the road
    ([Pgtx.M]) that is given the request, the session the host established and the
    response writer, and gives the writer back.

    The request transaction is the interface [Doer.Doer].  What a closure captures and [Do] then reads is the
    result of the program given to [Do]; [req.Status] is the status of the road's
    request.  Logging is left out. *)

From S2P Require Import Prelude.
From S2P Require Import GoStrings.
From S2P Require Import GoJson.
From S2P Require Import Problem.
From S2P Require Import Db.
From S2P Require Import Sha2.
From S2P Require Import Frame.
From S2P Require Import Pgtx.
From S2P Require Import Doer.
From S2P Require Import Http.
From S2P Require Import Url.
From S2P Require Import Decode.
From S2P Require Query.

(** ** Handlers and resources *)

Definition handler : Type := Http.Request → Session → ResponseWriter → M ResponseWriter.

Record Resource := mkResource {
  Prefix : string;
  GetFn : string;
  ListFn : string;
  CountFn : string;
  IntID : bool
}.

(** ** rest.go: requests, answers *)

Definition ReqOf (r : Http.Request) (status : Z) (payload : string) : Pgtx.Request :=
  Pgtx.mkRequest (Http.Method r) (EscapedPath r) payload (hdr_get (ReqHeader r) "X-Request-Id")
    status 0.

Definition internal_error : Problem := New 500 "internal" "Internal error" EmptyString.

Definition Fail (r : Http.Request) (e : error) (w : ResponseWriter) : ResponseWriter :=
  Write (default internal_error (as_problem e)) (Some r) w.

(** A 400 with its detail. *)
Definition bad_request (detail : string) : error :=
  EProblem (New 400 "validation" "Bad request" detail).
Definition bad_key (detail : string) : error :=
  EProblem (WithCode CodeJSONKey (New 400 "validation" "Bad request" detail)).
Definition not_found : error := EProblem (New 404 "not-found" "Not found" EmptyString).

Definition IsUUID (s : string) : bool := isUUID s.

Definition IDOf (r : Http.Request) : res error string :=
  let id := PathValue r "id" in
  throw_if (negb (IsUUID id)) (bad_request "id must be a UUID");; Ok id.

Definition IntIDOf (r : Http.Request) : res error Z :=
  match ParseInt (PathValue r "id") 64 with
  | Some id => if (id <? 1)%Z then Err (bad_request "id must be a positive integer") else Ok id
  | None => Err (bad_request "id must be a positive integer")
  end.

(** [res.id(r)]. *)
Definition resource_id (rs : Resource) (r : Http.Request) : res error value :=
  if IntID rs then VInt <$> IntIDOf r else VStr <$> IDOf r.

Definition WriteJSON (status : Z) (body : string) (w : ResponseWriter) : ResponseWriter :=
  WriteBody body (WriteHeader status (SetHeader "Content-Type" "application/json" w)).

Definition hashOf (b : string) : string := hex_bytes (hash_bytes sha256 (bytes_of b)).

(** A row: [None] is the nil [json.RawMessage]. *)
Abbreviation row := (option string).

Definition ETagOf (rw : row) : string :=
  match rw with
  | None => EmptyString
  | Some s =>
      match parse s with
      | None => EmptyString
      | Some v =>
          let l := match v with JObj l => l | _ => [] end in
          let u := string_field "lastupdate" l in
          let u := if is_empty u then string_field "udate" l else u in
          "W/" +:+ one dquote
          +:+ (if is_empty u then stake 32 (hashOf s) else u) +:+ one dquote
      end
  end.

Definition SetETag (rw : row) (w : ResponseWriter) : ResponseWriter :=
  let tag := ETagOf rw in if is_empty tag then w else SetHeader "ETag" tag w.

(** [Project]: a row that is not an object stays as it is, and null is an empty one. *)
Definition Project (rw : row) (fields : list string) : row :=
  match fields, rw with
  | [], _ => rw
  | _, None => None
  | _, Some s =>
      match parse s with
      | Some (JObj l) =>
          Some (marshal_map (filter (λ kv, kv.1 ∈ fields) (object_map l)))
      | Some JNull => Some "{}"
      | _ => Some s
      end
  end.

(** [json.Marshal] of rows; its error leaves no body. *)
Definition marshal_row (rw : row) : option string :=
  match rw with None => Some "null" | Some s => compact s end.
Definition marshal_rows (rows : list row) : option string :=
  l ← mapM marshal_row rows; Some ("[" +:+ Join l "," +:+ "]").

(** [ReadBody]: what was read, and what it was decoded into. *)
Section read.
Context {T : Texts}.

Definition max_body : nat := N.to_nat 1048576.

Definition ReadBodyInto {A} (decode : string → res decode_error A) (zero : A) (r : Http.Request)
    : res error (string * A) :=
  let raw := stake max_body (Body r) in
  if BodyFails r && (String.length (Body r) <? max_body)%nat
  then Err (bad_request "cannot read body")
  else if is_empty raw then Ok (raw, zero)
  else
    match decode raw with
    | Ok st => Ok (raw, st)
    | Err (UnknownField k) => Err (bad_key (decode_text (UnknownField k) raw))
    | Err e => Err (bad_request (decode_text e raw))
    end.

Definition ReadBody (r : Http.Request) (sc : schema) : res error (string * struct) :=
  ReadBodyInto (decode_struct true sc) (zero_struct sc) r.

(** The text of an error of query.go. *)
Definition query_text (e : Query.query_error) : string :=
  match e with
  | Query.BadSort f => "sort: bad field " +:+ go_quote f
  | Query.BadFields f => "fields: bad field " +:+ go_quote f
  | Query.NeedsKey k => k +:+ " needs a key: " +:+ k +:+ "[…]"
  | Query.BadParameter k => "bad parameter " +:+ go_quote k
  | Query.PageLimit => "page[limit]: 1.." +:+ Itoa Query.MaxLimit
  | Query.PageOffset => "page[offset]: ≥ 0"
  | Query.PageKey k => "page[" +:+ k +:+ "]: not supported (use page[limit], page[offset])"
  | Query.FilterField f => "filter: bad field " +:+ go_quote f
  | Query.FilterOperator f op => "filter[" +:+ f +:+ "]: unknown operator " +:+ go_quote op
  | Query.UnknownParameter k => "unknown parameter " +:+ go_quote k
      +:+ " (list parameters: filter[…], sort, fields, page[limit], page[offset])"
  | Query.Panic => EmptyString
  end.
End read.

(** ** rest.go: reading handlers *)

Section handlers.
Context {DO : Doer} {T : Texts}.

Definition Rows (h : handle) (sql : string) (args : list value) : M (res error (list row)) :=
  x ← call (Db.Query (on h) (cx h) sql (PVal <$> args)); mret (scan_rows x).

(** A handler whose arguments come from the request and whose answer is the rows the
    program gives. *)
Definition rows_answer {A} (args : Http.Request → res error A)
    (read : handle → A → M (res error (list row))) : handler := λ r ss w,
  match args r with
  | Err e => mret (Fail r e w)
  | Ok a =>
      x ← Do ss (ReqOf r 200 EmptyString) (λ h, read h a);
      mret (match x with
            | Err e => Fail r e w
            | Ok rows => WriteJSON 200 (default EmptyString (marshal_rows rows)) w
            end)
  end.

Definition RowsOf (sql : string) (args : Http.Request → res error (list value)) : handler :=
  rows_answer args (λ h a, Rows h sql a).
Definition RowsHandler (sql : string) (args : list value) : handler :=
  RowsOf sql (λ _, Ok args).
Definition CallRowsOf (fn : string) (args : Http.Request → res error Args) : handler :=
  rows_answer args (λ h a, Call h fn a).
Definition CallRowsHandler (fn : string) (args : Args) : handler :=
  CallRowsOf fn (λ _, Ok args).

(** [errors.Is(err, pgtx.ErrNoRow)]. *)
Fixpoint is_ErrNoRow (e : error) : bool :=
  match e with
  | EText s => String.eqb s "pgtx: no row"
  | EWrap _ e => is_ErrNoRow e
  | _ => false
  end.

(** The status of a row for a client that may hold it: 304 when the tags agree. *)
Definition not_modified (r : Http.Request) (rw : row) : M unit :=
  let tag := ETagOf rw in
  if negb (is_empty tag) && String.eqb (hdr_get (ReqHeader r) "If-None-Match") tag
  then modify_request (set_Status 304) else mret tt.

Definition rowHandler {A} (args : Http.Request → res error A)
    (read : handle → A → M (res error row))
    (fields : option (Http.Request → res error (list string))) : handler := λ r ss w,
  match (a ← args r; cut ← match fields with Some f => f r | None => Ok [] end; Ok (a, cut)) with
  | Err e => mret (Fail r e w)
  | Ok (a, cut) =>
      x ← Do ss (ReqOf r 200 EmptyString) (λ h,
        rw ← read h a;
        match rw with
        | Err e => mret (Err (if is_ErrNoRow e then not_found else e))
        | Ok rw => not_modified r rw;; mret (Ok rw)
        end);
      match x with
      | Err e => mret (Fail r e w)
      | Ok rw =>
          st ← get;
          let w := SetETag rw w in
          mret (if (req_status st =? 304)%Z then WriteHeader 304 w
                else WriteJSON 200 (default EmptyString (Project rw cut)) w)
      end
  end.

Definition CallRowHandler (fn : string) (args : Http.Request → res error Args) : handler :=
  rowHandler args (λ h a, CallRow h fn a) None.

(** [tx.QueryRow(sql, args).Scan(&row)], no row as [ErrNoRow]. *)
Definition query_row (sql : string) (h : handle) (args : list value) : M (res error row) :=
  x ← call (Db.Query (on h) (cx h) sql (PVal <$> args));
  mret (match first_row (scan1 scan_bytes) x with
        | Err e => Err (if is_no_rows e then ErrNoRow else e)
        | Ok rw => Ok rw
        end).

Definition RowHandler (sql : string) (args : Http.Request → res error (list value)) : handler :=
  rowHandler args (query_row sql) None.
Definition RowFunc (args : Http.Request → res error Args)
    (read : handle → Args → M (res error row)) : handler := rowHandler args read None.
Definition RowFieldsFunc (args : Http.Request → res error Args)
    (read : handle → Args → M (res error row))
    (fields : Http.Request → res error (list string)) : handler :=
  rowHandler args read (Some fields).

Definition GetRow (rs : Resource) (h : handle) (id : value) : M (res error row) :=
  x ← CallRow h (GetFn rs) {[ "id" := id ]};
  mret (match x with
        | Err e => Err (if is_ErrNoRow e then not_found else e)
        | Ok rw => Ok rw
        end).

(** [json.Unmarshal] into an [int64] that holds 0. *)
Definition decode_int64 (s : string) : option Z :=
  match parse s with
  | Some JNull => Some 0%Z
  | Some (JNum lex) => ParseInt lex 64
  | _ => None
  end.

(** [json.Unmarshal] into a [bool] that holds false. *)
Definition decode_bool (s : string) : option bool :=
  match parse s with Some JNull => Some false | Some (JBool b) => Some b | _ => None end.

(** [json.Unmarshal] into a [*string]. *)
Definition decode_str (s : string) : option (option string) :=
  match parse s with
  | Some JNull => Some None
  | Some (JStr lex) => Some (Some (Unquote lex))
  | _ => None
  end.

(** The total and the rows of a list, by the same search. *)
Definition list_rows (rs : Resource) (search orderby : option string) (limit offset : Z)
    (fields : list string) (h : handle) : M (res error (Z * list row)) :=
  t ← CallScalar decode_int64 h (CountFn rs) {[ "search" := JSON_arg search ]};
  match t with
  | Err e => mret (Err e)
  | Ok total =>
      x ← Call h (ListFn rs)
            (<["search" := JSON_arg search]> (<["limit" := VInt limit]>
             (<["offset" := VInt offset]> {[ "orderby" := JSON_arg orderby ]})));
      mret (match x with
            | Err e => Err e
            | Ok rows => Ok (default 0%Z total, (λ rw, Project rw fields) <$> rows)
            end)
  end.

(** [{items, limit, offset, total}]. *)
Definition list_body (total : Z) (items : list row) (limit offset : Z) : option string :=
  l ← marshal_rows items;
  Some ("{" +:+ Quote "items" +:+ ":" +:+ l +:+ "," +:+ Quote "limit" +:+ ":" +:+ Itoa limit
        +:+ "," +:+ Quote "offset" +:+ ":" +:+ Itoa offset
        +:+ "," +:+ Quote "total" +:+ ":" +:+ Itoa total +:+ "}").

(** The payload of a list request: its query. *)
Definition query_payload (r : Http.Request) : string :=
  "{" +:+ Quote "query" +:+ ":" +:+ Quote (RawQuery r) +:+ "}".

(** The answer of a list: parameters and search decided, the rows read. *)
Definition list_answer (rs : Resource) (params : Query.Params) (search : option string) : handler :=
  λ r ss w,
  let '(_, orderby, _) := Query.JSONArgs params in
  x ← Do ss (ReqOf r 200 (query_payload r))
        (list_rows rs search orderby (Query.Limit params) (Query.Offset params)
           (Query.Fields params));
  mret (match x with
        | Err e => Fail r e w
        | Ok (total, items) =>
            WriteJSON 200 (default EmptyString
              (list_body total items (Query.Limit params) (Query.Offset params))) w
        end).

Definition List (rs : Resource) : handler := λ r ss w,
  match Query.Parse (Query (RawQuery r)) with
  | Err e => mret (Fail r (bad_request (query_text e)) w)
  | Ok params => list_answer rs params (Query.JSONArgs params).1.1 r ss w
  end.

Definition Get (rs : Resource) : handler :=
  λ r ss w,
  match resource_id rs r with
  | Err e => mret (Fail r e w)
  | Ok id =>
      x ← Do ss (ReqOf r 200 EmptyString) (λ h,
        rw ← GetRow rs h id;
        match rw with
        | Err e => mret (Err e)
        | Ok rw => not_modified r rw;; mret (Ok rw)
        end);
      match x with
      | Err e => mret (Fail r e w)
      | Ok rw =>
          st ← get;
          let w := SetETag rw w in
          mret (if (req_status st =? 304)%Z then WriteHeader 304 w
                else WriteJSON 200 (default EmptyString rw) w)
      end
  end.
End handlers.

(** ** rest.go: preconditions *)

Definition Precondition (r : Http.Request) : res error unit :=
  throw_if (is_empty (hdr_get (ReqHeader r) "If-Match"))
    (EProblem (New 428 "precondition-required" "Precondition required"
                 "PATCH needs If-Match with the ETag of the current revision")).

Definition IfMatch (r : Http.Request) (current : row) : res error unit :=
  Precondition r;;
  let tag := hdr_get (ReqHeader r) "If-Match" in
  throw_if (negb (String.eqb tag "*") && negb (String.eqb (ETagOf current) tag))
    (EProblem (New 412 "precondition-failed" "Precondition failed"
                 "the object changed since it was read")).

(** ** rest.go: Idempotency-Key *)

Definition NUL : ascii := "000".

Definition IdemScope (r : Http.Request) (user : string) : string :=
  user +:+ String NUL (URL_Path r).

(** [Stored]: one captured answer. *)
Record Stored := mkStored {
  hash : string;
  st_status : Z;
  st_header : Header;
  st_body : string;
  at_ : Z
}.

(** [Idempotency]: the TTL and the answers, under scope and key. *)
Record Idempotency := mkIdempotency { ttl : Z; stored : gmap string Stored }.

Definition NewIdempotency (t : Z) : Idempotency := mkIdempotency t ∅.

Definition idem_key (scope key : string) : string := scope +:+ String NUL key.

(** [time.Since(s.at) > i.ttl] at the time [now]. *)
Definition expired (i : Idempotency) (now : Z) (s : Stored) : bool := (ttl i <? now - at_ s)%Z.

(** [Lookup]: the stored answer, or [conflict]. *)
Definition Lookup (i : Idempotency) (now : Z) (scope key body : string) : option Stored * bool :=
  match stored i !! idem_key scope key with
  | None => (None, false)
  | Some s =>
      if expired i now s then (None, false)
      else if negb (String.eqb (hash s) (hashOf body)) then (None, true)
      else (Some s, false)
  end.

(** [Capture] writes through to the client's writer, so what it saw is what that one
    has: the status, the headers, the bytes added. *)
Record Capture := mkCapture { cap_status : Z; cap_header : Header; cap_body : string }.

Definition capture (before after : ResponseWriter) : Capture :=
  mkCapture (from_option fst 0%Z (w_status after)) (w_header after)
    (sdrop (String.length (w_body before)) (w_body after)).

(** [Store] at the time [now]: past ten thousand answers the expired ones go. *)
Definition Store (i : Idempotency) (now : Z) (scope key body : string) (c : Capture)
    : Idempotency :=
  let m := if (10000 <? Z.of_nat (size (stored i)))%Z
           then filter (λ kv, expired i now kv.2 = false) (stored i) else stored i in
  mkIdempotency (ttl i)
    (<[idem_key scope key := mkStored (hashOf body) (cap_status c) (cap_header c) (cap_body c) now]> m).

(** [s.Replay(w)]. *)
Definition Replay (s : Stored) (w : ResponseWriter) : ResponseWriter :=
  let w := mkRW (st_header s ∪ w_header w) (w_status w) (w_body w) in
  WriteBody (st_body s) (WriteHeader (st_status s) (SetHeader "Idempotency-Replayed" "true" w)).

(** A POST with its store ([None] for a nil one) and the clock, at the lookup and at
    the store. *)
Definition posting : Type :=
  Http.Request → Session → option Idempotency → Z * Z → ResponseWriter →
  M (ResponseWriter * option Idempotency).

Definition conflict_problem : error :=
  EProblem (New 409 "conflict" "Conflict" "Idempotency-Key reused with a different body").

(** [Once] around [do]. *)
Definition Once (r : Http.Request) (idem : option Idempotency) (clock : Z * Z)
    (user raw : string) (do : ResponseWriter → M ResponseWriter) (w : ResponseWriter)
    : M (ResponseWriter * option Idempotency) :=
  let key := hdr_get (ReqHeader r) "Idempotency-Key" in
  match idem with
  | Some i =>
      if is_empty key then w' ← do w; mret (w', Some i)
      else
        let scope := IdemScope r user in
        match Lookup i clock.1 scope key raw with
        | (_, true) => mret (Fail r conflict_problem w, Some i)
        | (Some s, false) => mret (Replay s w, Some i)
        | (None, false) =>
            w' ← do w;
            let c := capture w w' in
            mret (w', Some (if (cap_status c <? 500)%Z then Store i clock.2 scope key raw c else i))
        end
  | None => w' ← do w; mret (w', None)
  end.

(** ** writable.go *)

(** [Body]: the fields a body is decoded into, [Validate(create)] and [Args(id)]. *)
Record Body := mkBody {
  body_schema : schema;
  Validate : bool → struct → res error unit;
  body_Args : value → struct → Args
}.

Definition Required (name : string) (v : option string) (create : bool) : res error unit :=
  throw_if (match v with None => create | Some s => is_empty s end)
    (bad_request (name +:+ " is required")).

(** [RequiredAll(create, Req(name, v), …)]: the fields in order. *)
Definition RequiredAll (create : bool) (fields : list (string * option string)) : res error unit :=
  foldM_res (λ _ f, Required f.1 f.2 create) fields tt.

(** An [*int64] or [*string] named id, of a row that is an object or null. *)
Definition row_members (rw : row) : option (list (string * json)) :=
  match rw ≫= parse with
  | Some (JObj l) => Some l
  | Some JNull => Some []
  | _ => None
  end.

Definition str_pointer (l : list json) : option (option string) :=
  foldl (λ acc v,
    match acc, v with
    | Some _, JNull => Some None
    | Some _, JStr lex => Some (Some (Unquote lex))
    | _, _ => None
    end) (Some None) l.

Definition LocationOf (rs : Resource) (rw : row) : string :=
  match row_members rw with
  | None => EmptyString
  | Some l =>
      let ids := field_members "id" l in
      if IntID rs then
        match int_pointer ids with
        | Some (Some n) => if (n <? 1)%Z then EmptyString else Prefix rs +:+ "/" +:+ Itoa n
        | _ => EmptyString
        end
      else
        match str_pointer ids with
        | Some (Some s) => if IsUUID s then Prefix rs +:+ "/" +:+ s else EmptyString
        | _ => EmptyString
        end
  end.

Record Writable := mkWritable {
  resource : Resource;
  SetFn : string;
  CreateFn : string;
  CreateOmit : list string;
  NewBody : Body;
  DeleteFn : string;
  Redact : option (string → string);
  Defaults : option (struct → struct)
}.

Definition logged (wr : Writable) (raw : string) : string :=
  match Redact wr with Some f => f raw | None => raw end.

(** [args[k] != nil]: a nil pointer in the map is not the nil interface. *)
Definition arg_set (args : Args) (k : string) : bool := negb (is_nil (default VNil (args !! k))).

Definition omitted (wr : Writable) (st : struct) : res error unit :=
  if is_empty (CreateFn wr) then Ok tt
  else
    let args := body_Args (NewBody wr) VNil st in
    foldM_res (λ _ k, throw_if (arg_set args k) (bad_request (k +:+ " is not taken on create")))
      (CreateOmit wr) tt.

(** The id a create function returned: a string or an integer. *)
Definition created_id (out : string) : option value :=
  match decode_first out with
  | Some (JStr lex, _) =>
      let v := Unquote lex in if is_empty v then None else Some (VStr v)
  | Some (JNum lex, _) => VInt <$> ParseInt lex 64
  | _ => None
  end.

(** [wr.create]: the row of [SetFn(NULL, …)], or of the id [CreateFn] returned. *)
Definition create (wr : Writable) (st : struct) (h : handle) : M (res error row) :=
  let args := body_Args (NewBody wr) VNil st in
  if is_empty (CreateFn wr) then CallRow h (SetFn wr) args
  else
    let args := foldl (λ m k, delete k m) (delete "id" args) (CreateOmit wr) in
    x ← CallRow h (CreateFn wr) args;
    match x with
    | Err e => mret (Err (if is_ErrNoRow e then EText "returned no row" else e))
    | Ok out =>
        match created_id (default EmptyString out) with
        | None => mret (Err (EText "returned no id"))
        | Some id =>
            rw ← GetRow (resource wr) h id;
            mret (match rw with
                  | Err e =>
                      match as_problem e with
                      | Some p => if (Problem.Status p =? 404)%Z
                                  then Err (EText "not shown to its creator") else Err e
                      | None => Err e
                      end
                  | Ok rw => Ok rw
                  end)
        end
    end.

Section writable.
Context {DO : Doer} {T : Texts}.

(** The body of a create, checked. *)
Definition create_body (wr : Writable) (r : Http.Request) : res error (string * struct) :=
  '(raw, st) ← ReadBody r (body_schema (NewBody wr));
  throw_if (is_empty raw)
    (EProblem (WithCode CodeJSONEmpty (New 400 "validation" "Bad request" "a JSON body is required")));;
  Validate (NewBody wr) true st;;
  omitted wr st;;
  Ok (raw, st).

(** The answer of a create that runs. *)
Definition created (wr : Writable) (raw : string) (st : struct) : handler := λ r ss w,
  x ← Do ss (ReqOf r 201 (logged wr raw)) (create wr st);
  mret (match x with
        | Err e => Fail r e w
        | Ok rw =>
            let loc := LocationOf (resource wr) rw in
            let w := if is_empty loc then w else SetHeader "Location" loc w in
            WriteJSON 201 (default EmptyString rw) (SetETag rw w)
        end).

Definition Create (wr : Writable) : posting := λ r ss idem clock w,
  match create_body wr r with
  | Err e => mret (Fail r e w, idem)
  | Ok (raw, st) =>
      let st := match Defaults wr with Some f => f st | None => st end in
      Once r idem clock (SCode ss) raw (λ w, created wr raw st r ss w) w
  end.

(** What an update decides before the database: the id, the body. *)
Definition update_args (wr : Writable) (r : Http.Request) : res error (value * string * struct) :=
  id ← resource_id (resource wr) r;
  Precondition r;;
  '(raw, st) ← ReadBody r (body_schema (NewBody wr));
  Validate (NewBody wr) false st;;
  Ok (id, raw, st).

Definition Update (wr : Writable) : handler := λ r ss w,
  match update_args wr r with
  | Err e => mret (Fail r e w)
  | Ok (id, raw, st) =>
      x ← Do ss (ReqOf r 200 (logged wr raw)) (λ h,
        current ← GetRow (resource wr) h id;
        match current with
        | Err e => mret (Err e)
        | Ok current =>
            match IfMatch r current with
            | Err e => mret (Err e)
            | Ok _ => CallRow h (SetFn wr) (body_Args (NewBody wr) id st)
            end
        end);
      mret (match x with
            | Err e => Fail r e w
            | Ok rw => WriteJSON 200 (default EmptyString rw) (SetETag rw w)
            end)
  end.

Definition Delete (wr : Writable) : handler := λ r ss w,
  match resource_id (resource wr) r with
  | Err e => mret (Fail r e w)
  | Ok id =>
      x ← Do ss (ReqOf r 204 EmptyString) (λ h,
        rw ← GetRow (resource wr) h id;
        match rw with
        | Err e => mret (Err e)
        | Ok _ =>
            x ← Call h (DeleteFn wr) {[ "id" := id ]};
            mret (match x with Err e => Err e | Ok _ => Ok tt end)
        end);
      mret (match x with Err e => Fail r e w | Ok _ => WriteHeader 204 w end)
  end.

(** A handler of the mux: one that reads or changes rows, or a create. *)
Definition lift (h : handler) : posting := λ r ss idem _ w,
  w' ← h r ss w; mret (w', idem).

Definition Routes (wr : Writable) : list (string * posting) :=
  let p := Prefix (resource wr) in
  [("GET " +:+ p, lift (List (resource wr)));
   ("GET " +:+ p +:+ "/{id}", lift (Get (resource wr)));
   ("POST " +:+ p, Create wr);
   ("PATCH " +:+ p +:+ "/{id}", lift (Update wr))]
  ++ (if is_empty (DeleteFn wr) then []
      else [("DELETE " +:+ p +:+ "/{id}", lift (Delete wr))]).
End writable.

(** ** access.go *)

Record AccessBody := mkAccessBody {
  UserID : string;
  Mask : option Z;
  Recursive : option bool;
  ObjectSet : option bool
}.

Definition access_schema : schema :=
  [("userid", TStr); ("mask", TIntP 64); ("recursive", TBoolP); ("objectset", TBoolP)].

Definition access_of (st : struct) : AccessBody :=
  mkAccessBody (str_of st "userid") (int_ptr st "mask") (bool_ptr st "recursive")
    (bool_ptr st "objectset").

Definition access_Validate (b : AccessBody) : res error unit :=
  throw_if (negb (IsUUID (UserID b))) (bad_request "userid is required");;
  throw_if (match Mask b with Some m => (m <? 0)%Z | None => true end)
    (bad_request "mask is required").

Definition MaskBits6 : Z := 63.
Definition MaskBits10 : Z := 1023.

(** [b.Bound(max, classOptions)]; a nil mask would panic, [Validate] comes first. *)
Definition Bound (b : AccessBody) (max : Z) (classOptions : bool) : res error unit :=
  throw_if (match Mask b with Some m => (max <? m)%Z | None => false end)
    (bad_request ("mask must be at most " +:+ Itoa max));;
  throw_if (negb classOptions && (bool_decide (is_Some (Recursive b)) || bool_decide (is_Some (ObjectSet b))))
    (bad_request "recursive and objectset apply to a class only").

Record Access := mkAccess {
  access_Resource : Resource;
  access_ListFn : string;
  DecodeFn : string;
  MaxMask : Z;
  ClassOptions : bool;
  access_Set : handle → string → AccessBody → M (res error unit)
}.

(** ** Steps of a transaction *)

(** [if err != nil { return err }] between two steps. *)
Definition then_ {A B} (m : M (res error A)) (k : A → M (res error B)) : M (res error B) :=
  x ← m; match x with Err e => mret (Err e) | Ok a => k a end.

(** A call whose rows are not used. *)
Definition Call_ (h : handle) (fn : string) (args : Args) : M (res error unit) :=
  then_ (Call h fn args) (λ _, mret (Ok tt)).

(** The answers most handlers end with: a row with its ETag, rows, or nothing. *)
Definition row_answer (r : Http.Request) (w : ResponseWriter) (x : res error row) : ResponseWriter :=
  match x with
  | Err e => Fail r e w
  | Ok rw => WriteJSON 200 (default EmptyString rw) (SetETag rw w)
  end.
Definition rows_body (r : Http.Request) (w : ResponseWriter) (x : res error (list row))
    : ResponseWriter :=
  match x with
  | Err e => Fail r e w
  | Ok rows => WriteJSON 200 (default EmptyString (marshal_rows rows)) w
  end.
Definition no_content (r : Http.Request) (w : ResponseWriter) (x : res error unit) : ResponseWriter :=
  match x with Err e => Fail r e w | Ok _ => WriteHeader 204 w end.

Section access.
Context {DO : Doer} {T : Texts}.

(** A program on a row that is visible. *)
Definition on_visible {A} (rs : Resource) (h : handle) (id : string) (m : M (res error A))
    : M (res error A) :=
  then_ (GetRow rs h (VStr id)) (λ _, m).

(** A list of what belongs to a visible row: [fn] of the row's id under [key]. *)
Definition rows_of_visible (rs : Resource) (fn key : string) : handler :=
  rows_answer IDOf (λ h id, on_visible rs h id (Call h fn {[ key := VStr id ]})).

Definition access_list (a : Access) : handler :=
  rows_answer IDOf (λ h id,
    on_visible (access_Resource a) h id (Call h (access_ListFn a) {[ "id" := VStr id ]})).

(** What a grant decides before the database. *)
Definition access_args (a : Access) (r : Http.Request) : res error (string * string * AccessBody) :=
  id ← IDOf r;
  '(raw, st) ← ReadBody r access_schema;
  let b := access_of st in
  access_Validate b;;
  Bound b (MaxMask a) (ClassOptions a);;
  Ok (id, raw, b).

Definition access_put (a : Access) : handler := λ r ss w,
  match access_args a r with
  | Err e => mret (Fail r e w)
  | Ok (id, raw, b) =>
      x ← Do ss (ReqOf r 200 raw) (λ h,
        on_visible (access_Resource a) h id (
          x ← access_Set a h id b;
          match x with
          | Err e => mret (Err e)
          | Ok _ => Call h (access_ListFn a) {[ "id" := VStr id ]}
          end));
      mret (match x with
            | Err e => Fail r e w
            | Ok rows => WriteJSON 200 (default EmptyString (marshal_rows rows)) w
            end)
  end.

(** The user of a decode: [None] leaves it to the database. *)
Definition decode_args (r : Http.Request) : res error (string * option string) :=
  id ← IDOf r;
  let u := values_get (Query (RawQuery r)) "userid" in
  if is_empty u then Ok (id, None)
  else throw_if (negb (IsUUID u)) (bad_request "userid must be a UUID");; Ok (id, Some u).

Definition access_decode (a : Access) : handler := λ r ss w,
  match decode_args r with
  | Err e => mret (Fail r e w)
  | Ok (id, user) =>
      x ← Do ss (ReqOf r 200 EmptyString) (λ h,
        on_visible (access_Resource a) h id (
          CallRow h (DecodeFn a)
            (match user with
             | Some u => <["userid" := VStr u]> {[ "id" := VStr id ]}
             | None => {[ "id" := VStr id ]}
             end)));
      mret (match x with
            | Err e => Fail r e w
            | Ok rw => WriteJSON 200 (default EmptyString rw) w
            end)
  end.

Definition access_Routes (a : Access) : list (string * handler) :=
  let p := Prefix (access_Resource a) +:+ "/{id}/access" in
  [("GET " +:+ p, access_list a); ("PUT " +:+ p, access_put a);
   ("GET " +:+ p +:+ "/decode", access_decode a)].
End access.

(** ** What the packages share *)

(** The named fields as arguments, after the id. *)
Definition named_args (names : list (string * string)) (id : value) (st : struct) : Args :=
  <["id" := id]> (list_to_map ((λ n, (n.1, field st n.2)) <$> names)).

(** Arguments named as their fields. *)
Definition same_names (sc : schema) : list (string * string) := (λ kt, (kt.1, kt.1)) <$> sc.

Definition no_such_action : error :=
  EProblem (New 404 "not-found" "Not found" "no such action").

(** The id of an added row: [struct { ID string }]. *)
Definition id_schema : schema := [("id", TStr)].
