(* ===== verification/Asks.v ===== *)
(** * Programs that only ask the database

    What a handler of lib/rest runs in its transaction, [Call], [CallRow], [GetRow] and what is
    made of them, asks the database for rows on the transaction it is given and does
    nothing else to it: it opens, commits and rolls back nothing. *)

From S2P Require Import Prelude.
From S2P Require Import GoStrings.
From S2P Require Import Db.
From S2P Require Import Pgtx.
From S2P Require Import PgtxLaws.
From S2P Require Import Http.
From S2P Require Import Decode.
From S2P Require Import Doer.
From S2P Require Import Rest.

(** ** Programs that only ask the database on their transaction *)

Definition on_tx (h : handle) (o : op) : Prop := ∃ c sql args, o = Db.Query (on h) c sql args.

(** The request is still there after it. *)
Definition asks {A} (h : handle) (m : M A) : Prop := ∀ s,
  only (on_tx h) (m s) ∧ (is_Some (request s) → post (m s) (λ r, is_Some (request r.2))).

Section asks.
Context (h : handle).

Lemma asks_ret {A} (a : A) : asks h (mret a).
Proof. by intros s. Qed.

Lemma asks_bind {A B} (m : M A) (f : A → M B) : asks h m → (∀ a, asks h (f a)) → asks h (m ≫= f).
Proof.
  intros Hm Hf s. split.
  - apply only_mbind; [apply Hm|]. intros a s'. apply Hf.
  - intros Hs. apply post_mbind. eapply post_mono; [|by apply Hm]. intros [a s'] Hs'. by apply Hf.
Qed.

Lemma asks_call c sql args : asks h (call (Db.Query (on h) c sql args)).
Proof. intros s. split; [split; [by repeat eexists|done]|by intros Hs x]. Qed.

Lemma asks_modify f : asks h (modify_request f).
Proof. intros s. split; [done|]. intros Hs. cbn. by apply fmap_is_Some. Qed.

#[local] Hint Resolve asks_ret asks_bind asks_call asks_modify : platform.

Lemma asks_Call fn args : asks h (Call h fn args).
Proof.
  unfold Call, callDaemon. destruct (onDaemonRoad h).
  - do 3 (match goal with |- asks _ (if ?b then _ else _) => destruct b; [auto with platform|] end).
    destruct (args_json args); auto with platform.
  - destruct (callSQL fn args) as [[sql vals]|e]; auto with platform.
Qed.
#[local] Hint Resolve asks_Call : platform.

(** After a result: its error, or what goes on. *)
Lemma asks_match {A B} (x : res error A) (f : error → M B) (k : A → M B) :
  (∀ e, asks h (f e)) → (∀ a, asks h (k a)) →
  asks h (match x with Ok a => k a | Err e => f e end).
Proof. by destruct x. Qed.
#[local] Hint Resolve asks_match : platform.

Lemma asks_CallRow fn args : asks h (CallRow h fn args).
Proof. unfold CallRow. auto with platform. Qed.
#[local] Hint Resolve asks_CallRow : platform.

Lemma asks_CallScalar {A} (dec : string → option A) fn args : asks h (CallScalar dec h fn args).
Proof. unfold CallScalar. auto with platform. Qed.

Lemma asks_then {A B} (m : M (res error A)) (k : A → M (res error B)) :
  asks h m → (∀ a, asks h (k a)) → asks h (then_ m k).
Proof. intros Hm Hk. unfold then_. apply asks_bind; [done|]. intros [|]; auto with platform. Qed.
#[local] Hint Resolve asks_CallScalar asks_then : platform.

Lemma asks_Call_ fn args : asks h (Call_ h fn args).
Proof. unfold Call_. auto with platform. Qed.

Lemma asks_GetRow rs id : asks h (GetRow rs h id).
Proof. unfold GetRow. auto with platform. Qed.
#[local] Hint Resolve asks_Call_ asks_GetRow : platform.

Lemma asks_on_visible {A} rs id (m : M (res error A)) : asks h m → asks h (on_visible rs h id m).
Proof. intros Hm. unfold on_visible. auto with platform. Qed.

Lemma asks_not_modified r rw : asks h (not_modified r rw).
Proof. unfold not_modified. destruct (_ && _); auto with platform. Qed.

Lemma asks_list_rows rs search orderby limit offset fields :
  asks h (list_rows rs search orderby limit offset fields h).
Proof. unfold list_rows. apply asks_bind; [auto with platform|]. intros [|]; auto with platform. Qed.

Lemma asks_create wr st : asks h (create wr st h).
Proof.
  unfold create. destruct (is_empty _); [auto with platform|].
  apply asks_bind; [auto with platform|]. intros [out|e]; [|auto with platform].
  destruct (created_id _); auto with platform.
Qed.

End asks.

#[export] Hint Resolve asks_ret asks_bind asks_call asks_modify asks_match asks_Call asks_CallRow
  asks_CallScalar asks_then asks_Call_ asks_GetRow asks_on_visible asks_not_modified asks_list_rows
  asks_create : platform.

(** The cases of a program, then the hints. *)
Ltac asking :=
  first
  [ by auto with platform
  | match goal with
    | |- asks _ (match ?x with _ => _ end) => destruct x; asking
    | |- asks _ (_ ≫= _) => apply asks_bind; [asking|intros; asking]
    | |- asks _ (then_ _ _) => apply asks_then; [asking|intros; asking]
    | |- asks _ (on_visible _ _ _ _) => apply asks_on_visible; asking
    end ].
