(* ===== verification/RestLaws.v ===== *)
(** * lib/rest: what its handlers guarantee

    A PATCH writes only over the revision the client read, a row is written only when
    it is visible, the status the journal records is the one on the wire, a refusal
    before the database costs nothing, a create passes everything the client sent, a
    projection keeps exactly the named members, and a POST under an Idempotency-Key
    happens once. *)

From S2P Require Import Prelude.
From S2P Require Import GoStrings.
From S2P Require Import GoJson.
From S2P Require Import Problem.
From S2P Require Import Db.
From S2P Require Import Pgtx.
From S2P Require Import PgtxLaws.
From S2P Require Import Http.
From S2P Require Import Url.
From S2P Require Import Decode.
From S2P Require Import Doer.
From S2P Require Import Rest.
From S2P Require Import Asks.
From S2P Require Query.

(** ** Lemmas: calls *)

Definition daemon_text : string := "SELECT c FROM daemon.call($1, $2::jsonb) c".

(** The operation of a call of [fn] with [args] on the transaction [n], on either road. *)
Definition calls_on (n : nat) (fn : string) (args : Args) (o : op) : Prop :=
  ∃ c,
    (∃ sql vals, callSQL fn args = Ok (sql, vals) ∧ o = Db.Query (Tx n) c sql (PVal <$> vals)) ∨
    (∃ body, args_json args = Some body ∧
       o = Db.Query (Tx n) c daemon_text [text (TrimPrefix fn "api."); text body]).
Definition calls (fn : string) (args : Args) (o : op) : Prop := ∃ n, calls_on n fn args o.

Lemma calls_query n fn args o : calls_on n fn args o → queries n o.
Proof. by intros (c & [(sql & vals & _ & ->)|(body & _ & ->)]); repeat eexists. Qed.

(** The first row of an answer. *)
Definition first_answer (x : answer) (rw : row) : Prop := ∃ rest, scan_rows x = Ok (rw :: rest).

Section calls.
Context (P : trace → op → Prop).

Lemma Call_sat h n fn args s past Q :
  on h = Tx n → (∀ o, calls_on n fn args o → P past o) →
  (∀ o x, calls_on n fn args o → Q (scan_rows x, s) (past ++ [(o, x)])) →
  (∀ e, Q (Err e, s) past) →
  sat P past (Call h fn args s) Q.
Proof.
  intros Hn HP HQ He. unfold Call, callDaemon. rewrite Hn.
  destruct (onDaemonRoad h).
  - destruct (negb _); [apply He|]. destruct (negb _); [apply He|].
    destruct (existsb _ _); [apply He|]. destruct (args_json args) as [body|] eqn:Hb; [|apply He].
    rewrite call_bind. assert (Hc : calls_on n fn args (Db.Query (Tx n) (cx h) daemon_text
      [text (TrimPrefix fn "api."); text body])) by (exists (cx h); right; by exists body).
    split; [by apply HP|]. intros x. by apply HQ.
  - destruct (callSQL fn args) as [[sql vals]|e] eqn:Hsql; [|apply He].
    rewrite call_bind. assert (Hc : calls_on n fn args (Db.Query (Tx n) (cx h) sql (PVal <$> vals)))
      by (exists (cx h); left; by exists sql, vals).
    split; [by apply HP|]. intros x. by apply HQ.
Qed.

Lemma CallRow_sat h n fn args s past Q :
  on h = Tx n → (∀ o, calls_on n fn args o → P past o) →
  (∀ o x rw, calls_on n fn args o → first_answer x rw → Q (Ok rw, s) (past ++ [(o, x)])) →
  (∀ e t, past `prefix_of` t → Q (Err e, s) t) →
  sat P past (CallRow h fn args s) Q.
Proof.
  intros Hh HP HQ He. unfold CallRow. apply sat_mbind. apply (Call_sat _ n); [done|done| |].
  - intros o x Hc. cbn [fst snd sat mret M_ret]. destruct (scan_rows x) as [[|rw rest]|e] eqn:Hx.
    + apply He. by eexists.
    + apply HQ; [done|]. by exists rest.
    + apply He. by eexists.
  - intros e. by apply He.
Qed.

Lemma GetRow_sat rs h n id s past Q :
  on h = Tx n → (∀ o, calls_on n (GetFn rs) {[ "id" := id ]} o → P past o) →
  (∀ o x rw, calls_on n (GetFn rs) {[ "id" := id ]} o → first_answer x rw →
     Q (Ok rw, s) (past ++ [(o, x)])) →
  (∀ e t, past `prefix_of` t → Q (Err e, s) t) →
  sat P past (GetRow rs h id s) Q.
Proof.
  intros Hh HP HQ He. unfold GetRow. apply sat_mbind. apply (CallRow_sat _ n); [done|done| |].
  - intros o x rw Hc Hx. by apply HQ.
  - intros e t Ht. by apply He.
Qed.
End calls.

(** ** Properties: writes are guarded *)

(** The operation begins, ends or rolls back the transaction [n]. *)
Definition boundary (n : nat) (o : op) : Prop :=
  match o with
  | Begin m _ | Commit m _ | Rollback m _ | Exec m _ _ => m = n
  | Db.Query _ _ _ _ => False
  end.

(** The row of [id] was read on the transaction [n], [good] holds of it, and the transaction has gone on
    since: nothing began it anew, committed it or rolled it back, not even to a savepoint. *)
Definition row_read (rs : Resource) (id : value) (good : row → Prop) (n : nat) (past : trace) : Prop :=
  ∃ t0 o x cur t1, past = t0 ++ (o, x) :: t1 ∧ calls_on n (GetFn rs) {[ "id" := id ]} o ∧
    first_answer x cur ∧ good cur ∧ Forall (λ e, ¬ boundary n e.1) t1.

(** An operation a handler may make: the road's, the reading of the row, or a query on a transaction in
    which a good row was read. *)
Definition guarded (rs : Resource) (id : value) (good : row → Prop) (past : trace) (o : op) : Prop :=
  road_op o ∨ calls (GetFn rs) {[ "id" := id ]} o ∨
  ∃ n, queries n o ∧ row_read rs id good n past.

(** The client's precondition against a row. *)
Definition current_for (r : Http.Request) (cur : row) : Prop :=
  hdr_get (ReqHeader r) "If-Match" = "*" ∨ ETagOf cur = hdr_get (ReqHeader r) "If-Match".

Lemma IfMatch_ok r cur : IfMatch r cur = Ok tt →
  hdr_get (ReqHeader r) "If-Match" ≠ EmptyString ∧ current_for r cur.
Proof.
  unfold IfMatch, Precondition, current_for.
  destruct (hdr_get (ReqHeader r) "If-Match") as [|c tag]; [done|].
  cbn [is_empty throw_if mbind res_bind]. cbv zeta.
  destruct (String.eqb_spec (String c tag) "*"); [by auto|].
  destruct (String.eqb_spec (ETagOf cur) (String c tag)); [by auto|done].
Qed.

Lemma guarded_road rs id good t o : road_op o → guarded rs id good t o.
Proof. by left. Qed.

Lemma guarded_read rs id good n t o : calls_on n (GetFn rs) {[ "id" := id ]} o → guarded rs id good t o.
Proof. intros H. right; left. by exists n. Qed.

Lemma row_read_past rs id good n past o x cur :
  calls_on n (GetFn rs) {[ "id" := id ]} o → first_answer x cur → good cur →
  row_read rs id good n (past ++ [(o, x)]).
Proof. intros Hc Hx Hg. by exists past, o, x, cur, []. Qed.

(** What a program that satisfies a policy does on any driver. *)
Lemma run_policy {D A} (drv : driver D) (P : trace → op → Prop) (p : prog A) d :
  sat P [] p (λ _ _, True) →
  ∀ t1 o x t2, (run drv p d).1.2 = t1 ++ (o, x) :: t2 → P t1 o.
Proof.
  intros H. apply (sat_run drv _ _ d) in H. destruct (run drv p d) as [[a t] d'].
  by destruct H as [_ H].
Qed.

Lemma run_silent {D A} (drv : driver D) (p : prog A) d :
  sat (λ _ _, False) [] p (λ _ _, True) → (run drv p d).1.2 = [].
Proof.
  intros H. pose proof (run_policy drv _ p d H) as Hp.
  destruct (run drv p d).1.2 as [|[o x] t]; [done|]. by destruct (Hp [] o x t eq_refl).
Qed.

(** After a good row was read, every query on its transaction is allowed. *)
Lemma guarded_queries {A} rs id good n (p : prog A) : ∀ past,
  row_read rs id good n past → only (queries n) p → sat (guarded rs id good) past p (λ _ _, True).
Proof.
  induction p as [a|o k IH]; intros past Hread Hp; [done|]. destruct Hp as [Ho Hk].
  split; [right; right; by exists n|]. intros x. apply IH; [|apply Hk].
  destruct Hread as (t0 & o0 & x0 & cur & t1 & -> & Hc & Hx & Hg & Ht1).
  exists t0, o0, x0, cur, (t1 ++ [(o, x)]). split; [by rewrite <- app_assoc|]. split_and!; try done.
  apply Forall_app. split; [done|]. constructor; [|done]. destruct Ho as (? & ? & ? & ->). by intros [].
Qed.

Lemma guarded_free {A} rs id good n h (m : M A) past s :
  on h = Tx n → asks h m → row_read rs id good n past →
  sat (guarded rs id good) past (m s) (λ _ _, True).
Proof.
  intros Hh Hm Hread. apply (guarded_queries _ _ _ n); [done|].
  eapply only_mono; [|apply Hm]. intros o (c & sql & args & ->). rewrite Hh. by repeat eexists.
Qed.

Section guarded.
Context {DO : Doer} {DL : DoerLaws} {T : Texts}.

Lemma do_guarded {A} rs id good ss req (fn : handle → M (res error A)) st past :
  (∀ h n s t, on h = Tx n → sat (guarded rs id good) t (fn h s) (λ _ _, True)) →
  sat (guarded rs id good) past (Do ss req fn st) (λ _ _, True).
Proof.
  intros Hfn. apply do_sat; [by intros; apply guarded_road| |done].
  intros h s t [n Hn] _ _. eapply sat_mono; [|by eapply Hfn]. done.
Qed.

(** A transaction on a visible row. *)
Lemma do_visible {A} rs id ss req (m : handle → M (res error A)) st past :
  (∀ h, asks h (m h)) →
  sat (guarded rs (VStr id) (λ _, True)) past (Do ss req (λ h, on_visible rs h id (m h)) st)
    (λ _ _, True).
Proof.
  intros Hm. apply do_guarded. intros h n s t Hh. unfold on_visible, then_. apply sat_mbind.
  apply (GetRow_sat _ _ _ n); [done|by intros; eapply guarded_read| |done].
  intros o x cur Hcall Hx. cbn [fst snd]. apply (guarded_free _ _ _ n h); [done|apply Hm|by eapply row_read_past].
Qed.

(** A transaction on a visible row, then the answer. *)
Lemma visible_then {A} rs id ss req (m : handle → M (res error A)) (k : res error A → M ResponseWriter)
    st :
  (∀ h, asks h (m h)) → (∀ x s, ∃ a, k x s = Ret a) →
  sat (guarded rs (VStr id) (λ _, True)) []
    ((x ← Do ss req (λ h, on_visible rs h id (m h)); k x) st) (λ _ _, True).
Proof.
  intros Hm Hk. apply sat_mbind. eapply sat_mono; [|by apply do_visible].
  intros [x s] t _ _. cbn [fst snd]. by destruct (Hk x s) as [a ->].
Qed.

Lemma Update_sat wr r ss w st :
  match resource_id (resource wr) r with
  | Err _ => sat (λ _ _, False) [] (Update wr r ss w st) (λ _ _, True)
  | Ok id =>
      sat (guarded (resource wr) id (current_for r)) [] (Update wr r ss w st) (λ _ _, True) ∧
      (hdr_get (ReqHeader r) "If-Match" = EmptyString →
         sat (λ _ _, False) [] (Update wr r ss w st) (λ _ _, True))
  end.
Proof.
  unfold Update, update_args. destruct (resource_id _ _) as [id|e]; cbn [mbind res_bind]; [|done].
  split.
  - destruct (Precondition r); cbn [mbind res_bind]; [|done].
    destruct (ReadBody r _) as [[raw b]|e]; cbn [mbind res_bind]; [|done].
    destruct (Validate _ _ _); cbn [mbind res_bind]; [|done].
    apply sat_mbind. eapply sat_mono; [|apply (do_guarded (resource wr) id (current_for r))].
    { intros [x s] t _ _. done. }
    intros h n s t Hh. apply sat_mbind.
    apply (GetRow_sat _ _ _ n); [done|by intros; eapply guarded_read| |done].
    intros o x cur Hc Hx. cbn [fst snd]. destruct (IfMatch r cur) as [[]|e] eqn:Him; [|done].
    apply IfMatch_ok in Him as [_ Hcur].
    apply (guarded_free _ _ _ n h); [done|auto with platform|by eapply row_read_past].
  - intros Hno. unfold Precondition. by rewrite Hno.
Qed.
End guarded.

Ltac visible := apply visible_then; [intros h; asking|intros x s; by eexists].

(** C6. No update is lost: whatever the database answers, every operation of a PATCH is
    the road's own, the reading of the row, or a query on a transaction in which the row
    was read, its ETag is the one If-Match names (or If-Match is a star), and which has
    gone on since without being committed, rolled back or begun anew;
    without If-Match, or with a bad id, nothing is asked of the database at all. *)
Theorem Update_guarded {D} {DO : Doer} {DL : DoerLaws} {T : Texts} (drv : driver D)
    wr r ss w st d out t d' :
  run drv (Update wr r ss w st) d = (out, t, d') →
  match resource_id (resource wr) r with
  | Err _ => t = []
  | Ok id =>
      (∀ t1 o x t2, t = t1 ++ (o, x) :: t2 → guarded (resource wr) id (current_for r) t1 o) ∧
      (hdr_get (ReqHeader r) "If-Match" = EmptyString → t = [])
  end.
Proof.
  intros Hrun. pose proof (Update_sat wr r ss w st) as Hs.
  assert (Ht : (run drv (Update wr r ss w st) d).1.2 = t) by by rewrite Hrun.
  rewrite <- Ht. destruct (resource_id _ _) as [id|e]; [|by apply run_silent].
  destruct Hs as [Hs Hno]. split; [by apply run_policy|]. intros ?%Hno. by apply run_silent.
Qed.

(** ** Lemmas: what a body requires *)

Lemma foldM_unit_ok {E A} (f : A → res E unit) l :
  foldM_res (λ _ x, f x) l tt = Ok tt ↔ Forall (λ x, f x = Ok tt) l.
Proof.
  induction l as [|x l IH]; [by rewrite Forall_nil|]. rewrite Forall_cons, <- IH. cbn.
  destruct (f x) as [[]|]; cbn; [tauto|]. split; [done|by intros []].
Qed.

Lemma Required_ok k v create : Required k v create = Ok tt ↔
  v ≠ Some EmptyString ∧ (create = true → is_Some v).
Proof.
  unfold Required. destruct v as [[|c v]|]; cbn [is_empty]; [| |destruct create];
    cbn [throw_if]; split; try done.
  - by intros [H _].
  - intros [_ H]. by destruct (H eq_refl).
Qed.

Lemma RequiredAll_ok create keys st :
  RequiredAll create ((λ k, (k, str_ptr st k)) <$> keys) = Ok tt ↔
  Forall (λ k, str_ptr st k ≠ Some EmptyString ∧ (create = true → is_Some (str_ptr st k))) keys.
Proof.
  unfold RequiredAll. rewrite (foldM_unit_ok (λ f, Required f.1 f.2 create)), Forall_fmap.
  apply Forall_iff. intros k. apply Required_ok.
Qed.

(** ** Lemmas: the status of a request *)

Lemma post_sat {A} (p : prog A) Q : ∀ past, post p Q ↔ sat (λ _ _, True) past p (λ a _, Q a).
Proof.
  induction p as [a|o k IH]; intros past; cbn; [done|]. split.
  - intros H. split; [done|]. intros x. by apply IH.
  - intros [_ H] x. by eapply IH.
Qed.

(** [keeps m]: [m] leaves the road's state alone. *)
Definition keeps {A} (m : M A) : Prop := ∀ s, post (m s) (λ r, r.2 = s).

Lemma keeps_ret {A} (a : A) : keeps (mret a).
Proof. by intros s. Qed.

Lemma keeps_bind {A B} (m : M A) (f : A → M B) :
  keeps m → (∀ a, keeps (f a)) → keeps (m ≫= f).
Proof.
  intros Hm Hf s. apply post_mbind. eapply post_mono; [|apply Hm].
  intros [a s'] Hs. cbn in Hs. subst s'. apply Hf.
Qed.

Lemma keeps_call o : keeps (call o).
Proof. by intros s x. Qed.

#[export] Hint Resolve keeps_ret keeps_bind keeps_call : platform.

Lemma keeps_Call h fn args : keeps (Call h fn args).
Proof.
  unfold Call, callDaemon. destruct (onDaemonRoad h).
  - destruct (negb _); [auto with platform|]. destruct (negb _); [auto with platform|].
    destruct (existsb _ _); [auto with platform|]. destruct (args_json args); auto with platform.
  - destruct (callSQL fn args) as [[sql vals]|e]; auto with platform.
Qed.
#[export] Hint Resolve keeps_Call : platform.

Lemma keeps_CallRow h fn args : keeps (CallRow h fn args).
Proof. unfold CallRow. auto with platform. Qed.
#[export] Hint Resolve keeps_CallRow : platform.

Lemma keeps_CallScalar {A} (dec : string → option A) h fn args : keeps (CallScalar dec h fn args).
Proof. unfold CallScalar. auto with platform. Qed.

Lemma keeps_GetRow rs h id : keeps (GetRow rs h id).
Proof. unfold GetRow. auto with platform. Qed.
#[export] Hint Resolve keeps_CallScalar keeps_GetRow : platform.

Lemma keeps_list_rows rs search orderby limit offset fields h :
  keeps (list_rows rs search orderby limit offset fields h).
Proof. unfold list_rows. apply keeps_bind; [auto with platform|]. intros [|]; auto with platform. Qed.

Lemma keeps_then {A B} (m : M (res error A)) (k : A → M (res error B)) :
  keeps m → (∀ a, keeps (k a)) → keeps (then_ m k).
Proof. intros Hm Hk. unfold then_. apply keeps_bind; [done|]. intros [|]; auto with platform. Qed.
#[export] Hint Resolve keeps_then : platform.

Lemma keeps_Call_ h fn args : keeps (Call_ h fn args).
Proof. unfold Call_. auto with platform. Qed.
#[export] Hint Resolve keeps_Call_ : platform.

Lemma keeps_on_visible {A} rs h id (m : M (res error A)) : keeps m → keeps (on_visible rs h id m).
Proof. intros Hm. unfold on_visible. auto with platform. Qed.

Lemma keeps_create wr st h : keeps (create wr st h).
Proof.
  unfold create. destruct (is_empty _); [auto with platform|].
  apply keeps_bind; [auto with platform|]. intros [out|e]; [|auto with platform].
  destruct (created_id _); auto with platform.
Qed.
#[export] Hint Resolve keeps_list_rows keeps_on_visible keeps_create : platform.

(** What the client is sent: a problem, or an answer that is [ok] for the request's status. *)
Definition wired (ok : Z → ResponseWriter → Prop) (r : Http.Request) (x : ResponseWriter * road) : Prop :=
  (∃ p w1, w_status w1 = None ∧ x.1 = Write p (Some r) w1) ∨ ok (req_status x.2) x.1.

(** An answer with the request's status. *)
Definition on_wire : Http.Request → ResponseWriter * road → Prop :=
  wired (λ z w, sent_status w = Some z).

Section wire.
Context {DO : Doer} {DL : DoerLaws} {T : Texts}.

Lemma do_post {A} ss req (fn : handle → M (res error A)) st (Q : A → Z → Prop) :
  (∀ h s, req_status s = Pgtx.Status req →
     post (fn h s) (λ r, ∀ a, r.1 = Ok a → Q a (req_status r.2))) →
  post (Do ss req fn st) (λ r, match r.1 with
                               | Ok a => Q a (req_status r.2)
                               | Err e => is_Some (as_problem e)
                               end).
Proof.
  intros Hfn. apply (post_sat _ _ []). apply do_sat; [done| |by intros].
  intros h s t _ Hs _. pose proof (proj1 (post_sat _ _ t) (Hfn h s Hs)) as Hp.
  eapply sat_mono; [|exact Hp].
  intros [r s1] t1 _ Hr a s' t'' Ha Hs' _. cbn in *. subst r. rewrite Hs'. by apply Hr.
Qed.

Lemma WriteJSON_status st body w : w_status w = None →
  sent_status (WriteJSON st body w) = Some st.
Proof.
  intros Hw. unfold WriteJSON, sent_status. erewrite WriteBody_sent; [reflexivity|].
  by apply WriteHeader_sent.
Qed.

Lemma SetETag_status rw w : w_status (SetETag rw w) = w_status w.
Proof. unfold SetETag. by destruct (is_empty _). Qed.

Lemma not_modified_post r rw s (Q : unit * road → Prop) :
  Q (tt, s) → Q (tt, mkRoad (runner s) (set_Status 304 <$> request s)) →
  post (not_modified r rw s) Q.
Proof. intros H1 H2. unfold not_modified. by destruct (_ && _). Qed.

Lemma read_status (read : M (res error row)) r f s : keeps read → req_status s = 200%Z →
  post ((rw ← read; match rw with
                    | Err e => mret (Err (f e))
                    | Ok rw => not_modified r rw;; mret (Ok rw)
                    end) s)
    (λ r : res error row * road, is_ok r.1 = true → req_status r.2 = 200%Z ∨ req_status r.2 = 304%Z).
Proof.
  intros Hk Hs. apply post_mbind. eapply post_mono; [|apply Hk].
  intros [[rw|e] s'] Hs'; cbn in Hs'; subst s'; [|done].
  apply post_mbind, not_modified_post; intros _; [by left|]. right.
  unfold req_status in *. cbn. by destruct (request s).
Qed.

Section wired.
Context (ok : Z → ResponseWriter → Prop).

Lemma fail_wired r e w s : w_status w = None → wired ok r (Fail r e w, s).
Proof. intros Hw. left. by eexists _, w. Qed.

(** A handler that answers what its transaction gave. *)
Lemma answer_wired {A} ss req (fn : handle → M (res error A)) (k : res error A → ResponseWriter)
    r w st :
  w_status w = None → (∀ h, keeps (fn h)) → (∀ e, k (Err e) = Fail r e w) →
  (∀ a, ok (Pgtx.Status req) (k (Ok a))) →
  post ((x ← Do ss req fn; mret (k x)) st) (wired ok r).
Proof.
  intros Hw Hfn Hk Hok. apply post_mbind.
  eapply post_mono; [|apply (do_post ss req fn st (λ _ z, z = Pgtx.Status req))].
  - intros [[a|e] s] Hr; cbn in *; [|rewrite Hk; by apply fail_wired]. right. cbn. rewrite Hr. apply Hok.
  - intros h s Hs. eapply post_mono; [|apply Hfn]. intros [x s'] Hs' a _. cbn in *. by subst.
Qed.

(** A row's handler: the status is 200, or 304. *)
Lemma row_wired ss req (fn : handle → M (res error row)) (answer : row → ResponseWriter) r w st :
  w_status w = None → Pgtx.Status req = 200%Z →
  (∀ h s, req_status s = 200%Z →
     post (fn h s) (λ r, is_ok r.1 = true → req_status r.2 = 200%Z ∨ req_status r.2 = 304%Z)) →
  (∀ rw, ok 200 (answer rw)) → (∀ rw, ok 304 (WriteHeader 304 (SetETag rw w))) →
  post ((x ← Do ss req fn;
         match x with
         | Err e => mret (Fail r e w)
         | Ok rw => st ← get; let w := SetETag rw w in
                    mret (if (req_status st =? 304)%Z then WriteHeader 304 w else answer rw)
         end) st) (wired ok r).
Proof.
  intros Hw Hreq Hfn Hok Hnot. apply post_mbind.
  eapply post_mono; [|apply (do_post ss req fn st (λ _ z, z = 200%Z ∨ z = 304%Z))].
  - intros [[rw|e] s] Hr; cbn in *; [|by apply fail_wired]. right. cbn.
    destruct Hr as [Hr|Hr]; rewrite Hr; cbn; [apply Hok|apply Hnot].
  - intros h s Hs. eapply post_mono; [|apply Hfn; congruence].
    intros [[rw|e] s'] Hs' a; cbn in *; [|done]. intros _. by apply Hs'.
Qed.

Lemma rows_answer_wired {B} (args : Http.Request → res error B) read r ss w st :
  (∀ h a, keeps (read h a)) → w_status w = None → (∀ b, ok 200 (WriteJSON 200 b w)) →
  post (rows_answer args read r ss w st) (wired ok r).
Proof.
  intros Hk Hw Hok. unfold rows_answer. destruct (args r); [|by apply fail_wired].
  by apply (answer_wired ss _ _ _ r w st).
Qed.

Lemma rowHandler_wired {B} (args : Http.Request → res error B) read fields r ss w st :
  (∀ h a, keeps (read h a)) → w_status w = None →
  (∀ rw b, ok 200 (WriteJSON 200 b (SetETag rw w))) → (∀ rw, ok 304 (WriteHeader 304 (SetETag rw w))) →
  post (rowHandler args read fields r ss w st) (wired ok r).
Proof.
  intros Hk Hw Hok Hnot. unfold rowHandler. destruct (_ ≫= _) as [[a cut]|e]; [|by apply fail_wired].
  apply row_wired; [done|done| |done|done].
  intros h s Hs. by apply (read_status _ _ (λ e, if is_ErrNoRow e then not_found else e)).
Qed.

Lemma list_answer_wired rs params search r ss w st :
  w_status w = None → (∀ b, ok 200 (WriteJSON 200 b w)) →
  post (list_answer rs params search r ss w st) (wired ok r).
Proof.
  intros Hw Hok. unfold list_answer. destruct (Query.JSONArgs _) as [[? orderby] ?].
  apply (answer_wired ss _ _ _ r w st); [done|auto with platform|done|]. by intros [total items].
Qed.
End wired.

Lemma wire_fail r e w s : w_status w = None → on_wire r (Fail r e w, s).
Proof. apply fail_wired. Qed.

Lemma wire_answer {A} ss req (fn : handle → M (res error A)) (k : res error A → ResponseWriter)
    r w st :
  w_status w = None → (∀ h, keeps (fn h)) → (∀ e, k (Err e) = Fail r e w) →
  (∀ a, sent_status (k (Ok a)) = Some (Pgtx.Status req)) →
  post ((x ← Do ss req fn; mret (k x)) st) (on_wire r).
Proof. apply (answer_wired (λ z w, sent_status w = Some z)). Qed.

Lemma header_304 rw w : w_status w = None → sent_status (WriteHeader 304 (SetETag rw w)) = Some 304%Z.
Proof. intros Hw. unfold sent_status. by rewrite WriteHeader_sent by by rewrite SetETag_status. Qed.

Lemma rows_answer_wire {B} (args : Http.Request → res error B) read r ss w st :
  (∀ h a, keeps (read h a)) → w_status w = None →
  post (rows_answer args read r ss w st) (on_wire r).
Proof. intros Hk Hw. apply rows_answer_wired; [done|done|]. intros b. by apply WriteJSON_status. Qed.

Lemma rowHandler_wire {B} (args : Http.Request → res error B) read fields r ss w st :
  (∀ h a, keeps (read h a)) → w_status w = None →
  post (rowHandler args read fields r ss w st) (on_wire r).
Proof.
  intros Hk Hw. apply rowHandler_wired; [done|done| |]; intros rw; [intros b|by apply header_304].
  apply WriteJSON_status. by rewrite SetETag_status.
Qed.

Lemma list_answer_wire rs params search r ss w st :
  w_status w = None → post (list_answer rs params search r ss w st) (on_wire r).
Proof. intros Hw. apply list_answer_wired; [done|]. intros b. by apply WriteJSON_status. Qed.
End wire.

(** The handlers of lib/rest. *)
Inductive rest_handler {DO : Doer} {T : Texts} : handler → Prop :=
  | is_rows {A} (args : Http.Request → res error A) read :
      (∀ h a, keeps (read h a)) → rest_handler (rows_answer args read)
  | is_row {A} (args : Http.Request → res error A) read fields :
      (∀ h a, keeps (read h a)) → rest_handler (rowHandler args read fields)
  | is_list rs : rest_handler (List rs)
  | is_get rs : rest_handler (Get rs)
  | is_created wr raw st : rest_handler (created wr raw st)
  | is_update wr : rest_handler (Update wr)
  | is_delete wr : rest_handler (Delete wr)
  | is_access_put a : (∀ h id b, keeps (access_Set a h id b)) → rest_handler (access_put a)
  | is_access_decode a : rest_handler (access_decode a).

(** The journal records the status that goes on the wire: whatever the database
    answers, a handler of the library sends a problem document - whose status is
    the one journalled for the refusal - or an answer with exactly the status the
    request carries when the transaction ends, 304 and 204 included. *)
Lemma wire_status {DO : Doer} {DL : DoerLaws} {T : Texts} hd r ss w st :
  rest_handler hd → w_status w = None → post (hd r ss w st) (on_wire r).
Proof.
  intros Hhd Hw. destruct Hhd as [A args read Hk|A args read fields Hk|rs|rs|wr raw b|wr|wr|a Hk|a].
  - by apply rows_answer_wire.
  - by apply rowHandler_wire.
  - unfold List. destruct (Query.Parse _); [by apply list_answer_wire|by apply wire_fail].
  - unfold Get. destruct (resource_id rs r); [|by apply wire_fail].
    apply row_wired; [done|done| | |].
    + intros h s Hs. apply (read_status _ _ (λ e, e)); auto with platform.
    + intros rw. apply WriteJSON_status. by rewrite SetETag_status.
    + intros rw. by apply header_304.
  - unfold created. apply (wire_answer ss _ _ _ r w st); [done|auto with platform|done|].
    intros rw. apply WriteJSON_status. rewrite SetETag_status. by destruct (is_empty _).
  - unfold Update. destruct (update_args wr r) as [[[id raw] b]|e]; [|by apply wire_fail].
    apply (wire_answer ss _ _ _ r w st); [done| |done|].
    + intros h. apply keeps_bind; [auto with platform|]. intros [cur|e]; [|auto with platform].
      destruct (IfMatch r cur); auto with platform.
    + intros rw. apply WriteJSON_status. by rewrite SetETag_status.
  - unfold Delete. destruct (resource_id _ r); [|by apply wire_fail].
    apply (wire_answer ss _ _ _ r w st); [done| |done|].
    + intros h. apply keeps_bind; [auto with platform|]. intros [cur|e]; auto with platform.
    + intros _. unfold sent_status. by rewrite WriteHeader_sent.
  - unfold access_put. destruct (access_args a r) as [[[id raw] b]|e]; [|by apply wire_fail].
    apply (wire_answer ss _ _ _ r w st); [done| |done|].
    + intros h. apply keeps_on_visible, keeps_bind; [done|]. intros [[]|e]; auto with platform.
    + intros rows. by apply WriteJSON_status.
  - unfold access_decode. destruct (decode_args r) as [[id user]|e]; [|by apply wire_fail].
    apply (wire_answer ss _ _ _ r w st); [done| |done|].
    + intros h. apply keeps_on_visible. auto with platform.
    + intros rw. by apply WriteJSON_status.
Qed.

(** ** Lemmas: what a body decodes to *)

(** An object that is decoded strictly has no member without a field. *)
Lemma decode_struct_named sc s st : decode_struct true sc s = Ok st →
  ∃ v rest, decode_first s = Some (v, rest) ∧
    (v = JNull ∨ ∃ l, v = JObj l ∧ ∀ kv, kv ∈ l → is_Some (find_field sc (member_key kv))).
Proof.
  unfold decode_struct, decode_object. destruct (decode_first s) as [[v rest]|] eqn:Hd; [|done].
  intros H. exists v, rest. split; [done|]. destruct v as [| | | | |l]; try done; [by left|right].
  exists l. split; [done|]. intros kv Hkv.
  unfold decode_first in Hd. destruct (parse_value _ s) as [[v k]|] eqn:Hp; [|done].
  cbn [mbind option_bind] in Hd. destruct (N.leb_spec (json_depth v) 10000); [|done].
  injection Hd as -> ->. apply parse_raw in Hp; [|done].
  apply raw_members_parse in Hp as (raws & Hraws & Hall).
  unfold first_text in H. rewrite Hraws in H. cbn [of_option mbind res_bind] in H.
  apply Forall2_flip in Hall. destruct (Forall2_elem_l _ _ _ _ Hall Hkv) as (m & Hm & Heq & _).
  destruct (foldM_res_elem _ _ _ _ _ H Hm) as (s1 & s2 & Hs). unfold decode_member in Hs.
  unfold member_key. rewrite <- Heq. destruct (find_field sc _); [by eexists|done].
Qed.

(** What [ReadBody] gives: the bytes read, of which the first value is an object all
    of whose members have a field; the struct has the fields of the schema. *)
Lemma ReadBody_ok {T : Texts} r sc raw st : ReadBody r sc = Ok (raw, st) →
  raw = stake max_body (Http.Body r) ∧ (∀ k, is_Some (st !! k) ↔ k ∈ sc.*1) ∧
  (raw ≠ EmptyString → ∃ v rest, decode_first raw = Some (v, rest) ∧
     (v = JNull ∨ ∃ l, v = JObj l ∧ ∀ kv, kv ∈ l → is_Some (find_field sc (member_key kv)))).
Proof.
  unfold ReadBody, ReadBodyInto. cbv zeta. destruct (_ && _); [done|].
  destruct (stake max_body (Http.Body r)) as [|c b]; cbn [is_empty].
  - intros [= <- <-]. split_and!; [done|apply zero_struct_keys|done].
  - destruct (decode_struct true sc (String c b)) as [st'|e] eqn:Hd; [|by destruct e].
    intros [= <- <-]. split_and!; [done| |].
    + intros k. by apply (decode_struct_keys true sc (String c b)).
    + intros _. by apply (decode_struct_named sc _ st').
Qed.

(** ** Properties: what a create takes *)

(** The arguments [CreateFn] is called with. *)
Definition passed (wr : Writable) (args : Args) : Args :=
  foldl (λ m k, delete k m) (delete "id" args) (CreateOmit wr).

Lemma passed_lookup (ks : list string) : ∀ (m : Args) k,
  foldl (λ m k, delete k m) m ks !! k = if bool_decide (k ∈ ks) then None else m !! k.
Proof.
  induction ks as [|j ks IH]; intros m k; [done|]. cbn [foldl]. rewrite IH.
  destruct (decide (k = j)) as [->|Hk].
  - rewrite lookup_delete_eq. rewrite (bool_decide_true (j ∈ j :: ks)) by left. by case_bool_decide.
  - rewrite lookup_delete_ne by done. by rewrite (bool_decide_ext (k ∈ j :: ks) (k ∈ ks))
      by (rewrite elem_of_cons; naive_solver).
Qed.

Lemma omitted_ok wr st : omitted wr st = Ok tt → CreateFn wr ≠ EmptyString →
  ∀ k, k ∈ CreateOmit wr → arg_set (body_Args (NewBody wr) VNil st) k = false.
Proof.
  unfold omitted. intros H Hne. destruct (CreateFn wr); [done|]. cbn [is_empty] in H.
  intros k Hk. destruct (foldM_res_elem _ _ _ _ _ H Hk) as (s1 & s2 & Hs).
  by destruct (arg_set _ k).
Qed.

(** A create takes all of what the client sent or nothing: a body that is missing,
    cannot be read, has a key the resource does not know, is not valid, or sets a key
    the create function has no parameter for is answered without asking the database
    anything and without touching the store of answers; one that passes has only
    known keys, and every argument it sets, but for the id, reaches the function -
    which gets none of the keys it has no parameter for. *)
Lemma create_whole {DO : Doer} {T : Texts} wr r ss idem clock w st :
  match create_body wr r with
  | Err e => Create wr r ss idem clock w st = Ret ((Fail r e w, idem), st)
  | Ok (raw, b) =>
      let args := body_Args (NewBody wr) VNil b in
      raw ≠ EmptyString ∧ raw = stake max_body (Http.Body r) ∧
      Validate (NewBody wr) true b = Ok tt ∧
      (∃ v rest, decode_first raw = Some (v, rest) ∧
         (v = JNull ∨ ∃ l, v = JObj l ∧
            ∀ kv, kv ∈ l → is_Some (find_field (body_schema (NewBody wr)) (member_key kv)))) ∧
      (CreateFn wr ≠ EmptyString → ∀ k,
         (arg_set args k = true → k ≠ "id" → passed wr args !! k = args !! k) ∧
         (k ∈ CreateOmit wr → passed wr args !! k = None))
  end.
Proof.
  destruct (create_body wr r) as [[raw b]|e] eqn:Hc; [|unfold Create; by rewrite Hc].
  cbv zeta. unfold create_body in Hc.
  destruct (ReadBody r _) as [[raw' b']|] eqn:Hr; cbn [mbind res_bind] in Hc; [|done].
  destruct (is_empty raw') eqn:He; cbn [throw_if] in Hc; [done|]. cbn [mbind res_bind] in Hc.
  destruct (Validate _ _ _) as [[]|] eqn:Hv; cbn [mbind res_bind] in Hc; [|done].
  destruct (omitted wr b') as [[]|] eqn:Ho; cbn [mbind res_bind] in Hc; [|done].
  injection Hc as -> ->. apply ReadBody_ok in Hr as (Hraw & _ & Hnamed).
  assert (raw ≠ EmptyString) as Hne by (by intros ->).
  split_and!; [done|done|done|by apply Hnamed|]. intros Hf k. split.
  - intros Hset Hid. unfold passed. rewrite passed_lookup.
    rewrite bool_decide_false; [by rewrite lookup_delete_ne|].
    intros Hk. by rewrite (omitted_ok wr b Ho Hf k Hk) in Hset.
  - intros Hk. unfold passed. by rewrite passed_lookup, bool_decide_true.
Qed.

(** ** Properties: grants *)

Section grants.
Context {DO : Doer} {DL : DoerLaws} {T : Texts}.

Lemma access_args_ok a r id raw b : access_args a r = Ok (id, raw, b) →
  IsUUID id = true ∧ IsUUID (UserID b) = true ∧
  (∃ m, Mask b = Some m ∧ (0 <= m <= MaxMask a)%Z) ∧
  (ClassOptions a = false → Recursive b = None ∧ ObjectSet b = None).
Proof.
  unfold access_args, IDOf. destruct (IsUUID (PathValue r "id")) eqn:Hid;
    cbn [negb throw_if mbind res_bind]; [|done].
  destruct (ReadBody r _) as [[raw' st]|]; cbn [mbind res_bind]; [|done].
  set (b' := access_of st). unfold access_Validate.
  destruct (IsUUID (UserID b')) eqn:Hu; cbn [negb throw_if mbind res_bind]; [|done].
  destruct (Mask b') as [m|] eqn:Hm; [|done]. unfold Bound. rewrite Hm.
  destruct (Z.ltb_spec m 0); cbn [throw_if mbind res_bind]; [done|].
  destruct (Z.ltb_spec (MaxMask a) m); cbn [throw_if mbind res_bind]; [done|].
  destruct (negb (ClassOptions a) && _) eqn:Ho; cbn [throw_if mbind res_bind]; [done|].
  intros [= <- <- <-]. split_and!; [done|done|by exists m|]. intros Hc. rewrite Hc in Ho.
  cbn [negb andb] in Ho. apply orb_false_iff in Ho as [H1 H2].
  apply bool_decide_eq_false in H1, H2. destruct (Recursive b'), (ObjectSet b'); try done;
    exfalso; first [by apply H1; eexists|by apply H2; eexists].
Qed.
End grants.

(** A grant is within its width and on a visible row: whatever the database answers, a
    PUT of the access form does anything but read the row - the grant and the
    listing - only after it read the row of the path's id in the same transaction,
    and only for a UUID of a user, a mask between 0 and the widest one of the
    resource, and class options where the resource takes them; any other request asks
    nothing of the database. *)
Lemma access_put_guarded {D} {DO : Doer} {DL : DoerLaws} {T : Texts} (drv : driver D)
    a r ss w st d out t d' :
  (∀ h id b, asks h (access_Set a h id b)) →
  run drv (access_put a r ss w st) d = (out, t, d') →
  match access_args a r with
  | Err _ => t = []
  | Ok (id, _, b) =>
      IsUUID (UserID b) = true ∧ (∃ m, Mask b = Some m ∧ (0 <= m <= MaxMask a)%Z) ∧
      (ClassOptions a = false → Recursive b = None ∧ ObjectSet b = None) ∧
      ∀ t1 o x t2, t = t1 ++ (o, x) :: t2 →
        guarded (access_Resource a) (VStr id) (λ _, True) t1 o
  end.
Proof.
  intros Hset Hrun. unfold access_put in Hrun.
  destruct (access_args a r) as [[[id raw] b]|e] eqn:Ha; [|by injection Hrun].
  pose proof (access_args_ok a r id raw b Ha) as (_ & Hu & Hm & Hc). split_and!; [done..|].
  assert (Hs : sat (guarded (access_Resource a) (VStr id) (λ _, True)) []
    (access_put a r ss w st) (λ _ _, True)).
  { unfold access_put. rewrite Ha. apply sat_mbind.
    eapply sat_mono; [|apply (do_visible (access_Resource a) id)]; [done|]. intros h. asking. }
  apply (sat_run drv _ _ d) in Hs. unfold access_put in Hs. rewrite Ha, Hrun in Hs.
  by destruct Hs as [_ Hs].
Qed.

(** ** Lemmas: maps as objects *)

Lemma object_map_lookup l k :
  object_map l !! k = snd <$> last (filter (λ kv, member_key kv = k) l).
Proof.
  unfold object_map. induction l as [|kv l IH] using rev_ind; [done|].
  rewrite foldl_app, filter_app. cbn [foldl]. rewrite filter_cons, filter_nil.
  destruct (decide (member_key kv = k)) as [<-|Hk].
  - by rewrite lookup_insert_eq, last_snoc.
  - by rewrite lookup_insert_ne, app_nil_r.
Qed.

(** The object a map is marshalled to. *)
Definition map_object (m : gmap string json) : list (string * json) :=
  omap (λ k, v ← m !! k; Some (quote_lex k, escape_html v)) (sort_Strings (map_to_list m).*1).

Lemma map_object_elem m kv : kv ∈ map_object m ↔
  ∃ k v, m !! k = Some v ∧ kv = (quote_lex k, escape_html v).
Proof.
  unfold map_object. rewrite list_elem_of_omap. split.
  - intros (k & _ & Hk). destruct (m !! k) as [v|] eqn:Hv; [|done]. injection Hk as <-.
    by exists k, v.
  - intros (k & v & Hv & ->). exists k. rewrite Hv. split; [|done].
    rewrite elem_of_sort_Strings. apply list_elem_of_fmap. exists (k, v). split; [done|].
    by apply elem_of_map_to_list.
Qed.

Lemma object_map_object m : (∀ k, is_Some (m !! k) → valid_utf8 k = true) →
  object_map (map_object m) = escape_html <$> m.
Proof.
  intros Hutf. apply map_eq. intros k. rewrite object_map_lookup, lookup_fmap.
  destruct (last _) as [kv|] eqn:Hl; cbn.
  - apply last_Some_elem_of, list_elem_of_filter in Hl as [Hk Hin].
    apply map_object_elem in Hin as (k' & v & Hv & ->). unfold member_key in Hk. cbn [fst] in Hk.
    rewrite Unquote_quote in Hk by (by apply Hutf; eexists). subst k'. by rewrite Hv.
  - destruct (m !! k) as [v|] eqn:Hv; [|done]. exfalso. apply last_None in Hl.
    assert (Hin : (quote_lex k, escape_html v) ∈ filter (λ kv, member_key kv = k) (map_object m)).
    { apply list_elem_of_filter. split; [apply Unquote_quote, Hutf; by eexists|].
      apply map_object_elem. by exists k, v. }
    rewrite Hl in Hin. by apply elem_of_nil in Hin.
Qed.

(** The values of a decoded object can be marshalled again. *)
Definition member_ok (v : json) : Prop := json_ok v ∧ (json_depth v ≤ 9999)%N.

Lemma object_map_values s l k v : parse s = Some (JObj l) → object_map l !! k = Some v → member_ok v.
Proof.
  intros [Hok Hdep%json_depth_members]%parse_ok Hv. rewrite object_map_lookup in Hv.
  destruct (last _) as [[key v']|] eqn:Hl; [|done]. injection Hv as <-.
  apply last_Some_elem_of, list_elem_of_filter in Hl as [_ Hl].
  inversion Hok as [| | | | |? Hall]; subst. rewrite Forall_forall in Hall, Hdep.
  destruct (Hall _ Hl) as [_ Hv]. by split; [|apply (Hdep _ Hl)].
Qed.

Lemma parse_marshal_map m : (∀ k v, m !! k = Some v → member_ok v) →
  parse (marshal_map m) = Some (JObj (map_object m)).
Proof.
  intros Hm. apply parse_print.
  - constructor. apply Forall_forall. intros kv (k & v & [Hv _]%Hm & ->)%map_object_elem.
    split; [apply quote_lex_ok|by apply escape_html_ok].
  - cbn [json_depth].
    enough (foldr (λ (kv : string * json) n, N.max (json_depth kv.2) n) 0 (map_object m) ≤ 9999)%N
      by lia.
    assert (Hall : ∀ kv, kv ∈ map_object m → (json_depth kv.2 ≤ 9999)%N).
    { intros kv (k & v & [_ Hv]%Hm & ->)%map_object_elem. cbn [snd]. by rewrite escape_html_depth. }
    revert Hall. generalize (map_object m) as l'. intros l'.
    induction l' as [|kv l' IH]; intros Hall; cbn; [lia|].
    pose proof (Hall kv ltac:(left)).
    assert (foldr (λ (kv : string * json) n, N.max (json_depth kv.2) n) 0 l' ≤ 9999)%N
      by (apply IH; intros kv' Hkv'; apply Hall; by right). lia.
Qed.

Lemma ident_tail_ascii c : ident_tail c = true → is_ascii c = true.
Proof.
  unfold ident_tail, lower_or_us, is_lower, is_digit, in_range, is_ascii.
  rewrite !orb_true_iff, !andb_true_iff, !N.leb_le, N.ltb_lt.
  change (byte_n "z") with 122%N. change (byte_n "9") with 57%N.
  intros [[[_ H]|H%Ascii.eqb_eq]|[_ H]]; [lia|by subst c|lia].
Qed.

(** ** Properties: projections *)

(** A projection keeps exactly the named members: of a row that is a JSON object it
    gives a JSON object whose members are those of the row with a requested name, with
    their values (the last one of a repeated name, escaped for HTML as Go marshals);
    with no name requested, or of a row that is not JSON, it gives the row itself. *)
Lemma Project_members s l fields :
  parse s = Some (JObj l) → fields ≠ [] → Forall (λ f, is_ident f = true) fields →
  ∃ t l', Project (Some s) fields = Some t ∧ parse t = Some (JObj l') ∧
    object_map l' = escape_html <$> filter (λ kv, kv.1 ∈ fields) (object_map l).
Proof.
  intros Hs Hne Hid.
  set (m := filter (λ kv, kv.1 ∈ fields) (object_map l)).
  exists (marshal_map m), (map_object m). split_and!.
  - destruct fields; [done|]. cbn [Project]. by rewrite Hs.
  - apply parse_marshal_map. intros k v [Hv _]%map_lookup_filter_Some.
    by apply (object_map_values s l k).
  - apply object_map_object. intros k [v Hv].
    apply map_lookup_filter_Some in Hv as [_ Hk]. rewrite Forall_forall in Hid.
    apply ascii_valid_utf8. eapply sforall_impl; [|apply is_ident_tail, Hid, Hk].
    apply ident_tail_ascii.
Qed.

(** ** Lemmas: idempotency keys *)

Definition no_nul (s : string) : Prop := sforall (λ c, negb (Ascii.eqb c NUL)) s = true.

Lemma Split_String (s t : string) sep :
  Split (s +:+ String sep t) sep = Split s sep ++ Split t sep.
Proof.
  induction s as [|c s IH].
  - rewrite sapp_nil_l. cbn [Split]. by rewrite Ascii.eqb_refl.
  - rewrite sapp_cons. cbn [Split]. rewrite IH. destruct (Ascii.eqb c sep); [done|].
    by destruct (Split s sep) as [|h l] eqn:Hs; [apply Split_ne in Hs|].
Qed.

Lemma Split_inj (s t : string) sep : Split s sep = Split t sep → s = t.
Proof. intros H. rewrite <- (Join_Split s sep), <- (Join_Split t sep). by rewrite H. Qed.

(** The three parts of a stored key can be told apart. *)
Lemma idem_key_inj r1 r2 u1 u2 k1 k2 : no_nul u1 → no_nul u2 → no_nul k1 → no_nul k2 →
  idem_key (IdemScope r1 u1) k1 = idem_key (IdemScope r2 u2) k2 →
  u1 = u2 ∧ URL_Path r1 = URL_Path r2 ∧ k1 = k2.
Proof.
  unfold idem_key, IdemScope. intros Hu1 Hu2 Hk1 Hk2 H.
  apply (f_equal (λ s, Split s NUL)) in H. rewrite !Split_String in H.
  rewrite (Split_none u1), (Split_none u2), (Split_none k1), (Split_none k2) in H by done.
  cbn [app] in H. injection H as -> H. apply app_inj_tail in H as [H ->].
  split_and!; [done| |done]. by apply (Split_inj _ _ NUL).
Qed.

(** An answer another request stores: at a time, under its user, path and key. *)
Record storing := mkStoring {
  so_at : Z; so_request : Http.Request; so_user : string; so_raw : string; so_capture : Capture
}.

Definition so_key (x : storing) : string := hdr_get (ReqHeader (so_request x)) "Idempotency-Key".

Definition store_one (i : Idempotency) (x : storing) : Idempotency :=
  Store i (so_at x) (IdemScope (so_request x) (so_user x)) (so_key x) (so_raw x) (so_capture x).

(** Another request: its user, its path or its key is another one. *)
Definition other (r : Http.Request) (user key : string) (x : storing) : Prop :=
  no_nul (so_user x) ∧ no_nul (so_key x) ∧
  (so_user x ≠ user ∨ URL_Path (so_request x) ≠ URL_Path r ∨ so_key x ≠ key).

Lemma store_others r user key s xs now : no_nul user → no_nul key →
  Forall (λ x, other r user key x ∧ (so_at x <= now)%Z) xs → ∀ i,
  stored i !! idem_key (IdemScope r user) key = Some s → (now - at_ s <= ttl i)%Z →
  let i' := foldl store_one i xs in
  ttl i' = ttl i ∧ stored i' !! idem_key (IdemScope r user) key = Some s.
Proof.
  intros Hu Hk. induction 1 as [|x xs [(Hxu & Hxk & Hne) Hle] Hxs IH]; intros i Hs Hnow; [done|].
  cbn [foldl]. cbv zeta in *. apply (IH (store_one i x)); [|done].
  unfold store_one, Store. cbn [stored ttl]. rewrite lookup_insert_ne.
  - destruct (_ <? _)%Z; [|done]. apply map_lookup_filter_Some. split; [done|].
    unfold expired. cbn [snd]. apply Z.ltb_ge. lia.
  - intros Heq. apply idem_key_inj in Heq as (? & ? & ?); [|done..]. naive_solver.
Qed.

Definition answer_status (w : ResponseWriter) : Z := from_option fst 0%Z (w_status w).

Lemma Replay_sent s w : w_status w = None →
  sent_status (Replay s w) = Some (st_status s) ∧
  sent_header (Replay s w) "Idempotency-Replayed" = "true" ∧
  (bodyAllowed (st_status s) = true → w_body (Replay s w) = w_body w +:+ st_body s).
Proof.
  intros Hw. unfold Replay, sent_status, sent_header.
  set (w0 := SetHeader _ _ _).
  assert (Hsent : w_status (WriteHeader (st_status s) w0) = Some (st_status s, w_header w0))
    by (by apply WriteHeader_sent).
  rewrite (WriteBody_sent _ _ _ _ Hsent). split_and!; [done|by apply hdr_get_set|].
  intros Hb. rewrite (WriteBody_body _ _ _ _ Hsent Hb). unfold WriteHeader. cbn [w_status w0 SetHeader].
  by rewrite Hw.
Qed.

(** ** Properties: Idempotency-Key *)

(** C17. A POST under an Idempotency-Key happens once: when the key is new to the store,
    an answer below 500 is kept, and until the TTL has passed since, whatever other
    requests - of another user, path or key - have stored meanwhile, the same user's
    POST to the same path with the same key is not run again: with the same body it
    is answered with the kept status and body, with another one (by its hash) 409; an
    answer of 500 or more is not kept, so the retry reaches the database. *)
Theorem Once_happens_once i r clock user raw do w st :
  let key := hdr_get (ReqHeader r) "Idempotency-Key" in
  no_nul user → no_nul key → key ≠ EmptyString →
  Lookup i clock.1 (IdemScope r user) key raw = (None, false) →
  post (Once r (Some i) clock user raw do w st) (λ x,
    let w' := x.1.1 in let c := capture w w' in
    ((500 <= answer_status w')%Z → x.1.2 = Some i) ∧
    ((answer_status w' < 500)%Z → ∃ i1, x.1.2 = Some i1 ∧
       ∀ others clock2 r2 raw2 do2 w2 st2,
         Forall (λ o, other r user key o ∧ (so_at o <= clock2.1)%Z) others →
         (clock2.1 - clock.2 <= ttl i)%Z →
         hdr_get (ReqHeader r2) "Idempotency-Key" = key → URL_Path r2 = URL_Path r →
         w_status w2 = None →
         let i2 := foldl store_one i1 others in
         (raw2 = raw → ∃ w3,
            Once r2 (Some i2) clock2 user raw2 do2 w2 st2 = Ret (w3, Some i2, st2) ∧
            sent_status w3 = Some (answer_status w') ∧
            sent_header w3 "Idempotency-Replayed" = "true" ∧
            (bodyAllowed (answer_status w') = true → w_body w3 = w_body w2 +:+ cap_body c)) ∧
         (hashOf raw2 ≠ hashOf raw →
            Once r2 (Some i2) clock2 user raw2 do2 w2 st2
            = Ret (Fail r2 conflict_problem w2, Some i2, st2)))).
Proof.
  cbv zeta. set (key := hdr_get _ _). intros Hu Hk Hne Hmiss. unfold Once. fold key.
  destruct (is_empty key) eqn:He; [by apply is_empty_spec in He|]. rewrite Hmiss.
  apply post_any. intros w' st'. cbn [post mret M_ret fst snd].
  change (cap_status (capture w w')) with (answer_status w').
  split; intros Hst; destruct (Z.ltb_spec (answer_status w') 500); try lia; [done|].
  eexists. split; [done|]. intros others clock2 r2 raw2 do2 w2 st2 Hothers Httl Hkey Hpath Hw2.
  set (s := mkStored (hashOf raw) (answer_status w') (w_header w') (cap_body (capture w w')) clock.2).
  destruct (store_others r user key s others clock2.1 Hu Hk Hothers
    (Store i clock.2 (IdemScope r user) key raw (capture w w'))) as [Ht Hl].
  { unfold Store. cbn [stored]. by rewrite lookup_insert_eq. }
  { done. }
  unfold Once. rewrite Hkey, He. replace (IdemScope r2 user) with (IdemScope r user)
    by (unfold IdemScope; by rewrite Hpath).
  unfold Lookup. rewrite Hl. unfold expired. rewrite Ht. cbn [ttl Store at_ s hash].
  destruct (Z.ltb_spec (ttl i) (clock2.1 - clock.2)); [lia|]. split.
  - intros ->. rewrite String.eqb_refl. cbn [negb]. eexists. split; [reflexivity|].
    apply (Replay_sent s w2 Hw2).
  - intros Hh. rewrite (proj2 (String.eqb_neq (hashOf raw) (hashOf raw2))) by done. done.
Qed.

(** ** A sample resource *)

#[local] Instance sample_texts : Texts := plain_texts.

Definition sample_body : Body :=
  mkBody [("username", TStrP); ("email", TStrP)]
    (λ create st, RequiredAll create [("username", str_ptr st "username")])
    (λ id st, <["id" := id]> (<["username" := field st "username"]>
                {[ "email" := field st "email" ]})).

Definition sample_resource : Resource :=
  mkResource "/api/v2/users" "api.get_user" "api.list_user" "api.count_user" false.

Definition sample_users : Writable :=
  mkWritable sample_resource "api.set_user" EmptyString [] sample_body "api.delete_user" None None.

Definition user_id : string := "01020304-0506-4708-890a-0b0c0d0e0f10".
Definition user_row : string :=
  print (JObj [("id", JStr user_id); ("udate", JStr "2026-01-02")]).

(** A database with this row; it answers every call with it. *)
Definition user_answers (o : op) : answer :=
  match o with
  | Db.Query _ _ sql _ =>
      if HasPrefix sql "SELECT to_json(t)" then Ok [[VRaw user_row]] else sample_answers o
  | _ => Ok []
  end.

Definition user_request (method tag body : string) : Http.Request :=
  Http.mkRequest method ("/api/v2/users/" +:+ user_id) ("/api/v2/users/" +:+ user_id) EmptyString
    (hdr_set (hdr_set ∅ "If-Match" tag) "Idempotency-Key" "k1") body false "192.0.2.1:9"
    {[ "id" := user_id ]}.

Definition user_tag : string := "W/" +:+ Quote "2026-01-02".
Definition user_change : string := print (JObj [("username", JStr "ann")]).

Definition sample_update := run (toy_driver user_answers)
  (Update sample_users (user_request "PATCH" user_tag user_change) sample_session new_writer
     (sample_road false)) toy_init.

Lemma Update_guarded_witness :
  sent_status sample_update.1.1.1 = Some 200%Z ∧
  ∀ t1 o x t2, sample_update.1.2 = t1 ++ (o, x) :: t2 →
    guarded sample_resource (VStr user_id) (current_for (user_request "PATCH" user_tag user_change))
      t1 o.
Proof.
  split; [by vm_compute|].
  destruct sample_update as [[out t] d'] eqn:Hrun.
  destruct (Update_guarded (toy_driver user_answers) sample_users
    (user_request "PATCH" user_tag user_change) sample_session new_writer (sample_road false)
    toy_init out t d' Hrun) as [H _].
  exact H.
Defined.

Lemma wire_status_witness :
  post (Get sample_resource (user_request "GET" user_tag EmptyString) sample_session new_writer
    (sample_road true)) (on_wire (user_request "GET" user_tag EmptyString)).
Proof. apply wire_status; [constructor|reflexivity]. Defined.

Definition sample_access : Access :=
  mkAccess sample_resource "api.object_access" "api.decode_object_access" MaskBits6 false
    (λ h id b, x ← Call h "chmodo" {[ "object" := VStr id; "mask" := VInt (default 0%Z (Mask b)) ]};
               mret (match x with Ok _ => Ok tt | Err e => Err e end)).

Definition sample_grant : string :=
  print (JObj [("userid", JStr user_id); ("mask", JNum "63")]).

Definition sample_put := run (toy_driver user_answers)
  (access_put sample_access (user_request "PUT" EmptyString sample_grant) sample_session new_writer
     (sample_road false)) toy_init.

Lemma access_put_guarded_witness :
  sent_status sample_put.1.1.1 = Some 200%Z ∧ ∃ id b,
    (∃ m, Mask b = Some m ∧ (0 <= m <= 63)%Z) ∧
    ∀ t1 o x t2, sample_put.1.2 = t1 ++ (o, x) :: t2 →
      guarded sample_resource (VStr id) (λ _, True) t1 o.
Proof.
  split; [by vm_compute|].
  destruct sample_put as [[out t] d'] eqn:Hrun.
  pose proof (access_put_guarded (toy_driver user_answers) sample_access
    (user_request "PUT" EmptyString sample_grant) sample_session new_writer (sample_road false)
    toy_init out t d' ltac:(intros h id b; cbn; asking) Hrun) as H.
  destruct (access_args sample_access _) as [[[id raw] b]|e] eqn:Ha.
  - destruct H as (_ & Hm & _ & Hg). exists id, b. split; [exact Hm|exact Hg].
  - exfalso. vm_compute in Ha. discriminate Ha.
Defined.

Lemma Project_members_witness : ∃ t l',
  Project (Some user_row) ["udate"; "name"] = Some t ∧ parse t = Some (JObj l') ∧
  object_map l' = {[ "udate" := JStr "2026-01-02" ]}.
Proof.
  destruct (Project_members user_row [("id", JStr user_id); ("udate", JStr "2026-01-02")]
    ["udate"; "name"]) as (t & l' & Ht & Hl & Hm); [by vm_compute|done|by repeat constructor|].
  exists t, l'. split_and!; [exact Ht|exact Hl|]. rewrite Hm. by vm_compute.
Defined.

(** A handler that answers 201. *)
Definition answer_201 (w : ResponseWriter) : M ResponseWriter := mret (WriteJSON 201 "{}" w).

Definition sample_post : Http.Request := user_request "POST" EmptyString user_change.

Lemma Once_happens_once_witness :
  ∃ i1 w3, (Once sample_post (Some (NewIdempotency 60)) (1, 2)%Z "ann" user_change answer_201
              new_writer (sample_road false)) =
           Ret (WriteJSON 201 "{}" new_writer, Some i1, sample_road false) ∧
    Once sample_post (Some i1) (50, 51)%Z "ann" user_change answer_201 new_writer (sample_road false)
      = Ret (w3, Some i1, sample_road false) ∧
    sent_status w3 = Some 201%Z ∧ w_body w3 = "{}".
Proof.
  pose proof (Once_happens_once (NewIdempotency 60) sample_post (1, 2)%Z "ann" user_change answer_201
    new_writer (sample_road false) ltac:(by vm_compute) ltac:(by vm_compute) ltac:(by vm_compute)
    ltac:(by vm_compute)) as [_ H].
  destruct H as (i1 & Hi & H); [by vm_compute|].
  destruct (H [] (50, 51)%Z sample_post user_change answer_201 new_writer (sample_road false))
    as [(w3 & Hr & Hst & _ & Hb) _];
    [constructor|by vm_compute|reflexivity|reflexivity|reflexivity|reflexivity|].
  exists i1, w3. injection Hi as <-. split_and!; [reflexivity|exact Hr|exact Hst|].
  rewrite Hb by reflexivity. by vm_compute.
Defined.
