(* ===== verification/IdemRace.v ===== *)
(** * Idempotency-Key under concurrent requests

    The goroutines of the POSTs to one process over its store of answers: [Lookup] and
    [Store] of lib/rest (rest.go) hold the mutex, the handler runs between them and
    other requests go on meanwhile.  A request is looked up, then replayed, refused with
    409 or run; a run that ends below 500 stores its answer.  [Once_steps] ties a
    request that nothing interrupts to [Rest.Once]. *)

From S2P Require Import Prelude.
From S2P Require Import GoStrings.
From S2P Require Import Db.
From S2P Require Import Pgtx.
From S2P Require Import PgtxLaws.
From S2P Require Import Http.
From S2P Require Import Decode.
From S2P Require Import Doer.
From S2P Require Import Rest.
From S2P Require Import RestLaws.

(** ** State *)

(** Where a request is.  A replay has the time it was looked up at, a run the step too; a finished one the
    step and the time of its end too, and what was captured. *)
Inductive pc : Type :=
  | Waiting
  | Conflicted
  | Replayed (since : Z) (s : Stored)
  | Running (a : nat) (since : Z)
  | Finished (a : nat) (since : Z) (b : nat) (until : Z) (c : Capture).

Record call := mkCall { scope : string; key : string; raw : string; at_pc : pc }.

(** The store, the clock, the number of steps so far, the requests. *)
Record state := mkState { idem : Idempotency; now : Z; steps : nat; calls : list call }.

Definition go (t : call) (p : pc) : call := mkCall (scope t) (key t) (raw t) p.
Definition slot (t : call) : string := idem_key (scope t) (key t).

(** ** Steps *)

(** What [Once] decides by the lookup. *)
Definition looked_up (s : state) (t : call) : pc :=
  match Lookup (idem s) (now s) (scope t) (key t) (raw t) with
  | (_, true) => Conflicted
  | (Some r, false) => Replayed (now s) r
  | (None, false) => Running (steps s) (now s)
  end.

Definition step_lookup (i : nat) (s : state) : option state :=
  t ← calls s !! i;
  match at_pc t with
  | Waiting => Some (mkState (idem s) (now s) (S (steps s)) (<[i := go t (looked_up s t)]> (calls s)))
  | _ => None
  end.

(** The end of a run: an answer below 500 is stored. *)
Definition step_finish (i : nat) (c : Capture) (s : state) : option state :=
  t ← calls s !! i;
  match at_pc t with
  | Running a since =>
      Some (mkState
        (if (cap_status c <? 500)%Z then Store (idem s) (now s) (scope t) (key t) (raw t) c else idem s)
        (now s) (S (steps s)) (<[i := go t (Finished a since (steps s) (now s) c)]> (calls s)))
  | _ => None
  end.

Inductive step (s : state) : state → Prop :=
  | lookup i s' : step_lookup i s = Some s' → step s s'
  | finish i c s' : step_finish i c s = Some s' → step s s'
  | arrive t : at_pc t = Waiting → step s (mkState (idem s) (now s) (steps s) (calls s ++ [t]))
  | tick d : (0 <= d)%Z → step s (mkState (idem s) (now s + d) (steps s) (calls s)).

(** A process begins with an empty store and no requests. *)
Definition initial (t now : Z) : state := mkState (NewIdempotency t) now 0 [].
Definition reachable (t : Z) (s : state) : Prop := ∃ now, rtc step (initial t now) s.

(** ** The invariant *)

(** A run that left an answer to keep. *)
Definition kept (t : call) (b : nat) (until : Z) (c : Capture) : Prop :=
  (∃ a since, at_pc t = Finished a since b until c) ∧ (cap_status c < 500)%Z.

(** When a request began to run. *)
Definition began (t : call) : option (nat * Z) :=
  match at_pc t with Running a since | Finished a since _ _ _ => Some (a, since) | _ => None end.

(** What was stored is what a run of the slot captured. *)
Definition stored_by (s : state) (k : string) (x : Stored) : Prop :=
  ∃ t b c, t ∈ calls s ∧ slot t = k ∧ kept t b (at_ x) c ∧
    hash x = hashOf (raw t) ∧ st_status x = cap_status c ∧ st_header x = cap_header c ∧
    st_body x = cap_body c.

Record inv (ttl0 : Z) (s : state) : Prop := {
  inv_ttl : ttl (idem s) = ttl0;
  (* nothing happened later than now *)
  inv_past t a since : t ∈ calls s → began t = Some (a, since) → a < steps s;
  inv_kept_past t b until c : t ∈ calls s → kept t b until c → b < steps s ∧ (until <= now s)%Z;
  inv_stored k x : stored (idem s) !! k = Some x → stored_by s k x;
  (* an answer is in its slot, or a later one is, until it has expired *)
  inv_slot t b until c : t ∈ calls s → kept t b until c →
    (ttl0 < now s - until)%Z ∨ ∃ x, stored (idem s) !! slot t = Some x ∧ (until <= at_ x)%Z;
  inv_replayed t since x : t ∈ calls s → at_pc t = Replayed since x →
    stored_by s (slot t) x ∧ hash x = hashOf (raw t) ∧ (since - at_ x <= ttl0)%Z;
  inv_conflicted t : t ∈ calls s → at_pc t = Conflicted →
    ∃ x, stored_by s (slot t) x ∧ hash x ≠ hashOf (raw t);
  (* a run that began after an answer was kept began when that had expired *)
  inv_apart t b until c t' a since : t ∈ calls s → kept t b until c → t' ∈ calls s →
    slot t' = slot t → began t' = Some (a, since) → b < a → (ttl0 < since - until)%Z
}.

(** ** Lemmas *)

Lemma elem_update {A} (l : list A) i x y : y ∈ <[i:=x]> l → y = x ∨ y ∈ l.
Proof.
  intros (j & Hj)%list_elem_of_lookup. destruct (decide (i = j)) as [->|Hij].
  - apply list_lookup_insert_Some in Hj as [(_ & -> & _)|(Hne & _)]; [by left|done].
  - rewrite list_lookup_insert_ne in Hj by done. right. by eapply list_elem_of_lookup_2.
Qed.

Lemma elem_untouched {A} (l : list A) i x y z : l !! i = Some z → y ∈ l → y ≠ z → y ∈ <[i:=x]> l.
Proof.
  intros Hi (j & Hj)%list_elem_of_lookup Hne. apply (list_elem_of_lookup_2 _ j).
  rewrite list_lookup_insert_ne; [done|]. intros ->. congruence.
Qed.

Lemma elem_updated {A} (l : list A) i x z : l !! i = Some z → x ∈ <[i:=x]> l.
Proof.
  intros Hi. apply (list_elem_of_lookup_2 _ i). apply list_lookup_insert_eq. by apply lookup_lt_Some in Hi.
Qed.

(** Answers stay what runs captured while the finished requests stay. *)
Lemma stored_by_mono s s' k x :
  (∀ t b until c, t ∈ calls s → kept t b until c → t ∈ calls s') → stored_by s k x → stored_by s' k x.
Proof. intros Hs (t & b & c & Ht & Hk & Hkept & ?). exists t, b, c. eauto 10. Qed.

Lemma kept_stays (l : list call) (i : nat) t0 x t b until c : l !! i = Some t0 →
  (∀ b until c, ¬ kept t0 b until c) → t ∈ l → kept t b until c → t ∈ <[i:=x]> l.
Proof. intros Hi Hno Ht Hk. eapply elem_untouched; [done..|]. intros ->. by eapply Hno. Qed.

(** Only what has expired is dropped, and the slot of a store holds what was captured. *)
Lemma Store_lookup i now scope key raw c k x : stored (Store i now scope key raw c) !! k = Some x →
  k = idem_key scope key ∧ x = mkStored (hashOf raw) (cap_status c) (cap_header c) (cap_body c) now ∨
  k ≠ idem_key scope key ∧ stored i !! k = Some x.
Proof.
  unfold Store. cbn [stored]. destruct (decide (idem_key scope key = k)) as [<-|Hk].
  - rewrite lookup_insert_eq. intros [= <-]. by left.
  - rewrite lookup_insert_ne by done. intros Hx. right. split; [done|].
    destruct (_ <? _)%Z; [|done]. by apply map_lookup_filter_Some in Hx as [Hx _].
Qed.

Lemma Store_kept i now scope key raw c k x : k ≠ idem_key scope key → stored i !! k = Some x →
  stored (Store i now scope key raw c) !! k = Some x ∨ (ttl i < now - at_ x)%Z.
Proof.
  intros Hk Hx. unfold Store. cbn [stored]. rewrite lookup_insert_ne by done.
  destruct (_ <? _)%Z; [|by left]. destruct (expired i now x) eqn:He.
  - right. unfold expired in He. by apply Z.ltb_lt in He.
  - left. by apply map_lookup_filter_Some.
Qed.

Lemma initial_inv ttl0 n : inv ttl0 (initial ttl0 n).
Proof.
  split; cbn; [done|..]; intros; exfalso;
    match goal with
    | H : _ ∈ [] |- _ => by apply elem_of_nil in H
    | H : _ !! _ = Some _ |- _ => by rewrite lookup_empty in H
    end.
Qed.

(** The clock and the requests that arrive. *)
Lemma inv_tick ttl0 s d : (0 <= d)%Z → inv ttl0 s → inv ttl0 (mkState (idem s) (now s + d) (steps s) (calls s)).
Proof.
  intros Hd [H1 H2 H3 H4 H5 H6 H8 H7]. split; cbn; [done|done| |exact H4| |exact H6|exact H8|exact H7].
  - intros t b until c Ht Hk. destruct (H3 t b until c Ht Hk). lia.
  - intros t b until c Ht Hk. destruct (H5 t b until c Ht Hk) as [|(x & Hx & Hle)]; [left; lia|right; by exists x].
Qed.

Lemma waiting_kept t b until c : at_pc t = Waiting → ¬ kept t b until c.
Proof. intros Ht [(a & since & Hf) _]. congruence. Qed.

Lemma inv_arrive ttl0 s t0 : at_pc t0 = Waiting → inv ttl0 s →
  inv ttl0 (mkState (idem s) (now s) (steps s) (calls s ++ [t0])).
Proof.
  intros Hw [H1 H2 H3 H4 H5 H6 H8 H7].
  assert (Hin : ∀ t, t ∈ calls s ++ [t0] → t ∈ calls s ∨ t = t0)
    by (intros t [?|?%list_elem_of_singleton]%elem_of_app; auto).
  assert (Hb : began t0 = None) by (unfold began; by rewrite Hw).
  assert (Hmono : ∀ k x, stored_by s k x → stored_by (mkState (idem s) (now s) (steps s) (calls s ++ [t0])) k x).
  { intros k x. apply stored_by_mono. intros t b until c Ht _. apply elem_of_app. by left. }
  assert (Hk : ∀ t b until c, t ∈ calls s ++ [t0] → kept t b until c → t ∈ calls s).
  { intros t b until c [?| ->]%Hin Hkept; [done|]. by apply waiting_kept in Hkept. }
  split; cbn; [done|..].
  - intros t a since [Ht| ->]%Hin Hbeg; [by eapply H2|congruence].
  - intros t b until c Ht Hkept. eapply H3; [|exact Hkept]. by eapply Hk.
  - intros k x Hx. by apply Hmono, H4.
  - intros t b until c Ht Hkept. eapply H5; [|exact Hkept]. by eapply Hk.
  - intros t since x [Ht| ->]%Hin Hpc; [|congruence]. destruct (H6 t since x Ht Hpc). auto.
  - intros t [Ht| ->]%Hin Hpc; [|congruence]. destruct (H8 t Ht Hpc) as (x & Hx & Hh). eauto.
  - intros t b until c t' a since Ht Hkept [Ht'| ->]%Hin Hs Hbeg Hlt; [|congruence].
    eapply (H7 t b until c t' a since); eauto.
Qed.

(** A request's next state, when what it captured stays. *)
Section move.
Context (ttl0 : Z) (s : state) (i : nat) (t0 : call) (Hi : calls s !! i = Some t0).
Context (Hno : ∀ b until c, ¬ kept t0 b until c).

Lemma moved_stored st n p k x : stored_by s k x →
  stored_by (mkState st (now s) n (<[i := go t0 p]> (calls s))) k x.
Proof. apply stored_by_mono. intros t b until c Ht Hk. by eapply kept_stays. Qed.

Lemma inv_lookup : at_pc t0 = Waiting → inv ttl0 s →
  inv ttl0 (mkState (idem s) (now s) (S (steps s)) (<[i := go t0 (looked_up s t0)]> (calls s))).
Proof.
  intros Hw [H1 H2 H3 H4 H5 H6 H8 H7]. set (p := looked_up s t0).
  assert (Hp : (∀ b until c, ¬ kept (go t0 p) b until c) ∧
    (∀ a since, began (go t0 p) = Some (a, since) → a = steps s ∧ since = now s ∧
       Lookup (idem s) (now s) (scope t0) (key t0) (raw t0) = (None, false)) ∧
    (∀ since x, p = Replayed since x → since = now s ∧
       Lookup (idem s) (now s) (scope t0) (key t0) (raw t0) = (Some x, false)) ∧
    (p = Conflicted → ∃ o, Lookup (idem s) (now s) (scope t0) (key t0) (raw t0) = (o, true))).
  { unfold p, looked_up, began, kept. destruct (Lookup _ _ _ _ _) as [[y|] []]; cbn; split_and!; try done;
      try (intros b until c [(a & since & Hf) _]; done); try (by intros; eexists); try (by intros ? ? [= <- ->]);
      by intros ? ? [= <- <-]. }
  destruct Hp as (Hk & Hbeg & Hrep & Hcon).
  assert (Hold : ∀ t b until c, t ∈ <[i:=go t0 p]> (calls s) → kept t b until c → t ∈ calls s).
  { intros t b until c [->|Ht]%elem_update Hkept; [by apply Hk in Hkept|done]. }
  split; cbn; [done|..].
  - intros t a since [->|Ht]%elem_update Hb; [apply Hbeg in Hb; lia|]. apply H2 in Hb; [lia|done].
  - intros t b until c Ht Hkept. destruct (H3 t b until c); [by eapply Hold|done|lia].
  - intros k x Hx. by apply moved_stored, H4.
  - intros t b until c Ht Hkept. apply (H5 t b until c); [by eapply Hold|done].
  - intros t since x [->|Ht]%elem_update Hpc.
    + cbn in Hpc. apply Hrep in Hpc as [-> Hpc]. unfold Lookup in Hpc. change (slot (go t0 p)) with (slot t0).
      unfold slot at 1. destruct (stored (idem s) !! idem_key _ _) as [y|] eqn:Hy; [|done].
      destruct (expired _ _ _) eqn:He; [done|]. destruct (String.eqb _ _) eqn:Hh; [|done]. injection Hpc as ->.
      split; [by apply moved_stored, H4|]. apply String.eqb_eq in Hh. unfold expired in He.
      apply Z.ltb_ge in He. split; [done|lia].
    + destruct (H6 t since x Ht Hpc) as [Hx Hh]. split; [by apply moved_stored|done].
  - intros t [->|Ht]%elem_update Hpc.
    + destruct (Hcon Hpc) as [o Hl]. unfold Lookup in Hl. change (slot (go t0 p)) with (slot t0).
      unfold slot. destruct (stored (idem s) !! idem_key _ _) as [y|] eqn:Hy; [|done].
      destruct (expired _ _ _); [done|]. destruct (String.eqb _ _) eqn:Hh; [done|].
      exists y. split; [by apply moved_stored, H4|]. by apply String.eqb_neq in Hh.
    + destruct (H8 t Ht Hpc) as (x & Hx & Hh). exists x. split; [by apply moved_stored|done].
  - intros t b until c t' a since Ht Hkept [->|Ht']%elem_update Hs Hb Hlt.
    + apply Hold with (1 := Ht) in Hkept as Ht0. destruct (Hbeg _ _ Hb) as (-> & -> & Hl).
      destruct (H5 t b until c Ht0 Hkept) as [|(x & Hx & Hle)]; [done|].
      change (slot (go t0 p)) with (slot t0) in Hs. unfold Lookup in Hl. fold (slot t0) in Hl.
      rewrite Hs, Hx in Hl. destruct (expired _ _ _) eqn:He; [|by destruct (negb _)].
      unfold expired in He. apply Z.ltb_lt in He. lia.
    + eapply (H7 t b until c t' a since); eauto.
Qed.

Lemma inv_finish a since c : at_pc t0 = Running a since → inv ttl0 s →
  inv ttl0 (mkState
    (if (cap_status c <? 500)%Z then Store (idem s) (now s) (scope t0) (key t0) (raw t0) c else idem s)
    (now s) (S (steps s)) (<[i := go t0 (Finished a since (steps s) (now s) c)]> (calls s))).
Proof.
  intros Hr [H1 H2 H3 H4 H5 H6 H8 H7]. set (t1 := go t0 _).
  assert (Ht0 : t0 ∈ calls s) by (by eapply list_elem_of_lookup_2).
  assert (Ht1 : t1 ∈ <[i:=t1]> (calls s)) by (by eapply elem_updated).
  assert (Hk1 : ∀ b until c', kept t1 b until c' → b = steps s ∧ until = now s ∧ c' = c).
  { intros b until c' [(a' & since' & [= -> -> -> -> ->]) _]. done. }
  assert (Hb1 : began t1 = began t0) by (unfold began; by rewrite Hr).
  split; cbn.
  - by destruct (_ <? _)%Z.
  - intros t a' since' [->|Ht]%elem_update Hb; [rewrite Hb1 in Hb|]; apply H2 in Hb; try done; lia.
  - intros t b until c' [->|Ht]%elem_update Hk; [apply Hk1 in Hk as (-> & -> & ->); lia|].
    apply H3 in Hk; [lia|done].
  - intros k x Hx. destruct (Z.ltb_spec (cap_status c) 500) as [Hc|Hc]; [|by apply moved_stored, H4].
    apply Store_lookup in Hx as [[-> ->]|[_ Hx]]; [|by apply moved_stored, H4].
    exists t1, (steps s), c. split_and!; try done. split; [by repeat eexists|done].
  - intros t b until c' [->|Ht]%elem_update Hk.
    + pose proof (Hk1 _ _ _ Hk) as (-> & -> & ->). destruct Hk as [_ Hc]. right.
      rewrite (proj2 (Z.ltb_lt _ _) Hc). eexists. split; [unfold Store; cbn [stored]; apply lookup_insert_eq|done].
    + destruct (H5 t b until c' Ht Hk) as [|(x & Hx & Hle)]; [by left|].
      destruct (Z.ltb_spec (cap_status c) 500) as [Hc|Hc]; [|right; by exists x].
      destruct (decide (slot t = idem_key (scope t0) (key t0))) as [He|He].
      * right. eexists. split; [unfold Store; cbn [stored]; rewrite He; apply lookup_insert_eq|]. cbn.
        apply H3 in Hk; [lia|done].
      * apply (Store_kept _ (now s) (scope t0) (key t0) (raw t0) c) in Hx as [Hx|Hx]; [|left; lia|done].
        right. by exists x.
  - intros t since' x [->|Ht]%elem_update Hpc; [done|].
    destruct (H6 t since' x Ht Hpc) as [Hx Hh]. split; [by apply moved_stored|done].
  - intros t [->|Ht]%elem_update Hpc; [done|].
    destruct (H8 t Ht Hpc) as (x & Hx & Hh). exists x. split; [by apply moved_stored|done].
  - intros t b until c' t' a' since' [->|Ht]%elem_update Hk [->|Ht']%elem_update Hs Hb Hlt.
    + rewrite Hb1 in Hb. apply Hk1 in Hk as (-> & _). apply H2 in Hb; [lia|done].
    + apply Hk1 in Hk as (-> & _). apply H2 in Hb; [lia|done].
    + rewrite Hb1 in Hb. by eapply (H7 t b until c' t0 a' since').
    + by eapply (H7 t b until c' t' a' since').
Qed.
End move.

Lemma inv_step ttl0 s s' : step s s' → inv ttl0 s → inv ttl0 s'.
Proof.
  intros [i s1 Hs|i c s1 Hs|t Hw|d Hd] Hinv; [..|by apply inv_arrive|by apply inv_tick].
  - unfold step_lookup in Hs. destruct (calls s !! i) as [t|] eqn:Hi; [|done]. cbn in Hs.
    destruct (at_pc t) eqn:Hpc; try done. injection Hs as <-.
    apply inv_lookup; [done|intros; by apply waiting_kept|done..].
  - unfold step_finish in Hs. destruct (calls s !! i) as [t|] eqn:Hi; [|done]. cbn in Hs.
    destruct (at_pc t) eqn:Hpc; try done. injection Hs as <-.
    apply inv_finish; [done| |done..]. intros b until c' [(? & ? & Hf) _]. congruence.
Qed.

Lemma inv_reachable ttl0 s : reachable ttl0 s → inv ttl0 s.
Proof.
  intros [n Hn]. pose proof (initial_inv ttl0 n) as H. revert H.
  induction Hn as [|s1 s2 s3 Hs _ IH]; [done|]. intros H. by apply IH, (inv_step _ s1).
Qed.

(** ** A request that nothing interrupts *)

(** [Rest.Once] is a lookup and, when it runs, the end of the run, with the clock moved between
    them. *)
Lemma Once_steps i r clock user body do w st :
  let k := hdr_get (ReqHeader r) "Idempotency-Key" in
  is_empty k = false → (clock.1 <= clock.2)%Z →
  post (Once r (Some i) clock user body do w st) (λ x, ∃ s' t',
    rtc step (mkState i clock.1 0 [mkCall (IdemScope r user) k body Waiting]) s' ∧
    calls s' = [t'] ∧ x.1.2 = Some (idem s') ∧
    match at_pc t' with
    | Conflicted => x.1.1 = Fail r conflict_problem w
    | Replayed _ y => x.1.1 = Replay y w
    | Finished _ _ _ _ c => c = capture w x.1.1
    | _ => False
    end).
Proof.
  cbv zeta. set (k := hdr_get _ _). intros Hk Hclock. unfold Once. fold k. rewrite Hk.
  set (t := mkCall (IdemScope r user) k body Waiting). set (s0 := mkState i clock.1 0 [t]).
  assert (Hl : step s0 (mkState i clock.1 1 [go t (looked_up s0 t)])) by by apply (lookup s0 0).
  unfold looked_up in Hl. cbn [idem now scope key raw s0 t steps] in Hl.
  destruct (Lookup i clock.1 (IdemScope r user) k body) as [[y|] []] eqn:Hlk; cbn [post mret M_ret fst snd].
  - exists (mkState i clock.1 1 [go t Conflicted]), (go t Conflicted).
    split_and!; [by apply rtc_once|done..].
  - exists (mkState i clock.1 1 [go t (Replayed clock.1 y)]), (go t (Replayed clock.1 y)).
    split_and!; [by apply rtc_once|done..].
  - exists (mkState i clock.1 1 [go t Conflicted]), (go t Conflicted).
    split_and!; [by apply rtc_once|done..].
  - apply post_any. intros w' st'. cbn [post mret M_ret fst snd].
    set (c := capture w w'). set (t1 := go t (Running 0 clock.1)).
    set (s1 := mkState i clock.1 1 [t1]). set (s2 := mkState i clock.2 1 [t1]).
    set (t2 := go t1 (Finished 0 clock.1 1 clock.2 c)).
    exists (mkState (if (cap_status c <? 500)%Z then Store i clock.2 (IdemScope r user) k body c else i)
              clock.2 2 [t2]), t2.
    split_and!; [|done..]. apply (rtc_l _ _ s1); [exact Hl|]. apply (rtc_l _ _ s2).
    + replace s2 with (mkState (idem s1) (now s1 + (clock.2 - clock.1)) (steps s1) (calls s1))
        by (unfold s2, s1; cbn; f_equal; lia). apply tick. lia.
    + by apply rtc_once, (finish s2 0 c).
Qed.

(** ** Schedules *)

Inductive move : Type :=
  | Arrive (scope key raw : string)
  | LookUp (i : nat)
  | Finish (i : nat) (c : Capture)
  | Tick (d : Z).

Definition perform (m : move) (s : state) : option state :=
  match m with
  | Arrive sc k b => Some (mkState (idem s) (now s) (steps s) (calls s ++ [mkCall sc k b Waiting]))
  | LookUp i => step_lookup i s
  | Finish i c => step_finish i c s
  | Tick d => if (0 <=? d)%Z then Some (mkState (idem s) (now s + d) (steps s) (calls s)) else None
  end.

Fixpoint schedule (l : list move) (s : state) : option state :=
  match l with [] => Some s | m :: l => s ← perform m s; schedule l s end.

Lemma schedule_reachable ttl0 n l s : schedule l (initial ttl0 n) = Some s → reachable ttl0 s.
Proof.
  intros H. exists n. revert H. generalize (initial ttl0 n). induction l as [|m l IH]; intros s1; cbn [schedule].
  - intros [= ->]. apply rtc_refl.
  - destruct (perform m s1) as [s2|] eqn:Hm; [|done]. intros H%IH. eapply rtc_l; [|exact H].
    destruct m as [sc k b|i|i c|d]; cbn [perform] in Hm.
    + injection Hm as <-. by apply arrive.
    + by eapply lookup.
    + by eapply finish.
    + destruct (Z.leb_spec 0 d); [|done]. injection Hm as <-. by apply tick.
Qed.

Definition sample_capture : Capture := mkCapture 201 ∅ "{}".

(** The same POST sent again while the first one runs is run too: both reach the database and
    both are answered by their own run. *)
Lemma posts_overlap : ∃ s, reachable 100 s ∧
  at_pc <$> calls s = [Finished 0 0 2 5 sample_capture; Finished 1 1 3 6 sample_capture] ∧
  slot <$> calls s = [idem_key "user" "k1"; idem_key "user" "k1"].
Proof.
  eexists. split.
  - apply (schedule_reachable 100 0 [Arrive "user" "k1" "{}"; LookUp 0; Tick 1; Arrive "user" "k1" "{}"; LookUp 1;
      Tick 4; Finish 0 sample_capture; Tick 1; Finish 1 sample_capture]). vm_compute. reflexivity.
  - split; vm_compute; reflexivity.
Qed.

(** ** Property *)

(** C18. POSTs under an Idempotency-Key interleaved in any way: a replay gives the answer that a run
    of a request of the same slot - session, path and key - with the same body (by its hash)
    finished with, below 500 and no longer ago than the TTL; a 409 means that a run of the
    slot with another body finished; and of two runs of a slot, one that began after
    the other had left an answer to keep began more than the TTL after it. *)
Theorem posts_interleaved ttl0 s : reachable ttl0 s →
  (∀ t since x, t ∈ calls s → at_pc t = Replayed since x → ∃ t' b c,
     t' ∈ calls s ∧ slot t' = slot t ∧ hashOf (raw t') = hashOf (raw t) ∧ kept t' b (at_ x) c ∧
     st_status x = cap_status c ∧ st_header x = cap_header c ∧ st_body x = cap_body c ∧
     (since - at_ x <= ttl0)%Z) ∧
  (∀ t, t ∈ calls s → at_pc t = Conflicted → ∃ t' b until c,
     t' ∈ calls s ∧ slot t' = slot t ∧ hashOf (raw t') ≠ hashOf (raw t) ∧ kept t' b until c) ∧
  ∀ t b until c t' a since, t ∈ calls s → kept t b until c → t' ∈ calls s → slot t' = slot t →
    began t' = Some (a, since) → b < a → (ttl0 < since - until)%Z.
Proof.
  intros Hs%inv_reachable. split_and!.
  - intros t since x Ht Hpc. destruct (inv_replayed _ _ Hs t since x Ht Hpc) as [Hx [Hh Htime]].
    destruct Hx as (t' & b & c & Ht' & Hslot & Hk & Hhash & ?). exists t', b, c.
    split_and!; try done; [congruence|naive_solver..].
  - intros t Ht Hpc. destruct (inv_conflicted _ _ Hs t Ht Hpc) as (x & Hx & Hh).
    destruct Hx as (t' & b & c & Ht' & Hslot & Hk & Hhash & _). exists t', b, (at_ x), c.
    split_and!; try done. congruence.
  - intros t b until c t' a since. apply (inv_apart _ _ Hs).
Qed.

(** ** Witness *)

(** The retry of a request that has finished. *)
Definition sample_schedule : list move :=
  [Arrive "user" "k1" "{}"; LookUp 0; Tick 5; Finish 0 sample_capture; Tick 60; Arrive "user" "k1" "{}"; LookUp 1].

Lemma posts_interleaved_witness : ∃ s t x, reachable 100 s ∧ t ∈ calls s ∧ at_pc t = Replayed 65 x ∧
  ∃ t' b c, t' ∈ calls s ∧ slot t' = slot t ∧ kept t' b (at_ x) c ∧ st_status x = cap_status c.
Proof.
  destruct (schedule sample_schedule (initial 100 0)) as [s|] eqn:Hs; [|exfalso; vm_compute in Hs; discriminate Hs].
  assert (Hr : reachable 100 s) by (eapply schedule_reachable; exact Hs).
  assert (Ht : ∃ t x, calls s !! 1 = Some t ∧ at_pc t = Replayed 65 x).
  { vm_compute in Hs. injection Hs as <-. by do 2 eexists. }
  destruct Ht as (t & x & Ht%list_elem_of_lookup_2 & Hpc). exists s, t, x. split; [exact Hr|].
  split; [exact Ht|]. split; [exact Hpc|].
  destruct (posts_interleaved 100 s Hr) as [H _].
  destruct (H t 65%Z x Ht Hpc) as (t' & b & c & Ht' & Hslot & _ & Hk & Hst & _).
  exists t', b, c. split; [exact Ht'|]. split; [exact Hslot|]. split; [exact Hk|exact Hst].
Defined.
