(* ===== verification/Entity.v ===== *)
(** * lib/entity: the form of an entity package

    The six routes of the form over api.* (entity.go) and the search of a list
    (search.go).  What the form shares with lib/rest is [Rest]'s; its routes take the
    response writer and the store of answers as [Rest.posting] does.  The OpenAPI
    description of the routes is EntityApi's. *)

From S2P Require Import Prelude.
From S2P Require Import GoStrings.
From S2P Require Import GoJson.
From S2P Require Import Problem.
From S2P Require Import Db.
From S2P Require Import Pgtx.
From S2P Require Import Http.
From S2P Require Import Url.
From S2P Require Import Decode.
From S2P Require Import Doer.
From S2P Require Import Rest.
From S2P Require Query.

(** ** search.go *)

Record condition := mkCondition {
  Condition : string;
  Field : string;
  Compare : string;
  Value : string;
  ValArr : list string;
  LStr : string;
  RStr : string
}.

(** [json.Marshal] of a condition: [omitempty] on all but the field. *)
Definition condition_json (c : condition) : json :=
  let member k s := if is_empty s then [] else [(k, JStr (quote_lex s))] in
  JObj (member "condition" (Condition c) ++ [("field", JStr (quote_lex (Field c)))]
        ++ member "compare" (Compare c) ++ member "value" (Value c)
        ++ match ValArr c with
           | [] => []
           | l => [("valarr", JArr (map (λ s, JStr (quote_lex s)) l))]
           end
        ++ member "lstr" (LStr c) ++ member "rstr" (RStr c)).

(** [EscapeLike]: one pass over the bytes. *)
Fixpoint EscapeLike (s : string) : string :=
  match s with
  | EmptyString => EmptyString
  | String c r =>
      if Ascii.eqb c bslash || Ascii.eqb c "%" || Ascii.eqb c "_"
      then String bslash (String c (EscapeLike r)) else String c (EscapeLike r)
  end.

(** The condition of one column of the term's group: its index and how many. *)
Definition term_condition (value : string) (n : nat) (i : nat) (f : string) : condition :=
  mkCondition (if (0 <? i)%nat then "OR" else EmptyString) f "IKE" value []
    (if (i =? 0)%nat then "(" else EmptyString) (if (i =? n - 1)%nat then ")" else EmptyString).

Definition search_conditions (p : Query.Params) (term : string) (fields : list string)
    : list condition :=
  ((λ c, mkCondition EmptyString (Query.Field c) (Query.Compare c) (Query.Value c)
           (Query.ValArr c) EmptyString EmptyString) <$> Query.Search p)
  ++ (if is_empty term then []
      else imap (term_condition ("%" +:+ EscapeLike term +:+ "%") (length fields)) fields).

(** [SearchOf]: [None] is nil. *)
Definition SearchOf (p : Query.Params) (q : string) (fields : list string) : option string :=
  let term := match fields with [] => EmptyString | _ => TrimSpace q end in
  match Query.Search p with
  | [] => if is_empty term then None
          else Some (print (JArr (map condition_json (search_conditions p term fields))))
  | _ => Some (print (JArr (map condition_json (search_conditions p term fields))))
  end.

(** ** entity.go: data *)

Record Entity := mkEntity {
  Name : string;
  entity_Prefix : string;
  entity_Resource : Resource;
  entity_SetFn : string;
  UpdateFn : string;
  entity_NewBody : Body;
  SearchFields : list string;
  entity_Defaults : option (struct → struct);
  entity_CreateFn : string;
  entity_CreateOmit : list string
}.

(** [jsonKeys] of a body, and [Named]: [None] for its panic. *)
Definition jsonKeys (sc : schema) : list string := sc.*1.

Definition Named (sc : schema) (positional : list value) : option Args :=
  let keys := "id" :: jsonKeys sc in
  if (length keys =? length positional)%nat
  then Some (foldl (λ m kv, <[kv.1 := kv.2]> m) ∅ (zip keys positional)) else None.

(** [m.creator]. *)
Definition creator (e : Entity) : Writable :=
  mkWritable (entity_Resource e) (entity_SetFn e) (entity_CreateFn e) (entity_CreateOmit e)
    (entity_NewBody e) EmptyString None (entity_Defaults e).

(** ** entity.go: queries *)

(** [KnownKeys] when the map is iterated in the order [keys]. *)
Definition KnownKeys (keys plain : list string) : res error unit :=
  foldM_res (λ _ k,
    throw_if (negb (HasPrefix k "filter[" || HasPrefix k "page[" || bool_decide (k ∈ plain)))
      (bad_key ("unknown parameter " +:+ k))) keys tt.

Section queries.
Context {T : Texts}.

Definition listArgs (values : Values) (searchFields : list string)
    : res error (Query.Params * option string) :=
  let plain := ["sort"; "fields"] ++ match searchFields with [] => [] | _ => ["q"] end in
  KnownKeys (map_to_list values).*1 plain;;
  throw_if (1 <? length (default [] (values !! "q")))%nat
    (bad_request "q is given more than once");;
  let term := values_get values "q" in
  params ← map_err (λ e, bad_request (query_text e)) (Query.Parse (delete "q" values));
  Ok (params, SearchOf params term searchFields).

Definition fieldsOf (r : Http.Request) : res error (list string) :=
  let values := Query (RawQuery r) in
  foldM_res (λ _ k, throw_if (negb (String.eqb k "fields"))
      (bad_key ("only fields= is taken here, not " +:+ k))) (map_to_list values).*1 tt;;
  p ← map_err (λ e, bad_request (query_text e)) (Query.Parse values);
  Ok (Query.Fields p).
End queries.

(** ** entity.go: reading *)

(** The id of a row is null, or the row is. *)
Definition null_id (rw : row) : bool :=
  match rw ≫= parse with
  | Some JNull => true
  | Some (JObj l) => match last (field_members "id" l) with None | Some JNull => true | _ => false end
  | _ => false
  end.

Definition getRow (e : Entity) (h : handle) (a : Args) : M (res error row) :=
  x ← CallRow h (GetFn (entity_Resource e)) a;
  mret (match x with
        | Err e => Err e
        | Ok rw => if null_id rw then Err ErrNoRow else Ok rw
        end).

Definition Current (e : Entity) (h : handle) (id : string) : M (res error row) :=
  x ← getRow e h {[ "id" := VStr id ]};
  mret (match x with
        | Err e => Err (if is_ErrNoRow e then not_found else e)
        | Ok rw => Ok rw
        end).

Definition idArg (r : Http.Request) : res error Args :=
  id ← IDOf r; Ok {[ "id" := VStr id ]}.

(** No argument but the id is set. *)
Definition emptyBody (b : Body) (st : struct) : bool :=
  forallb (λ kv, String.eqb kv.1 "id" || is_nil kv.2) (map_to_list (body_Args b VNil st)).

Definition is_404 (e : error) : bool :=
  match as_problem e with Some p => (Problem.Status p =? 404)%Z | None => false end.

(** ** entity.go: the handlers of the form *)

Section form.
Context {DO : Doer} {T : Texts}.

Definition List (e : Entity) : handler := λ r ss w,
  match listArgs (Query (RawQuery r)) (SearchFields e) with
  | Err x => mret (Fail r x w)
  | Ok (params, search) => list_answer (entity_Resource e) params search r ss w
  end.

Definition Get (e : Entity) : handler :=
  RowFieldsFunc idArg (getRow e) fieldsOf.

Definition update_args (e : Entity) (r : Http.Request) : res error (string * string * struct) :=
  id ← IDOf r;
  Precondition r;;
  '(raw, st) ← ReadBody r (body_schema (entity_NewBody e));
  throw_if (emptyBody (entity_NewBody e) st)
    (let p := New 400 "validation" "Bad request" "body must carry at least one field" in
     EProblem (if is_empty raw then WithCode CodeJSONEmpty p else p));;
  Validate (entity_NewBody e) false st;;
  Ok (id, raw, st).

(** The write of an update, over the current row. *)
Definition update_row (e : Entity) (id : string) (st : struct) (h : handle) : M (res error row) :=
  let args := body_Args (entity_NewBody e) (VStr id) st in
  if is_empty (UpdateFn e) then CallRow h (entity_SetFn e) args
  else
    x ← Call h (UpdateFn e) args;
    match x with Err x => mret (Err x) | Ok _ => Current e h id end.

Definition Update (e : Entity) : handler := λ r ss w,
  match update_args e r with
  | Err x => mret (Fail r x w)
  | Ok (id, raw, st) =>
      x ← Do ss (ReqOf r 200 raw) (λ h,
        cur ← Current e h id;
        match cur with
        | Err x => mret (Err x)
        | Ok cur =>
            match IfMatch r cur with
            | Err x => mret (Err x)
            | Ok _ => update_row e id st h
            end
        end);
      mret (match x with
            | Err x => Fail r x w
            | Ok rw => WriteJSON 200 (default EmptyString rw) (SetETag rw w)
            end)
  end.

(** [^[a-z][a-z0-9_]{0,63}$]. *)
Definition actionRe (s : string) : bool :=
  head_tail is_lower (λ c, is_lower c || is_digit c || Ascii.eqb c "_") s
  && (String.length s <=? 64)%nat.

(** The parameters of an action: nothing or a JSON object, at most 1 MiB. *)
Definition action_params (r : Http.Request) : res error string :=
  if (max_body <? String.length (Http.Body r))%nat
  then Err (EProblem (New 413 "validation" "Payload too large" "body over 1 MiB"))
  else if BodyFails r then Err (bad_request "body must be a JSON object or empty")
  else
    let params := Http.Body r in
    if is_empty params || Valid params && HasPrefix (skip_ws params) "{" then Ok params
    else Err (bad_request "body must be a JSON object or empty").

Definition action_args (r : Http.Request) : res error (string * string * string) :=
  id ← IDOf r;
  let action := PathValue r "action" in
  throw_if (negb (actionRe action)) (bad_request "bad action name");;
  params ← action_params r;
  Ok (id, action, params).

(** The action on a visible row, and the row after it, [None] when there is none. *)
Definition run_action (e : Entity) (id action params : string) (h : handle)
    : M (res error (option row)) :=
  cur ← Current e h id;
  match cur with
  | Err x => mret (Err x)
  | Ok _ =>
      x ← Call h "execute_object_action"
            (<["object" := VStr id]> (<["code" := VStr action]>
             {[ "params" := JSON_arg (Some params) ]}));
      match x with
      | Err x => mret (Err x)
      | Ok _ =>
          after ← Current e h id;
          match after with
          | Ok rw => mret (Ok (Some rw))
          | Err x =>
              if is_404 x then modify_request (set_Status 204);; mret (Ok None)
              else mret (Err x)
          end
      end
  end.

Definition Action (e : Entity) : handler := λ r ss w,
  match action_args r with
  | Err x => mret (Fail r x w)
  | Ok (id, action, params) =>
      x ← Do ss (ReqOf r 200 params) (run_action e id action params);
      match x with
      | Err x => mret (Fail r x w)
      | Ok rw =>
          st ← get;
          mret (if (req_status st =? 204)%Z then WriteHeader 204 w
                else let rw := default None rw in
                     WriteJSON 200 (default EmptyString rw) (SetETag rw w))
      end
  end.

(** [RowsOf]: a set keyed by the id of a visible row, cut to the fields. *)
Definition rows_of (e : Entity) (fn key : string) (id : string) (fields : list string) (h : handle)
    : M (res error (list row)) :=
  cur ← Current e h id;
  match cur with
  | Err x => mret (Err x)
  | Ok _ =>
      x ← Call h fn {[ key := VStr id ]};
      mret (match x with
            | Err x => Err x
            | Ok rows => Ok ((λ rw, Project rw fields) <$> rows)
            end)
  end.

Definition RowsOf (e : Entity) (fn key : string) : handler :=
  rows_answer (λ r, id ← IDOf r; fields ← fieldsOf r; Ok (id, fields))
    (λ h '(id, fields), rows_of e fn key id fields h).

Definition Methods (e : Entity) : handler := RowsOf e "get_object_methods" "object".

(** [Routes]: the six of the form. *)
Definition Routes (e : Entity) : list (string * posting) :=
  let p := entity_Prefix e in
  [("GET " +:+ p, lift (List e));
   ("GET " +:+ p +:+ "/{id}", lift (Get e));
   ("POST " +:+ p, Create (creator e));
   ("PATCH " +:+ p +:+ "/{id}", lift (Update e));
   ("POST " +:+ p +:+ "/{id}/actions/{action}", lift (Action e));
   ("GET " +:+ p +:+ "/{id}/methods", lift (Methods e))].
End form.
