(* ===== verification/EntityLaws.v ===== *)
(** * lib/entity: what the form guarantees

    The search of a list finds the rows it was asked for, a list takes no query it does not know, the
    writes of an entity happen on a visible (and for a PATCH unchanged) row, and the
    status journalled is the one on the wire. *)

From S2P Require Import Prelude.
From S2P Require Import GoStrings.
From S2P Require Import GoJson.
From S2P Require Import Problem.
From S2P Require Import Db.
From S2P Require Import Pgtx.
From S2P Require Import PgtxLaws.
From S2P Require Import Http.
From S2P Require Import Url.
From S2P Require Import Decode.
From S2P Require Import Doer.
From S2P Require Import Rest.
From S2P Require Import Asks.
From S2P Require Import RestLaws.
From S2P Require Import Entity.
From S2P Require Query.

(** ** The search of a list *)

(** The pattern of ILIKE as the manual of PostgreSQL has it: a percent sign is any text, a backslash takes
    the byte after it as it is, any other byte but the underscore is itself, but for case; [same] is
    what that means for two bytes. *)
Class ILikeLaws (same : ascii → ascii → Prop) (ilike : string → string → Prop) := {
  ilike_end s : ilike EmptyString s ↔ s = EmptyString;
  ilike_percent p s : ilike (String "%" p) s ↔ ∃ a b, s = a +:+ b ∧ ilike p b;
  ilike_quoted c p s : ilike (String bslash (String c p)) s ↔ ∃ d r, s = String d r ∧ same c d ∧ ilike p r;
  ilike_byte c p s : c ∉ ["%"; "_"; bslash]%char →
    ilike (String c p) s ↔ ∃ d r, s = String d r ∧ same c d ∧ ilike p r
}.

(** Conditions in brackets, joined with OR. *)
Definition or_group (g : list condition) : Prop :=
  g ≠ [] ∧ ∀ i c, g !! i = Some c →
    Condition c = (if (i =? 0)%nat then EmptyString else "OR") ∧
    LStr c = (if (i =? 0)%nat then "(" else EmptyString) ∧
    RStr c = (if (S i =? length g)%nat then ")" else EmptyString).

(** The search array of [api.sql()], as the comment of [SearchOf] has it: conditions are joined with
    AND, a bracketed group with OR in it; of a condition only field, comparison and
    values count for a row, and IKE is ILIKE on the text of its column. *)
Class SearchLaws {Row} (column : Row → string → string) (ilike : string → string → Prop)
    (holds : Row → condition → Prop) (selects : Row → list condition → Prop) := {
  selects_all r : selects r [];
  selects_and r l c : Condition c = EmptyString → LStr c = EmptyString → RStr c = EmptyString →
    selects r (l ++ [c]) ↔ selects r l ∧ holds r c;
  selects_group r l g : or_group g → selects r (l ++ g) ↔ selects r l ∧ ∃ c, c ∈ g ∧ holds r c;
  holds_ilike r c : Compare c = "IKE" → holds r c ↔ ilike (Value c) (column r (Field c))
}.

Section search.
Context (same : ascii → ascii → Prop) (ilike : string → string → Prop) {HI : ILikeLaws same ilike}.




Context {Row : Type} (column : Row → string → string) (holds : Row → condition → Prop)
  (selects : Row → list condition → Prop) {HS : SearchLaws column ilike holds selects}.





End search.

(** A database of one row for the search: its columns, ILIKE on ASCII letters. *)
Inductive ascii_ilike : string → string → Prop :=
  | ai_end : ascii_ilike EmptyString EmptyString
  | ai_percent a p s : ascii_ilike p s → ascii_ilike (String "%" p) (a +:+ s)
  | ai_any d p s : ascii_ilike p s → ascii_ilike (String "_" p) (String d s)
  | ai_quoted c d p s : lower_byte c = lower_byte d → ascii_ilike p s →
      ascii_ilike (String bslash (String c p)) (String d s)
  | ai_byte c d p s : c ∉ ["%"; "_"; bslash]%char → lower_byte c = lower_byte d → ascii_ilike p s →
      ascii_ilike (String c p) (String d s).

#[local] Instance ascii_ilike_laws : ILikeLaws (λ c d, lower_byte c = lower_byte d) ascii_ilike.
Proof.
  assert (Hspecial : ∀ c, c ∈ ["%"; "_"; bslash]%char → c ∉ ["%"; "_"; bslash]%char → False) by auto.
  split.
  - intros s. split; [by inversion 1|]. intros ->. constructor.
  - intros p s. split.
    + inversion 1; subst; [by do 2 eexists|]. exfalso. eapply Hspecial; [|eassumption]. left.
    + intros (a & b & -> & H). by constructor.
  - intros c p s. split.
    + inversion 1; subst; [by do 2 eexists|]. exfalso. eapply Hspecial; [|eassumption]. do 2 right. left.
    + intros (d & r & -> & H1 & H2). by constructor.
  - intros c p s Hc. split.
    + inversion 1; subst; [exfalso; apply Hc; left|exfalso; apply Hc; right; left|exfalso; apply Hc; do 2 right; left|].
      by do 2 eexists.
    + intros (d & r & -> & H1 & H2). by constructor.
Qed.

Definition demo_column (r : list (string * string)) (f : string) : string :=
  from_option snd EmptyString (list_find (λ x, x.1 = f) r ≫= λ x, Some x.2).

Definition demo_holds (r : list (string * string)) (c : condition) : Prop :=
  if String.eqb (Compare c) "IKE" then ascii_ilike (Value c) (demo_column r (Field c))
  else demo_column r (Field c) = Value c.

(** What is joined so far, and the group that is open. *)
Definition demo_step (r : list (string * string)) (s : Prop * Prop) (c : condition) : Prop * Prop :=
  if String.eqb (LStr c) "(" then (s.1 ∧ s.2, demo_holds r c)
  else if String.eqb (Condition c) "OR" then (s.1, s.2 ∨ demo_holds r c)
  else (s.1 ∧ s.2 ∧ demo_holds r c, True).

Definition demo_selects (r : list (string * string)) (l : list condition) : Prop :=
  let '(done, open) := foldl (demo_step r) (True, True) l in done ∧ open.

#[local] Instance demo_search_laws : SearchLaws demo_column ascii_ilike demo_holds demo_selects.
Proof.
  unfold demo_selects. split.
  - by intros r.
  - intros r l c H1 H2 H3. rewrite foldl_app. destruct (foldl (demo_step r) _ l) as [a b]. cbn.
    unfold demo_step. rewrite H1, H2. cbn. tauto.
  - intros r l g [Hne Hg]. rewrite foldl_app. destruct (foldl (demo_step r) _ l) as [a b].
    destruct g as [|c g]; [done|]. destruct (Hg 0 c eq_refl) as (Hc & Hl & _). cbn [foldl].
    unfold demo_step at 2. rewrite Hl. cbn [fst snd String.eqb]. rewrite String.eqb_refl.
    assert (Htail : ∀ x y, let '(d, o) := foldl (demo_step r) (x, y) g in
      (d ∧ o) ↔ (x ∧ (y ∨ ∃ c', c' ∈ g ∧ demo_holds r c'))).
    { assert (Hor : ∀ c', c' ∈ g → Condition c' = "OR" ∧ LStr c' = EmptyString).
      { intros c' [i Hi]%list_elem_of_lookup. by destruct (Hg (S i) c' Hi) as (? & ? & _). }
      clear -Hor. induction g as [|c' g IH]; intros x y.
      - cbn. split; [intros [? ?]; auto|]. intros [? [?|(c' & []%elem_of_nil & _)]]; auto.
      - cbn [foldl]. unfold demo_step at 2. destruct (Hor c') as [-> ->]; [left|]. cbn [String.eqb fst snd].
        change (String.eqb EmptyString "(") with false. change (String.eqb "OR" "OR") with true. cbn iota.
        specialize (IH (λ c'' H, Hor c'' (list_elem_of_further _ _ _ H)) x (y ∨ demo_holds r c')).
        destruct (foldl (demo_step r) _ g) as [d o]. rewrite IH. setoid_rewrite elem_of_cons. naive_solver. }
    specialize (Htail (a ∧ b) (demo_holds r c)). destruct (foldl (demo_step r) _ g) as [d o].
    rewrite Htail. setoid_rewrite elem_of_cons. naive_solver.
  - intros r c Hc. unfold demo_holds. by rewrite Hc.
Qed.


(** ** Lemmas: queries *)

Lemma KnownKeys_ok keys plain : KnownKeys keys plain = Ok tt ↔
  Forall (λ k, HasPrefix k "filter[" = true ∨ HasPrefix k "page[" = true ∨ k ∈ plain) keys.
Proof.
  unfold KnownKeys. induction keys as [|k keys IH]; [by rewrite Forall_nil|].
  rewrite Forall_cons, <- IH. cbn [foldM_res].
  assert (Hb : HasPrefix k "filter[" || HasPrefix k "page[" || bool_decide (k ∈ plain) = true ↔
    HasPrefix k "filter[" = true ∨ HasPrefix k "page[" = true ∨ k ∈ plain)
    by (rewrite !orb_true_iff, bool_decide_eq_true; tauto).
  destruct (_ || _); cbn [negb throw_if mbind res_bind].
  - split; [|by intros [_ ?]]. split; [by apply Hb|done].
  - split; [done|]. intros [H _]. by apply Hb in H.
Qed.

Lemma KnownKeys_err keys plain e : KnownKeys keys plain = Err e →
  ∃ k, k ∈ keys ∧ e = bad_key ("unknown parameter " +:+ k) ∧
    HasPrefix k "filter[" = false ∧ HasPrefix k "page[" = false ∧ k ∉ plain.
Proof.
  unfold KnownKeys. intros (s & k & Hk & He)%foldM_res_err.
  destruct (_ || _) eqn:Hb; [done|]. cbn [negb throw_if] in He. injection He as <-.
  apply orb_false_iff in Hb as [[? ?]%orb_false_iff ?%bool_decide_eq_false]. by exists k.
Qed.

(** A list refuses what it does not know: when the query of a list is taken, each of
    its names is a filter, a page, sort, fields, or q where the entity has columns for
    it, q is given at most once, and the rest is a query the translation accepts;
    every refusal is a 400, and a refusal for a name carries the code of an unknown
    key. *)
Lemma listArgs_known {T : Texts} values sf :
  match listArgs values sf with
  | Ok (params, search) =>
      (∀ k, is_Some (values !! k) → HasPrefix k "filter[" = true ∨ HasPrefix k "page[" = true ∨
         k = "sort" ∨ k = "fields" ∨ k = "q" ∧ sf ≠ []) ∧
      length (default [] (values !! "q")) ≤ 1 ∧
      Query.Parse (delete "q" values) = Ok params ∧
      search = SearchOf params (values_get values "q") sf
  | Err e => ∃ p, as_problem e = Some p ∧ Problem.Status p = 400%Z ∧
      ((∃ k, is_Some (values !! k) ∧ HasPrefix k "filter[" = false ∧ HasPrefix k "page[" = false ∧
         k ≠ "sort" ∧ k ≠ "fields" ∧ (k = "q" → sf = [])) → Code p = Some CodeJSONKey)
  end.
Proof.
  set (plain := ["sort"; "fields"] ++ match sf with [] => [] | _ => ["q"] end).
  assert (Hplain : ∀ k, k ∈ plain ↔ k = "sort" ∨ k = "fields" ∨ k = "q" ∧ sf ≠ []).
  { intros k. unfold plain. rewrite elem_of_app, !elem_of_cons, elem_of_nil.
    destruct sf; rewrite ?elem_of_cons, elem_of_nil; intuition congruence. }
  assert (Hkeys : ∀ k, k ∈ (map_to_list values).*1 ↔ is_Some (values !! k)).
  { intros k. rewrite list_elem_of_fmap. split.
    - intros ([j v] & -> & Hin%elem_of_map_to_list). by eexists.
    - intros [v Hv]. exists (k, v). split; [done|]. by apply elem_of_map_to_list. }
  unfold listArgs. fold plain.
  destruct (KnownKeys _ plain) as [[]|e] eqn:Hk; cbn [mbind res_bind].
  - apply KnownKeys_ok in Hk. rewrite Forall_forall in Hk.
    assert (Hknown : ∀ k, is_Some (values !! k) → HasPrefix k "filter[" = true ∨
      HasPrefix k "page[" = true ∨ k = "sort" ∨ k = "fields" ∨ k = "q" ∧ sf ≠ []).
    { intros k [H|[H|H]]%Hkeys%Hk; [auto..|]. apply Hplain in H. naive_solver. }
    destruct (Nat.ltb_spec 1 (length (default [] (values !! "q")))) as [Hq|Hq];
      cbn [throw_if mbind res_bind].
    { eexists. split; [done|]. split; [done|]. intros (k & Hin & H). apply Hknown in Hin.
      naive_solver congruence. }
    destruct (Query.Parse _) as [params|e]; cbn [map_err mbind res_bind]; [by split_and!|].
    eexists. split; [done|]. split; [done|]. intros (k & Hin & H). apply Hknown in Hin.
    naive_solver congruence.
  - apply KnownKeys_err in Hk as (k & _ & -> & _). eexists. by split_and!.
Qed.

(** ** Lemmas: the row of an entity *)

(** The reading of an entity's row, one whose id is not null. *)
Definition shown (cur : row) : Prop := null_id cur = false.

Lemma getRow_sat P e h n id s past Q :
  on h = Tx n →
  (∀ o, calls_on n (GetFn (entity_Resource e)) {[ "id" := id ]} o → P past o) →
  (∀ o x rw, calls_on n (GetFn (entity_Resource e)) {[ "id" := id ]} o → first_answer x rw → shown rw →
     Q (Ok rw, s) (past ++ [(o, x)])) →
  (∀ x t, past `prefix_of` t → Q (Err x, s) t) →
  sat P past (getRow e h {[ "id" := id ]} s) Q.
Proof.
  intros Hh HP HQ He. unfold getRow. apply sat_mbind. apply (CallRow_sat _ _ n); [done|done| |].
  - intros o x rw Hc Hx. cbn [fst snd sat mret M_ret]. destruct (null_id rw) eqn:Hn.
    + apply He. by eexists.
    + by apply HQ.
  - intros x t Ht. by apply He.
Qed.

Lemma Current_sat P e h n id s past Q :
  on h = Tx n →
  (∀ o, calls_on n (GetFn (entity_Resource e)) {[ "id" := VStr id ]} o → P past o) →
  (∀ o x rw, calls_on n (GetFn (entity_Resource e)) {[ "id" := VStr id ]} o → first_answer x rw →
     shown rw → Q (Ok rw, s) (past ++ [(o, x)])) →
  (∀ x t, past `prefix_of` t → Q (Err x, s) t) →
  sat P past (Current e h id s) Q.
Proof.
  intros Hh HP HQ He. unfold Current. apply sat_mbind. apply (getRow_sat _ _ _ n); [done|done| |].
  - intros o x rw Hc Hx Hs. by apply HQ.
  - intros x t Ht. by apply He.
Qed.

Lemma asks_getRow e h a : asks h (getRow e h a).
Proof. unfold getRow. auto with platform. Qed.
#[export] Hint Resolve asks_getRow : platform.

Lemma asks_Current e h id : asks h (Current e h id).
Proof. unfold Current. auto with platform. Qed.
#[export] Hint Resolve asks_Current : platform.

Lemma asks_update_row e id st h : asks h (update_row e id st h).
Proof. unfold update_row. asking. Qed.

Lemma asks_rows_of e fn key id fields h : asks h (rows_of e fn key id fields h).
Proof. unfold rows_of. asking. Qed.
#[export] Hint Resolve asks_update_row asks_rows_of : platform.

(** ** Properties: the writes of an entity *)

Section guarded.
Context {DO : Doer} {DL : DoerLaws} {T : Texts} (e : Entity).

Lemma entity_guarded {A} id (good : row → Prop) ss req st (k : row → handle → M (res error A)) :
  (∀ cur h, asks h (k cur h)) →
  (∀ cur h s t, shown cur → good cur ∨
     sat (guarded (entity_Resource e) (VStr id) (λ c, shown c ∧ good c)) t (k cur h s) (λ _ _, True)) →
  sat (guarded (entity_Resource e) (VStr id) (λ c, shown c ∧ good c)) []
    (Do ss req (λ h, cur ← Current e h id;
                     match cur with Err x => mret (Err x) | Ok cur => k cur h end) st)
    (λ _ _, True).
Proof.
  intros Ha Hk. apply do_guarded. intros h n s t Hh. apply sat_mbind.
  apply (Current_sat _ _ _ n); [done|by intros; eapply guarded_read| |done].
  intros o x cur Hc Hx Hs. cbn [fst snd].
  destruct (Hk cur h s (t ++ [(o, x)]) Hs) as [Hg|Hsat]; [|done].
  apply (guarded_free _ _ _ n h); [done|apply Ha|by eapply row_read_past].
Qed.

Lemma entity_Update_sat r ss w st :
  match update_args e r with
  | Err _ => sat (λ _ _, False) [] (Update e r ss w st) (λ _ _, True)
  | Ok (id, _, _) =>
      sat (guarded (entity_Resource e) (VStr id) (λ c, shown c ∧ current_for r c)) []
        (Update e r ss w st) (λ _ _, True)
  end.
Proof.
  unfold Update. destruct (update_args e r) as [[[id raw] b]|x]; [|done].
  apply sat_mbind. eapply sat_mono; [|apply (entity_guarded id (current_for r))].
  { intros [x s] t _ _. done. }
  { intros cur h. asking. }
  intros cur h s t _. destruct (IfMatch r cur) as [[]|x] eqn:Him.
  - left. by apply IfMatch_ok in Him as [_ ?].
  - by right.
Qed.

Lemma entity_Action_sat r ss w st :
  match action_args r with
  | Err _ => sat (λ _ _, False) [] (Action e r ss w st) (λ _ _, True)
  | Ok (id, _, _) =>
      sat (guarded (entity_Resource e) (VStr id) (λ c, shown c ∧ True)) []
        (Action e r ss w st) (λ _ _, True)
  end.
Proof.
  unfold Action. destruct (action_args r) as [[[id action] params]|x]; [|done].
  apply sat_mbind. eapply sat_mono; [|unfold run_action; apply (entity_guarded id (λ _, True))].
  { intros [[rw|x] s] t _ _; [|done]. cbn [fst snd]. by rewrite get_bind. }
  { intros cur h. asking. }
  intros cur h s t _. by left.
Qed.
End guarded.

(** C35. An entity is written only on a row the caller sees: whatever the database answers,
    everything a PATCH does besides the road's own and reading the row is a query on a
    transaction in which the row was read, was not a row of nulls, and had the ETag
    If-Match names (or If-Match is a star), and which has gone on since without being
    committed, rolled back or begun anew; everything an action does is a query on a
    transaction in which the row was read and shown; and a request
    refused for its id, its precondition, its action, its body or its parameters asks
    nothing of the database. *)
Theorem entity_writes_guarded {D} {DO : Doer} {DL : DoerLaws} {T : Texts} (drv : driver D)
    e r ss w st d :
  let guard id good (t : trace) := ∀ t1 o x t2, t = t1 ++ (o, x) :: t2 →
    guarded (entity_Resource e) (VStr id) (λ c, shown c ∧ good c) t1 o in
  (let t := (run drv (Update e r ss w st) d).1.2 in
   match update_args e r with
   | Ok (id, _, _) => guard id (current_for r) t
   | Err _ => t = []
   end) ∧
  (let t := (run drv (Action e r ss w st) d).1.2 in
   match action_args r with
   | Ok (id, _, _) => guard id (λ _, True) t
   | Err _ => t = []
   end).
Proof.
  cbv zeta. split.
  - pose proof (entity_Update_sat e r ss w st) as H.
    destruct (update_args e r) as [[[id raw] b]|x]; [by apply (run_policy drv _ _ d H)|].
    by apply run_silent.
  - pose proof (entity_Action_sat e r ss w st) as H.
    destruct (action_args r) as [[[id action] params]|x]; [by apply (run_policy drv _ _ d H)|].
    by apply run_silent.
Qed.

(** ** Properties: the wire of an entity *)

Lemma keeps_getRow e h a : keeps (getRow e h a).
Proof. unfold getRow. auto with platform. Qed.
#[export] Hint Resolve keeps_getRow : platform.

Lemma keeps_Current e h id : keeps (Current e h id).
Proof. unfold Current. auto with platform. Qed.
#[export] Hint Resolve keeps_Current : platform.

Lemma keeps_rows_of e fn key id fields h : keeps (rows_of e fn key id fields h).
Proof.
  unfold rows_of. apply keeps_bind; [auto with platform|]. intros [cur|x]; auto with platform.
Qed.

Lemma keeps_update_row e id st h : keeps (update_row e id st h).
Proof.
  unfold update_row. destruct (is_empty _); [auto with platform|].
  apply keeps_bind; [auto with platform|]. intros [rows|x]; auto with platform.
Qed.
#[export] Hint Resolve keeps_rows_of keeps_update_row : platform.

(** The handlers of the form. *)
Inductive form_handler {DO : Doer} {T : Texts} (e : Entity) : handler → Prop :=
  | form_list : form_handler e (List e)
  | form_get : form_handler e (Get e)
  | form_update : form_handler e (Update e)
  | form_action : form_handler e (Action e)
  | form_rows fn key : form_handler e (RowsOf e fn key).

(** An action that ran ends with the status 200, or with 204 and no row. *)
Lemma run_action_status e id action params h s : req_status s = 200%Z →
  post (run_action e id action params h s) (λ r, ∀ rw, r.1 = Ok rw →
    req_status r.2 = 200%Z ∧ is_Some rw ∨ req_status r.2 = 204%Z ∧ rw = None).
Proof.
  intros Hs. unfold run_action. apply post_mbind. eapply post_mono; [|apply keeps_Current].
  intros [[cur|x] s1] Hs1; cbn in Hs1; subst s1; [|done].
  apply post_mbind. eapply post_mono; [|apply keeps_Call].
  intros [[rows|x] s1] Hs1; cbn in Hs1; subst s1; [|done].
  apply post_mbind. eapply post_mono; [|apply keeps_Current].
  intros [[rw|x] s1] Hs1; cbn in Hs1; subst s1.
  - intros a [= <-]. left. split; [done|by eexists].
  - destruct (is_404 x); [|done]. unfold modify_request. rewrite modify_bind.
    intros a [= <-]. right. split; [|done]. unfold req_status in *. cbn. by destruct (request s).
Qed.

(** The journal records the status an entity's answer goes out with: 200, 304 for a row the
    client holds, 204 for an action that left no row - or the answer is the problem of
    a refusal. *)
Lemma form_wire {DO : Doer} {DL : DoerLaws} {T : Texts} e hd r ss w st :
  form_handler e hd → w_status w = None → post (hd r ss w st) (on_wire r).
Proof.
  intros Hhd Hw. destruct Hhd as [| | | |fn key].
  - unfold List. destruct (listArgs _ _) as [[params search]|x]; [|by apply wire_fail].
    by apply list_answer_wire.
  - unfold Get, RowFieldsFunc. apply rowHandler_wire; [|done]. intros h a. apply keeps_getRow.
  - unfold Update. destruct (update_args e r) as [[[id raw] b]|x]; [|by apply wire_fail].
    apply (wire_answer ss _ _ _ r w st); [done| |done|].
    + intros h. apply keeps_bind; [auto with platform|]. intros [cur|x]; [|auto with platform].
      destruct (IfMatch r cur); auto with platform.
    + intros rw. apply WriteJSON_status. by rewrite SetETag_status.
  - unfold Action. destruct (action_args r) as [[[id action] params]|x]; [|by apply wire_fail].
    apply post_mbind. eapply post_mono; [|apply (do_post ss _ _ st
      (λ rw z, z = 200%Z ∧ is_Some rw ∨ z = 204%Z ∧ rw = None))].
    + intros [[rw|x] s] Hr; cbn in Hr; [|by apply wire_fail].
      rewrite get_bind. right. cbn.
      destruct Hr as [[Hr _]|[Hr _]]; rewrite Hr; cbn.
      * apply WriteJSON_status. by rewrite SetETag_status.
      * unfold sent_status. by rewrite WriteHeader_sent.
    + intros h s Hs. by apply run_action_status.
  - unfold RowsOf. apply rows_answer_wire; [|done]. intros h [id fields]. auto with platform.
Qed.

(** ** Witnesses *)

#[local] Instance form_texts : Texts := plain_texts.

Definition sample_entity : Entity :=
  mkEntity "user" "/api/v2/users" sample_resource "api.set_user" EmptyString sample_body
    ["username"] None EmptyString [].

Lemma form_wire_witness :
  post (Action sample_entity (user_request "POST" user_tag EmptyString) sample_session new_writer
    (sample_road true)) (on_wire (user_request "POST" user_tag EmptyString)).
Proof. apply (form_wire sample_entity); [constructor|reflexivity]. Defined.

Definition user_patch : Http.Request := user_request "PATCH" user_tag user_change.

(** A PATCH of the sample user runs its update, and is guarded. *)
Lemma entity_writes_guarded_witness :
  sent_status (run (toy_driver user_answers)
    (Update sample_entity user_patch sample_session new_writer (sample_road false)) toy_init).1.1.1
    = Some 200%Z ∧
  ∃ id, ∀ t1 o x t2,
    (run (toy_driver user_answers)
      (Update sample_entity user_patch sample_session new_writer (sample_road false)) toy_init).1.2
      = t1 ++ (o, x) :: t2 →
    guarded sample_resource (VStr id) (λ c, shown c ∧ current_for user_patch c) t1 o.
Proof.
  split; [by vm_compute|].
  pose proof (entity_writes_guarded (toy_driver user_answers) sample_entity user_patch
    sample_session new_writer (sample_road false) toy_init) as [H _].
  assert (Hu : is_ok (update_args sample_entity user_patch) = true) by (vm_compute; reflexivity).
  cbv zeta in H. destruct (update_args sample_entity user_patch) as [[[id raw] b]|e]; [|discriminate Hu].
  exists id. exact H.
Defined.
