(* ===== verification/Entities.v ===== *)
(** * The entity packages of the platform

    The reference family (entity/object/reference: reference, agent, program, vendor,
    version, scheduler) and two documents, the message and the job: the body each writes
    and the entity each wires with lib/entity. *)

From S2P Require Import Prelude.
From S2P Require Import GoStrings.
From S2P Require Import GoTime.
From S2P Require Import Db.
From S2P Require Import Pgtx.
From S2P Require Import Decode.
From S2P Require Import Rest.
From S2P Require Import RestLaws.
From S2P Require Import Entity.

(** ** Bodies *)

(** [str]: nil for an absent field, the text otherwise. *)
Definition str (st : struct) (k : string) : value :=
  match str_ptr st k with None => VNil | Some s => VStr s end.

(** The loop of [Validate] over the references. *)
Definition references (refs : list string) (st : struct) : res error unit :=
  foldM_res (λ _ k,
    throw_if (match str_ptr st k with Some v => negb (IsUUID v) | None => false end)
      (bad_request (k +:+ " must be a UUID"))) refs tt.

(** A timestamp of the form. *)
Definition timestamps (dates : list string) (st : struct) : res error unit :=
  foldM_res (λ _ k,
    throw_if (match str_ptr st k with Some v => negb (IsTimestamp v) | None => false end)
      (bad_request (k +:+ " must be a timestamp (RFC 3339 or YYYY-MM-DD HH:MM:SS)"))) dates tt.

(** What a body's [Validate] checks: what a create requires, whether one field must be
    there, the references, the timestamps. *)
Record checks := mkChecks {
  required : list string; some_field : bool; refs : list string; dates : list string
}.

Definition validate (fields : list string) (c : checks) (create : bool) (st : struct) : res error unit :=
  RequiredAll create ((λ k, (k, str_ptr st k)) <$> required c);;
  throw_if (some_field c && forallb (λ k, bool_decide (str_ptr st k = None)) fields)
    (bad_request "body must carry at least one field");;
  references (refs c) st;;
  timestamps (dates c) st.

(** A body of text fields: [Args] names the positional ones. *)
Definition text_body (fields : list string) (c : checks) (positional : list string) : Body :=
  let sc := (λ k, (k, TStrP)) <$> fields in
  mkBody sc (validate fields c) (λ id st, default ∅ (Named sc (id :: (str st <$> positional)))).

(** Bodies whose parameters are their fields, in their order. *)
Definition named_body (fields required refs : list string) : Body :=
  text_body fields (mkChecks required false refs []) fields.

Definition reference_body : Body :=
  named_body ["parent"; "type"; "code"; "name"; "description"] ["type"; "code"] ["parent"; "type"].

Definition agent_body : Body :=
  named_body ["parent"; "type"; "vendor"; "code"; "name"; "description"] ["vendor"; "code"]
    ["parent"; "type"; "vendor"].

Definition program_body : Body :=
  named_body ["parent"; "type"; "code"; "name"; "body"; "description"] ["code"; "body"] ["parent"; "type"].

Definition vendor_body : Body :=
  named_body ["parent"; "type"; "code"; "name"; "description"] ["code"] ["parent"; "type"].

Definition version_body : Body :=
  named_body ["parent"; "type"; "code"; "name"; "description"] ["code"] ["parent"; "type"].

Definition message_body : Body :=
  named_body ["parent"; "type"; "agent"; "code"; "profile"; "address"; "subject"; "content"; "label";
              "description"]
    ["type"; "agent"; "code"; "profile"; "address"] ["parent"; "type"; "agent"].

Definition scheduler_fields : list string :=
  ["parent"; "type"; "code"; "name"; "period"; "datestart"; "datestop"; "description"].
Definition scheduler_body : Body :=
  text_body scheduler_fields (mkChecks ["code"] false ["parent"; "type"] ["datestart"; "datestop"])
    scheduler_fields.

(** The job names its arguments itself. *)
Definition job_fields : list string :=
  ["parent"; "type"; "scheduler"; "program"; "daterun"; "code"; "label"; "description"].
Definition job_body : Body :=
  mkBody ((λ k, (k, TStrP)) <$> job_fields)
    (validate job_fields
       (mkChecks ["code"; "scheduler"; "program"] true ["parent"; "type"; "scheduler"; "program"] ["daterun"]))
    (λ id st, <["id" := id]> (list_to_map ((λ k, (k, str st k)) <$> job_fields))).

(** ** Entities *)

(** The wiring the packages share: [Prefix], [get_/list_/count_/set_/add_<x>]. *)
Definition wire (name prefix : string) (b : Body) (search : list string) : Entity :=
  mkEntity name prefix
    (mkResource prefix ("api.get_" +:+ name) ("api.list_" +:+ name) ("api.count_" +:+ name) false)
    ("api.set_" +:+ name) EmptyString b search None ("api.add_" +:+ name) [].

Definition reference : Entity := wire "reference" "/api/v2/references" reference_body ["code"; "name"].
Definition agent : Entity := wire "agent" "/api/v2/agents" agent_body ["code"; "name"].
Definition program : Entity := wire "program" "/api/v2/programs" program_body ["code"; "name"].
Definition vendor : Entity := wire "vendor" "/api/v2/vendors" vendor_body ["code"; "name"].
Definition version : Entity := wire "version" "/api/v2/versions" version_body ["code"; "name"].
Definition message : Entity := wire "message" "/api/v2/messages" message_body ["code"; "subject"].
Definition scheduler : Entity := wire "scheduler" "/api/v2/schedulers" scheduler_body ["code"; "name"].
Definition job : Entity := wire "job" "/api/v2/jobs" job_body ["code"; "label"].

(** ** Lemmas *)

Lemma insert_all_keep (l : list (string * value)) (m : Args) k :
  k ∉ l.*1 → foldl (λ m kv, <[kv.1 := kv.2]> m) m l !! k = m !! k.
Proof.
  revert m. induction l as [|[j x] l IH]; intros m Hk; [done|]. cbn [foldl fst snd].
  assert (k ≠ j ∧ k ∉ l.*1) as [Hj Hl] by (cbn in Hk; rewrite elem_of_cons in Hk; tauto).
  rewrite IH by done. by rewrite lookup_insert_ne.
Qed.

Lemma insert_all_lookup (keys : list string) : ∀ (vals : list value) (m : Args) k v,
  NoDup keys → length keys = length vals → (k, v) ∈ zip keys vals →
  foldl (λ m kv, <[kv.1 := kv.2]> m) m (zip keys vals) !! k = Some v.
Proof.
  induction keys as [|j keys IH]; intros [|x vals] m k v Hnd Hlen Hin; try done;
    [by apply elem_of_nil in Hin|].
  apply NoDup_cons in Hnd as [Hj Hnd]. cbn in Hlen. injection Hlen as Hlen.
  cbn [zip zip_with] in *. cbn [foldl fst snd].
  apply elem_of_cons in Hin as [[= -> ->]|Hin]; [|by apply IH].
  rewrite insert_all_keep; [by rewrite lookup_insert_eq|].
  change (zip_with pair keys vals) with (zip keys vals). rewrite fst_zip; [done|]. by rewrite Hlen.
Qed.

Lemma Named_spec sc positional id : length sc = length positional → NoDup ("id" :: sc.*1) →
  ∃ args, Named sc (id :: positional) = Some args ∧ args !! "id" = Some id ∧
    ∀ k v, (k, v) ∈ zip sc.*1 positional → args !! k = Some v.
Proof.
  intros Hlen Hnd. unfold Named, jsonKeys. cbn [length]. rewrite length_fmap, Hlen, Nat.eqb_refl.
  eexists. split; [done|].
  assert (length ("id" :: sc.*1) = length (id :: positional)) as Hl
    by (cbn; by rewrite length_fmap, Hlen).
  split.
  - apply (insert_all_lookup ("id" :: sc.*1)); [done|done|left].
  - intros k v Hin. apply (insert_all_lookup ("id" :: sc.*1)); [done|done|]. by right.
Qed.

(** A body of text fields with an argument for each of its fields. *)
Record writes_all (fields : list string) (b : Body) : Prop := mkWritesAll {
  wa_schema : body_schema b = (λ k, (k, TStrP)) <$> fields;
  wa_id : ∀ id st, body_Args b id st !! "id" = Some id;
  wa_arg : ∀ id st k, k ∈ fields → body_Args b id st !! k = Some (str st k)
}.

Lemma text_body_args fields c : NoDup ("id" :: fields) → writes_all fields (text_body fields c fields).
Proof.
  intros Hnd. set (sc := (λ k, (k, TStrP)) <$> fields).
  assert (Hsc : sc.*1 = fields) by (unfold sc; rewrite <- list_fmap_compose; by rewrite list_fmap_id).
  assert (Hn : ∀ id st, ∃ args, Named sc (id :: (str st <$> fields)) = Some args ∧ args !! "id" = Some id ∧
    ∀ k v, (k, v) ∈ zip sc.*1 (str st <$> fields) → args !! k = Some v).
  { intros id st. apply Named_spec; [unfold sc; by rewrite !length_fmap|by rewrite Hsc]. }
  split; [done|..]; intros id st; destruct (Hn id st) as (args & Ha & Hid & Hk);
    unfold text_body; fold sc; cbn [body_Args]; rewrite Ha; cbn [default]; [done|].
  intros k Hin. apply Hk. rewrite Hsc.
  clear -Hin. induction fields as [|j l IH]; [by apply elem_of_nil in Hin|].
  cbn. apply elem_of_cons in Hin as [->|Hin]; [left|right; by apply IH].
Qed.

Lemma job_body_args : writes_all job_fields job_body.
Proof.
  split; [done|by intros|]. intros id st k Hk.
  repeat (apply elem_of_cons in Hk as [->|Hk]; [reflexivity|]). by apply elem_of_nil in Hk.
Qed.

(** A check of every key whose text is there. *)
Lemma each_text_ok (f : string → bool) (e : string → error) keys st :
  foldM_res (λ _ k, throw_if (match str_ptr st k with Some v => negb (f v) | None => false end) (e k)) keys tt
  = Ok tt ↔ Forall (λ k, ∀ v, str_ptr st k = Some v → f v = true) keys.
Proof.
  rewrite (foldM_unit_ok (λ k, throw_if (match str_ptr st k with
    Some v => negb (f v) | None => false end) (e k))).
  apply Forall_iff. intros k. destruct (str_ptr st k) as [v|]; [|done].
  destruct (f v) eqn:Hv; cbn [negb throw_if].
  - split; [by intros _ ? [= <-]|done].
  - split; [done|]. intros H. by rewrite (H v eq_refl) in Hv.
Qed.

(** What a body that passes its checks is. *)
Definition passes (fields : list string) (c : checks) (create : bool) (st : struct) : Prop :=
  Forall (λ k, str_ptr st k ≠ Some EmptyString ∧ (create = true → is_Some (str_ptr st k))) (required c) ∧
  (some_field c = true → Exists (λ k, is_Some (str_ptr st k)) fields) ∧
  Forall (λ k, ∀ v, str_ptr st k = Some v → IsUUID v = true) (refs c) ∧
  Forall (λ k, ∀ v, str_ptr st k = Some v → IsTimestamp v = true) (dates c).

Lemma none_there fields st :
  forallb (λ k, bool_decide (str_ptr st k = None)) fields = false ↔ Exists (λ k, is_Some (str_ptr st k)) fields.
Proof.
  induction fields as [|k l IH]; [by rewrite Exists_nil|]. rewrite Exists_cons, <- IH. cbn.
  rewrite andb_false_iff, bool_decide_eq_false. by rewrite <- not_eq_None_Some.
Qed.

Lemma validate_ok fields c create st :
  validate fields c create st = Ok tt ↔ passes fields c create st.
Proof.
  unfold passes. rewrite <- RequiredAll_ok, <- (each_text_ok IsUUID (λ k, bad_request (k +:+ " must be a UUID"))),
    <- (each_text_ok IsTimestamp (λ k, bad_request (k +:+ " must be a timestamp (RFC 3339 or YYYY-MM-DD HH:MM:SS)"))),
    <- none_there.
  unfold validate, references, timestamps. destruct (RequiredAll _ _) as [[]|]; cbn [mbind res_bind]; [|naive_solver].
  destruct (some_field c), (forallb _ fields); cbn [andb throw_if mbind res_bind];
    (destruct (foldM_res _ (refs c) tt) as [[]|]; cbn [mbind res_bind]); naive_solver.
Qed.

(** ** Properties *)

(** The catalogue of the packages: the fields of each, and what it checks. *)
Definition catalogue : list (Entity * list string * checks) :=
  let plain req r := mkChecks req false r [] in
  [(reference, ["parent"; "type"; "code"; "name"; "description"], plain ["type"; "code"] ["parent"; "type"]);
   (agent, ["parent"; "type"; "vendor"; "code"; "name"; "description"],
    plain ["vendor"; "code"] ["parent"; "type"; "vendor"]);
   (program, ["parent"; "type"; "code"; "name"; "body"; "description"],
    plain ["code"; "body"] ["parent"; "type"]);
   (vendor, ["parent"; "type"; "code"; "name"; "description"], plain ["code"] ["parent"; "type"]);
   (version, ["parent"; "type"; "code"; "name"; "description"], plain ["code"] ["parent"; "type"]);
   (scheduler, scheduler_fields, mkChecks ["code"] false ["parent"; "type"] ["datestart"; "datestop"]);
   (message, ["parent"; "type"; "agent"; "code"; "profile"; "address"; "subject"; "content"; "label";
              "description"], plain ["type"; "agent"; "code"; "profile"; "address"] ["parent"; "type"; "agent"]);
   (job, job_fields,
    mkChecks ["code"; "scheduler"; "program"] true ["parent"; "type"; "scheduler"; "program"] ["daterun"])].

(** Every entity package writes what the client sent: the positional arguments of its
    body name every key of the body (so that wiring it at start cannot panic), each
    key's argument is the client's text, nil where the key is absent or null, under
    the id the form gives; a create is [api.add_<x>], never the upsert of
    [api.set_<x>]; and a body is valid exactly when no required key is emptied, none is
    missing on a create, what is given of the references are UUIDs and of the dates
    timestamps, and, for a job, some field is given. *)
Lemma entities_wired e fields c : (e, fields, c) ∈ catalogue →
  entity_CreateFn e = "api.add_" +:+ Name e ∧ entity_SetFn e = "api.set_" +:+ Name e ∧
  writes_all fields (entity_NewBody e) ∧
  ∀ st create, Validate (entity_NewBody e) create st = Ok tt ↔ passes fields c create st.
Proof.
  intros He.
  assert (Hv : Validate (entity_NewBody e) = validate fields c ∧ writes_all fields (entity_NewBody e) ∧
    entity_CreateFn e = "api.add_" +:+ Name e ∧ entity_SetFn e = "api.set_" +:+ Name e).
  { repeat (apply elem_of_cons in He as [[= -> -> ->]|He]; [split; [reflexivity|split; [|done]];
      first [apply job_body_args|apply text_body_args; by apply (bool_decide_unpack _)]|]).
    by apply elem_of_nil in He. }
  destruct Hv as (Hv & Hw & Hadd & Hset). split_and!; try done. intros st create. rewrite Hv. apply validate_ok.
Qed.

(** ** Witnesses *)

Lemma entities_wired_witness :
  entity_CreateFn job = "api.add_job" ∧
  Validate (entity_NewBody job) false (<["daterun" := VPtr (Some (VStr "tomorrow"))]> ∅) ≠ Ok tt.
Proof.
  destruct (entities_wired job job_fields
    (mkChecks ["code"; "scheduler"; "program"] true ["parent"; "type"; "scheduler"; "program"] ["daterun"]))
    as (H & _ & _ & Hv).
  - do 7 right. left.
  - split; [exact H|]. intros Hok. apply Hv in Hok as (_ & _ & _ & Hd).
    apply Forall_cons in Hd as [Hd _]. specialize (Hd "tomorrow" eq_refl). vm_compute in Hd. discriminate Hd.
Defined.
