(* ===== verification/Admin.v ===== *)
(** * admin: users, groups, areas, interfaces

    The package over the SQL module admin: users.go (the writable resource, the PATCH
    of a profile, actions, the table of addresses, memberships) and collections.go (the
    three collections a user belongs to, the actions of areas, the read-only lists).
    The resources are values of [Rest.Writable]; what a closure of the source does in
    the transaction is the program given to [Do]. *)

From S2P Require Import Prelude.
From S2P Require Import GoStrings.
From S2P Require Import GoJson.
From S2P Require Import Utf8.
From S2P Require Import Problem.
From S2P Require Import Db.
From S2P Require Import Pgtx.
From S2P Require Import PgtxLaws.
From S2P Require Import Http.
From S2P Require Import Decode.
From S2P Require Import Doer.
From S2P Require Import Rest.
From S2P Require Import Asks.
From S2P Require Import RestLaws.

(** ** users.go: the resource *)

Definition user_schema : schema :=
  [("username", TStrP); ("password", TStrP); ("name", TStrP); ("phone", TStrP); ("email", TStrP);
   ("description", TStrP); ("passwordchange", TBoolP); ("passwordnotchange", TBoolP)].

Definition userBody : Body :=
  mkBody user_schema (λ create st, Required "username" (str_ptr st "username") create)
    (named_args (same_names user_schema)).

Definition secrets : list string := ["password"; "old"; "new"].
Definition masked : json := JStr "***".

(** [redact]: a text that is no object is logged as it is. *)
Definition redact (raw : string) : string :=
  match parse raw with
  | Some (JObj l) =>
      let '(m, changed) :=
        foldl (λ '(m, changed) k,
                 if bool_decide (is_Some (m !! k)) then (<[k := masked]> m, true) else (m, changed))
          (object_map l, false) secrets in
      if changed then marshal_map m else raw
  | _ => raw
  end.

Definition users_resource : Resource :=
  mkResource "/api/v2/users" "api.get_user" "api.list_user" "api.count_user" false.

Definition users : Writable :=
  mkWritable users_resource "api.set_user" EmptyString [] userBody "api.delete_user" (Some redact)
    None.

(** ** users.go: handlers *)

Definition patchHead (r : Http.Request) : res error string :=
  id ← IDOf r; Precondition r;; Ok id.

Definition profile_schema : schema :=
  [("family_name", TStrP); ("given_name", TStrP); ("patronymic_name", TStrP); ("locale", TStrP);
   ("area", TStrP); ("interface", TStrP); ("picture", TStrP)].

Definition profile_args (id : string) (st : struct) : Args :=
  <["userid" := VStr id]> (list_to_map ((λ n, (n.1, field st n.2)) <$>
    [("familyname", "family_name"); ("givenname", "given_name");
     ("patronymicname", "patronymic_name"); ("locale", "locale"); ("area", "area");
     ("interface", "interface"); ("picture", "picture")])).

(** [splitList]: the parts of a comma-separated text, trimmed, empty ones dropped. *)
Definition splitList (s : string) : list string :=
  filter (λ p, p ≠ EmptyString) (TrimSpace <$> Split s ",").

(** The text of a row of api.get_user_iptable. *)
Definition iptable_text (rw : row) : res error (option string) :=
  match rw with
  | None => Ok None
  | Some s =>
      match parse s with
      | Some (JObj l) =>
          of_option (str_pointer (field_members "iptable" l)) (EText "json: cannot unmarshal")
      | Some JNull => Ok None
      | _ => Err (EText "json: cannot unmarshal")
      end
  end.

Definition iptable_read (h : handle) (id kind : string) : M (res error (list string)) :=
  x ← CallRow h "get_user_iptable" {[ "id" := VStr id; "type" := VStr kind ]};
  mret (match x with
        | Err e => if is_ErrNoRow e then Ok [] else Err e
        | Ok rw => t ← iptable_text rw; Ok (from_option splitList [] t)
        end).

(** [json.Marshal] of the two lists. *)
Definition strings_json (l : list string) : string := "[" +:+ Join (Quote <$> l) "," +:+ "]".
Definition iptable_json (allow deny : list string) : string :=
  "{" +:+ Quote "allow" +:+ ":" +:+ strings_json allow +:+ ","
  +:+ Quote "deny" +:+ ":" +:+ strings_json deny +:+ "}".

(** A [[]string] while it is decoded: its elements ([None] for nil) and what is left of
    its array beyond them, which a later array of the same key finds there. *)
Record strs := mkStrs { elems : option (list string); spare : list string }.

(** An array into a slice; null elements leave what is there. *)
Definition decode_strs (old : strs) (v : json) : option strs :=
  match v with
  | JNull => Some (mkStrs None [])
  | JArr [] => Some (mkStrs (Some []) [])
  | JArr l =>
      let was := default [] (elems old) ++ spare old in
      new ← mapM (λ '(i, v),
        match v with
        | JStr lex => Some (Unquote lex)
        | JNull => Some (nth i was EmptyString)
        | _ => None
        end) (imap pair l);
      Some (mkStrs (Some new) (drop (length new) was))
  | _ => None
  end.

Record iptable := mkIptable { Allow : strs; Deny : strs }.

Definition empty_iptable : iptable := mkIptable (mkStrs None []) (mkStrs None []).

(** The fields: true for [Allow]. *)
Definition iptable_fields : list (string * bool) := [("allow", true); ("deny", false)].

Definition iptable_member (t : iptable) (m : string * string) : res decode_error iptable :=
  let key := Unquote m.1 in
  match find_field iptable_fields key with
  | None => Err (UnknownField key)
  | Some (_, is_allow) =>
      v ← of_option (parse m.2) BadJSON;
      x ← of_option (decode_strs (if is_allow then Allow t else Deny t) v) BadType;
      Ok (if is_allow then mkIptable x (Deny t) else mkIptable (Allow t) x)
  end.

(** The text a list is written as: nil for an empty one. *)
Definition list_text (l : list string) : option string :=
  match l with [] => None | _ => Some (Join l ",") end.

Definition iptable_write (h : handle) (id kind : string) (l : list string) : M (res error unit) :=
  Call_ h "set_user_iptable"
    {[ "id" := VStr id; "type" := VStr kind; "iptable" := VPtr (VStr <$> list_text l) ]}.

Record membership := mkMembership { ms_path : string; ms_fn : string; ms_key : string }.

Definition memberships : list membership :=
  [mkMembership "groups" "api.member_group" "group"; mkMembership "areas" "api.member_area" "area";
   mkMembership "interfaces" "api.member_interface" "interface"].

Section users.
Context {DO : Doer} {T : Texts}.

(** [m.patch]: the update over the revision the client read, then the new row. *)
Definition patch (id raw : string) (update : handle → string → M (res error unit)) : handler :=
  λ r ss w,
  x ← Do ss (ReqOf r 200 (redact raw)) (λ h,
    then_ (GetRow users_resource h (VStr id)) (λ current,
    match IfMatch r current with
    | Err e => mret (Err e)
    | Ok _ => then_ (update h id) (λ _, GetRow users_resource h (VStr id))
    end));
  mret (row_answer r w x).

Definition profile_head (r : Http.Request) : res error (string * string * struct) :=
  id ← patchHead r; '(raw, b) ← ReadBody r profile_schema; Ok (id, raw, b).

Definition userProfile : handler := λ r ss w,
  match profile_head r with
  | Err e => mret (Fail r e w)
  | Ok (id, raw, b) =>
      patch id raw (λ h id, Call_ h "set_user_profile" (profile_args id b)) r ss w
  end.

Definition password_schema : schema := [("old", TStrP); ("new", TStrP)].

Definition password_args (r : Http.Request) : res error (string * string * string) :=
  '(raw, b) ← ReadBody r password_schema;
  match str_ptr b "old", str_ptr b "new" with
  | Some old, Some new =>
      throw_if (is_empty old || is_empty new) (bad_request "old and new passwords are required");;
      Ok (raw, old, new)
  | _, _ => Err (bad_request "old and new passwords are required")
  end.

Definition changePassword (id : string) : handler := λ r ss w,
  match password_args r with
  | Err e => mret (Fail r e w)
  | Ok (raw, old, new) =>
      x ← Do ss (ReqOf r 204 (redact raw)) (λ h,
        Call_ h "change_password" {[ "id" := VStr id; "oldpass" := VStr old; "newpass" := VStr new ]});
      mret (no_content r w x)
  end.

Definition user_fn (action : string) : option string :=
  if String.eqb action "lock" then Some "api.user_lock"
  else if String.eqb action "unlock" then Some "api.user_unlock" else None.

Definition userAction : handler := λ r ss w,
  match IDOf r with
  | Err e => mret (Fail r e w)
  | Ok id =>
      match user_fn (PathValue r "action") with
      | None => if String.eqb (PathValue r "action") "change-password" then changePassword id r ss w
                else mret (Fail r no_such_action w)
      | Some fn =>
          x ← Do ss (ReqOf r 200 EmptyString) (λ h,
            on_visible users_resource h id
              (then_ (Call_ h fn {[ "id" := VStr id ]})
                 (λ _, GetRow users_resource h (VStr id))));
          mret (row_answer r w x)
      end
  end.

Definition userIptableGet : handler := λ r ss w,
  match IDOf r with
  | Err e => mret (Fail r e w)
  | Ok id =>
      x ← Do ss (ReqOf r 200 EmptyString) (λ h,
        on_visible users_resource h id
          (then_ (iptable_read h id "A") (λ allow,
           then_ (iptable_read h id "D") (λ deny, mret (Ok (allow, deny))))));
      mret (match x with
            | Err e => Fail r e w
            | Ok (allow, deny) => WriteJSON 200 (iptable_json allow deny) w
            end)
  end.

Definition iptable_args (r : Http.Request) : res error (string * string * iptable) :=
  id ← IDOf r;
  '(raw, t) ← ReadBodyInto (decode_object iptable_member empty_iptable) empty_iptable r;
  Ok (id, raw, t).

Definition userIptablePut : handler := λ r ss w,
  match iptable_args r with
  | Err e => mret (Fail r e w)
  | Ok (id, raw, t) =>
      let allow := default [] (elems (Allow t)) in
      let deny := default [] (elems (Deny t)) in
      x ← Do ss (ReqOf r 200 raw) (λ h,
        on_visible users_resource h id
          (then_ (iptable_write h id "A" allow) (λ _, iptable_write h id "D" deny)));
      mret (match x with
            | Err e => Fail r e w
            | Ok _ => WriteJSON 200 (iptable_json allow deny) w
            end)
  end.

Definition membershipList (ms : membership) : handler :=
  rows_of_visible users_resource (ms_fn ms) "userid".

(** An addition by the id in the body. *)
Definition add_args (what : string) (r : Http.Request) : res error (string * string * string) :=
  id ← IDOf r;
  '(raw, b) ← ReadBody r id_schema;
  throw_if (negb (IsUUID (str_of b "id"))) (bad_request ("id of the " +:+ what +:+ " is required"));;
  Ok (id, raw, str_of b "id").

Definition membershipAdd (ms : membership) : handler := λ r ss w,
  match add_args (TrimSuffix (ms_path ms) "s") r with
  | Err e => mret (Fail r e w)
  | Ok (id, raw, added) =>
      x ← Do ss (ReqOf r 204 raw) (λ h,
        Call_ h (ms_fn ms +:+ "_add") (<["member" := VStr id]> {[ ms_key ms := VStr added ]}));
      mret (no_content r w x)
  end.

(** A removal by the id in the path. *)
Definition remove_args (name : string) (r : Http.Request) : res error (string * string) :=
  id ← IDOf r;
  throw_if (negb (IsUUID (PathValue r name))) (bad_request "id must be a UUID");;
  Ok (id, PathValue r name).

Definition membershipDelete (ms : membership) : handler := λ r ss w,
  match remove_args "gid" r with
  | Err e => mret (Fail r e w)
  | Ok (id, gid) =>
      x ← Do ss (ReqOf r 204 EmptyString) (λ h,
        Call_ h (ms_fn ms +:+ "_delete") (<["member" := VStr id]> {[ ms_key ms := VStr gid ]}));
      mret (no_content r w x)
  end.

Definition userMemberships : handler := rows_of_visible users_resource "user_member" "userid".

Definition userRoutes : list (string * posting) :=
  let p := Prefix users_resource in
  Routes users ++
  [("PATCH " +:+ p +:+ "/{id}/profile", lift userProfile);
   ("POST " +:+ p +:+ "/{id}/actions/{action}", lift userAction);
   ("GET " +:+ p +:+ "/{id}/iptable", lift userIptableGet);
   ("PUT " +:+ p +:+ "/{id}/iptable", lift userIptablePut);
   ("GET " +:+ p +:+ "/{id}/memberships", lift userMemberships)] ++
  (ms ← memberships;
   [("GET " +:+ p +:+ "/{id}/" +:+ ms_path ms, lift (membershipList ms));
    ("POST " +:+ p +:+ "/{id}/" +:+ ms_path ms, lift (membershipAdd ms));
    ("DELETE " +:+ p +:+ "/{id}/" +:+ ms_path ms +:+ "/{gid}", lift (membershipDelete ms))]).
End users.

(** ** collections.go *)

Record collection := mkCollection {
  coll_Writable : Writable;
  membersFn : string;
  membersKey : string;
  addFn : string;
  delFn : string;
  coll_key : string
}.

Definition group_schema : schema := [("username", TStrP); ("name", TStrP); ("description", TStrP)].

Definition groupBody : Body :=
  mkBody group_schema (λ create st, Required "username" (str_ptr st "username") create)
    (named_args (same_names group_schema)).

Definition area_schema : schema :=
  [("parent", TStrP); ("type", TStrP); ("scope", TStrP); ("code", TStrP); ("name", TStrP);
   ("description", TStrP); ("sequence", TIntP 64); ("valid_from_date", TStrP);
   ("valid_to_date", TStrP)].

Definition areaBody : Body :=
  mkBody area_schema (λ create st, Required "code" (str_ptr st "code") create)
    (named_args
      [("parent", "parent"); ("type", "type"); ("scope", "scope"); ("code", "code");
       ("name", "name"); ("description", "description"); ("sequence", "sequence");
       ("validfromdate", "valid_from_date"); ("validtodate", "valid_to_date")]).

Definition interface_schema : schema := [("code", TStrP); ("name", TStrP); ("description", TStrP)].

Definition interfaceBody : Body :=
  mkBody interface_schema (λ create st, Required "code" (str_ptr st "code") create)
    (named_args (same_names interface_schema)).

Definition groups : collection :=
  mkCollection
    (mkWritable (mkResource "/api/v2/groups" "api.get_group" "api.list_group" "api.count_group" false)
       "api.set_group" EmptyString [] groupBody "api.delete_group" None None)
    "api.group_member" "groupid" "api.group_member_add" "api.group_member_delete" "group".

Definition areas : collection :=
  mkCollection
    (mkWritable (mkResource "/api/v2/areas" "api.get_area" "api.list_area" "api.count_area" false)
       "api.set_area" EmptyString [] areaBody "api.delete_area" None None)
    "api.area_member" "areaid" "api.area_member_add" "api.area_member_delete" "area".

Definition interfaces : collection :=
  mkCollection
    (mkWritable
       (mkResource "/api/v2/interfaces" "api.get_interface" "api.list_interface" "api.count_interface"
          false)
       "api.set_interface" EmptyString [] interfaceBody "api.delete_interface" None None)
    "api.interface_member" "interfaceid" "api.interface_member_add" "api.interface_member_delete"
    "interface".

Definition areaTypes : Resource :=
  mkResource "/api/v2/area-types" EmptyString EmptyString EmptyString false.
Definition locales : Resource :=
  mkResource "/api/v2/locales" EmptyString EmptyString EmptyString false.
Definition sessions : Resource :=
  mkResource "/api/v2/sessions" EmptyString "api.list_session" "api.count_session" false.

Section collections.
Context {DO : Doer} {T : Texts}.

Definition membersList (c : collection) : handler :=
  rows_of_visible (resource (coll_Writable c)) (membersFn c) (membersKey c).

Definition membersAdd (c : collection) : handler := λ r ss w,
  match add_args "user" r with
  | Err e => mret (Fail r e w)
  | Ok (id, raw, added) =>
      x ← Do ss (ReqOf r 204 raw) (λ h,
        Call_ h (addFn c) (<[coll_key c := VStr id]> {[ "member" := VStr added ]}));
      mret (no_content r w x)
  end.

Definition membersDelete (c : collection) : handler := λ r ss w,
  match remove_args "uid" r with
  | Err e => mret (Fail r e w)
  | Ok (id, uid) =>
      x ← Do ss (ReqOf r 204 EmptyString) (λ h,
        Call_ h (delFn c) (<[coll_key c := VStr id]> {[ "member" := VStr uid ]}));
      mret (no_content r w x)
  end.

Definition areaAction : handler := λ r ss w,
  match IDOf r with
  | Err e => mret (Fail r e w)
  | Ok id =>
      if negb (String.eqb (PathValue r "action") "delete-safely")
      then mret (Fail r no_such_action w)
      else
        x ← Do ss (ReqOf r 200 EmptyString) (λ h,
          on_visible (resource (coll_Writable areas)) h id
            (CallScalar decode_bool h "safely_delete_area" {[ "id" := VStr id ]}));
        mret (match x with
              | Err e => Fail r e w
              | Ok deleted =>
                  WriteJSON 200 ("{" +:+ Quote "deleted" +:+ ":"
                    +:+ (if default false deleted then "true" else "false") +:+ "}") w
              end)
  end.

Definition areasClear : handler := λ r ss w,
  x ← Do ss (ReqOf r 200 EmptyString) (λ h, CallScalar decode_int64 h "clear_area" ∅);
  mret (match x with
        | Err e => Fail r e w
        | Ok n => WriteJSON 200 ("{" +:+ Quote "cleared" +:+ ":" +:+ Itoa (default 0%Z n) +:+ "}") w
        end).

Definition collectionRoutes : list (string * posting) :=
  (c ← [groups; areas; interfaces];
   let p := Prefix (resource (coll_Writable c)) in
   Routes (coll_Writable c) ++
   [("GET " +:+ p +:+ "/{id}/members", lift (membersList c));
    ("POST " +:+ p +:+ "/{id}/members", lift (membersAdd c));
    ("DELETE " +:+ p +:+ "/{id}/members/{uid}", lift (membersDelete c))]) ++
  let p := Prefix (resource (coll_Writable areas)) in
  [("POST " +:+ p +:+ "/{id}/actions/{action}", lift areaAction);
   ("POST " +:+ p +:+ "/actions/clear", lift areasClear);
   ("GET " +:+ Prefix areaTypes, lift (CallRowsHandler "list_area_type" {[ "limit" := VInt 0 ]}));
   ("GET " +:+ Prefix locales, lift (CallRowsHandler "list_locale"
      {[ "orderby" := VRaw ("[" +:+ Quote "code ASC" +:+ "]"); "limit" := VInt 0 ]}));
   ("GET " +:+ Prefix sessions, lift (List sessions))].
End collections.

(** [m.Prefixes]. *)
Definition admin_Prefixes : list string :=
  Prefix users_resource :: ((λ c, Prefix (resource (coll_Writable c))) <$> [groups; areas])
  ++ [Prefix areaTypes; Prefix (resource (coll_Writable interfaces)); Prefix sessions; Prefix locales].

(** ** Lemmas: redaction *)

Definition mask_one (m : gmap string json) (k : string) : gmap string json :=
  if bool_decide (is_Some (m !! k)) then <[k := masked]> m else m.

Lemma mask_one_lookup m j k : mask_one m j !! k =
  if bool_decide (k = j) then (λ _, masked) <$> m !! k else m !! k.
Proof.
  unfold mask_one. destruct (decide (k = j)) as [->|Hk].
  - rewrite (bool_decide_true (j = j)) by done. destruct (m !! j) as [v|] eqn:Hj.
    + rewrite bool_decide_true by by eexists. by rewrite lookup_insert_eq.
    + rewrite bool_decide_false by by intros [? ?]. by rewrite Hj.
  - rewrite (bool_decide_false (k = j)) by done. case_bool_decide; [|done].
    by rewrite lookup_insert_ne.
Qed.

Lemma mask_all_lookup ks : ∀ m k, foldl mask_one m ks !! k =
  if bool_decide (k ∈ ks) then (λ _, masked) <$> m !! k else m !! k.
Proof.
  induction ks as [|j ks IH]; intros m k; [done|]. cbn [foldl]. rewrite IH, mask_one_lookup.
  destruct (decide (k = j)) as [->|Hk].
  - rewrite (bool_decide_true (j = j)), (bool_decide_true (j ∈ j :: ks)) by (done || left).
    case_bool_decide; by destruct (m !! j).
  - rewrite (bool_decide_false (k = j)) by done.
    by rewrite (bool_decide_ext (k ∈ j :: ks) (k ∈ ks)) by (rewrite elem_of_cons; naive_solver).
Qed.

(** The loop of [redact]: the masks, and whether there was anything to mask. *)
Lemma redact_loop ks : ∀ m changed,
  foldl (λ '(m, changed) k,
    if bool_decide (is_Some (m !! k)) then (<[k := masked]> m, true) else (m, changed))
    (m, changed) ks
  = (foldl mask_one m ks, changed || existsb (λ k, bool_decide (is_Some (m !! k))) ks).
Proof.
  induction ks as [|k ks IH]; intros m changed; [cbn; by rewrite orb_false_r|].
  cbn [foldl existsb]. unfold mask_one at 2. case_bool_decide as Hk; rewrite IH.
  - cbn [orb]. by rewrite orb_true_r.
  - done.
Qed.

(** Passwords do not reach the journal: of a body that is a JSON object, the text
    logged is that of an object whose members named password, old or new are masked
    and whose other members have the client's values (escaped for HTML as Go
    marshals); when none of the three is there, the text is the body itself. *)
Lemma redact_hides raw l : parse raw = Some (JObj l) →
  (∀ k, k ∈ secrets → object_map l !! k = None) ∧ redact raw = raw ∨
  ∃ l', parse (redact raw) = Some (JObj l') ∧ ∀ k,
    object_map l' !! k = if bool_decide (k ∈ secrets) then (λ _, masked) <$> object_map l !! k
                         else escape_html <$> object_map l !! k.
Proof.
  intros Hraw. unfold redact. rewrite Hraw, redact_loop. cbn [orb].
  destruct (existsb _ secrets) eqn:Hex.
  - right. set (m := foldl mask_one (object_map l) secrets).
    assert (Hm : ∀ k v, m !! k = Some v → v = masked ∧ is_Some (object_map l !! k) ∨
      object_map l !! k = Some v).
    { intros k v. unfold m. rewrite mask_all_lookup. case_bool_decide; [|by right].
      destruct (object_map l !! k) as [v0|] eqn:Hk; [|done]. intros [= <-]. left. by split. }
    exists (map_object m). split.
    + apply parse_marshal_map. intros k v [[-> _]|Hv]%Hm; [|by apply (object_map_values raw l k)].
      split; [|done]. constructor. apply str_ok_plain. by vm_compute.
    + intros k. rewrite object_map_object.
      * rewrite lookup_fmap. unfold m. rewrite mask_all_lookup. case_bool_decide; [|done].
        by destruct (object_map l !! k).
      * intros k' [v [[_ Hv]|Hv]%Hm]; apply (object_map_utf8 raw l); [done..|by eexists].
  - left. split; [|done]. intros k Hk. destruct (object_map l !! k) eqn:Hl; [|done]. exfalso.
    apply not_true_iff_false in Hex. apply Hex, existsb_exists. exists k.
    split; [by apply list_elem_of_In|]. apply bool_decide_eq_true. rewrite Hl. by eexists.
Qed.

(** A key in other letters is decoded into the field and logged as it came. *)
Lemma redact_misses_letter_case :
  let raw := print (JObj [("Password", JStr "hunter2")]) in
  redact raw = raw ∧
  str_ptr (default ∅ (match decode_struct true user_schema raw with Ok st => Some st | Err _ => None end))
    "password" = Some "hunter2".
Proof. by split; vm_compute. Qed.

(** So is what follows the object in the body. *)
Lemma redact_misses_a_tail :
  let raw := print (JObj [("password", JStr "hunter2")]) +:+ "x" in
  redact raw = raw ∧
  str_ptr (default ∅ (match decode_struct true user_schema raw with Ok st => Some st | Err _ => None end))
    "password" = Some "hunter2".
Proof. by split; vm_compute. Qed.

(** ** Properties: changes are made on what the caller sees *)

(** The handlers that act on a visible row of a resource. *)
Inductive visible_handler {DO : Doer} {T : Texts} (r : Http.Request) : Resource → handler → Prop :=
  | on_lock fn : user_fn (PathValue r "action") = Some fn →
      visible_handler r users_resource userAction
  | on_iptable : visible_handler r users_resource userIptableGet
  | on_iptable_put : visible_handler r users_resource userIptablePut
  | on_rows rs fn key : visible_handler r rs (rows_of_visible rs fn key)
  | on_area : visible_handler r (resource (coll_Writable areas)) areaAction.

Section guarded.
Context {DO : Doer} {DL : DoerLaws} {T : Texts}.

Lemma profile_sat r ss w st :
  match profile_head r with
  | Ok (id, _, _) =>
      sat (guarded users_resource (VStr id) (current_for r)) [] (userProfile r ss w st) (λ _ _, True)
  | Err _ => sat (λ _ _, False) [] (userProfile r ss w st) (λ _ _, True)
  end.
Proof.
  unfold userProfile. destruct (profile_head r) as [[[id raw] b]|e]; [|done].
  unfold patch. apply sat_mbind.
  eapply sat_mono; [|apply (do_guarded users_resource (VStr id) (current_for r))]; [done|].
  intros h n s t Hh. unfold then_ at 1. apply sat_mbind.
  apply (GetRow_sat _ _ _ n); [done|by intros; eapply guarded_read| |done].
  intros o x cur Hc Hx. cbn [fst snd]. destruct (IfMatch r cur) as [[]|e] eqn:Him; [|done].
  apply IfMatch_ok in Him as [_ Hcur].
  apply (guarded_free _ _ _ n h); [done|asking|by eapply row_read_past].
Qed.

Lemma iptable_read_asks h id kind : asks h (iptable_read h id kind).
Proof. unfold iptable_read. asking. Qed.
#[local] Hint Resolve iptable_read_asks : platform.

Lemma visible_sat r rs hd ss w st : visible_handler r rs hd →
  match IDOf r with
  | Ok id => sat (guarded rs (VStr id) (λ _, True)) [] (hd r ss w st) (λ _ _, True)
  | Err _ => sat (λ _ _, False) [] (hd r ss w st) (λ _ _, True)
  end.
Proof.
  destruct 1 as [fn Hfn| | |rs fn key|].
  - unfold userAction. destruct (IDOf r); [|done]. rewrite Hfn. visible.
  - unfold userIptableGet. destruct (IDOf r); [|done]. visible.
  - unfold userIptablePut, iptable_args, iptable_write. destruct (IDOf r); cbn [mbind res_bind]; [|done].
    destruct (ReadBodyInto _ _ r) as [[raw t]|]; cbn [mbind res_bind]; [visible|done].
  - unfold rows_of_visible, rows_answer. destruct (IDOf r); [|done]. visible.
  - unfold areaAction. destruct (IDOf r); [|done]. destruct (negb _); [done|]. visible.
Qed.
End guarded.

(** C40. Users and what belongs to them are changed as the caller sees them: whatever the
    database answers, everything a PATCH of a profile does besides the road's own and reading
    the user is a query on a transaction in which the user was read with the ETag If-Match
    names (or If-Match is a star), and which has gone on since without being committed,
    rolled back or begun anew; everything a lock, an unlock, the table of addresses, the
    lists of members and memberships and the deletion of an area do is a query on such a
    transaction in which the row of the path's id was read; a request refused for its id,
    its precondition or its body asks nothing of the database. *)
Theorem admin_guarded {D} {DO : Doer} {DL : DoerLaws} {T : Texts} (drv : driver D) r ss w st d :
  (let t := (run drv (userProfile r ss w st) d).1.2 in
   match profile_head r with
   | Ok (id, _, _) => ∀ t1 o x t2, t = t1 ++ (o, x) :: t2 →
       guarded users_resource (VStr id) (current_for r) t1 o
   | Err _ => t = []
   end) ∧
  (∀ rs hd, visible_handler r rs hd →
   let t := (run drv (hd r ss w st) d).1.2 in
   match IDOf r with
   | Ok id => ∀ t1 o x t2, t = t1 ++ (o, x) :: t2 → guarded rs (VStr id) (λ _, True) t1 o
   | Err _ => t = []
   end).
Proof.
  cbv zeta. split.
  - pose proof (profile_sat r ss w st) as H.
    destruct (profile_head r) as [[[id raw] b]|e]; [by apply (run_policy drv _ _ d H)|].
    by apply run_silent.
  - intros rs hd Hhd. pose proof (visible_sat r rs hd ss w st Hhd) as H.
    destruct (IDOf r) as [id|e]; [by apply (run_policy drv _ _ d H)|by apply run_silent].
Qed.

(** ** Properties: the table of addresses *)

(** An entry of the table: a text without commas or surrounding white space. *)
Definition entry (s : string) : Prop :=
  s ≠ EmptyString ∧ TrimSpace s = s ∧ sforall (λ c, negb (Ascii.eqb c ",")) s = true ∧
  valid_utf8 s = true.

(** The row a database that keeps the text gives back. *)
Definition iptable_row (t : option string) : row :=
  Some (print (JObj [("iptable", from_option (λ s, JStr (quote_lex s)) JNull t)])).

Lemma splitList_Join l : Forall entry l → l ≠ [] → splitList (Join l ",") = l.
Proof.
  intros Hl Hne. unfold splitList. change "," with (one ",").
  rewrite Split_Join; [|done|by eapply Forall_impl; [exact Hl|intros s (_ & _ & ? & _)]].
  assert (Htrim : TrimSpace <$> l = l).
  { induction Hl as [|s l (_ & Hs & _) _ IH]; [done|]. cbn. rewrite Hs. f_equal.
    destruct l as [|s' l]; [done|]. by apply IH. }
  rewrite Htrim. clear Htrim Hne. induction Hl as [|s l (Hs & _) _ IH]; [done|].
  rewrite filter_cons_True by done. by rewrite IH.
Qed.

(** What is written to a user's table of addresses is what is read back: a list of
    entries without commas or surrounding white space is sent as one text, nil for
    the empty list, and the row with that text is read as the same list. *)
Lemma iptable_roundtrip l : Forall entry l →
  ∃ t, iptable_text (iptable_row (list_text l)) = Ok t ∧ from_option splitList [] t = l.
Proof.
  intros Hl. exists (list_text l). split.
  - unfold iptable_text, iptable_row.
    assert (Hp : ∀ v, json_ok v → (json_depth v ≤ 9999)%N →
      parse (print (JObj [("iptable", v)])) = Some (JObj [("iptable", v)])).
    { intros v Hv Hd. apply parse_print; [|cbn; lia]. constructor. constructor; [|constructor].
      split; [apply str_ok_plain; by vm_compute|done]. }
    destruct l as [|s l]; [rewrite Hp; [by vm_compute|constructor|done]|].
    cbn [list_text from_option]. rewrite Hp by (apply json_ok_str || done).
    assert (Hm : ∀ v, field_members "iptable" [("iptable", v)] = [v]) by (intros v; by vm_compute).
    rewrite Hm. unfold str_pointer. cbn [foldl of_option]. rewrite Unquote_quote; [done|].
    apply valid_utf8_Join; [done|]. eapply Forall_impl; [exact Hl|]. by intros x (_ & _ & _ & ?).
  - destruct l as [|s l]; [done|]. by apply (splitList_Join (s :: l)).
Qed.

(** ** Witnesses *)

Definition sample_change : string :=
  print (JObj [("email", JStr "ann@example.com"); ("password", JStr "hunter2")]).

Lemma redact_hides_witness : ∃ l', parse (redact sample_change) = Some (JObj l') ∧
  object_map l' !! "password" = Some (JStr "***") ∧
  object_map l' !! "email" = Some (JStr "ann@example.com").
Proof.
  destruct (redact_hides sample_change
    [("email", JStr "ann@example.com"); ("password", JStr "hunter2")]) as [[H _]|(l' & Hl & H)];
    [by vm_compute| |].
  - exfalso. specialize (H "password" ltac:(left)). vm_compute in H. discriminate H.
  - exists l'. split_and!; [exact Hl|rewrite H; by vm_compute|rewrite H; by vm_compute].
Defined.

Lemma iptable_roundtrip_witness :
  ∃ t, iptable_text (iptable_row (Some "192.168.1.1,10.0.0.*")) = Ok t ∧
    from_option splitList [] t = ["192.168.1.1"; "10.0.0.*"].
Proof.
  apply (iptable_roundtrip ["192.168.1.1"; "10.0.0.*"]).
  repeat (apply Forall_cons; split; [split_and!; by vm_compute|]). apply Forall_nil_2.
Defined.

#[local] Instance admin_texts : Texts := plain_texts.

Definition profile_patch : Http.Request :=
  user_request "PATCH" user_tag (print (JObj [("locale", JStr "ru")])).

Definition sample_profile := run (toy_driver user_answers)
  (userProfile profile_patch sample_session new_writer (sample_road false)) toy_init.

Lemma admin_guarded_witness :
  sent_status sample_profile.1.1.1 = Some 200%Z ∧ ∃ id, ∀ t1 o x t2,
    sample_profile.1.2 = t1 ++ (o, x) :: t2 →
    guarded users_resource (VStr id) (current_for profile_patch) t1 o.
Proof.
  split; [by vm_compute|].
  pose proof (admin_guarded (toy_driver user_answers) profile_patch sample_session new_writer
    (sample_road false) toy_init) as [H _].
  assert (Hu : is_ok (profile_head profile_patch) = true) by (vm_compute; reflexivity).
  cbv zeta in H. destruct (profile_head profile_patch) as [[[id raw] b]|e]; [|discriminate Hu].
  exists id. exact H.
Defined.
