(* ===== verification/Object.v ===== *)
(** * entity/object: what every object has

    The package over the SQL module entity/object (object.go): the row of an object,
    its methods and actions, its access, its files and the search over all objects.
    A read of a body is limited as the source limits it; the files of a body are
    decoded as encoding/json decodes an array of pointers to structs. *)

From S2P Require Import Prelude.
From S2P Require Import GoStrings.
From S2P Require Import GoJson.
From S2P Require Import Utf8.
From S2P Require Import Problem.
From S2P Require Import Db.
From S2P Require Import Pgtx.
From S2P Require Import PgtxLaws.
From S2P Require Import Http.
From S2P Require Import Url.
From S2P Require Import Decode.
From S2P Require Import Doer.
From S2P Require Import Rest.
From S2P Require Import Asks.
From S2P Require Import RestLaws.
From S2P Require Query.

(** ** The resource, and what is decided before the database *)

Definition search_path : string := "/api/v2/search".

Definition objects : Resource :=
  mkResource "/api/v2/objects" "api.get_object" "api.list_object" "api.count_object" false.

(** [^[a-z][a-z0-9_]{0,63}$]. *)
Definition codeRe (s : string) : bool :=
  head_tail is_lower (λ c, is_lower c || is_digit c || Ascii.eqb c "_") s
  && (String.length s <=? 64)%nat.

(** [io.ReadAll(io.LimitReader(r.Body, n))]; [None] for its error. *)
Definition read_limited (r : Http.Request) (n : N) : option string :=
  let size := N.of_nat (String.length (Http.Body r)) in
  if BodyFails r && (size <? n)%N then None
  else Some (if (size <=? n)%N then Http.Body r else stake (N.to_nat n) (Http.Body r)).

(** [paramsOf]: the empty text for nil. *)
Definition paramsOf (r : Http.Request) : res error string :=
  match read_limited r 1048576 with
  | None => Err (bad_request "cannot read the body")
  | Some body =>
      let raw := TrimSpace body in
      if is_empty raw then Ok EmptyString
      else if negb (Valid raw) || negb (HasPrefix raw "{")
      then Err (bad_request "the body must be a JSON object or empty")
      else Ok raw
  end.

(** [chmodo]: one grant; a nil mask would panic, the form refuses it first. *)
Definition chmodo (h : handle) (id : string) (b : AccessBody) : M (res error unit) :=
  Call_ h "chmodo"
    {[ "object" := VStr id; "mask" := VInt (default 0%Z (Mask b)); "userid" := VStr (UserID b) ]}.

Definition object_access : Access :=
  mkAccess objects "api.object_access" "api.decode_object_access" MaskBits6 false chmodo.

(** ** Files *)

Definition MaxFilesBody : N := 67108864.

Definition file_schema : schema :=
  [("name", TStrP); ("path", TStrP); ("size", TIntP 32); ("date", TStrP); ("data", TStrP);
   ("hash", TStrP); ("text", TStrP); ("type", TStrP)].

(** A member of a file; [None] for an unknown key or a value of another type. *)
Definition file_member (st : struct) (kv : string * json) : option struct :=
  '(k, t) ← find_field file_schema (member_key kv);
  x ← decode_field t (default VNil (st !! k)) kv.2 EmptyString;
  Some (<[k := x]> st).

(** An element of the array: [Some None] is a nil pointer. *)
Definition file_elem (v : json) : option (option struct) :=
  match v with
  | JNull => Some None
  | JObj l =>
      st ← foldl (λ acc kv, st ← acc; file_member st kv) (Some (zero_struct file_schema)) l;
      Some (Some st)
  | _ => None
  end.

(** [dec.More()] on what follows the value: a closing bracket is not more. *)
Definition more (rest : string) : bool :=
  match skip_ws rest with
  | String c _ => negb (Ascii.eqb c "]") && negb (Ascii.eqb c "}")
  | EmptyString => false
  end.

Definition at_file (i : Z) (what : string) : error :=
  bad_request ("files[" +:+ Itoa i +:+ "]: " +:+ what).

(** The loop over the files, from index [i]. *)
Fixpoint check_files (i : Z) (files : list (option struct)) : res error (list struct) :=
  match files with
  | [] => Ok []
  | None :: _ => Err (at_file i "not an object")
  | Some f :: files =>
      throw_if (match str_ptr f "name" with Some n => is_empty (TrimSpace n) | None => true end)
        (at_file i "name is required");;
      throw_if (match int_ptr f "size" with Some n => (n <? 0)%Z | None => false end)
        (at_file i "size must not be negative");;
      l ← check_files (i + 1) files;
      Ok (f :: l)
  end.

Definition bad_files : error :=
  bad_request "the body must be a non-empty JSON array of files {name, path, size, date, data, hash, text, type}".

Definition filesOf (r : Http.Request) : res error (string * list struct) :=
  match read_limited r MaxFilesBody with
  | None => Err (bad_request "cannot read the body")
  | Some raw =>
      match decode_first raw with
      | Some (JArr l, rest) =>
          match mapM file_elem l with
          | Some files =>
              throw_if (more rest || bool_decide (files = [])) bad_files;;
              out ← check_files 0 files;
              Ok (raw, out)
          | None => Err bad_files
          end
      | _ => Err bad_files
      end
  end.

(** A field of a file as JSON. *)
Definition field_json (v : value) : json :=
  match v with
  | VPtr (Some (VStr s)) => JStr (quote_lex s)
  | VPtr (Some (VInt z)) => JNum (Itoa z)
  | _ => JNull
  end.

Definition file_json (f : struct) : json :=
  JObj ((λ kt, (kt.1, field_json (field f kt.1))) <$> file_schema).

Definition withoutData (files : list struct) : string :=
  print (JObj [("files", JArr ((λ f, file_json (<["data" := VPtr None]> f)) <$> files))]).

(** ** Handlers *)

Section object.
Context {DO : Doer} {T : Texts}.

Definition files_args (r : Http.Request) : res error (string * Query.Params) :=
  id ← IDOf r;
  p ← map_err (λ e, bad_request (query_text e)) (Query.Parse (Query (RawQuery r)));
  Ok (id, Query.mkParams (Query.mkCondition "object" "EQL" id [] :: Query.Search p) (Query.OrderBy p)
            (Query.Fields p) (Query.Limit p) (Query.Offset p)).

(** The functions of the list of files. *)
Definition object_files : Resource :=
  mkResource EmptyString EmptyString "list_object_file" "count_object_file" false.

Definition files : handler := λ r ss w,
  match files_args r with
  | Err e => mret (Fail r e w)
  | Ok (id, params) =>
      let '(search, orderby, _) := Query.JSONArgs params in
      x ← Do ss (ReqOf r 200 (query_payload r)) (λ h,
        on_visible objects h id
          (list_rows object_files search orderby (Query.Limit params) (Query.Offset params)
             (Query.Fields params) h));
      mret (match x with
            | Err e => Fail r e w
            | Ok (total, items) =>
                WriteJSON 200 (default EmptyString
                  (list_body total items (Query.Limit params) (Query.Offset params))) w
            end)
  end.

Definition filesAdd_args (r : Http.Request) : res error (string * string * list struct) :=
  id ← IDOf r; '(raw, files) ← filesOf r; Ok (id, raw, files).

Definition filesAdd : handler := λ r ss w,
  match filesAdd_args r with
  | Err e => mret (Fail r e w)
  | Ok (id, raw, files) =>
      x ← Do ss (ReqOf r 200 (withoutData files)) (λ h,
        on_visible objects h id
          (Call h "set_object_files_json" {[ "id" := VStr id; "files" := JSON_arg (Some raw) ]}));
      mret (rows_body r w x)
  end.

Definition file_args (r : Http.Request) : res error (string * string) :=
  id ← IDOf r;
  throw_if (negb (IsUUID (PathValue r "file"))) (bad_request "bad file id");;
  Ok (id, PathValue r "file").

(** The arguments that name a file of an object. *)
Definition file_named (id file : string) : Args :=
  {[ "object" := VStr id; "file" := VStr file; "name" := VNil ]}.

Definition file : handler := λ r ss w,
  match file_args r with
  | Err e => mret (Fail r e w)
  | Ok (id, file) =>
      x ← Do ss (ReqOf r 200 EmptyString) (λ h,
        on_visible objects h id
          (x ← CallRow h "get_object_file" (file_named id file);
           mret (match x with
                 | Err e => Err (if is_ErrNoRow e then not_found else e)
                 | Ok rw => Ok rw
                 end)));
      mret (match x with
            | Err e => Fail r e w
            | Ok rw => WriteJSON 200 (default EmptyString rw) w
            end)
  end.

Definition fileDelete : handler := λ r ss w,
  match file_args r with
  | Err e => mret (Fail r e w)
  | Ok (id, file) =>
      x ← Do ss (ReqOf r 204 EmptyString) (λ h,
        on_visible objects h id
          (then_ (CallScalar decode_bool h "delete_object_file" (file_named id file)) (λ deleted,
           mret (throw_if (negb (default false deleted)) not_found))));
      mret (no_content r w x)
  end.

Definition filesClear : handler := λ r ss w,
  match IDOf r with
  | Err e => mret (Fail r e w)
  | Ok id =>
      x ← Do ss (ReqOf r 204 EmptyString) (λ h,
        on_visible objects h id (Call_ h "clear_object_files" {[ "id" := VStr id ]}));
      mret (no_content r w x)
  end.

(** The entity codes of a search, and its arguments. *)
Definition search_entities (s : string) : res error (list string) :=
  let l := filter (λ e, e ≠ EmptyString) (TrimSpace <$> Split s ",") in
  foldM_res (λ _ e, throw_if (negb (codeRe e))
      (bad_request "entities must be a comma-separated list of entity codes")) l tt;;
  Ok l.

Definition search_args (r : Http.Request) : res error Args :=
  let q := Query (RawQuery r) in
  let text := TrimSpace (values_get q "q") in
  throw_if (is_empty text) (bad_request "q is required");;
  entities ← search_entities (values_get q "entities");
  let args : Args :=
    {[ "text" := VStr text;
       "entities" := JSON_arg (match entities with
                               | [] => None
                               | l => Some (print (Query.strings_json l))
                               end) ]} in
  let l := values_get q "locale" in
  Ok (if is_empty l then args else <["localecode" := VStr l]> args).

Definition search : handler := λ r ss w,
  match search_args r with
  | Err e => mret (Fail r e w)
  | Ok args => CallRowsHandler "search" args r ss w
  end.

Definition methods : handler := rows_of_visible objects "get_object_methods" "object".

Definition run_args (what : string) (valid : string → bool) (r : Http.Request)
    : res error (string * string * string) :=
  id ← IDOf r;
  throw_if (negb (valid (PathValue r what))) (bad_request ("bad " +:+ what));;
  params ← paramsOf r;
  Ok (id, PathValue r what, params).

Definition run (what : string) (valid : string → bool) (fn argKey : string) : handler :=
  λ r ss w,
  match run_args what valid r with
  | Err e => mret (Fail r e w)
  | Ok (id, key, params) =>
      x ← Do ss (ReqOf r 200 params) (λ h,
        on_visible objects h id
          (then_ (Call_ h fn (<["object" := VStr id]> (<[argKey := VStr key]>
                    {[ "params" := JSON_arg (Some params) ]})))
             (λ _, GetRow objects h (VStr id))));
      mret (row_answer r w x)
  end.

Definition object_Routes : list (string * handler) :=
  let p := Prefix objects in
  [("GET " +:+ search_path, search); ("GET " +:+ p, List objects);
   ("GET " +:+ p +:+ "/{id}", Get objects);
   ("GET " +:+ p +:+ "/{id}/methods", methods);
   ("POST " +:+ p +:+ "/{id}/actions/{action}", run "action" codeRe "execute_object_action" "code");
   ("POST " +:+ p +:+ "/{id}/methods/{method}", run "method" IsUUID "execute_method" "method")]
  ++ access_Routes object_access ++
  [("GET " +:+ p +:+ "/{id}/files", files); ("POST " +:+ p +:+ "/{id}/files", filesAdd);
   ("DELETE " +:+ p +:+ "/{id}/files", filesClear);
   ("GET " +:+ p +:+ "/{id}/files/{file}", file);
   ("DELETE " +:+ p +:+ "/{id}/files/{file}", fileDelete)].
End object.

(** ** Properties: objects are acted on as the caller sees them *)

Inductive object_handler {DO : Doer} {T : Texts} : handler → Prop :=
  | is_methods : object_handler methods
  | is_run what valid fn key : object_handler (run what valid fn key)
  | is_files : object_handler files
  | is_filesAdd : object_handler filesAdd
  | is_file : object_handler file
  | is_fileDelete : object_handler fileDelete
  | is_filesClear : object_handler filesClear.

Section guarded.
Context {DO : Doer} {DL : DoerLaws} {T : Texts}.

Lemma object_sat hd r ss w st : object_handler hd →
  match IDOf r with
  | Ok id => sat (guarded objects (VStr id) (λ _, True)) [] (hd r ss w st) (λ _ _, True)
  | Err _ => sat (λ _ _, False) [] (hd r ss w st) (λ _ _, True)
  end.
Proof.
  destruct 1 as [|what valid fn key| | | | |].
  - unfold methods, rows_of_visible, rows_answer. destruct (IDOf r); [|done]. visible.
  - unfold run, run_args. destruct (IDOf r); cbn [mbind res_bind]; [|done].
    destruct (throw_if _ _) as [[]|]; cbn [mbind res_bind]; [|done].
    destruct (paramsOf r); cbn [mbind res_bind]; [visible|done].
  - unfold files, files_args. destruct (IDOf r); cbn [mbind res_bind]; [|done].
    destruct (map_err _ _); cbn [mbind res_bind]; [|done].
    destruct (Query.JSONArgs _) as [[search orderby] ?]. visible.
  - unfold filesAdd, filesAdd_args. destruct (IDOf r); cbn [mbind res_bind]; [|done].
    destruct (filesOf r) as [[raw l]|]; cbn [mbind res_bind]; [visible|done].
  - unfold file, file_args. destruct (IDOf r); cbn [mbind res_bind]; [|done].
    destruct (throw_if _ _) as [[]|]; cbn [mbind res_bind]; [visible|done].
  - unfold fileDelete, file_args. destruct (IDOf r); cbn [mbind res_bind]; [|done].
    destruct (throw_if _ _) as [[]|]; cbn [mbind res_bind]; [visible|done].
  - unfold filesClear. destruct (IDOf r); [visible|done].
Qed.


Lemma object_wire hd r ss w st : object_handler hd → w_status w = None →
  post (hd r ss w st) (on_wire r).
Proof.
  intros Hhd Hw. destruct Hhd as [|what valid fn key| | | | |].
  - apply rows_answer_wire; [auto with platform|done].
  - unfold run. destruct (run_args _ _ _) as [[[id key'] params]|]; [|by apply wire_fail].
    apply (wire_answer ss _ _ _ r w st); [done|auto 8 with platform|done|].
    intros rw. apply WriteJSON_status. by rewrite SetETag_status.
  - unfold files. destruct (files_args r) as [[id params]|]; [|by apply wire_fail].
    destruct (Query.JSONArgs _) as [[search orderby] ?].
    apply (wire_answer ss _ _ _ r w st); [done|auto with platform|done|].
    intros [total items]. by apply WriteJSON_status.
  - unfold filesAdd. destruct (filesAdd_args r) as [[[id raw] l]|]; [|by apply wire_fail].
    apply (wire_answer ss _ _ _ r w st); [done|auto with platform|done|].
    intros rows. by apply WriteJSON_status.
  - unfold file. destruct (file_args r) as [[id f]|]; [|by apply wire_fail].
    apply (wire_answer ss _ _ _ r w st); [done|auto with platform|done|].
    intros rw. by apply WriteJSON_status.
  - unfold fileDelete. destruct (file_args r) as [[id f]|]; [|by apply wire_fail].
    apply (wire_answer ss _ _ _ r w st); [done|auto 8 with platform|done|].
    intros []. unfold sent_status. cbn. by rewrite WriteHeader_sent.
  - unfold filesClear. destruct (IDOf r); [|by apply wire_fail].
    apply (wire_answer ss _ _ _ r w st); [done|auto with platform|done|].
    intros []. unfold sent_status. cbn. by rewrite WriteHeader_sent.
Qed.
End guarded.

(** C39. An object is acted on as the caller sees it: whatever the database answers, everything
    the methods, actions and files of an object do besides the road's own and reading the object
    is a query on a transaction in which the row of the path's id was read and which has
    gone on since without being committed, rolled back or begun anew; a request
    refused for its id asks nothing of the database, and the answer is a problem or
    goes out with the status the journal has. *)
Theorem object_visible {D} {DO : Doer} {DL : DoerLaws} {T : Texts} (drv : driver D)
    hd r ss w st d :
  object_handler hd →
  (let t := (Db.run drv (hd r ss w st) d).1.2 in
   match IDOf r with
   | Ok id => ∀ t1 o x t2, t = t1 ++ (o, x) :: t2 → guarded objects (VStr id) (λ _, True) t1 o
   | Err _ => t = []
   end) ∧
  (w_status w = None → post (hd r ss w st) (on_wire r)).
Proof.
  intros Hhd. cbv zeta. split; [|by intros; apply object_wire].
  pose proof (object_sat hd r ss w st Hhd) as H.
  destruct (IDOf r) as [id|e]; [by apply (run_policy drv _ _ d H)|by apply run_silent].
Qed.

(** ** Properties: files *)

Lemma file_member_keys st kv st' : file_member st kv = Some st' →
  is_Some (find_field file_schema (member_key kv)).
Proof. unfold file_member. destruct (find_field _ _); [by eexists|done]. Qed.

Lemma file_elem_keys v f : file_elem v = Some (Some f) →
  ∃ l, v = JObj l ∧ ∀ kv, kv ∈ l → is_Some (find_field file_schema (member_key kv)).
Proof.
  destruct v as [| | | | |l]; try done. cbn [file_elem]. intros H. exists l. split; [done|].
  destruct (foldl _ _ l) as [st|] eqn:Hf; [|done]. clear H. revert st Hf.
  induction l as [|kv l IH] using rev_ind; intros st Hf kv' Hin; [by apply elem_of_nil in Hin|].
  rewrite foldl_app in Hf. cbn [foldl] in Hf.
  destruct (foldl _ _ l) as [st0|] eqn:Hl; [|done]. cbn [mbind option_bind] in Hf.
  apply elem_of_app in Hin as [Hin|Hin%list_elem_of_singleton]; [by apply (IH st0)|].
  subst kv'. by eapply file_member_keys.
Qed.

(** A file that may be stored. *)
Definition file_ok (f : struct) : Prop :=
  (∃ n, str_ptr f "name" = Some n ∧ TrimSpace n ≠ EmptyString) ∧
  ∀ z, int_ptr f "size" = Some z → (0 <= z)%Z.

Lemma check_files_ok l : ∀ i out, check_files i l = Ok out →
  l = Some <$> out ∧ Forall file_ok out.
Proof.
  induction l as [|[f|] l IH]; intros i out; cbn [check_files]; [by intros [= <-]| |done].
  destruct (str_ptr f "name") as [n|] eqn:Hn; [|done].
  destruct (is_empty (TrimSpace n)) eqn:He; cbn [throw_if mbind res_bind]; [done|].
  destruct (match int_ptr f "size" with Some _ => _ | None => _ end) eqn:Hz;
    cbn [throw_if mbind res_bind]; [done|].
  destruct (check_files (i + 1) l) as [out'|] eqn:Hl; cbn [mbind res_bind]; [|done].
  intros [= <-]. apply IH in Hl as [-> Hok]. split; [done|]. constructor; [|done]. split.
  - exists n. split; [done|]. intros Hne. by rewrite Hne in He.
  - intros z Hs. rewrite Hs in Hz. by apply Z.ltb_ge in Hz.
Qed.

Lemma file_members (g : string → json) k : k ∈ file_schema.*1 →
  object_map ((λ kt, (kt.1, g kt.1)) <$> file_schema) !! k = Some (g k).
Proof.
  intros Hk. cbn in Hk.
  repeat (apply elem_of_cons in Hk as [->|Hk]; [by vm_compute|]). by apply elem_of_nil in Hk.
Qed.

Lemma field_json_ok v : json_ok (field_json v) ∧ json_depth (field_json v) = 0%N.
Proof.
  unfold field_json. destruct v as [| | | | | | |[[]|]|]; (split; [|done]);
    first [apply json_ok_str|apply json_ok_Itoa|apply ok_null].
Qed.

Lemma file_json_ok f : json_ok (file_json f) ∧ (json_depth (file_json f) ≤ 1)%N.
Proof.
  split.
  - constructor. apply Forall_fmap, Forall_forall. intros kt Hkt. split; [|apply field_json_ok].
    apply str_ok_plain. cbn in Hkt.
    repeat (apply elem_of_cons in Hkt as [->|Hkt]; [by vm_compute|]). by apply elem_of_nil in Hkt.
  - unfold file_json. cbn [json_depth].
    enough (foldr (λ (kv : string * json) n, N.max (json_depth kv.2) n) 0
      ((λ kt : string * ftype, (kt.1, field_json (field f kt.1))) <$> file_schema) ≤ 0)%N by lia.
    induction file_schema as [|kt l IH]; [done|].
    rewrite fmap_cons. cbn [foldr snd]. rewrite (proj2 (field_json_ok _)). lia.
Qed.

Lemma withoutData_parse files : parse (withoutData files) =
  Some (JObj [("files", JArr ((λ f, file_json (<["data" := VPtr None]> f)) <$> files))]).
Proof.
  apply parse_print.
  - constructor. constructor; [|constructor]. split; [apply str_ok_plain; by vm_compute|].
    constructor. apply Forall_fmap, Forall_forall. intros f _. apply file_json_ok.
  - cbn [json_depth foldr fst snd].
    enough (foldr (λ v n, N.max (json_depth v) n) 0
      ((λ f, file_json (<["data" := VPtr None]> f)) <$> files) ≤ 1)%N by lia.
    induction files as [|f l IH]; [cbn; lia|]. rewrite fmap_cons. cbn [foldr].
    pose proof (proj2 (file_json_ok (<["data" := VPtr None]> f))). lia.
Qed.

(** The files of a body are checked before the database and journalled without their
    bytes: a body is taken only when its first value is a non-empty array of objects
    with known keys alone, each named by more than white space and of a size that is
    not negative; what is logged for it is an object with the array of the same files
    in which data is null and every other key is as it was given, null where it was
    not. *)
Lemma filesOf_journalled r raw files : filesOf r = Ok (raw, files) →
  (∃ l rest, decode_first raw = Some (JArr l, rest) ∧ l ≠ [] ∧
     Forall (λ v, ∃ ms, v = JObj ms ∧
       ∀ kv, kv ∈ ms → is_Some (find_field file_schema (member_key kv))) l) ∧
  Forall file_ok files ∧
  ∃ os, parse (withoutData files) = Some (JObj [("files", JArr (JObj <$> os))]) ∧
    Forall2 (λ f o, object_map o !! "data" = Some JNull ∧
      ∀ k, k ∈ file_schema.*1 → k ≠ "data" → object_map o !! k = Some (field_json (field f k)))
      files os.
Proof.
  unfold filesOf. destruct (read_limited r MaxFilesBody) as [body|]; [|done].
  destruct (decode_first body) as [[v rest]|] eqn:Hd; [|done]. destruct v as [| | | |l|]; try done.
  destruct (mapM file_elem l) as [fs|] eqn:Hfs; [|done].
  destruct (more rest || bool_decide (fs = [])) eqn:Hm; cbn [throw_if mbind res_bind]; [done|].
  destruct (check_files 0 fs) as [out|] eqn:Hc; cbn [mbind res_bind]; [|done].
  intros [= <- <-]. apply check_files_ok in Hc as [-> Hok].
  apply mapM_Some in Hfs. split; [|split; [done|]].
  - exists l, rest. split; [done|]. split.
    + intros ->. apply Forall2_nil_inv_l in Hfs.
      apply orb_false_iff in Hm as [_ Hm%bool_decide_eq_false]. by rewrite Hfs in Hm.
    + apply Forall_forall. intros v Hv. destruct (Forall2_elem_l _ _ _ _ Hfs Hv) as (f & Hf & Hvf).
      apply list_elem_of_fmap in Hf as (f0 & -> & _).
      apply file_elem_keys in Hvf as (ms & -> & H). by exists ms.
  - exists ((λ f, (λ kt, (kt.1, field_json (field (<["data" := VPtr None]> f) kt.1))) <$> file_schema)
      <$> out). split.
    + rewrite withoutData_parse. by rewrite <- list_fmap_compose.
    + clear. induction out as [|f out IH]; [constructor|]. constructor; [|exact IH].
      set (g k := field_json (field (<["data" := VPtr None]> f) k)).
      change (object_map _) with (object_map ((λ kt : string * ftype, (kt.1, g kt.1)) <$> file_schema)).
      split.
      * rewrite file_members; [unfold g, field; by rewrite lookup_insert_eq|]. cbn.
        do 4 right. left.
      * intros k Hk Hne. rewrite file_members by done. unfold g, field.
        by rewrite lookup_insert_ne.
Qed.

(** ** Witnesses *)

#[local] Instance object_texts : Texts := plain_texts.

Definition sample_files : string :=
  print (JArr [JObj [("name", JStr "a.txt"); ("data", JStr "AAEC"); ("size", JNum "3")]]).

Definition files_request : Http.Request := user_request "POST" EmptyString sample_files.

(** The file it is decoded into. *)
Definition sample_file : struct :=
  <["name" := VPtr (Some (VStr "a.txt"))]> (<["size" := VPtr (Some (VInt 3))]>
   (<["data" := VPtr (Some (VStr "AAEC"))]> (zero_struct file_schema))).

Lemma filesOf_journalled_witness : filesOf files_request = Ok (sample_files, [sample_file]) ∧
  ∃ os, parse (withoutData [sample_file]) = Some (JObj [("files", JArr (JObj <$> os))]) ∧
    Forall (λ o, object_map o !! "data" = Some JNull) os.
Proof.
  assert (Hf : filesOf files_request = Ok (sample_files, [sample_file]))
    by (vm_cast_no_check (eq_refl (filesOf files_request))).
  split; [exact Hf|].
  destruct (filesOf_journalled files_request sample_files [sample_file] Hf) as (_ & _ & os & Hp & Hos).
  exists os. split; [exact Hp|]. clear -Hos. revert Hos. generalize [sample_file].
  intros fs Hos. induction Hos as [|f o fs os [Ho _] _ IH]; constructor; assumption.
Defined.

Lemma object_visible_witness :
  post (files files_request sample_session new_writer (sample_road true)) (on_wire files_request) ∧
  ∀ t1 o x t2,
    (Db.run (toy_driver user_answers)
       (filesAdd files_request sample_session new_writer (sample_road true)) toy_init).1.2
    = t1 ++ (o, x) :: t2 →
    guarded objects (VStr user_id) (λ _, True) t1 o.
Proof.
  split.
  - apply (object_visible (toy_driver user_answers) files files_request sample_session new_writer
      (sample_road true) toy_init); [constructor|reflexivity].
  - pose proof (object_visible (toy_driver user_answers) filesAdd files_request sample_session
      new_writer (sample_road true) toy_init ltac:(constructor)) as [H _].
    assert (Hid : IDOf files_request = Ok user_id) by (by vm_compute).
    cbv zeta in H. rewrite Hid in H. exact H.
Defined.
