(* ===== verification/Workflow.v ===== *)
(** * workflow: the automaton as data

    The package over the SQL module workflow (workflow.go): the read-only catalogues,
    the six writable resources with the parameters of api.set_<x>, the copies and clones
    of a class, the rights of classes and methods. *)

From S2P Require Import Prelude.
From S2P Require Import GoStrings.
From S2P Require Import GoJson.
From S2P Require Import Problem.
From S2P Require Import Db.
From S2P Require Import Pgtx.
From S2P Require Import PgtxLaws.
From S2P Require Import Http.
From S2P Require Import Decode.
From S2P Require Import Doer.
From S2P Require Import Rest.
From S2P Require Import Asks.
From S2P Require Import RestLaws.

(** ** Resources *)

(** The wiring the resources share: [get_/list_/count_<x>]. *)
Definition catalogue (name path : string) : Resource :=
  mkResource ("/api/v2/" +:+ path) ("api.get_" +:+ name) ("api.list_" +:+ name)
    ("api.count_" +:+ name) false.

Definition entities : Resource := catalogue "entity" "entities".
Definition actions : Resource := catalogue "action" "actions".
Definition priorities : Resource := catalogue "priority" "priorities".
Definition stateTypes : Resource :=
  mkResource "/api/v2/state-types" "api.get_state_type" EmptyString EmptyString false.
Definition eventTypes : Resource :=
  mkResource "/api/v2/event-types" "api.get_event_type" EmptyString EmptyString false.

(** ** Bodies *)

(** A body of pointers whose parameters have the names of its fields. *)
Definition set_body (sc : schema) (required : list string) : Body :=
  mkBody sc (λ create st, RequiredAll create ((λ k, (k, str_ptr st k)) <$> required))
    (named_args (same_names sc)).

Definition typeBody : Body :=
  set_body [("class", TStrP); ("code", TStrP); ("name", TStrP); ("description", TStrP)] ["code"; "class"].

Definition class_schema : schema :=
  [("parent", TStrP); ("entity", TStrP); ("code", TStrP); ("label", TStrP); ("abstract", TBoolP)].

(** An absent [abstract] is true on a set. *)
Definition classBody : Body :=
  mkBody class_schema
    (λ create st, RequiredAll create ((λ k, (k, str_ptr st k)) <$> ["code"; "parent"; "entity"]))
    (λ id st, <["abstract" := VBool (default true (bool_ptr st "abstract"))]>
                (named_args (same_names class_schema) id st)).

Definition stateBody : Body :=
  set_body [("class", TStrP); ("type", TStrP); ("code", TStrP); ("label", TStrP); ("sequence", TIntP 64)]
    ["code"; "class"; "type"].

Definition methodBody : Body :=
  set_body [("parent", TStrP); ("class", TStrP); ("state", TStrP); ("action", TStrP); ("code", TStrP);
            ("label", TStrP); ("sequence", TIntP 64); ("visible", TBoolP)] ["class"; "state"; "action"].

Definition transitionBody : Body :=
  set_body [("state", TStrP); ("method", TStrP); ("newstate", TStrP)] ["state"; "method"; "newstate"].

Definition eventBody : Body :=
  set_body [("class", TStrP); ("type", TStrP); ("action", TStrP); ("label", TStrP); ("text", TStrP);
            ("sequence", TIntP 64); ("enabled", TBoolP)] ["class"; "type"; "action"].

Definition constructor (name path : string) (b : Body) : Writable :=
  mkWritable (catalogue name path) ("api.set_" +:+ name) EmptyString [] b ("api.delete_" +:+ name) None None.

Definition types : Writable := constructor "type" "types" typeBody.
Definition classes : Writable := constructor "class" "classes" classBody.
Definition states : Writable := constructor "state" "states" stateBody.
Definition methods : Writable := constructor "method" "methods" methodBody.
Definition transitions : Writable := constructor "transition" "transitions" transitionBody.
Definition events : Writable := constructor "event" "events" eventBody.

(** ** Rights *)

(** [api.chmodc] takes the rights of the class and, by default, of its descendants. *)
Definition chmodc (h : handle) (id : string) (b : AccessBody) : M (res error unit) :=
  Call_ h "chmodc"
    {[ "class" := VStr id; "mask" := VInt (default 0%Z (Mask b)); "userid" := VStr (UserID b);
       "recursive" := VBool (default true (Recursive b));
       "objectset" := VBool (default false (ObjectSet b)) ]}.

Definition chmodm (h : handle) (id : string) (b : AccessBody) : M (res error unit) :=
  Call_ h "chmodm"
    {[ "method" := VStr id; "mask" := VInt (default 0%Z (Mask b)); "userid" := VStr (UserID b) ]}.

Definition class_access : Access :=
  mkAccess (resource classes) "api.class_access" "api.decode_class_access" MaskBits10 true chmodc.
Definition method_access : Access :=
  mkAccess (resource methods) "api.method_access" "api.decode_method_access" MaskBits6 false chmodm.

(** ** Actions of a class *)

Definition copy_schema : schema := [("destination", TStr)].

Section workflow.
Context {DO : Doer} {T : Texts}.

(** What a copy decides before the database. *)
Definition copy_args (r : Http.Request) : res error (string * string) :=
  '(raw, b) ← ReadBody r copy_schema;
  throw_if (negb (IsUUID (str_of b "destination"))) (bad_request "destination class id is required");;
  Ok (raw, str_of b "destination").

Definition copyClass (id : string) : handler := λ r ss w,
  match copy_args r with
  | Err e => mret (Fail r e w)
  | Ok (raw, destination) =>
      x ← Do ss (ReqOf r 204 raw) (λ h,
        on_visible (resource classes) h id
          (Call_ h "copy_class" {[ "source" := VStr id; "destination" := VStr destination ]}));
      mret (no_content r w x)
  end.

Definition clone_args (r : Http.Request) : res error (string * struct) :=
  '(raw, b) ← ReadBody r class_schema;
  Required "code" (str_ptr b "code") true;;
  Required "entity" (str_ptr b "entity") true;;
  Ok (raw, b).

(** The [id] of a created row, empty when it names none. *)
Definition created_of (rw : row) : string :=
  match rw ≫= parse with Some (JObj l) => string_field "id" l | _ => EmptyString end.

Definition cloneClass (id : string) : handler := λ r ss w,
  match clone_args r with
  | Err e => mret (Fail r e w)
  | Ok (raw, b) =>
      x ← Do ss (ReqOf r 201 raw) (λ h,
        on_visible (resource classes) h id
          (CallRow h "clone_class"
             {[ "parent" := VStr id; "entity" := field b "entity"; "code" := field b "code";
                "label" := field b "label"; "abstract" := VBool (default false (bool_ptr b "abstract")) ]}));
      mret (match x with
            | Err e => Fail r e w
            | Ok rw =>
                WriteJSON 201 (default EmptyString rw)
                  (SetETag rw (SetHeader "Location" (Prefix (resource classes) +:+ "/" +:+ created_of rw) w))
            end)
  end.

Definition classAction : handler := λ r ss w,
  match IDOf r with
  | Err e => mret (Fail r e w)
  | Ok id =>
      if String.eqb (PathValue r "action") "copy" then copyClass id r ss w
      else if String.eqb (PathValue r "action") "clone" then cloneClass id r ss w
      else mret (Fail r no_such_action w)
  end.

(** [m.Routes]. *)
Definition workflow_Routes : list (string * posting) :=
  (ro ← [entities; actions; priorities];
   [("GET " +:+ Prefix ro, lift (List ro)); ("GET " +:+ Prefix ro +:+ "/{id}", lift (Get ro))]) ++
  [("GET " +:+ Prefix stateTypes, lift (CallRowsHandler "list_state_type" {[ "limit" := VInt 0 ]}));
   ("GET " +:+ Prefix stateTypes +:+ "/{id}", lift (Get stateTypes));
   ("GET " +:+ Prefix eventTypes, lift (RowsHandler "SELECT row_to_json(t) FROM api.event_type t" []));
   ("GET " +:+ Prefix eventTypes +:+ "/{id}", lift (Get eventTypes))] ++
  (rw ← [types; classes; states; methods; transitions; events]; Routes rw) ++
  [("POST " +:+ Prefix (resource classes) +:+ "/{id}/actions/{action}", lift classAction)] ++
  ((λ kv, (kv.1, lift kv.2)) <$> access_Routes class_access ++ access_Routes method_access).
End workflow.

Definition workflow_Prefixes : list string :=
  [Prefix entities; Prefix (resource types); Prefix (resource classes); Prefix (resource states);
   Prefix stateTypes; Prefix actions; Prefix (resource methods); Prefix (resource transitions);
   Prefix (resource events); Prefix eventTypes; Prefix priorities].

(** ** Lemmas *)

(** The parameters of the resources, and what a create requires. *)
Definition material : list (Writable * list string) :=
  [(types, ["code"; "class"]); (classes, ["code"; "parent"; "entity"]); (states, ["code"; "class"; "type"]);
   (methods, ["class"; "state"; "action"]); (transitions, ["state"; "method"; "newstate"]);
   (events, ["class"; "type"; "action"])].

(** The argument of a key: the client's value, but for the default of [abstract]. *)
Definition written (wr : Writable) (st : struct) (k : string) : value :=
  if bool_decide (SetFn wr = "api.set_class" ∧ k = "abstract")
  then VBool (default true (bool_ptr st "abstract")) else field st k.

(** The handlers of the package that act on a visible class. *)
Inductive class_handler {DO : Doer} {T : Texts} (r : Http.Request) : handler → Prop :=
  | on_action : class_handler r classAction
  | on_class_list : class_handler r (access_list class_access)
  | on_class_decode : class_handler r (access_decode class_access).

Section guarded.
Context {DO : Doer} {DL : DoerLaws} {T : Texts}.

Lemma class_sat r hd ss w st : class_handler r hd →
  match IDOf r with
  | Ok id => sat (guarded (resource classes) (VStr id) (λ _, True)) [] (hd r ss w st) (λ _ _, True)
  | Err _ => sat (λ _ _, False) [] (hd r ss w st) (λ _ _, True)
  end.
Proof.
  destruct 1.
  - unfold classAction. destruct (IDOf r) as [id|]; [|done].
    destruct (String.eqb _ "copy"); [|destruct (String.eqb _ "clone"); [|done]].
    + unfold copyClass. destruct (copy_args r) as [[raw d]|]; [visible|done].
    + unfold cloneClass. destruct (clone_args r) as [[raw b]|]; [visible|done].
  - unfold access_list, rows_answer. destruct (IDOf r); [visible|done].
  - unfold access_decode, decode_args. destruct (IDOf r); cbn [mbind res_bind]; [|done].
    destruct (is_empty _); [visible|]. destruct (negb _); cbn [throw_if mbind res_bind]; [done|visible].
Qed.
End guarded.

Lemma named_args_lookup sc id st k : "id" ∉ sc.*1 →
  named_args (same_names sc) id st !! k =
    if bool_decide (k = "id") then Some id else if bool_decide (k ∈ sc.*1) then Some (field st k) else None.
Proof.
  intros Hid. unfold named_args. case_bool_decide as Hk; [subst; by rewrite lookup_insert_eq|].
  rewrite lookup_insert_ne by done. clear Hid. unfold same_names. induction sc as [|[j t] sc IH]; [done|].
  cbn. destruct (decide (j = k)) as [->|Hne].
  - rewrite lookup_insert_eq. rewrite bool_decide_eq_true_2; [done|by left].
  - rewrite lookup_insert_ne by done. rewrite IH. erewrite bool_decide_ext; [done|].
    rewrite elem_of_cons. naive_solver.
Qed.

(** The constructor's material is written as it came: for types, classes, states,
    methods, transitions and events, a body is valid exactly when no required key is
    emptied and none is missing on a create; api.set_<x> is given the id of the path
    (none on a create), each key of the body — the client's value, an absent one as
    null, but [abstract], which defaults to true — and nothing else. *)
Lemma workflow_wired (wr : Writable) (required : list string) : (wr, required) ∈ material →
  ∀ st,
    (∀ create, Validate (NewBody wr) create st = Ok tt ↔
       Forall (λ k, str_ptr st k ≠ Some EmptyString ∧ (create = true → is_Some (str_ptr st k))) required) ∧
    ∀ id k, body_Args (NewBody wr) id st !! k =
      if bool_decide (k = "id") then Some id
      else if bool_decide (k ∈ (body_schema (NewBody wr)).*1) then Some (written wr st k) else None.
Proof.
  intros Hwr st.
  assert (H : (∀ create, Validate (NewBody wr) create st =
                RequiredAll create ((λ k, (k, str_ptr st k)) <$> required)) ∧
    ∀ id k, body_Args (NewBody wr) id st !! k =
      if bool_decide (k = "id") then Some id
      else if bool_decide (k ∈ (body_schema (NewBody wr)).*1) then Some (written wr st k) else None).
  { unfold material in Hwr.
    repeat (apply elem_of_cons in Hwr as [[= -> ->]|Hwr]; [split; [reflexivity|]; intros id k|]).
    7: by apply elem_of_nil in Hwr.
    2: { cbn [classes constructor NewBody classBody body_Args].
         destruct (decide (k = "abstract")) as [->|Hne].
         - by rewrite lookup_insert_eq.
         - rewrite lookup_insert_ne by done. rewrite named_args_lookup by (by apply (bool_decide_unpack _)).
           unfold written. rewrite (bool_decide_eq_false_2 (_ ∧ _)) by naive_solver. done. }
    all: unfold written; rewrite (bool_decide_eq_false_2 (_ ∧ _)) by (by intros [? _]).
    all: apply (named_args_lookup _ id st k); by apply (bool_decide_unpack _). }
  destruct H as [Hv Ha]. split; [|done]. intros create. rewrite Hv. apply RequiredAll_ok.
Qed.

(** The classes are copied, cloned and their rights read as the caller sees them:
    whatever the database answers, everything these handlers do comes after the row of
    the path's class was read in the same transaction; a request refused for its id or
    its body asks nothing of the database. *)
Lemma classes_guarded {D} {DO : Doer} {DL : DoerLaws} {T : Texts} (drv : driver D) r ss w st d hd :
  class_handler r hd →
  let t := (run drv (hd r ss w st) d).1.2 in
  match IDOf r with
  | Ok id => ∀ t1 o x t2, t = t1 ++ (o, x) :: t2 → guarded (resource classes) (VStr id) (λ _, True) t1 o
  | Err _ => t = []
  end.
Proof.
  intros Hhd. cbv zeta. pose proof (class_sat r hd ss w st Hhd) as H.
  destruct (IDOf r) as [id|e]; [by apply (run_policy drv _ _ d H)|by apply run_silent].
Qed.

(** ** Witnesses *)

Lemma workflow_wired_witness :
  body_Args (NewBody classes) VNil ∅ !! "abstract" = Some (VBool true) ∧
  body_Args (NewBody classes) VNil ∅ !! "owner" = None ∧
  Validate (NewBody classes) true ∅ ≠ Ok tt.
Proof.
  destruct (workflow_wired classes ["code"; "parent"; "entity"] ltac:(right; left) ∅) as [Hv Ha].
  rewrite !Ha. split; [vm_compute; reflexivity|]. split; [vm_compute; reflexivity|].
  intros [Hr _]%Hv%Forall_cons. destruct Hr as [_ Hr]. by destruct (Hr eq_refl).
Defined.
