(* ===== verification/Packages.v ===== *)
(** * The small packages

    verification, log, kladr, error, resource and api: a Module per package, with its
    resources, its handlers over [Rest] and its routes. *)

From S2P Require Import Prelude.
From S2P Require Import GoStrings.
From S2P Require Import GoJson.
From S2P Require Import Problem.
From S2P Require Import Db.
From S2P Require Import Pgtx.
From S2P Require Import PgtxLaws.
From S2P Require Import Http.
From S2P Require Import Url.
From S2P Require Import Decode.
From S2P Require Import Doer.
From S2P Require Import Rest.
From S2P Require Import RestLaws.

(** ** Verification codes *)

Module Verification.

Definition codes : Resource :=
  mkResource "/api/v2/verification/codes" "api.get_verification_code" "api.list_verification_code"
    "api.count_verification_code" false.

Definition kindOf (t : string) : option string :=
  if String.eqb t "email" then Some "M" else if String.eqb t "phone" then Some "P" else None.

Definition body_schema : schema := [("type", TStr); ("code", TStrP)].

Section handlers.
Context {DO : Doer} {T : Texts}.

(** [m.read]: the body, the kind of its channel, its code. *)
Definition read (r : Http.Request) (needCode : bool) : res error (string * string * option string) :=
  '(raw, b) ← ReadBody r body_schema;
  match kindOf (str_of b "type") with
  | None => Err (bad_request "type must be email or phone")
  | Some kind =>
      let code := str_ptr b "code" in
      throw_if (bool_decide (code = Some EmptyString) || (needCode && bool_decide (code = None)))
        (bad_request "code is required");;
      Ok (raw, kind, code)
  end.

Definition str_arg (s : option string) : value := VPtr (VStr <$> s).

Definition create_do (raw kind : string) (code : option string) : handler := λ r ss w,
  x ← Do ss (ReqOf r 201 raw) (λ h,
    CallRow h "new_verification_code" {[ "type" := VStr kind; "code" := str_arg code ]});
  mret (match x with
        | Err e => Fail r e w
        | Ok rw =>
            let loc := LocationOf codes rw in
            let w := if is_empty loc then w else SetHeader "Location" loc w in
            WriteJSON 201 (default EmptyString rw) (SetETag rw w)
        end).

Definition create : posting := λ r ss idem clock w,
  match read r false with
  | Err e => mret (Fail r e w, idem)
  | Ok (raw, kind, code) => Once r idem clock (SCode ss) raw (λ w, create_do raw kind code r ss w) w
  end.

(** [{result, message}] of a confirmation. *)
Definition confirmed (rw : row) : res error unit :=
  match rw ≫= parse with
  | Some (JObj l) =>
      ok ← of_option (foldl (λ acc v, b ← acc; match v with JBool b => Some b | JNull => Some b | _ => None end)
                        (Some false) (field_members "result" l)) (EText "json: cannot unmarshal");
      message ← of_option (str_pointer (field_members "message" l)) (EText "json: cannot unmarshal");
      if ok : bool then Ok tt
      else Err (EProblem (Problem.New 400 "verification" "Bad request"
             (match message with Some (String c s) => String c s | _ => "the code is not valid" end)))
  | Some JNull => Err (EProblem (Problem.New 400 "verification" "Bad request" "the code is not valid"))
  | _ => Err (EText "json: cannot unmarshal")
  end.

Definition confirm : handler := λ r ss w,
  match read r true with
  | Err e => mret (Fail r e w)
  | Ok (raw, kind, code) =>
      x ← Do ss (ReqOf r 200 raw) (λ h,
        then_ (CallRow h "confirm_verification_code"
                 {[ "type" := VStr kind; "code" := VStr (default EmptyString code) ]})
          (λ rw, mret (confirmed rw)));
      mret (match x with
            | Err e => Fail r e w
            | Ok _ => WriteJSON 200 ("{" +:+ Quote "confirmed" +:+ ":true}") w
            end)
  end.

Definition Routes : list (string * posting) :=
  let p := Prefix codes in
  [("GET " +:+ p, lift (List codes)); ("GET " +:+ p +:+ "/{id}", lift (Get codes));
   ("POST " +:+ p, create); ("POST " +:+ p +:+ "/confirm", lift confirm)].
End handlers.

(** ** A code is confirmed only by the database *)

(** A truth value read onto false is true only when it was said. *)
Lemma bool_fold_true l acc :
  foldl (λ acc v, b ← acc; match v with JBool b => Some b | JNull => Some b | _ => None end) acc l
    = Some true → acc = Some true ∨ JBool true ∈ l.
Proof.
  revert acc. induction l as [|v l IH]; intros acc; [by left|]. cbn [foldl]. intros H.
  destruct (IH _ H) as [Ha|Hin]; [|by right; right]. destruct acc as [b|]; [|done].
  destruct v; cbn in Ha; try done.
  - left. by injection Ha as ->.
  - right. injection Ha as ->. by left.
Qed.

Lemma confirmed_ok rw : confirmed rw = Ok tt →
  ∃ s l, rw = Some s ∧ parse s = Some (JObj l) ∧ JBool true ∈ field_members "result" l.
Proof.
  unfold confirmed. destruct rw as [s|]; [|done]. cbn [mbind option_bind].
  destruct (parse s) as [[| | | | |l]|] eqn:Hp; try done. intros H. exists s, l. split_and!; [done..|].
  destruct (foldl _ _ _) as [b|] eqn:Hf; [|done]. cbn [of_option mbind res_bind] in H.
  destruct (of_option _ _) as [m|]; [|done]. cbn [mbind res_bind] in H. destruct b; [|done].
  by destruct (bool_fold_true _ _ Hf).
Qed.

Section confirm.
Context {DO : Doer} {DL : DoerLaws} {T : Texts}.

(** What a confirmation ends with. *)
Definition confirm_end (r : Http.Request) (w : ResponseWriter) (x : ResponseWriter) (t : trace) : Prop :=
  (∃ e, x = Fail r e w) ∨
  (x = WriteJSON 200 ("{" +:+ Quote "confirmed" +:+ ":true}") w ∧
   ∃ raw kind code, read r true = Ok (raw, kind, Some code) ∧ code ≠ EmptyString ∧
   ∃ o y s l rest, (o, y) ∈ t ∧
     calls "confirm_verification_code" {[ "type" := VStr kind; "code" := VStr code ]} o ∧
     scan_rows y = Ok (Some s :: rest) ∧ parse s = Some (JObj l) ∧
     JBool true ∈ field_members "result" l).

Lemma read_code r raw kind code : read r true = Ok (raw, kind, code) →
  ∃ c, code = Some c ∧ c ≠ EmptyString.
Proof.
  unfold read. destruct (ReadBody r _) as [[raw' b]|]; cbn [mbind res_bind]; [|done].
  destruct (kindOf _); [|done]. intros H. destruct (str_ptr b "code") as [c|] eqn:Hc; [|done].
  destruct c as [|a c]; [done|]. cbn in H. invert_res. by eexists.
Qed.

Lemma confirm_sat r ss w st :
  sat (λ _ _, True) [] (confirm r ss w st) (λ x t, confirm_end r w x.1 t).
Proof.
  unfold confirm. destruct (read r true) as [[[raw kind] code]|e] eqn:Hr; [|by left; eexists].
  destruct (read_code _ _ _ _ Hr) as (c & -> & Hc).
  apply sat_mbind. apply do_sat; [done| |].
  - intros h s t [n Hn] _ _. unfold then_. apply sat_mbind. apply (CallRow_sat _ _ n); [done|done| |done].
    intros o y rw Hcall [rest Hy]. cbn [fst snd sat mret M_ret]. intros a s' t'' Ha _ [t' ->].
    right. split; [done|]. destruct a as []. destruct (confirmed_ok _ Ha) as (str & l & -> & Hl & Hin).
    exists raw, kind, c. split_and!; [done..|]. exists o, y, str, l, rest. split_and!; try done; [|by exists n].
    apply elem_of_app. left. apply elem_of_app. right. by left.
  - intros e s' t _ _. left. by eexists.
Qed.
End confirm.

End Verification.

(** C28. A code counts as confirmed only when the database said so: whatever the database
    answers, a POST to /confirm ends with a problem, or with [confirmed] after
    api.confirm_verification_code was called in this request with the kind and the code
    of the body, which is not empty, and the first row it answered has a true result. *)
Theorem confirm_told {D} {DO : Doer} {DL : DoerLaws} {T : Texts} (drv : driver D) r ss w st d :
  let '(x, t, _) := run drv (Verification.confirm r ss w st) d in Verification.confirm_end r w x.1 t.
Proof.
  pose proof (sat_run drv _ _ d _ _ (Verification.confirm_sat r ss w st)) as H.
  destruct (run drv _ d) as [[x t] d']. by destruct H.
Qed.

(** ** Journals *)

Module Log.

Definition eventLog : Resource :=
  mkResource "/api/v2/event-log" "api.get_event_log" "api.list_event_log" "api.count_event_log" true.
Definition myLog : Resource :=
  mkResource "/api/v2/me/event-log" "api.get_user_log" "api.list_user_log" "api.count_user_log" true.

Definition entry_schema : schema := [("type", TStr); ("code", TIntP 64); ("scope", TStrP); ("text", TStr)].

Section handlers.
Context {DO : Doer} {T : Texts}.

Definition entry (r : Http.Request) : res error (string * struct) :=
  '(raw, e) ← ReadBody r entry_schema;
  throw_if (negb (bool_decide (str_of e "type" ∈ ["M"; "W"; "E"; "D"])))
    (bad_request "type must be one of M, W, E, D");;
  throw_if (is_empty (str_of e "text")) (bad_request "text is required");;
  Ok (raw, e).

(** The id of a written row: an [int64] field, 0 when it is not one. *)
Definition written_id (rw : row) : Z :=
  match rw ≫= parse with
  | Some (JObj l) =>
      foldl (λ acc v, match v with JNum lex => default acc (ParseInt lex 64) | _ => acc end) 0%Z
        (field_members "id" l)
  | _ => 0%Z
  end.

Definition write_do (raw : string) (e : struct) : handler := λ r ss w,
  x ← Do ss (ReqOf r 201 raw) (λ h,
    CallRow h "write_to_log"
      {[ "type" := field e "type"; "code" := field e "code"; "scope" := field e "scope";
         "text" := field e "text" ]});
  mret (match x with
        | Err e => Fail r e w
        | Ok rw =>
            let id := written_id rw in
            WriteJSON 201 (default EmptyString rw)
              (if (0 <? id)%Z then SetHeader "Location" (Prefix eventLog +:+ "/" +:+ Itoa id) w else w)
        end).

Definition write : posting := λ r ss idem clock w,
  match entry r with
  | Err e => mret (Fail r e w, idem)
  | Ok (raw, e) => Once r idem clock (SCode ss) raw (λ w, write_do raw e r ss w) w
  end.

Definition Routes : list (string * posting) :=
  (rs ← [eventLog; myLog];
   [("GET " +:+ Prefix rs, lift (List rs)); ("GET " +:+ Prefix rs +:+ "/{id}", lift (Get rs))]) ++
  [("POST " +:+ Prefix eventLog, write)].
End handlers.

End Log.

(** ** Addresses *)

Module Kladr.

Definition nodes : Resource :=
  mkResource "/api/v2/kladr" EmptyString "api.list_address_tree" "api.count_address_tree" true.

(** ^[0-9]{1,20}$ *)
Definition codeRe (s : string) : bool :=
  negb (is_empty s) && sforall is_digit s && (String.length s <=? 20)%nat.

Definition MaxInt32 : Z := 2147483647.

Definition idOf (r : Http.Request) : res error Args :=
  id ← IntIDOf r;
  throw_if (MaxInt32 <? id)%Z (bad_request "id is out of range");;
  Ok {[ "id" := VInt id ]}.

Definition intParam (r : Http.Request) (name : string) : res error Z :=
  let v := values_get (Query (RawQuery r)) name in
  if is_empty v then Ok 0%Z
  else match ParseInt v 31 with
       | Some n => if (n <? 0)%Z then Err (bad_request (name +:+ " must be a non-negative integer")) else Ok n
       | None => Err (bad_request (name +:+ " must be a non-negative integer"))
       end.

Definition stringArgs (r : Http.Request) : res error Args :=
  let code := values_get (Query (RawQuery r)) "code" in
  throw_if (negb (codeRe code)) (bad_request "code must be a KLADR code");;
  short ← intParam r "short";
  level ← intParam r "level";
  Ok {[ "code" := VStr code; "short" := VInt short; "level" := VInt level ]}.

(** The scalar as [{address}]. *)
Definition address_row (a : option string) : string :=
  print (JObj [(quote_lex "address", from_option (λ s, JStr (quote_lex s)) JNull a)]).

Section handlers.
Context {DO : Doer} {T : Texts}.

Definition addressString : handler :=
  RowFunc stringArgs (λ h a,
    then_ (CallScalar decode_str h "get_address_tree_string" a)
      (λ x, mret (Ok (Some (address_row (default None x)))))).

Definition Routes : list (string * posting) :=
  let p := Prefix nodes in
  [("GET " +:+ p, lift (List nodes));
   ("GET " +:+ p +:+ "/{id}", lift (CallRowHandler "get_address_tree" idOf));
   ("GET " +:+ p +:+ "/{id}/history", lift (CallRowsOf "get_address_tree_history" idOf));
   ("GET " +:+ p +:+ "/string", lift addressString)].
End handlers.

End Kladr.

(** ** The catalogue of errors *)

Module Errors.

(** ^ERR-[0-9]{3}-[0-9]{3}$ *)
Definition codeRe (s : string) : bool :=
  match Split s "-" with
  | [e; g; c] => String.eqb e "ERR" && (String.length g =? 3)%nat && sforall is_digit g &&
                 (String.length c =? 3)%nat && sforall is_digit c
  | _ => false
  end.

Definition error_schema : schema :=
  [("code", TStrP); ("http_code", TIntP 64); ("severity", TStrP); ("category", TStrP);
   ("message", TStrP); ("description", TStrP); ("resolution", TStrP)].

Definition validate (create : bool) (st : struct) : res error unit :=
  Required "code" (str_ptr st "code") create;;
  throw_if (match str_ptr st "code" with Some c => negb (codeRe c) | None => false end)
    (bad_request "code must be ERR-GGG-CCC");;
  throw_if (create && bool_decide (int_ptr st "http_code" = None)) (bad_request "http_code is required").

Definition body : Body :=
  mkBody error_schema validate
    (named_args [("code", "code"); ("httpcode", "http_code"); ("severity", "severity");
                 ("category", "category"); ("message", "message"); ("description", "description");
                 ("resolution", "resolution")]).

Definition errors : Writable :=
  mkWritable (mkResource "/api/v2/errors" "api.get_error" "api.list_error" "api.count_error" false)
    "api.set_error" EmptyString [] body EmptyString None None.

Definition byCode (r : Http.Request) : res error Args :=
  throw_if (negb (codeRe (PathValue r "code"))) (bad_request "code must be ERR-GGG-CCC");;
  Ok {[ "code" := VStr (PathValue r "code") ]}.

Section handlers.
Context {DO : Doer} {T : Texts}.

Definition error_Routes : list (string * posting) :=
  Rest.Routes errors ++
  [("GET " +:+ Prefix (resource errors) +:+ "/by-code/{code}", lift (CallRowHandler "get_error_by_code" byCode))].
End handlers.

End Errors.

(** ** Resources *)

Module Resources.

Definition resource_schema : schema :=
  [("root", TStrP); ("node", TStrP); ("type", TStrP); ("name", TStrP); ("description", TStrP);
   ("encoding", TStrP); ("data", TStrP); ("sequence", TIntP 64); ("locale_code", TStrP)].

Definition resource_args (id : value) (st : struct) : Args :=
  let a := named_args ((λ k, (k, k)) <$> ["root"; "node"; "type"; "name"; "description"; "encoding";
                                         "data"; "sequence"]) id st in
  if bool_decide (is_Some (str_ptr st "locale_code")) then <["localecode" := field st "locale_code"]> a else a.

Definition body : Body :=
  mkBody resource_schema (λ create st, Required "name" (str_ptr st "name") create) resource_args.

Definition resources : Writable :=
  mkWritable (mkResource "/api/v2/resources" "api.get_resource" "api.list_resource" "api.count_resource" false)
    "api.set_resource" EmptyString [] body "api.delete_resource" None None.

Definition resource_Routes {DO : Doer} {T : Texts} : list (string * posting) := Rest.Routes resources.

End Resources.

(** ** The journal of the API *)

Module Api.

Definition apiLog : Resource :=
  mkResource "/api/v2/api-log" "api.get_log" "api.list_log" "api.count_log" true.

Definition api_Routes {DO : Doer} {T : Texts} : list (string * posting) :=
  [("GET " +:+ Prefix apiLog, lift (List apiLog)); ("GET " +:+ Prefix apiLog +:+ "/{id}", lift (Get apiLog))].

End Api.

(** ** Witness *)

Definition told_row : string := print (JObj [(quote_lex "result", JBool true)]).

Definition told_answers (o : op) : answer :=
  match o with
  | Db.Query _ _ sql _ =>
      if HasPrefix sql "SELECT to_json(t)" then Ok [[VRaw told_row]] else sample_answers o
  | _ => Ok []
  end.

Definition told_request : Http.Request :=
  user_request "POST" EmptyString
    (print (JObj [(quote_lex "type", JStr (quote_lex "email")); (quote_lex "code", JStr (quote_lex "123456"))])).

Definition told_run := run (toy_driver told_answers)
  (Verification.confirm (T := plain_texts) told_request sample_session new_writer (sample_road false)) toy_init.

Lemma confirm_told_witness :
  sent_status told_run.1.1.1 = Some 200%Z ∧
  Verification.confirm_end (T := plain_texts) told_request new_writer told_run.1.1.1 told_run.1.2.
Proof.
  split; [by vm_compute|].
  pose proof (confirm_told (T := plain_texts) (toy_driver told_answers) told_request sample_session new_writer
    (sample_road false) toy_init) as H.
  unfold told_run. destruct (run _ _ _) as [[x t] d]. exact H.
Defined.
