(* ===== verification/Caller.v ===== *)
(** * What is the caller's own: current, notification, observer

    The session of the caller as one resource (current.go), the notifications delivered
    to the caller and the objects behind them (notification.go), the publishers and the
    caller's listeners (observer.go).  The time of a request is an argument, [now]. *)

From S2P Require Import Prelude.
From S2P Require Import GoStrings.
From S2P Require Import GoJson.
From S2P Require Import GoTime.
From S2P Require Import Problem.
From S2P Require Import Db.
From S2P Require Import Frame.
From S2P Require Import Pgtx.
From S2P Require Import Http.
From S2P Require Import Url.
From S2P Require Import Decode.
From S2P Require Import Doer.
From S2P Require Import Rest.
From S2P Require Import RestLaws.

(** [json.Marshal] of a map of raw messages, its keys given in order; [None] for its
    error. *)
Definition marshal_raws (l : list (string * string)) : option string :=
  parts ← mapM (λ kv, s ← compact kv.2; Some (Quote kv.1 +:+ ":" +:+ s)) l;
  Some ("{" +:+ Join parts "," +:+ "}").

(** A step per element, in order, until one fails. *)
Fixpoint each {A S} (f : S → A → M (res error S)) (l : list A) (s : S) : M (res error S) :=
  match l with
  | [] => mret (Ok s)
  | a :: l => then_ (f s a) (λ s, each f l s)
  end.

(** ^[a-z][a-z0-9_]*$ *)
Definition identRe (s : string) : bool :=
  head_tail is_lower (λ c, is_lower c || is_digit c || Ascii.eqb c "_") s.

(** ** current *)

Module Current.

Definition prefix : string := "/api/v2/me".

(** A row of api.current_<k>, null for none. *)
Definition me_part (h : handle) (k : string) : M (res error string) :=
  x ← CallRow h ("current_" +:+ k) ∅;
  mret (match x with
        | Ok rw => Ok (default "null" rw)
        | Err e => if is_ErrNoRow e then Ok "null" else Err e
        end).

Definition readMe (h : handle) : M (res error row) :=
  then_ (me_part h "user") (λ user,
  then_ (me_part h "area") (λ area,
  then_ (me_part h "interface") (λ interface,
  then_ (me_part h "locale") (λ locale,
  then_ (CallRow h "oper_date" ∅) (λ od,
    mret (match marshal_raws [("area", area); ("interface", interface); ("locale", locale);
                              ("oper_date", default "null" od); ("user", user)] with
          | Some s => Ok (Some s)
          | None => Err (EText "json: error calling MarshalJSON for type json.RawMessage")
          end)))))).

Definition body_schema : schema :=
  [("area", TStrP); ("interface", TStrP); ("locale", TStrP); ("oper_date", TRaw)].

Definition sessionCall (name v : string) : string * Args :=
  let isID := IsUUID v in
  if String.eqb name "locale" && isID then ("set_session_locale", {[ "locale" := VStr v ]})
  else if String.eqb name "locale" then ("set_session_locale", {[ "code" := VStr v ]})
  else if String.eqb name "area" && negb isID then ("set_session_area_by_code", {[ "code" := VStr v ]})
  else ("set_session_" +:+ name, {[ name := VStr v ]}).

(** The keys of the body, read apart from its fields: none when the text is not one
    object. *)
Definition body_keys (raw : string) : gmap string json :=
  match parse raw with Some (JObj l) => object_map l | _ => ∅ end.

(** A change of the session: what to set, in order; the operation date, when given
    ([Some None] clears it). *)
Record change := mkChange { set_fields : list (string * string); oper_date : option (option Time) }.

(** The checks of a field that is there. *)
Definition check_field (b : struct) (name : string) : res error unit :=
  match str_ptr b name with
  | None => Ok tt
  | Some v =>
      throw_if (is_empty v) (bad_request (name +:+ " must not be empty"));;
      throw_if (String.eqb name "interface" && negb (IsUUID v)) (bad_request "interface must be a UUID")
  end.

Definition bad_date : error := bad_request "oper_date must be an RFC 3339 timestamp or null".

(** The operation date of a body whose keys have it. *)
Definition read_date (raw : string) : res error (option Time) :=
  if String.eqb raw "null" then Ok None
  else match parse raw with
       | Some (JStr lex) => t ← of_option (unmarshal_time lex) bad_date; Ok (Some t)
       | _ => Err bad_date
       end.

Section current.
Context {DO : Doer} {T : Texts}.

Definition get_me : handler := λ r ss w,
  x ← Do ss (ReqOf r 200 EmptyString) readMe;
  mret (match x with
        | Err e => Fail r e w
        | Ok rw => WriteJSON 200 (default EmptyString rw) w
        end).

(** What a PATCH decides before the database. *)
Definition patch_args (r : Http.Request) : res error (string * change) :=
  '(raw, b) ← ReadBody r body_schema;
  throw_if (is_empty raw) (bad_request "a JSON body is required");;
  foldM_res (λ _ k, check_field b k) ["area"; "interface"; "locale"] tt;;
  od ← (if bool_decide (is_Some (body_keys raw !! "oper_date"))
        then t ← read_date (raw_of b "oper_date"); Ok (Some t) else Ok None);
  let fields := omap (λ k, v ← str_ptr b k; Some (k, v)) ["area"; "interface"; "locale"] in
  throw_if (bool_decide (fields = []) && bool_decide (od = None))
    (bad_request "nothing to set: one of area, interface, locale, oper_date");;
  Ok (raw, mkChange fields od).

Definition set_field (h : handle) (f : string * string) : M (res error unit) :=
  let '(fn, args) := sessionCall f.1 f.2 in Call_ h fn args.

(** The transaction of a PATCH. *)
Definition apply_change (c : change) (h : handle) : M (res error row) :=
  then_ (each (λ _ f, set_field h f) (set_fields c) tt) (λ _,
  then_ (match oper_date c with
         | None => mret (Ok tt)
         | Some t => Call_ h "set_session_oper_date"
                       {[ "operdate" := VTyped (VPtr (VTime <$> t)) "timestamptz" ]}
         end) (λ _, readMe h)).

Definition patch_me : handler := λ r ss w,
  match patch_args r with
  | Err e => mret (Fail r e w)
  | Ok (raw, c) =>
      x ← Do ss (ReqOf r 200 raw) (apply_change c);
      mret (match x with
            | Err e => Fail r e w
            | Ok rw => WriteJSON 200 (default EmptyString rw) w
            end)
  end.

Definition current_Routes : list (string * posting) :=
  [("GET " +:+ prefix, lift get_me); ("PATCH " +:+ prefix, lift patch_me)].
End current.

End Current.

(** ** notification *)

Module Notification.

Definition notifications : Resource :=
  mkResource "/api/v2/notifications" "api.get_my_notification" "api.list_my_notification"
    "api.count_my_notification" false.

Definition maxObjects : nat := 100.

Definition getFnOf (code : string) : option string :=
  if identRe code then Some ("api.get_" +:+ code) else None.

Definition timeParam (r : Http.Request) (name : string) : res error (option Time) :=
  let v := values_get (Query (RawQuery r)) name in
  if is_empty v then Ok None
  else t ← of_option (ParseRFC3339 v) (bad_request (name +:+ " must be an RFC 3339 timestamp")); Ok (Some t).

Definition sinceArgs (now : Time) (r : Http.Request) : res error Args :=
  from ← timeParam r "from";
  Ok {[ "datefrom" := VTime (default now from) ]}.

(** The objects of ?objects=. *)
Definition objects_of (r : Http.Request) : res error (list string) :=
  let parts := filter (λ o, is_empty o = false)
                 (TrimSpace <$> Split (values_get (Query (RawQuery r)) "objects") ",") in
  mapM_res (λ o, throw_if (negb (IsUUID o)) (bad_request "objects must be a comma-separated list of UUIDs")) parts;;
  throw_if (bool_decide (parts = []) || (maxObjects <? length parts)%nat)
    (bad_request "objects: 1 to 100 UUIDs are required");;
  Ok parts.

Definition jtext (s : string) : json := JStr (quote_lex s).

(** [json.Marshal] of the search. *)
Definition search_json (objects : list string) (from to_ : option Time) : string :=
  let cond compare t := JObj [("compare", jtext compare); ("field", jtext "datetime"); ("value", jtext (FormatNano t))] in
  print (JArr (JObj [("compare", jtext "IN"); ("field", jtext "object"); ("valarr", JArr (jtext <$> objects))]
               :: from_option (λ t, [cond "GEQ" t]) [] from ++ from_option (λ t, [cond "LSS" t]) [] to_)).

(** [{entitycode, object}] of a notification. *)
Definition pair_of (rw : row) : res error (string * string) :=
  match rw ≫= parse with
  | Some (JObj l) =>
      throw_if (negb (strings_only (field_members "entitycode" l) && strings_only (field_members "object" l)))
        (EText "json: cannot unmarshal");;
      Ok (string_field "entitycode" l, string_field "object" l)
  | Some JNull => Ok (EmptyString, EmptyString)
  | _ => Err (EText "json: cannot unmarshal")
  end.

(** A row the caller may read: its id is a text. *)
Definition has_id (rw : row) : bool :=
  match rw ≫= parse with
  | Some (JObj l) => match str_pointer (field_members "id" l) with Some (Some _) => true | _ => false end
  | _ => false
  end.

(** A notification: the object behind it, when it is seen for the first time. *)
Definition note (h : handle) (s : list (string * string) * list row) (n : row)
    : M (res error (list (string * string) * list row)) :=
  let '(seen, out) := s in
  match pair_of n with
  | Err e => mret (Err e)
  | Ok p =>
      if bool_decide (p ∈ seen) then mret (Ok (seen, out))
      else match getFnOf p.1 with
           | None => mret (Ok (p :: seen, out))
           | Some fn =>
               then_ (Call h fn {[ "id" := VStr p.2 ]}) (λ rows,
                 mret (Ok (p :: seen,
                   match head (filter (λ rw, has_id rw = true) rows) with
                   | Some rw => out ++ [rw] | None => out end)))
           end
  end.

Section notification.
Context {DO : Doer} {T : Texts}.

Definition changed_args (r : Http.Request) : res error string :=
  objects ← objects_of r;
  from ← timeParam r "from";
  to_ ← timeParam r "to";
  Ok (search_json objects from to_).

Definition changed_do (search : string) (h : handle) : M (res error (list row)) :=
  then_ (Call h "list_my_notification" {[ "search" := VRaw search ]}) (λ notes,
  then_ (each (note h) notes ([], [])) (λ s, mret (Ok s.2))).

Definition changed : handler :=
  rows_answer changed_args (λ h search, changed_do search h).

Definition notification_Routes (now : Time) : list (string * posting) :=
  let p := Prefix notifications in
  [("GET " +:+ p, lift (List notifications)); ("GET " +:+ p +:+ "/{id}", lift (Get notifications));
   ("GET " +:+ p +:+ "/since", lift (CallRowsOf "my_notification" (sinceArgs now)));
   ("GET " +:+ p +:+ "/changed", lift changed)].
End notification.

End Notification.

(** ** observer *)

Module Observer.

Definition prefix : string := "/api/v2/observer".
Definition publishers : string := prefix +:+ "/publishers".

Definition codeOf (r : Http.Request) (name : string) : res error string :=
  let v := PathValue r name in
  throw_if (negb (identRe v)) (bad_request (name +:+ " must be a code"));; Ok v.

Definition publisherArgs (r : Http.Request) : res error Args :=
  code ← codeOf r "code"; Ok {[ "code" := VStr code ]}.

Definition listenerArgs (r : Http.Request) : res error Args :=
  publisher ← codeOf r "publisher";
  identity ← codeOf r "identity";
  Ok {[ "publisher" := VStr publisher; "identity" := VStr identity ]}.

(** The members of a listener that are answered. *)
Definition listener_keys : list string := ["filter"; "identity"; "params"; "publisher"].

Definition listenerOf (rw : row) : res error row :=
  let answer raws :=
    of_option (Some <$> marshal_raws ((λ k, (k, default "null" (raw_field k raws))) <$> listener_keys))
      (EText "json: error calling MarshalJSON for type json.RawMessage") in
  match rw ≫= parse, rw ≫= raw_members with
  | Some (JObj _), Some raws => answer raws
  | Some JNull, _ => answer []
  | _, _ => Err (EText "json: cannot unmarshal")
  end.

Section observer.
Context {DO : Doer} {T : Texts}.

Definition listeners : handler := λ r ss w,
  x ← Do ss (ReqOf r 200 EmptyString) (λ h, Call h "list_my_listener" ∅);
  mret (rows_body r w (rows ← x; mapM_res listenerOf rows)).

Definition listener : handler :=
  RowFunc listenerArgs (λ h a, then_ (CallRow h "get_my_listener" a) (λ rw, mret (listenerOf rw))).

Definition observer_Routes : list (string * posting) :=
  [("GET " +:+ publishers, lift (CallRowsHandler "list_publisher"
      {[ "orderby" := VRaw ("[" +:+ Quote "code ASC" +:+ "]"); "limit" := VInt 0 ]}));
   ("GET " +:+ publishers +:+ "/{code}", lift (CallRowHandler "get_publisher" publisherArgs));
   ("GET " +:+ prefix +:+ "/listeners", lift listeners);
   ("GET " +:+ prefix +:+ "/listeners/{publisher}/{identity}", lift listener)].
End observer.

End Observer.

(** ** Lemmas: raw messages *)

Lemma compact_parse s v : parse s = Some v → compact s = Some (print (escape_html v)).
Proof. unfold compact. by intros ->. Qed.

Lemma marshal_raws_print (l : list (string * string)) (vs : list json) :
  Forall2 (λ kv v, parse kv.2 = Some v) l vs →
  marshal_raws l = Some (print (JObj (zip_with (λ kv v, (quote_lex kv.1, escape_html v)) l vs))).
Proof.
  intros H. unfold marshal_raws.
  assert (Hm : mapM (λ kv : string * string, s ← compact kv.2; Some (Quote kv.1 +:+ ":" +:+ s)) l =
    Some (zip_with (λ kv v, Quote kv.1 +:+ ":" +:+ print (escape_html v)) l vs)).
  { induction H as [|kv v l vs Hv _ IH]; [done|]. cbn [mapM zip_with]. rewrite (compact_parse _ _ Hv).
    cbn [mbind option_bind]. by rewrite IH. }
  rewrite Hm. cbn [mbind option_bind]. do 2 f_equal. cbn [print]. f_equal. f_equal. f_equal.
  clear. revert vs. induction l as [|kv l IH]; intros [|v vs]; [done..|]. cbn [zip_with map fst snd].
  by rewrite IH.
Qed.

Lemma marshal_raws_parse (l : list (string * string)) (vs : list json) :
  Forall2 (λ kv v, parse kv.2 = Some v ∧ (json_depth v ≤ 9999)%N) l vs →
  ∃ s, marshal_raws l = Some s ∧
    parse s = Some (JObj (zip_with (λ kv v, (quote_lex kv.1, escape_html v)) l vs)).
Proof.
  intros H. eexists. split.
  { apply marshal_raws_print. eapply Forall2_impl; [exact H|]. by intros ? ? [? _]. }
  apply parse_print.
  - constructor. induction H as [|kv v l vs [Hv _] _ IH]; cbn; constructor; [|done].
    split; [apply quote_lex_ok|]. apply escape_html_ok. by apply parse_ok in Hv as [? _].
  - cbn [json_depth]. enough (foldr (λ (kv : string * json) n, N.max (json_depth kv.2) n) 0
      (zip_with (λ (kv : string * string) v, (quote_lex kv.1, escape_html v)) l vs) ≤ 9999)%N by lia.
    induction H as [|kv v l vs [_ Hv] _ IH]; cbn; [lia|]. rewrite escape_html_depth. lia.
Qed.

Lemma Forall2_last {A B} (R : A → B → Prop) l k : Forall2 R l k →
  match last l, last k with Some a, Some b => R a b | None, None => True | _, _ => False end.
Proof.
  intros H. induction H as [|a b l k Hab H IH]; [done|]. destruct H as [|a' b' l k Hab' H]; [done|].
  rewrite !last_cons_cons. exact IH.
Qed.

(** The field of a raw message is the text of the value the field holds. *)
Lemma raw_field_value s l k : parse s = Some (JObj l) → ∃ raws, raw_members s = Some raws ∧
  parse (default "null" (raw_field k raws)) = Some (default JNull (last (field_members k l))) ∧
  (json_depth (default JNull (last (field_members k l))) ≤ 9999)%N.
Proof.
  intros Hs. destruct (raw_members_parse s l Hs) as (raws & Hr & Hall). exists raws. split; [done|].
  assert (Hd : Forall (λ kv, (json_depth kv.2 ≤ 9999)%N) l) by (apply parse_ok in Hs as [_ ?]; by apply json_depth_members).
  assert (Hf : Forall2 (λ (r : string) v, parse r = Some v ∧ (json_depth v ≤ 9999)%N)
    (filter (λ r, folded (Unquote r.1) = folded k) raws).*2 (field_members k l)).
  { unfold field_members. clear Hs Hr. induction Hall as [|r kv raws l [Hk Hv] _ IH]; [constructor|].
    apply Forall_cons in Hd as [Hdv Hd]. specialize (IH Hd).
    destruct (decide (folded (Unquote kv.1) = folded k)) as [Heq|Hne].
    - rewrite !filter_cons_True by (unfold member_key; congruence). cbn. by constructor.
    - by rewrite !filter_cons_False by (unfold member_key; congruence). }
  apply Forall2_last in Hf. unfold raw_field. destruct (last (filter _ raws).*2), (last (field_members k l)); done.
Qed.

(** The session code never leaves the database's row: of any row that is an object,
    whatever members it has, the listener answered is an object of exactly the four
    members filter, identity, params and publisher, each with the row's value (null for
    none); a row that is not an object is an error that does not quote it. *)
Lemma listener_hides (t : string) :
  match parse t with
  | Some (JObj l) => ∃ s, Observer.listenerOf (Some t) = Ok (Some s) ∧
      parse s = Some (JObj ((λ k, (k, escape_html (default JNull (last (field_members k l)))))
                  <$> ["filter"; "identity"; "params"; "publisher"]))
  | Some JNull => ∃ s, Observer.listenerOf (Some t) = Ok (Some s) ∧
      parse s = Some (JObj ((λ k, (k, JNull)) <$> ["filter"; "identity"; "params"; "publisher"]))
  | _ => Observer.listenerOf (Some t) = Err (EText "json: cannot unmarshal")
  end.
Proof.
  unfold Observer.listenerOf. cbn [mbind option_bind].
  destruct (parse t) as [[| | | | |l]|] eqn:Ht; try done.
  - eexists. split; [reflexivity|]. vm_compute. reflexivity.
  - destruct (raw_members_parse t l Ht) as (raws & Hr & _). rewrite Hr.
    destruct (marshal_raws_parse ((λ k, (k, default "null" (raw_field k raws))) <$> Observer.listener_keys)
      ((λ k, default JNull (last (field_members k l))) <$> Observer.listener_keys)) as (s & Hs & Hp).
    { apply Forall2_fmap, Forall_Forall2_diag, Forall_forall. intros k _. cbn.
      destruct (raw_field_value t l k Ht) as (raws' & Hr' & H). rewrite Hr in Hr'. by injection Hr' as <-. }
    exists s. rewrite Hs. split; [done|]. rewrite Hp. do 2 f_equal.
Qed.

(** ** Corners *)

(** The keys of a PATCH of the session are read from the whole text, its fields from the
    first value of it: after a body with something behind its object, or with a name in
    other letters, the operation date is dropped. *)
Lemma patch_drops_date {T : Texts} r :
  Http.Body r = print (JObj [("area", JStr "a"); ("oper_date", JNull)]) +:+ "x" → BodyFails r = false →
  ∃ raw, Current.patch_args r = Ok (raw, Current.mkChange [("area", "a")] None).
Proof.
  intros Hb Hf. unfold Current.patch_args, ReadBody, ReadBodyInto. rewrite Hb, Hf. cbn [andb].
  assert (Hs : stake max_body (print (JObj [("area", JStr "a"); ("oper_date", JNull)]) +:+ "x") =
    print (JObj [("area", JStr "a"); ("oper_date", JNull)]) +:+ "x") by (vm_compute; reflexivity).
  rewrite Hs. eexists.
  assert (Hd : decode_struct true Current.body_schema (print (JObj [("area", JStr "a"); ("oper_date", JNull)]) +:+ "x")
    = Ok (<["oper_date" := VRaw "null"]> (<["area" := VPtr (Some (VStr "a"))]> (zero_struct Current.body_schema))))
    by (vm_compute; reflexivity).
  rewrite Hd. vm_compute. reflexivity.
Qed.
