(* ===== verification/Registry.v ===== *)
(** * registry: keys and typed values

    The handlers of registry.go.  A value is typed by its body: the code of the Variant
    and the SQL type its parameter is pinned to, with the Go value that pgx sends.  What
    [any] holds of a JSON number is a float64 ([GoFloat]); its conversion to int64 is
    amd64's. *)

From S2P Require Import Prelude.
From S2P Require Import GoStrings.
From S2P Require Import GoJson.
From S2P Require Import GoFloat.
From S2P Require Import Problem.
From S2P Require Import Db.
From S2P Require Import Pgtx.
From S2P Require Import Http.
From S2P Require Import Url.
From S2P Require Import Decode.
From S2P Require Import Doer.
From S2P Require Import Rest.
From S2P Require Import RestLaws.

Module Registry.

Definition prefix : string := "/api/v2/registry".

(** ** Query parameters *)

Definition uuidParam (q : Values) (name : string) : res error (option string) :=
  let v := values_get q name in
  if is_empty v then Ok None
  else throw_if (negb (IsUUID v)) (bad_request (name +:+ " must be a UUID"));; Ok (Some v).

Definition textParam (q : Values) (name : string) : option string :=
  let v := values_get q name in if is_empty v then None else Some v.

Definition str_arg (s : option string) : value := VPtr (VStr <$> s).

Definition query_of (r : Http.Request) : Values := Query (RawQuery r).

(** The function of a list and of its extended form. *)
Definition extended (fn : string) (r : Http.Request) : string :=
  if String.eqb (values_get (query_of r) "extended") "true" then fn +:+ "_ex" else fn.

Definition list_args (r : Http.Request) : res error Args :=
  id ← uuidParam (query_of r) "id";
  key ← uuidParam (query_of r) "key";
  subkey ← uuidParam (query_of r) "subkey";
  Ok (<["id" := str_arg id]> (<["key" := str_arg key]> {[ "subkey" := str_arg subkey ]})).

Definition keys_args (r : Http.Request) : res error Args :=
  id ← uuidParam (query_of r) "id";
  root ← uuidParam (query_of r) "root";
  parent ← uuidParam (query_of r) "parent";
  Ok (<["id" := str_arg id]> (<["root" := str_arg root]> (<["parent" := str_arg parent]>
      {[ "key" := str_arg (textParam (query_of r) "key") ]}))).

(** [(key, subkey)]; the key is the alias of a root. *)
Definition keyRef (q : Values) : res error (string * option string) :=
  let key := values_get q "key" in
  throw_if (is_empty key) (bad_request "key is required (CURRENT_CONFIG or CURRENT_USER)");;
  Ok (key, textParam q "subkey").

Definition ref_args (r : Http.Request) : res error Args :=
  '(key, subkey) ← keyRef (query_of r);
  Ok {[ "key" := VStr key; "subkey" := str_arg subkey ]}.

(** The reference of one value: its key and its name. *)
Definition name_args (r : Http.Request) : res error Args :=
  a ← ref_args r;
  let name := values_get (query_of r) "name" in
  throw_if (is_empty name) (bad_request "name is required");;
  Ok (<["valuename" := VStr name]> a).

(** ** Typed values *)

Definition valueBody : schema :=
  [("id", TStrP); ("key", TStrP); ("subkey", TStrP); ("name", TStr); ("type", TStr); ("value", TRaw)].

(** The code of a type and the SQL type its value is pinned to. *)
Definition variantTypes (ty : string) : option (Z * string) :=
  if String.eqb ty "integer" then Some (0%Z, "integer")
  else if String.eqb ty "numeric" then Some (1%Z, "numeric")
  else if String.eqb ty "datetime" then Some (2%Z, "timestamp")
  else if String.eqb ty "string" then Some (3%Z, "text")
  else if String.eqb ty "boolean" then Some (4%Z, "boolean")
  else None.

(** Every number of a value is a float64: what [json.Unmarshal] into an [any] needs. *)
Fixpoint in_range (v : json) : bool :=
  match v with
  | JNum lex => bool_decide (is_Some (ParseFloat lex))
  | JArr l => forallb in_range l
  | JObj l => forallb (λ kv, in_range kv.2) l
  | _ => true
  end.

(** A value of the body as the Go value of its type. *)
Definition typed_json (ty : string) (v : json) : res error value :=
  if String.eqb ty "integer" then
    VInt <$> of_option (match v with JNum lex => ParseFloat lex ≫= to_int64 | _ => None end)
               (bad_request "value must be an integer")
  else if String.eqb ty "numeric" then
    VStr <$> of_option (match v with
                        | JNum lex => FormatFloat <$> ParseFloat lex
                        | JStr lex => Some (Unquote lex)
                        | _ => None
                        end) (bad_request "value must be a number")
  else if String.eqb ty "boolean" then
    VBool <$> of_option (match v with JBool b => Some b | _ => None end)
                (bad_request "value must be a boolean")
  else
    VStr <$> of_option (match v with JStr lex => Some (Unquote lex) | _ => None end)
               (bad_request "value must be a string").

Definition typed (ty raw : string) : res error value :=
  match parse raw with
  | None | Some JNull => Err (bad_request "value is required")
  | Some v =>
      throw_if (negb (in_range v)) (bad_request "value is required");;
      typed_json ty v
  end.

(** What a PUT decides before the database: the body, the arguments, the name and the
    type. *)
Definition write_args {T : Texts} (r : Http.Request) : res error (string * Args * string * string) :=
  '(raw, b) ← ReadBody r valueBody;
  let name := str_of b "name" in
  let ty := str_of b "type" in
  throw_if (is_empty name) (bad_request "name is required");;
  throw_if (bool_decide (str_ptr b "id" = None) && is_empty (default EmptyString (str_ptr b "key")))
    (bad_request "id of the key, or key and subkey, is required");;
  throw_if (match str_ptr b "id" with Some id => negb (IsUUID id) | None => false end)
    (bad_request "id must be a UUID");;
  '(code, sql) ← of_option (variantTypes ty)
    (bad_request "type must be one of integer, numeric, datetime, string, boolean");
  v ← typed ty (raw_of b "value");
  Ok (raw,
      <["id" := field b "id"]> (<["key" := field b "key"]> (<["subkey" := field b "subkey"]>
      (<["valuename" := VStr name]> (<["type" := VInt code]> {[ "data" := VTyped v sql ]})))),
      name, ty).

(** [json.Unmarshal] into a [string] that is empty. *)
Definition decode_string (s : string) : option string := default EmptyString <$> decode_str s.

(** ** Handlers *)

Section handlers.
Context {DO : Doer} {T : Texts}.

Definition list : handler := λ r, CallRowsOf (extended "api.registry" r) list_args r.
Definition keys : handler := CallRowsOf "registry_key" keys_args.
Definition enumKeys : handler := CallRowsOf "registry_enum_key" ref_args.
Definition enumValues : handler := λ r, CallRowsOf (extended "api.registry_enum_value" r) ref_args r.

(** [{id, path}] of a key. *)
Definition path_body (id path : string) : string :=
  "{" +:+ Quote "id" +:+ ":" +:+ Quote id +:+ "," +:+ Quote "path" +:+ ":" +:+ Quote path +:+ "}".

Definition keyPath : handler := λ r ss w,
  match IDOf r with
  | Err e => mret (Fail r e w)
  | Ok id =>
      x ← Do ss (ReqOf r 200 EmptyString) (λ h,
        CallScalar decode_str h "registry_get_reg_key" {[ "key" := VStr id ]});
      mret (match x with
            | Err e => Fail r e w
            | Ok path => match default None path with
                         | None => Fail r not_found w
                         | Some path => WriteJSON 200 (path_body id path) w
                         end
            end)
  end.

Definition read : handler := λ r ss w,
  match name_args r with
  | Err e => mret (Fail r e w)
  | Ok a =>
      x ← Do ss (ReqOf r 200 EmptyString) (λ h, CallRow h "registry_read" a);
      mret (match x with
            | Err e => Fail r e w
            | Ok rw => WriteJSON 200 (default EmptyString rw) w
            end)
  end.

(** [{id, name, type}] of a value written. *)
Definition written_body (id name ty : string) : string :=
  "{" +:+ Quote "id" +:+ ":" +:+ Quote id +:+ "," +:+ Quote "name" +:+ ":" +:+ Quote name
  +:+ "," +:+ Quote "type" +:+ ":" +:+ Quote ty +:+ "}".

Definition write : handler := λ r ss w,
  match write_args r with
  | Err e => mret (Fail r e w)
  | Ok (raw, args, name, ty) =>
      x ← Do ss (ReqOf r 200 raw) (λ h, CallScalar decode_string h "registry_write" args);
      mret (match x with
            | Err e => Fail r e w
            | Ok id => WriteJSON 200 (written_body (default EmptyString id) name ty) w
            end)
  end.

(** [m.exec] of a function whose arguments come from the request. *)
Definition exec (fn : string) (args : Http.Request → res error Args) : handler := λ r ss w,
  match args r with
  | Err e => mret (Fail r e w)
  | Ok a =>
      x ← Do ss (ReqOf r 204 EmptyString) (λ h, Call_ h fn a);
      mret (no_content r w x)
  end.

Definition deleteValueByID : handler :=
  exec "registry_delete_value" (λ r,
    id ← IDOf r;
    Ok {[ "id" := VStr id; "key" := VNil; "subkey" := VNil; "valuename" := VNil ]}).
Definition deleteValue : handler :=
  exec "registry_delete_value" (λ r, a ← name_args r; Ok (<["id" := VNil]> a)).
Definition deleteKey : handler := exec "registry_delete_key" ref_args.
Definition deleteTree : handler := exec "registry_delete_tree" ref_args.

Definition registry_Routes : Datatypes.list (string * posting) :=
  [("GET " +:+ prefix, lift list);
   ("GET " +:+ prefix +:+ "/keys", lift keys);
   ("GET " +:+ prefix +:+ "/keys/{id}/path", lift keyPath);
   ("GET " +:+ prefix +:+ "/keys/enum", lift enumKeys);
   ("GET " +:+ prefix +:+ "/values", lift enumValues);
   ("GET " +:+ prefix +:+ "/values/read", lift read);
   ("PUT " +:+ prefix +:+ "/values", lift write);
   ("DELETE " +:+ prefix +:+ "/values/{id}", lift deleteValueByID);
   ("DELETE " +:+ prefix +:+ "/values", lift deleteValue);
   ("DELETE " +:+ prefix +:+ "/keys", lift deleteKey);
   ("DELETE " +:+ prefix +:+ "/tree", lift deleteTree)].
End handlers.

End Registry.

(** ** What is written is typed *)

(** What a value of the API is in the registry: the name of its type and its JSON, the code of the
    Variant, the SQL type of the parameter, the Go value.  A number is a float64 on the way. *)
Inductive sent_as : string → json → Z → string → value → Prop :=
  | sent_integer lex f z : ParseFloat lex = Some f → float_is f z → in_bits 64 z = true →
      sent_as "integer" (JNum lex) 0 "integer" (VInt z)
  | sent_number lex f : ParseFloat lex = Some f →
      sent_as "numeric" (JNum lex) 1 "numeric" (VStr (FormatFloat f))
  | sent_numeral lex : sent_as "numeric" (JStr lex) 1 "numeric" (VStr (Unquote lex))
  | sent_datetime lex : sent_as "datetime" (JStr lex) 2 "timestamp" (VStr (Unquote lex))
  | sent_string lex : sent_as "string" (JStr lex) 3 "text" (VStr (Unquote lex))
  | sent_boolean b : sent_as "boolean" (JBool b) 4 "boolean" (VBool b).

Lemma typed_json_sent ty j code sql v : Registry.variantTypes ty = Some (code, sql) →
  Registry.typed_json ty j = Ok v → sent_as ty j code sql v.
Proof.
  unfold Registry.variantTypes, Registry.typed_json.
  destruct (String.eqb_spec ty "integer") as [->|_].
  { intros [= <- <-]. destruct j as [| |lex| | |]; try done.
    destruct (ParseFloat lex) as [f|] eqn:Hf; [|done]. cbn [mbind option_bind].
    destruct (to_int64 f) as [z|] eqn:Hz; [|done]. intros [= <-].
    apply to_int64_spec in Hz as [Hz Hb]. by eapply sent_integer. }
  destruct (String.eqb_spec ty "numeric") as [->|_].
  { intros [= <- <-]. destruct j as [| |lex|lex| |]; try done; [|intros [= <-]; constructor].
    destruct (ParseFloat lex) as [f|] eqn:Hf; [|done]. intros [= <-]. by constructor. }
  destruct (String.eqb_spec ty "datetime") as [->|_].
  { intros [= <- <-]. destruct j; try done. intros [= <-]. constructor. }
  destruct (String.eqb_spec ty "string") as [->|_].
  { intros [= <- <-]. destruct j; try done. intros [= <-]. constructor. }
  destruct (String.eqb_spec ty "boolean") as [->|_]; [|done].
  intros [= <- <-]. destruct j; try done. intros [= <-]. constructor.
Qed.

Lemma typed_sent ty raw code sql v : Registry.variantTypes ty = Some (code, sql) →
  Registry.typed ty raw = Ok v → ∃ j, parse raw = Some j ∧ sent_as ty j code sql v.
Proof.
  intros Hty. unfold Registry.typed. destruct (parse raw) as [j|]; [|done]. intros H. exists j. split; [done|].
  apply typed_json_sent; [done|]. revert H. destruct j; try done; by destruct (negb _).
Qed.

(** Whatever is of a type is taken under it. *)
Lemma sent_typed ty raw j code sql v : parse raw = Some j → sent_as ty j code sql v →
  Registry.variantTypes ty = Some (code, sql) ∧ Registry.typed ty raw = Ok v.
Proof.
  intros Hp Hs. unfold Registry.typed. rewrite Hp.
  destruct Hs as [lex f z Hf Hz Hb|lex f Hf| | | |]; (split; [done|]); try done; cbn [Registry.in_range].
  - rewrite bool_decide_true by (by rewrite Hf). cbn. rewrite Hf. cbn [mbind option_bind].
    by rewrite (proj2 (to_int64_spec f z) (conj Hz Hb)).
  - rewrite bool_decide_true by (by rewrite Hf). cbn. by rewrite Hf.
Qed.

(** What a body must say of the value it names. *)
Definition names_value (b : struct) : Prop :=
  str_of b "name" ≠ EmptyString ∧
  ((∃ id, str_ptr b "id" = Some id ∧ IsUUID id = true) ∨
   (str_ptr b "id" = None ∧ ∃ key, str_ptr b "key" = Some key ∧ key ≠ EmptyString)).

(** The arguments of registry_write. *)
Definition value_args (b : struct) (code : Z) (sql : string) (v : value) : Args :=
  <["id" := field b "id"]> (<["key" := field b "key"]> (<["subkey" := field b "subkey"]>
  (<["valuename" := VStr (str_of b "name")]> (<["type" := VInt code]> {[ "data" := VTyped v sql ]})))).

(** The three guards before the type. *)
Lemma names_value_ok b (A : Type) (m : res error A) :
  let guards := (throw_if (is_empty (str_of b "name")) (bad_request "name is required");;
    throw_if (bool_decide (str_ptr b "id" = None) && is_empty (default EmptyString (str_ptr b "key")))
      (bad_request "id of the key, or key and subkey, is required");;
    throw_if (match str_ptr b "id" with Some id => negb (IsUUID id) | None => false end)
      (bad_request "id must be a UUID");; m) in
  (names_value b → guards = m) ∧ (∀ a, guards = Ok a → names_value b ∧ m = Ok a).
Proof.
  cbv zeta. unfold names_value. split.
  - intros [Hn Hk]. destruct (str_of b "name"); [done|]. cbn [is_empty throw_if mbind res_bind].
    destruct Hk as [(id & -> & Hid)|(-> & key & -> & Hk)].
    + cbn. by rewrite Hid.
    + by destruct key.
  - intros a. destruct (str_of b "name"); cbn [is_empty throw_if mbind res_bind]; [done|].
    destruct (str_ptr b "id") as [id|]; cbn.
    + destruct (IsUUID id) eqn:Hid; cbn; [|done]. intros ->. split; [|done]. split; [done|].
      left. by exists id.
    + destruct (str_ptr b "key") as [[|k key]|]; cbn; [done| |done]. intros ->. split; [|done].
      split; [done|]. right. split; [done|]. by eexists.
Qed.

(** C27. A value is written under its own type: a PUT is taken exactly when its body names the value and
    its key (by an id that is a UUID, or by a root) and its JSON is of the type it names - an
    integer a number that is one and fits int64, a numeric a number or a text, a datetime and a
    string a text, a boolean true or false - and the arguments are then those fields, the code
    of that type (0 to 4 in this order), and the value as Go has it, pinned to the SQL type
    integer, numeric, timestamp, text or boolean.  What a text or an int64 is worth to
    PostgreSQL under that type is PostgreSQL's to say. *)
Theorem write_typed {T : Texts} r raw b : ReadBody r Registry.valueBody = Ok (raw, b) →
  ∀ args name ty,
    Registry.write_args r = Ok (raw, args, name, ty) ↔
    name = str_of b "name" ∧ ty = str_of b "type" ∧ names_value b ∧
    ∃ j code sql v, parse (raw_of b "value") = Some j ∧ sent_as ty j code sql v ∧
      args = value_args b code sql v.
Proof.
  intros Hb args name ty. unfold Registry.write_args. rewrite Hb. cbn [mbind res_bind]. cbv zeta.
  match goal with |- (throw_if _ _;; throw_if _ _;; throw_if _ _;; ?m) = _ ↔ _ =>
    destruct (names_value_ok b _ m) as [Hyes Hno] end.
  split.
  - intros [Hn H]%Hno. clear Hyes Hno.
    destruct (Registry.variantTypes (str_of b "type")) as [[code sql]|] eqn:Hty; [|done].
    cbn [of_option mbind res_bind] in H.
    destruct (Registry.typed _ _) as [v|] eqn:Hv; cbn [mbind res_bind] in H; [|done].
    injection H as <- <- <-. split_and!; [done..|].
    destruct (typed_sent _ _ _ _ _ Hty Hv) as (j & Hj & Hs). by exists j, code, sql, v.
  - intros (-> & -> & Hn & j & code & sql & v & Hj & Hs & ->). etrans; [by apply Hyes|].
    destruct (sent_typed _ _ _ _ _ _ Hj Hs) as [-> Hv]. cbn [of_option mbind res_bind]. by rewrite Hv.
Qed.

(** C33. An integer is written exactly: for a PUT of the type integer whose value is a JSON number of
    an integer value of at most 53 bits, however it is written (42, 42.0, 4.2e1), the data sent
    is this integer itself, pinned to the SQL type integer, under the code 0 - and nothing but
    the name, the key or the id of its body refuses it.  (PostgreSQL's integer takes those of
    32 bits and refuses the rest itself.) *)
Theorem integer_exact {T : Texts} r raw b lex z :
  ReadBody r Registry.valueBody = Ok (raw, b) → str_of b "type" = "integer" →
  parse (raw_of b "value") = Some (JNum lex) → number_is lex z → (Z.abs z < 2 ^ 53)%Z →
  match Registry.write_args r with
  | Ok (_, args, _, _) => args !! "data" = Some (VTyped (VInt z) "integer") ∧ args !! "type" = Some (VInt 0)
  | Err _ => ¬ names_value b
  end.
Proof.
  intros Hb Hty Hj Hlex Hz. pose proof (ParseFloat_number lex z Hlex Hz) as Hf.
  destruct (ParseFloat lex) as [f|] eqn:Hp; [|done]. cbn [mbind option_bind] in Hf.
  assert (Hs : sent_as "integer" (JNum lex) 0 "integer" (VInt z)).
  { apply to_int64_spec in Hf as [Hf Hbits]. by eapply sent_integer. }
  destruct (sent_typed _ _ _ _ _ _ Hj Hs) as [Hv Ht].
  unfold Registry.write_args. rewrite Hb. cbn [mbind res_bind]. cbv zeta.
  rewrite Hty, Hv. cbn [of_option mbind res_bind]. rewrite Ht. cbn [mbind res_bind].
  match goal with |- match (throw_if _ _;; throw_if _ _;; throw_if _ _;; ?m) with _ => _ end =>
    destruct (names_value_ok b _ m) as [Hyes Hno]; destruct (throw_if _ _;; _) as [[[[raw' args] name] ty]|e] eqn:He end.
  - destruct (Hno _ eq_refl) as [_ [= _ <- _ _]]. split; done.
  - intros Hn%Hyes. discriminate Hn.
Qed.

(** A longer one is rounded without a word. *)
Lemma integer_rounded :
  Registry.typed "integer" "9007199254740993" = Ok (VInt 9007199254740992) ∧
  Registry.typed "numeric" "9007199254740993" = Ok (VStr "9007199254740992") ∧
  Registry.typed "numeric" "0.10000000000000000001" = Ok (VStr "0.1").
Proof. by vm_compute. Qed.

(** ** Witnesses *)

Definition sample_write : Http.Request :=
  user_request "PUT" EmptyString
    (print (JObj [(quote_lex "key", JStr (quote_lex "CURRENT_CONFIG"));
                  (quote_lex "subkey", JStr (quote_lex "CONFIG\System"));
                  (quote_lex "name", JStr (quote_lex "Limit")); (quote_lex "type", JStr (quote_lex "integer"));
                  (quote_lex "value", JNum "4.2e1")])).

#[local] Instance registry_texts : Texts := plain_texts.

Definition sample_body : struct :=
  match ReadBody sample_write Registry.valueBody with Ok (_, b) => b | Err _ => ∅ end.

Lemma sample_read : ReadBody sample_write Registry.valueBody = Ok (Http.Body sample_write, sample_body).
Proof. vm_compute. reflexivity. Qed.

Lemma write_typed_witness : ∃ args name ty,
  Registry.write_args (T := plain_texts) sample_write = Ok (Http.Body sample_write, args, name, ty) ∧
  args !! "data" = Some (VTyped (VInt 42) "integer") ∧ names_value sample_body.
Proof.
  destruct (Registry.write_args (T := plain_texts) sample_write) as [[[[raw args] name] ty]|e] eqn:H.
  2: { exfalso. apply (f_equal is_ok) in H. vm_compute in H. discriminate H. }
  assert (raw = Http.Body sample_write) as ->.
  { apply (f_equal (λ x, match x with Ok (raw, _, _, _) => raw | Err _ => EmptyString end)) in H.
    vm_compute in H. by symmetry. }
  assert (Hd : args !! "data" = Some (VTyped (VInt 42) "integer")).
  { apply (f_equal (λ x, match x with Ok (_, a, _, _) => a !! "data" | Err _ => None end)) in H.
    vm_compute in H. by symmetry. }
  exists args, name, ty. split; [reflexivity|]. split; [exact Hd|].
  destruct (proj1 (write_typed (T := plain_texts) sample_write _ _ sample_read args name ty) H) as (_ & _ & Hn & _).
  exact Hn.
Defined.

(** Forty-two, as a client may write it. *)
Lemma integer_exact_witness : number_is "4.2e1" 42 ∧
  ∃ args name ty, Registry.write_args (T := plain_texts) sample_write = Ok (Http.Body sample_write, args, name, ty) ∧
    args !! "data" = Some (VTyped (VInt 42) "integer").
Proof.
  assert (Hn : number_is "4.2e1" 42) by (exists false, 42%Z, 0%Z; split; vm_compute; reflexivity).
  split; [exact Hn|].
  assert (Hlex : match parse (raw_of sample_body "value") with Some (JNum lex) => lex | _ => EmptyString end = "4.2e1")
    by (vm_compute; reflexivity).
  assert (Hty : str_of sample_body "type" = "integer") by (vm_compute; reflexivity).
  destruct (parse (raw_of sample_body "value")) as [[| |lex| | |]|] eqn:Hv; try discriminate Hlex.
  cbn in Hlex. subst lex.
  pose proof (integer_exact (T := plain_texts) sample_write _ _ "4.2e1" 42 sample_read Hty Hv Hn ltac:(lia)) as H.
  destruct (Registry.write_args (T := plain_texts) sample_write) as [[[[raw args] name] ty]|e] eqn:Hw.
  2: { exfalso. apply (f_equal is_ok) in Hw. vm_compute in Hw. discriminate Hw. }
  exists args, name, ty. split; [|apply H].
  apply (f_equal (λ x, match x with Ok (raw, _, _, _) => raw | Err _ => EmptyString end)) in Hw.
  vm_compute in Hw. by subst raw.
Defined.
