(* ===== verification/GwStatus.v ===== *)
(** * lib/gatewayclient: the load and what the gateway hears of it

    [Load] (load.go) counts requests and keeps the overloaded state in step with the
    capacity; [SetOverloaded], [syncStatus] (client.go) and the drain (session.go) tell
    the gateway.  They are goroutines that share a counter, a capacity, a one-place
    channel, two mutexes and the sessions; the model is their interleaving.

    The state [gw] holds the shared variables and, for each goroutine, where it is: the
    callers of [Add] ([adders]), the watcher of the load ([watcher]) and the goroutine
    of [Run] ([main]).  A step of a goroutine is one access to shared state: an atomic,
    a channel operation, a section under [Client.mu] or [session.mu], one access to
    [session.said].  [statusMu] is held across steps, by whom is [statusMu].  What
    comes from outside is an [event]: a request that starts or ends, a reload that
    changed the capacity, a registration, a socket that breaks, the end of a session, a
    drain.  As load.go asks, nothing else calls [SetOverloaded].

    Two fields are ghosts, no goroutine reads them: [stale], a capacity was stored and
    the registration that follows has not woken the watcher yet; [raced], the writes
    of the registering goroutine overtook a status already told on its session. *)

From stdpp Require Import functions.
From S2P Require Import Prelude.
From S2P Require Import GoStrings.

(** ** Data *)

(** The states a /status names; the state of the client. *)
Inductive status := SReady | SOverloaded | SDraining.
Inductive State := Offline | Connecting | Ready | Overloaded | Draining.

#[global] Instance status_eq_dec : EqDecision status.
Proof. solve_decision. Defined.
#[global] Instance State_eq_dec : EqDecision State.
Proof. solve_decision. Defined.

(** A session: [said] ([None] for the empty string), [draining]; [heard] is what was
    written to the gateway, beginning with the ready of the registration. *)
Record session := mkSession {
  said : option status;
  draining : bool;
  heard : list status;
  broken : bool;
  raced : bool
}.

Definition new_session : session := mkSession None false [SReady] false false.

(** Where a goroutine is in [syncStatus]. *)
Inductive sync :=
  | Lock                                      (* c.statusMu.Lock() *)
  | ReadFlag                                  (* want, current *)
  | ReadDraining (want : status) (current : bool)
  | Decide (want : status) (current draining : bool)
  | Told (want : status)                      (* s.status returned; s.said = want *)
  | Publish (want : status).                  (* c.state; Unlock *)

#[global] Instance sync_eq_dec : EqDecision sync.
Proof. solve_decision. Defined.

(** [Load.watch]: waiting for a wake, reading the capacity, reading the count,
    calling [SetOverloaded], in [syncStatus] of a session. *)
Inductive watch := Waiting | ReadCap | ReadCount (capacity : Z) | SetFlag | Syncing (s : nat) (k : sync).

#[global] Instance watch_eq_dec : EqDecision watch.
Proof. solve_decision. Defined.

(** [Run]: between sessions, and the steps of [runSession], [loop] and [drain]. *)
Inductive run :=
  | Lost                    (* runSession returned; c.setState(Offline) *)
  | Starting                (* c.setState(Connecting) *)
  | Dialling
  | WriteSaid (s : nat)
  | WriteReady (s : nat)
  | RunSync (s : nat) (k : sync)
  | Poke (s : nat)
  | Loop (s : nat)
  | DrainLock (s : nat)
  | DrainState (s : nat)
  | DrainFlag (s : nat)
  | DrainTell (s : nat)
  | DrainWait (s : nat)
  | Leaving (s : nat).      (* the deferred c.active = nil *)

(** [Add] after the count was changed: its result, then whether to poke. *)
Inductive adder := Added (n : Z) | Poking.

Inductive holder := Watcher | Main.

Record gw := mkGw {
  count : Z;                  (* Load.n *)
  capacity : Z;               (* Client.capacity *)
  stale : bool;
  wake : bool;                (* Load.wake, a channel of one place *)
  on : bool;                  (* of watch *)
  watcher : watch;
  adders : list adder;
  overloaded : bool;          (* Client.overloaded *)
  active : option nat;        (* Client.active *)
  state : State;              (* Client.state *)
  statusMu : option holder;
  sessions : nat → session;
  next : nat;                 (* sessions begun *)
  main : run
}.

(** ** Steps *)

Definition wrap32 (z : Z) : Z := ((z + 2 ^ 31) mod 2 ^ 32 - 2 ^ 31)%Z.

(** [low]: division truncates. *)
Definition low (capacity : Z) : Z := wrap32 (capacity - Z.max 1 (Z.quot capacity 4)).

Definition set_count c g := mkGw c (capacity g) (stale g) (wake g) (on g) (watcher g) (adders g)
  (overloaded g) (active g) (state g) (statusMu g) (sessions g) (next g) (main g).
Definition set_capacity c st g := mkGw (count g) c st (wake g) (on g) (watcher g) (adders g)
  (overloaded g) (active g) (state g) (statusMu g) (sessions g) (next g) (main g).
Definition set_wake b g := mkGw (count g) (capacity g) (stale g) b (on g) (watcher g) (adders g)
  (overloaded g) (active g) (state g) (statusMu g) (sessions g) (next g) (main g).
Definition set_watcher b w g := mkGw (count g) (capacity g) (stale g) (wake g) b w (adders g)
  (overloaded g) (active g) (state g) (statusMu g) (sessions g) (next g) (main g).
Definition set_adders l g := mkGw (count g) (capacity g) (stale g) (wake g) (on g) (watcher g) l
  (overloaded g) (active g) (state g) (statusMu g) (sessions g) (next g) (main g).
Definition set_overloaded b g := mkGw (count g) (capacity g) (stale g) (wake g) (on g) (watcher g)
  (adders g) b (active g) (state g) (statusMu g) (sessions g) (next g) (main g).
Definition set_active a g := mkGw (count g) (capacity g) (stale g) (wake g) (on g) (watcher g)
  (adders g) (overloaded g) a (state g) (statusMu g) (sessions g) (next g) (main g).
Definition set_state x g := mkGw (count g) (capacity g) (stale g) (wake g) (on g) (watcher g)
  (adders g) (overloaded g) (active g) x (statusMu g) (sessions g) (next g) (main g).
Definition set_mu h g := mkGw (count g) (capacity g) (stale g) (wake g) (on g) (watcher g)
  (adders g) (overloaded g) (active g) (state g) h (sessions g) (next g) (main g).
Definition set_session (s : nat) (x : session) g := mkGw (count g) (capacity g) (stale g) (wake g) (on g) (watcher g)
  (adders g) (overloaded g) (active g) (state g) (statusMu g) (<[s := x]> (sessions g)) (next g) (main g).
Definition set_next k g := mkGw (count g) (capacity g) (stale g) (wake g) (on g) (watcher g)
  (adders g) (overloaded g) (active g) (state g) (statusMu g) (sessions g) k (main g).
Definition set_main m g := mkGw (count g) (capacity g) (stale g) (wake g) (on g) (watcher g)
  (adders g) (overloaded g) (active g) (state g) (statusMu g) (sessions g) (next g) m.

(** [Load.Add]: the count changes, then the capacity is read, then the watcher may be
    poked. *)
Definition add_start (d : Z) (g : gw) : gw :=
  let n := wrap32 (count g + d) in set_adders (adders g ++ [Added n]) (set_count n g).

Definition crossing (n capacity : Z) : bool := ((capacity <=? n) || (n <=? low capacity))%Z.

Definition step_adder (i : nat) (g : gw) : option gw :=
  match adders g !! i with
  | None => None
  | Some (Added n) =>
      Some (set_adders (if crossing n (capacity g) then <[i := Poking]> (adders g)
                        else delete i (adders g)) g)
  | Some Poking => Some (set_wake true (set_adders (delete i (adders g)) g))
  end.

(** [s.status(state, …)]: what is written to a socket that is not broken. *)
Definition append (x : session) (w : status) : session :=
  mkSession (said x) (draining x) (if broken x then heard x else heard x ++ [w]) (broken x) (raced x).
Definition tell (s : nat) (w : status) (g : gw) : gw := set_session s (append (sessions g s) w) g.

(** [s.said = want]. *)
Definition saying (x : session) (w : status) (r : bool) : session :=
  mkSession (Some w) (draining x) (heard x) (broken x) r.
Definition set_said (s : nat) (w : status) (g : gw) : gw :=
  set_session s (saying (sessions g s) w (raced (sessions g s))) g.

Definition wanted (g : gw) : status := if overloaded g then SOverloaded else SReady.

(** A step of [syncStatus(s)] by [h]; the place after it is [None] when it returned. *)
Definition step_sync (h : holder) (s : nat) (k : sync) (g : gw) : option (gw * option sync) :=
  match k with
  | Lock => match statusMu g with
            | None => Some (set_mu (Some h) g, Some ReadFlag)
            | Some _ => None
            end
  | ReadFlag => Some (g, Some (ReadDraining (wanted g) (bool_decide (active g = Some s))))
  | ReadDraining want current => Some (g, Some (Decide want current (draining (sessions g s))))
  | Decide want current draining =>
      if negb current || draining || bool_decide (said (sessions g s) = Some want)
      then Some (set_mu None g, None)
      else Some (tell s want g, Some (Told want))
  | Told want => Some (set_said s want g, Some (Publish want))
  | Publish want =>
      let g := if bool_decide (active g = Some s)
               then set_state (match want with SOverloaded => Overloaded | _ => Ready end) g else g in
      Some (set_mu None g, None)
  end.

(** [Load.watch]. *)
Definition step_watch (g : gw) : option gw :=
  match watcher g with
  | Waiting => if wake g then Some (set_watcher (on g) ReadCap (set_wake false g)) else None
  | ReadCap => Some (set_watcher (on g) (ReadCount (capacity g)) g)
  | ReadCount c =>
      let n := count g in
      Some (if (negb (on g) && (c <=? n))%Z then set_watcher true SetFlag g
            else if (on g && (n <=? low c))%Z then set_watcher false SetFlag g
            else set_watcher (on g) Waiting g)
  | SetFlag =>
      Some (set_watcher (on g) (match active g with Some s => Syncing s Lock | None => Waiting end)
              (set_overloaded (on g) g))
  | Syncing s k =>
      '(g, k) ← step_sync Watcher s k g;
      Some (set_watcher (on g) (match k with Some k => Syncing s k | None => Waiting end) g)
  end.

(** The first write of [said] by the registering goroutine. *)
Definition write_said (s : nat) (g : gw) : gw :=
  set_session s (saying (sessions g s) SReady
    (raced (sessions g s) || bool_decide (is_Some (said (sessions g s))))) g.

(** [c.setState(Ready)], with the mark of what it overtook. *)
Definition write_ready (s : nat) (g : gw) : gw :=
  let ss := sessions g s in
  set_state Ready (set_session s (mkSession (said ss) (draining ss) (heard ss) (broken ss)
    (raced ss || bool_decide (said ss ≠ Some SReady))) g).

Definition set_draining (s : nat) (g : gw) : gw :=
  let ss := sessions g s in
  set_session s (mkSession (said ss) true (heard ss) (broken ss) (raced ss)) g.

(** The goroutine of [Run]. *)
Definition step_main (g : gw) : option gw :=
  match main g with
  | Lost => Some (set_main Starting (set_state Offline g))
  | Starting => Some (set_main Dialling (set_state Connecting g))
  | Dialling | Loop _ | DrainWait _ => None
  | WriteSaid s => Some (set_main (WriteReady s) (write_said s g))
  | WriteReady s => Some (set_main (RunSync s Lock) (write_ready s g))
  | RunSync s k =>
      '(g, k) ← step_sync Main s k g;
      Some (set_main (match k with Some k => RunSync s k | None => Poke s end) g)
  | Poke s => Some (set_main (Loop s) (set_capacity (capacity g) false (set_wake true g)))
  | DrainLock s => match statusMu g with
                   | None => Some (set_main (DrainState s) (set_mu (Some Main) g))
                   | Some _ => None
                   end
  | DrainState s => Some (set_main (DrainFlag s) (set_state Draining g))
  | DrainFlag s => Some (set_main (DrainTell s) (set_draining s g))
  | DrainTell s => Some (set_main (DrainWait s) (set_mu None (tell s SDraining g)))
  | Leaving s => Some (set_main Lost (set_active None g))
  end.

(** What comes from outside. *)
Inductive event :=
  | Add (d : Z)             (* a request starts or ends *)
  | Reload (capacity : Z)   (* a /reload stored a capacity *)
  | Register                (* the gateway took a registration; c.active = s *)
  | Break (s : nat)         (* a socket breaks *)
  | End                     (* no registration; the loop or the drain of a session ends *)
  | Drain.                  (* a drain request reaches the loop *)

Definition step_event (e : event) (g : gw) : option gw :=
  match e with
  | Add d => Some (add_start d g)
  | Reload c => Some (set_capacity (wrap32 c) true g)
  | Register =>
      match main g with
      | Dialling => Some (set_main (WriteSaid (next g)) (set_active (Some (next g))
                      (set_session (next g) new_session (set_next (S (next g)) g))))
      | _ => None
      end
  | Break s =>
      let ss := sessions g s in
      Some (set_session s (mkSession (said ss) (draining ss) (heard ss) true (raced ss)) g)
  | End => match main g with
           | Dialling => Some (set_main Lost g)
           | Loop s | DrainWait s => Some (set_main (Leaving s) g)
           | _ => None
           end
  | Drain => match main g with Loop s => Some (set_main (DrainLock s) g) | _ => None end
  end.

(** A step of a goroutine. *)
Inductive internal (g g' : gw) : Prop :=
  | by_adder i : step_adder i g = Some g' → internal g g'
  | by_watcher : step_watch g = Some g' → internal g g'
  | by_main : step_main g = Some g' → internal g g'.

Inductive step (g g' : gw) : Prop :=
  | inside : internal g g' → step g g'
  | outside e : step_event e g = Some g' → step g g'.

(** The client as [New] and the first [Load] leave it. *)
Definition initial (c : Z) : gw :=
  mkGw 0 (wrap32 c) false false false Waiting [] false None Offline None (λ _, new_session) 0 Starting.

Definition reachable (c : Z) : gw → Prop := rtc step (initial c).
