(* ===== verification/GwStatusLaws.v ===== *)
(** * lib/gatewayclient: what the gateway hears is the load *)

From stdpp Require Import functions relations.
From S2P Require Import Prelude.
From S2P Require Import GoStrings.
From S2P Require Import GwStatus.

(** ** Automation *)

(** The cases of a step: which goroutine, where it is, what it reads. *)
Ltac one_step H :=
  cbn in H;
  lazymatch type of H with
  | None = Some _ => discriminate H
  | context [match ?x with _ => _ end] =>
      first [is_var x; destruct x|destruct x eqn:?]; one_step H
  | Some _ = Some _ => injection H as <-
  end.

Ltac steps :=
  match goal with
  | H : step ?g ?g' |- _ =>
      destruct g as [n cap stl wk o wt adds ovl act st mu ss nx mn];
      destruct H as [[i H|H|H]|[d|c| |b| |] H];
      [unfold step_adder in H|unfold step_watch, step_sync, tell, set_said in H
      |unfold step_main, step_sync, tell, set_said, write_said, write_ready, set_draining in H
      |unfold step_event, add_start in H..]; one_step H
  end.

(** ** The mutex *)

Definition in_sync (k : sync) : bool := match k with Lock => false | _ => true end.
Definition watch_holds (w : watch) : bool := match w with Syncing _ k => in_sync k | _ => false end.
Definition main_holds (m : run) : bool :=
  match m with
  | RunSync _ k => in_sync k
  | DrainState _ | DrainFlag _ | DrainTell _ => true
  | _ => false
  end.

(** [statusMu] is held by the goroutine that is between its lock and its unlock. *)
Definition mutex (g : gw) : Prop :=
  statusMu g = (if watch_holds (watcher g) then Some Watcher
                else if main_holds (main g) then Some Main else None) ∧
  watch_holds (watcher g) && main_holds (main g) = false.

Lemma mutex_step g g' : mutex g → step g g' → mutex g'.
Proof.
  unfold mutex. intros [Hmu Hx] H. steps; cbn in *; subst; try done.
  all: try (destruct (watch_holds _), (main_holds _); done).
  all: try (destruct (main_holds _); done).
  all: try (destruct (watch_holds _); done).
Qed.

(** ** The sessions *)

Definition main_session (m : run) : option nat :=
  match m with
  | Lost | Starting | Dialling => None
  | WriteSaid s | WriteReady s | RunSync s _ | Poke s | Loop s | DrainLock s | DrainState s
  | DrainFlag s | DrainTell s | DrainWait s | Leaving s => Some s
  end.

(** The active session is the one of [Run], the latest. *)
Definition places (g : gw) : Prop :=
  active g = main_session (main g) ∧
  (∀ s, main_session (main g) = Some s → next g = S s) ∧
  (∀ s k, watcher g = Syncing s k → s < next g).

Lemma places_step g g' : places g → step g g' → places g'.
Proof.
  unfold places. intros (Ha & Hm & Hw) H. steps; cbn in *; subst; try done.
  all: split_and?; try done; intros; simplify_eq; try done; eauto with lia.
  - rewrite (Hm _ (eq_sym Ha)). lia.
  - enough (s < nx) by lia. eauto.
Qed.

(** ** Nothing follows draining *)

(** What a goroutine in [syncStatus] is about to tell is never draining. *)
Definition sync_want (k : sync) : option status :=
  match k with
  | ReadDraining w _ | Decide w _ _ | Told w | Publish w => Some w
  | Lock | ReadFlag => None
  end.

(** The goroutine [h] is in [syncStatus] of [s] at [k]. *)
Definition at_sync (g : gw) (h : holder) (s : nat) (k : sync) : Prop :=
  match h with
  | Watcher => watcher g = Syncing s k
  | Main => main g = RunSync s k
  end.

Definition wants (g : gw) : Prop :=
  ∀ h s k, at_sync g h s k → sync_want k ≠ Some SDraining.

Lemma wants_step g g' : wants g → step g g' → wants g'.
Proof.
  unfold wants, at_sync. intros Hw H.
  steps; cbn in *; subst; intros [] s' k'; cbn; intros Hk; simplify_eq; cbn;
    try done; try (by apply (Hw Watcher _ _ eq_refl)); try (by apply (Hw Main _ _ eq_refl));
    try (by apply (Hw Watcher s' k')); try (by apply (Hw Main s' k')); try (by destruct ovl).
Qed.

(** ** What a step does to a session *)

Inductive change (g g' : gw) (t : nat) : Prop :=
  | same : sessions g' t = sessions g t → change g g' t
  | begun : main g = Dialling → main g' = WriteSaid t → t = next g →
      watcher g' = watcher g → sessions g' t = new_session → change g g' t
  | broke : main g' = main g → watcher g' = watcher g →
      sessions g' t = mkSession (said (sessions g t)) (draining (sessions g t)) (heard (sessions g t))
                        true (raced (sessions g t)) → change g g' t
  | told h w : at_sync g h t (Decide w true false) → at_sync g' h t (Told w) →
      said (sessions g t) ≠ Some w → sessions g' t = append (sessions g t) w → change g g' t
  | wrote h w : at_sync g h t (Told w) → at_sync g' h t (Publish w) →
      sessions g' t = saying (sessions g t) w (raced (sessions g t)) → change g g' t
  | wrote_first : main g = WriteSaid t → main g' = WriteReady t → watcher g' = watcher g →
      sessions g' t = saying (sessions g t) SReady
        (raced (sessions g t) || bool_decide (is_Some (said (sessions g t)))) →
      change g g' t
  | wrote_ready : main g = WriteReady t → main g' = RunSync t Lock → watcher g' = watcher g →
      sessions g' t = mkSession (said (sessions g t)) (draining (sessions g t))
        (heard (sessions g t)) (broken (sessions g t))
        (raced (sessions g t) || bool_decide (said (sessions g t) ≠ Some SReady)) → change g g' t
  | drained_flag : main g = DrainFlag t → main g' = DrainTell t → watcher g' = watcher g →
      sessions g' t = mkSession (said (sessions g t)) true (heard (sessions g t))
        (broken (sessions g t)) (raced (sessions g t)) → change g g' t
  | drained_tell : main g = DrainTell t → main g' = DrainWait t → watcher g' = watcher g →
      sessions g' t = append (sessions g t) SDraining → change g g' t.

Ltac upd :=
  repeat match goal with
  | |- context [<[?s := ?x]> ?f ?s] => rewrite fn_lookup_insert
  | |- context [<[?s := ?x]> ?f ?t] =>
      destruct (decide (s = t)) as [->|?];
      [rewrite fn_lookup_insert|rewrite fn_lookup_insert_ne by done]
  | H : context [<[?s := ?x]> ?f ?t] |- _ =>
      destruct (decide (s = t)) as [->|?];
      [rewrite fn_lookup_insert in H|rewrite fn_lookup_insert_ne in H by done]
  end.

Lemma session_step g g' t : step g g' → change g g' t.
Proof.
  intros H. steps; try (by apply same).
  all: match goal with
       | |- context [set_session ?s _ _] => destruct (decide (s = t)) as [->|Hne];
           [|apply same; cbn; by rewrite fn_lookup_insert_ne]
       end.
  all: repeat match goal with
       | H : _ || _ = false |- _ => apply orb_false_iff in H as [? ?]
       | H : negb ?b = false |- _ => destruct b; [clear H|done]
       | H : bool_decide _ = false |- _ => apply bool_decide_eq_false in H
       end; subst.
  all: first
    [ eapply (told _ _ _ Watcher); cbn; rewrite ?fn_lookup_insert; done
    | eapply (told _ _ _ Main); cbn; rewrite ?fn_lookup_insert; done
    | eapply (wrote _ _ _ Watcher); cbn; rewrite ?fn_lookup_insert; done
    | eapply (wrote _ _ _ Main); cbn; rewrite ?fn_lookup_insert; done
    | apply wrote_first; cbn; rewrite ?fn_lookup_insert; done
    | apply wrote_ready; cbn; rewrite ?fn_lookup_insert; done
    | apply drained_flag; cbn; rewrite ?fn_lookup_insert; done
    | apply drained_tell; cbn; rewrite ?fn_lookup_insert; done
    | apply begun; cbn; rewrite ?fn_lookup_insert; done
    | apply broke; cbn; rewrite ?fn_lookup_insert; done ].
Qed.

(** Where [Run] comes from, before it drains. *)
Definition before_drain (m : run) : bool :=
  match m with DrainTell _ | DrainWait _ | Leaving _ => false | _ => true end.

Lemma main_back g g' t : step g g' →
  main_session (main g') = Some t → before_drain (main g') = true →
  main_session (main g) = Some t ∧ before_drain (main g) = true ∨
  main g = Dialling ∧ sessions g' t = new_session.
Proof.
  intros H. steps; cbn; intros Hs Hb; simplify_eq; auto.
  right. split; [done|]. by rewrite fn_lookup_insert.
Qed.

Lemma drain_back g g' t : step g g' → main g' = DrainTell t →
  main g = DrainTell t ∧ draining (sessions g' t) = draining (sessions g t) ∨
  main g = DrainFlag t ∧ draining (sessions g' t) = true.
Proof. intros H. steps; cbn; intros; simplify_eq; auto; upd; auto. Qed.

Lemma decide_back g g' h s w cur dr : step g g' → at_sync g' h s (Decide w cur dr) →
  at_sync g h s (Decide w cur dr) ∨
  at_sync g h s (ReadDraining w cur) ∧ dr = draining (sessions g s) ∧ sessions g' s = sessions g s.
Proof. intros H. unfold at_sync. steps; destruct h; cbn; intros; simplify_eq; auto. Qed.

(** ** Nothing follows draining *)

(** What a session heard, and whether it drains. *)
Definition drain_order (m : run) (s : nat) (x : session) : Prop :=
  (draining x = false → SDraining ∉ heard x) ∧
  (draining x = true → SDraining ∉ heard x ∨
     m ≠ DrainTell s ∧ ∃ l, heard x = l ++ [SDraining] ∧ SDraining ∉ l) ∧
  (main_session m = Some s → before_drain m = true → draining x = false) ∧
  (m = DrainTell s → draining x = true).

Definition drains (g : gw) : Prop :=
  (∀ s, drain_order (main g) s (sessions g s)) ∧
  (∀ h s w c d, at_sync g h s (Decide w c d) → d = draining (sessions g s)).

Lemma order_kept g g' t : step g g' → drain_order (main g) t (sessions g t) →
  draining (sessions g' t) = draining (sessions g t) → heard (sessions g' t) = heard (sessions g t) →
  drain_order (main g') t (sessions g' t).
Proof.
  intros H (H1 & H2 & H3 & H4) Hd Hh. unfold drain_order. rewrite Hd, Hh. split_and!; [done| | |].
  - intros Hdr. destruct (H2 Hdr) as [?|[Hne Hl]]; [by left|]. right. split; [|done].
    intros Hm'. destruct (drain_back g g' t H Hm') as [[? _]|[Hf _]]; [done|].
    rewrite Hf in H3. by rewrite H3 in Hdr.
  - intros Hms Hbd. destruct (main_back g g' t H Hms Hbd) as [[? ?]|[_ Hnew]]; [by apply H3|].
    rewrite Hnew in Hd. by rewrite <- Hd.
  - intros Hm'. destruct (drain_back g g' t H Hm') as [[? _]|[_ Hdr]]; [by apply H4|].
    by rewrite <- Hd.
Qed.

Lemma mutex_excl g s k : mutex g → watcher g = Syncing s k → k ≠ Lock → main_holds (main g) = false.
Proof. unfold mutex. intros [_ Hx] Hw Hk. rewrite Hw in Hx. by destruct k. Qed.

Lemma order_step g g' t : wants g → drains g → step g g' → drain_order (main g') t (sessions g' t).
Proof.
  intros Hw [Hd Hc] H. pose proof (Hd t) as Ht. pose proof Ht as (H1 & H2 & H3 & H4).
  destruct (session_step g g' t H) as [Hs|Hm Hm' Hn _ Hs|Hm _ Hs|h w Hat Hat' _ Hs|h w _ _ Hs
    |Hm Hm' _ Hs|Hm Hm' _ Hs|Hm Hm' _ Hs|Hm Hm' _ Hs];
    try (apply (order_kept g g'); [done|done|by rewrite Hs|by rewrite Hs]).
  - rewrite Hs, Hm'. unfold drain_order. cbn. split_and!; try done.
    intros _. by intros ?%list_elem_of_singleton.
  - pose proof (Hc _ _ _ _ _ Hat) as Hdr. symmetry in Hdr. pose proof (Hw _ _ _ Hat) as Hne.
    rewrite Hs. unfold drain_order. cbn [append draining heard]. rewrite Hdr. split_and!; try done.
    + intros _. specialize (H1 Hdr). destruct (broken _); [done|].
      rewrite not_elem_of_app, list_elem_of_singleton. cbn in Hne. split; congruence.
    + intros Hm'. destruct (drain_back g g' t H Hm') as [[Hm _]|[_ Hdr']].
      * by rewrite H4 in Hdr.
      * rewrite Hs in Hdr'. cbn in Hdr'. congruence.
  - rewrite Hs, Hm'. rewrite Hm in H3. unfold drain_order. cbn. split_and!; try done.
    intros _. left. by apply H1, H3.
  - rewrite Hs, Hm'. rewrite Hm in H2, H4. specialize (H4 eq_refl). unfold drain_order.
    cbn [append draining heard]. rewrite H4. split_and!; try done. intros _.
    destruct (H2 H4) as [Hno|[? _]]; [|done]. destruct (broken _); [by left|right].
    split; [done|]. by exists (heard (sessions g t)).
Qed.

Lemma drains_step g g' : mutex g → places g → wants g → drains g → step g g' → drains g'.
Proof.
  intros Hmu Hp Hw Hd H. split; [intros t; by apply (order_step g g')|].
  intros h s w cur dr Hat. destruct Hd as [_ Hc].
  destruct (decide_back g g' h s w cur dr H Hat) as [Hat0|(Hat0 & -> & Hs)]; [|by rewrite Hs].
  specialize (Hc _ _ _ _ _ Hat0). subst dr.
  destruct (session_step g g' s H) as [Hs|Hm Hm' Hn Hww Hs|Hm _ Hs|h' w' Hat' Hat1 _ Hs|h' w' _ _ Hs
    |Hm Hm' _ Hs|Hm Hm' _ Hs|Hm Hm' _ Hs|Hm Hm' _ Hs]; rewrite Hs; try done.
  - exfalso. destruct h; cbn in Hat, Hat0; [|congruence].
    destruct Hp as (_ & _ & Hp). specialize (Hp _ _ Hat0). lia.
  - exfalso. destruct h; cbn in Hat, Hat0; [|congruence].
    apply (mutex_excl g) in Hat0; [|done..]. by rewrite Hm in Hat0.
Qed.

(** ** The load is judged *)

(** The flag of the client is the watcher's, but for the moment before it is set. *)
Definition flag (g : gw) : Prop :=
  overloaded g = match watcher g with SetFlag => negb (on g) | _ => on g end.

Lemma flag_step g g' : flag g → step g g' → flag g'.
Proof.
  unfold flag. intros Hf H. steps; cbn in *; subst; try done.
  all: repeat match goal with
       | H : _ && _ = true |- _ => apply andb_true_iff in H as [? ?]
       | H : negb ?b = true |- _ => apply negb_true_iff in H; subst
       end; subst; done.
Qed.

(** The count calls for the other state. *)
Definition off (g : gw) : Prop :=
  on g = false ∧ (capacity g <= count g)%Z ∨ on g = true ∧ (count g <= low (capacity g))%Z.

(** Someone will judge the present count by the present capacity. *)
Definition pending (g : gw) : Prop :=
  wake g = true ∨ watcher g = ReadCap ∨ watcher g = ReadCount (capacity g) ∨
  Poking ∈ adders g ∨ Added (count g) ∈ adders g.

(** A capacity that leaves room below it. *)
Definition roomy (c : Z) : Prop := (0 < c ∧ low c < c)%Z.

Definition judged (g : gw) : Prop :=
  roomy (capacity g) → stale g = false → off g → pending g.

Lemma delete_other {A} (l : list A) i x y : l !! i = Some y → x ∈ l → x = y ∨ x ∈ delete i l.
Proof.
  intros Hi Hx. rewrite (delete_Permutation l i y Hi) in Hx. by apply elem_of_cons in Hx.
Qed.

Lemma judged_adder g g' i : judged g → step_adder i g = Some g' → judged g'.
Proof.
  unfold judged, step_adder. intros Hj H. destruct (adders g !! i) as [[n0|]|] eqn:Hi; [| |done].
  - injection H as <-. intros Hlow Hst Hoff. specialize (Hj Hlow Hst Hoff).
    destruct (crossing n0 (capacity g)) eqn:Hcr.
    + right; right; right; left. cbn. apply list_elem_of_lookup. exists i.
      apply list_lookup_insert_eq. by eapply lookup_lt_Some.
    + unfold crossing in Hcr. apply orb_false_iff in Hcr as [H1%Z.leb_gt H2%Z.leb_gt].
      destruct Hj as [?|[?|[?|[Hp|Ha]]]]; unfold pending; cbn; [tauto..| |].
      * destruct (delete_other _ _ _ _ Hi Hp); [done|tauto].
      * destruct (delete_other _ _ _ _ Hi Ha) as [[= Hn]|?]; [|tauto].
        exfalso. unfold off in Hoff. cbn in Hoff. lia.
  - injection H as <-. intros _ _ _. by left.
Qed.

(** The capacity the watcher read is the present one, unless it will be woken. *)
Definition fresh (g : gw) : Prop :=
  ∀ c, watcher g = ReadCount c → c = capacity g ∨ stale g = true ∨ wake g = true.

Lemma fresh_step g g' : fresh g → step g g' → fresh g'.
Proof.
  unfold fresh. intros Hf H. steps; cbn in *; subst; intros; simplify_eq; auto.
Qed.

Lemma judged_watch g g' : fresh g → judged g → step_watch g = Some g' → judged g'.
Proof.
  unfold judged, off, pending, fresh. intros Hf Hj H.
  unfold step_watch, step_sync, tell, set_said in H.
  destruct g as [n cap stl wk o wt adds ovl act st mu ss nx mn]. cbn in *. destruct wt as [| |c| |s k].
  - destruct wk; [|done]. injection H as <-. cbn. tauto.
  - injection H as <-. cbn. tauto.
  - specialize (Hf c eq_refl). destruct wk; [by one_step H; left|].
    destruct Hf as [->|[->|?]]; [|by one_step H|done].
    destruct o, (cap <=? n)%Z eqn:H1, (n <=? low cap)%Z eqn:H2; cbn in H; injection H as <-;
      cbn in *; rewrite ?Z.leb_le, ?Z.leb_gt in *; unfold roomy in *; intros; lia.
  - injection H as <-. cbn. naive_solver.
  - one_step H; cbn in *; naive_solver.
Qed.

Lemma judged_main g g' : judged g → step_main g = Some g' → judged g'.
Proof.
  unfold judged, off, pending. intros Hj H.
  unfold step_main, step_sync, tell, set_said, write_said, write_ready, set_draining in H.
  destruct g as [n cap stl wk o wt adds ovl act st mu ss nx mn]. one_step H; cbn in *; tauto.
Qed.

Lemma judged_event g g' e : judged g → step_event e g = Some g' → judged g'.
Proof.
  unfold judged, off, pending. intros Hj H. unfold step_event, add_start in H.
  destruct g as [n cap stl wk o wt adds ovl act st mu ss nx mn].
  destruct e; one_step H; cbn in *; try tauto; try done.
  intros _ _ _. right; right; right; right. apply elem_of_app. right. by left.
Qed.

Lemma judged_step g g' : fresh g → judged g → step g g' → judged g'.
Proof.
  intros Hf Hj [[i H|H|H]|e H];
    eauto using judged_adder, judged_watch, judged_main, judged_event.
Qed.

(** ** What the gateway heard last *)

(** The state just told on [s], before [said] is written. *)
Definition told_at (g : gw) (s : nat) : option status :=
  match watcher g, main g with
  | Syncing t (Told w), RunSync t' (Told w') =>
      if decide (t = s) then Some w else if decide (t' = s) then Some w' else None
  | Syncing t (Told w), _ | _, RunSync t (Told w) => if decide (t = s) then Some w else None
  | _, _ => None
  end.

Lemma sync_excl g h h' s s' k k' : mutex g → at_sync g h s k → at_sync g h' s' k' →
  k ≠ Lock → k' ≠ Lock → s = s' ∧ k = k' ∧ h = h'.
Proof.
  unfold at_sync. intros Hm H H' Hk Hk'.
  destruct h, h'; try (assert (s = s' ∧ k = k') by (split; congruence); naive_solver).
  - apply (mutex_excl g) in H; [|done..]. rewrite H' in H. by destruct k'.
  - apply (mutex_excl g) in H'; [|done..]. rewrite H in H'. by destruct k.
Qed.

Lemma told_at_some g s w : mutex g → told_at g s = Some w ↔ ∃ h, at_sync g h s (Told w).
Proof.
  intros Hm. split.
  - unfold told_at. intros H.
    destruct (watcher g) as [| | | |t [| | | |w0|]] eqn:Hw;
      destruct (main g) as [| | | | |t' [| | | |w'|]| | | | | | | |] eqn:Hn;
      repeat case_decide; simplify_eq; try (by exists Watcher); by exists Main.
  - intros [h H]. unfold told_at. destruct h; cbn in H.
    + rewrite H. destruct (main g) as [| | | | |t' [| | | |w'|]| | | | | | | |];
        by rewrite decide_True.
    + rewrite H. destruct (watcher g) as [| | | |t [| | | |w0|]] eqn:Hw;
        rewrite ?decide_True by done; try done.
      apply (mutex_excl g) in Hw; [|done..]. by rewrite H in Hw.
Qed.

Lemma told_at_none g s : mutex g → told_at g s = None → ∀ h w, ¬ at_sync g h s (Told w).
Proof.
  intros Hm Hn h w H. assert (told_at g s = Some w) by (apply told_at_some; eauto). congruence.
Qed.

Lemma told_back g g' h s w : step g g' → at_sync g' h s (Told w) →
  at_sync g h s (Told w) ∨ sessions g' s = append (sessions g s) w.
Proof.
  intros H. unfold at_sync. steps; destruct h; cbn; intros; simplify_eq; auto;
    by rewrite fn_lookup_insert; right.
Qed.

Lemma told_forward g g' h s w : step g g' → at_sync g h s (Told w) →
  at_sync g' h s (Told w) ∨ sessions g' s = saying (sessions g s) w (raced (sessions g s)).
Proof.
  intros H. unfold at_sync. steps; destruct h; cbn; intros; simplify_eq; auto;
    by rewrite fn_lookup_insert; right.
Qed.

(** What the gateway heard last on [s] is what was just told, or what [said] says. *)
Definition hears (g : gw) : Prop := ∀ s, let x := sessions g s in
  broken x = false → raced x = false → draining x = false →
  last (heard x) = Some (default (default SReady (said x)) (told_at g s)).

Lemma append_last x w : broken x = false → last (heard (append x w)) = Some w.
Proof. unfold append. cbn. intros ->. apply last_snoc. Qed.

Lemma hears_step g g' : mutex g → mutex g' → places g → drains g → hears g →
  step g g' → hears g'.
Proof.
  unfold hears. intros Hmu Hmu' Hp [Hd _] Hh H s Hb Hr Hdr. specialize (Hh s).
  assert (Hex : sessions g' s = append (sessions g s) SDraining → main g = DrainTell s → False).
  { intros Hs Hm. destruct (Hd s) as (_ & _ & _ & H4). rewrite Hs in Hdr. cbn in Hdr.
    by rewrite H4 in Hdr. }
  destruct (told_at g' s) as [w|] eqn:Ht'.
  - apply told_at_some in Ht' as [h Hat']; [|done]. cbn.
    destruct (told_back g g' h s w H Hat') as [Hat|Hs].
    2: { rewrite Hs in Hb |- *. by apply append_last. }
    assert (Ht : told_at g s = Some w) by (apply told_at_some; eauto). rewrite Ht in Hh. cbn in Hh.
    destruct (session_step g g' s H) as [Hs|Hm Hm' Hn Hww Hs|Hm _ Hs|h' w' Hat1 _ _ Hs|h' w' _ _ Hs
      |Hm Hm' _ Hs|Hm Hm' _ Hs|Hm Hm' _ Hs|Hm Hm' _ Hs]; rewrite Hs in Hb, Hr, Hdr |- *;
      cbn in Hb, Hr, Hdr |- *; try done; try (by apply Hh); try (by exfalso; apply Hex).
    + exfalso. destruct h; cbn in Hat; [|congruence].
      destruct Hp as (_ & _ & Hp). specialize (Hp _ _ Hat). lia.
    + by destruct (sync_excl g h h' s s _ _ Hmu Hat Hat1) as (_ & ? & _).
    + apply orb_false_iff in Hr as [? ?]. by apply Hh.
    + apply orb_false_iff in Hr as [? ?]. by apply Hh.
  - cbn. pose proof (told_at_none g' s Hmu' Ht') as Hno'.
    destruct (told_at g s) as [w|] eqn:Ht.
    + apply told_at_some in Ht as [h Hat]; [|done].
      destruct (told_forward g g' h s w H Hat) as [Hat'|Hs]; [by apply Hno' in Hat'|].
      rewrite Hs in Hb, Hr, Hdr |- *. by apply Hh.
    + pose proof (told_at_none g s Hmu Ht) as Hno. cbn in Hh.
      destruct (session_step g g' s H) as [Hs|Hm Hm' Hn Hww Hs|Hm _ Hs|h' w' _ Hat1 _ Hs|h' w' Hat1 _ Hs
        |Hm Hm' _ Hs|Hm Hm' _ Hs|Hm Hm' _ Hs|Hm Hm' _ Hs]; rewrite Hs in Hb, Hr, Hdr |- *;
        cbn in Hb, Hr, Hdr |- *; try done; try (by apply Hh); try (by exfalso; apply Hex).
      * by apply Hno' in Hat1.
      * by apply Hno in Hat1.
      * apply orb_false_iff in Hr as [Hr Hsd%bool_decide_eq_false%eq_None_not_Some].
        rewrite Hsd in Hh. by apply Hh.
      * apply orb_false_iff in Hr as [? ?]. by apply Hh.
Qed.

(** ** What [said] becomes *)

Definition settled (m : run) : option nat :=
  match m with
  | Poke s | Loop s | DrainLock s | DrainState s | DrainFlag s => Some s
  | _ => None
  end.

Definition sync_current (k : sync) : option bool :=
  match k with ReadDraining _ cur | Decide _ cur _ => Some cur | _ => None end.

(** What the watcher wants is the flag, and the session is current to who is in it. *)
Definition keen (g : gw) : Prop :=
  (∀ s k w, watcher g = Syncing s k → sync_want k = Some w → w = wanted g) ∧
  (∀ h s k c, at_sync g h s k → sync_current k = Some c → active g = Some s → c = true).

Lemma keen_step g g' : places g → keen g → step g g' → keen g'.
Proof.
  unfold keen, at_sync, wanted. intros (Ha & _ & Hn) [Hk Hc] H.
  pose proof (Hc Watcher) as Hc1. pose proof (Hc Main) as Hc2. clear Hc.
  steps; cbn in *; subst.
  all: split; [intros t k w Hw Hs|intros [] t k cr Hw Hs Ht]; simplify_eq/=; try done; eauto.
  all: try (by case_bool_decide).
  specialize (Hn _ _ eq_refl). lia.
Qed.

(** [said] is the flag, or the watcher will bring it there. *)
Definition matched (g : gw) (s : nat) : Prop :=
  said (sessions g s) = Some (wanted g) ∨
  ∃ k, watcher g = Syncing s k ∧ ∀ w, k ≠ Publish w.

(** [Run] at [k]: what it will say is the flag, or the watcher comes after it. *)
Definition underway (g : gw) (s : nat) (k : sync) : Prop :=
  (∀ w, sync_want k = Some w → w = wanted g ∨ watcher g = Syncing s Lock) ∧
  (∀ w, k = Publish w → said (sessions g s) = Some w).

Definition agrees (g : gw) : Prop :=
  (∀ s, settled (main g) = Some s → matched g s) ∧
  (∀ s k, main g = RunSync s k → underway g s k).

Lemma mutex_main g s k : mutex g → main g = RunSync s k → k ≠ Lock →
  statusMu g = Some Main ∧ watch_holds (watcher g) = false.
Proof.
  unfold mutex. intros [Hmu Hx] Hm Hk. rewrite Hm in Hmu, Hx.
  destruct (watch_holds (watcher g)); by destruct k.
Qed.

Lemma underway_watch g g' s k : mutex g → places g → main g = RunSync s k →
  underway g s k → step_watch g = Some g' → underway g' s k.
Proof.
  intros Hmu [Ha _] Hm [Hu Hp] H. destruct (decide (k = Lock)) as [->|Hk]; [done|].
  destruct (mutex_main g s k Hmu Hm Hk) as [Hh Hw]. rewrite Hm in Ha. cbn in Ha.
  unfold underway, wanted in *. unfold step_watch in H.
  destruct (watcher g) as [| | | |t kw] eqn:Hwt.
  - destruct (wake g); [|done]. injection H as <-. cbn. naive_solver.
  - injection H as <-. cbn. naive_solver.
  - one_step H; cbn; naive_solver.
  - injection H as <-. rewrite Ha. cbn. naive_solver.
  - destruct kw; try done. cbn in H. by rewrite Hh in H.
Qed.

Lemma matched_watch g g' s : mutex g → places g → drains g → keen g →
  settled (main g) = Some s → matched g s → step_watch g = Some g' → matched g' s.
Proof.
  intros Hmu [Ha _] [Hd Hdc] [Hk Hc] Hs Hm H.
  assert (Hms : main_session (main g) = Some s) by (by destruct (main g)).
  assert (Hdr : draining (sessions g s) = false).
  { destruct (Hd s) as (_ & _ & Hd' & _). apply Hd'; [done|]. by destruct (main g). }
  rewrite Hms in Ha. specialize (Hdc Watcher s). specialize (Hc Watcher s).
  unfold matched, step_watch in *. destruct (watcher g) as [| | | |t k] eqn:Hw.
  - one_step H. cbn. naive_solver.
  - one_step H. cbn. naive_solver.
  - one_step H; cbn; naive_solver.
  - injection H as <-. rewrite Ha. cbn. right. by exists Lock.
  - destruct (decide (t = s)) as [->|Hne].
    2: { destruct Hm as [Hm|(? & ? & _)]; [|congruence]. left.
         unfold step_sync, tell, set_said in H. one_step H; cbn; upd; done. }
    destruct k as [| |w c|w c d|w|w].
    + cbn in H. destruct (statusMu g); [done|]. injection H as <-. cbn. naive_solver.
    + injection H as <-. cbn. naive_solver.
    + injection H as <-. cbn. naive_solver.
    + specialize (Hc _ _ Hw eq_refl Ha). specialize (Hdc _ _ _ Hw). specialize (Hk _ _ _ eq_refl eq_refl).
      rewrite Hdr in Hdc. subst c d. cbn in H. case_bool_decide; injection H as <-; cbn; [naive_solver|].
      right. by exists (Told w).
    + specialize (Hk _ _ _ eq_refl eq_refl). injection H as <-. cbn. left. upd. cbn. by subst.
    + destruct Hm as [Hm|(? & ? & Hno)]; [|naive_solver]. left.
      cbn in H. case_bool_decide; injection H as <-; done.
Qed.

Lemma agrees_main g g' : mutex g → places g → drains g → keen g → agrees g →
  step_main g = Some g' → agrees g'.
Proof.
  intros Hmu [Ha _] [Hd Hdc] [Hk Hc] [Hs Hu] H.
  destruct (main g) as [| | |s|s|s k|s|s|s|s|s|s|s|s] eqn:Hm; unfold step_main in H; rewrite Hm in H;
    try done; try (injection H as <-; (split; [first [done|exact Hs]|done])).
  - injection H as <-. split; [done|]. cbn. intros ? ? [= <- <-]. done.
  - specialize (Hu s k eq_refl). destruct Hu as [Hu Hp]. cbn in Ha.
    assert (Hdr : draining (sessions g s) = false).
    { destruct (Hd s) as (_ & _ & Hd' & _). by apply Hd'. }
    destruct k as [| |w c|w c d|w|w]; cbn in H.
    + destruct (statusMu g); [done|]. injection H as <-. split; [done|]. cbn. intros ? ? [= <- <-]. done.
    + injection H as <-. split; [done|]. cbn. intros ? ? [= <- <-]. split; cbn; naive_solver.
    + injection H as <-. split; [done|]. cbn. intros ? ? [= <- <-]. split; cbn; naive_solver.
    + specialize (Hc Main _ _ _ Hm eq_refl Ha). specialize (Hdc Main _ _ _ _ Hm).
      rewrite Hdr in Hdc. subst c d. cbn in H. case_bool_decide; injection H as <-.
      * split; [|done]. cbn. intros ? [= <-]. destruct (Hu w eq_refl) as [->|Hw]; [by left|].
        right. by exists Lock.
      * split; [done|]. cbn. intros ? ? [= <- <-]. split; cbn; naive_solver.
    + injection H as <-. split; [done|]. cbn. intros ? ? [= <- <-].
      split; cbn; [naive_solver|]. intros ? [= <-]. by upd.
    + specialize (Hp w eq_refl). case_bool_decide; injection H as <-; (split; [|done]); cbn;
        intros ? [= <-]; unfold matched; cbn; rewrite Hp;
        (destruct (Hu w eq_refl) as [->|Hw]; [by left|right; by exists Lock]).
  - destruct (statusMu g); [done|]. injection H as <-. split; cbn; naive_solver.
Qed.

Lemma agrees_step g g' : mutex g → places g → drains g → keen g → agrees g → step g g' → agrees g'.
Proof.
  intros Hmu Hp Hd Hk Ha [[i H|H|H]|e H].
  - unfold step_adder in H. destruct Ha, g. one_step H; done.
  - assert (Hmm : main g' = main g).
    { unfold step_watch, step_sync, tell, set_said in H. destruct g. by one_step H. }
    destruct Ha as [Hs Hu]. split; intros s; rewrite Hmm; eauto using matched_watch, underway_watch.
  - by apply (agrees_main g).
  - destruct Ha as [Hs Hu], g. unfold step_event, add_start in H. destruct e; one_step H; try done.
    unfold agrees, matched, underway in *. cbn in *. split; intros; upd; cbn; eauto.
Qed.

(** ** What the client shows *)

(** The state that goes with what was told. *)
Definition shown (w : status) : State := match w with SOverloaded => Overloaded | _ => Ready end.

Lemma publish_back g g' h s w : step g g' → at_sync g' h s (Publish w) →
  at_sync g h s (Publish w) ∨ sessions g' s = saying (sessions g s) w (raced (sessions g s)).
Proof.
  intros H. unfold at_sync. steps; destruct h; cbn; intros; simplify_eq; auto;
    by rewrite fn_lookup_insert; right.
Qed.

Lemma publish_forward g g' h s w : step g g' → at_sync g h s (Publish w) → active g = Some s →
  at_sync g' h s (Publish w) ∨ state g' = shown w.
Proof.
  intros H. unfold at_sync. steps; destruct h; cbn; intros; simplify_eq; auto;
    rewrite ?bool_decide_eq_true_2 by done; cbn; auto; case_bool_decide; done.
Qed.

(** Who finished saying [w] on a session that was not raced left it said. *)
Definition said_told (g : gw) : Prop :=
  ∀ h s w, at_sync g h s (Publish w) → raced (sessions g s) = false → said (sessions g s) = Some w.

Lemma said_told_step g g' : mutex g → places g → said_told g → step g g' → said_told g'.
Proof.
  intros Hmu Hp Hi H h s w Hat' Hr. destruct (publish_back g g' h s w H Hat') as [Hat|Hs].
  2: by rewrite Hs.
  specialize (Hi h s w Hat).
  destruct (session_step g g' s H) as [Hs|Hm Hm' Hn Hww Hs|Hm _ Hs|h' w' Hat1 _ _ Hs|h' w' Hat1 _ Hs
    |Hm Hm' _ Hs|Hm Hm' _ Hs|Hm Hm' _ Hs|Hm Hm' _ Hs]; rewrite Hs in Hr |- *; cbn in Hr |- *; auto.
  - exfalso. destruct h; cbn in Hat; [|congruence].
    destruct Hp as (_ & _ & Hp). specialize (Hp _ _ Hat). lia.
  - by destruct (sync_excl g h h' s s _ _ Hmu Hat Hat1) as (_ & ? & _).
  - apply orb_false_iff in Hr as [Hr Hsd%bool_decide_eq_false]. by rewrite (Hi Hr) in Hsd; destruct Hsd.
  - apply orb_false_iff in Hr as [Hr _]. auto.
Qed.

Definition showing (m : run) : option nat :=
  match m with
  | RunSync s _ | Poke s | Loop s | DrainLock s | DrainState s => Some s
  | _ => None
  end.

Definition published (g : gw) : Prop :=
  ∀ s, showing (main g) = Some s → raced (sessions g s) = false →
  ∃ w, said (sessions g s) = Some w ∧ (state g = shown w ∨ ∃ h, at_sync g h s (Publish w)).

Lemma showing_back g g' s : step g g' → showing (main g') = Some s →
  showing (main g) = Some s ∨ main g = WriteReady s ∧ g' = set_main (RunSync s Lock) (write_ready s g).
Proof. intros H. steps; cbn; intros; simplify_eq; auto. Qed.

Lemma state_step g g' : step g g' →
  state g' = state g ∨ (∃ h s w, at_sync g h s (Publish w) ∧ active g = Some s ∧ state g' = shown w) ∨
  showing (main g') = None ∨ showing (main g) = None.
Proof.
  intros H. unfold at_sync. steps; cbn; auto; right; left.
  all: repeat match goal with H : bool_decide _ = true |- _ => apply bool_decide_eq_true in H end.
  1-3: by eexists Watcher, _, _. all: by eexists Main, _, _.
Qed.

Lemma published_step g g' : mutex g → places g → said_told g → published g → step g g' → published g'.
Proof.
  intros Hmu [Ha _] Hi Hp H s Hs' Hr. destruct (showing_back g g' s H Hs') as [Hs|[Hm ->]].
  2: { cbn in Hr |- *. rewrite fn_lookup_insert in Hr |- *. cbn in Hr |- *. apply orb_false_iff in Hr as [_ Hr].
       apply bool_decide_eq_false in Hr. exists SReady. split; [|by left].
       destruct (decide (said (sessions g s) = Some SReady)); [done|]. by destruct Hr. }
  assert (Hms : active g = Some s) by (rewrite Ha; by destruct (main g)). specialize (Hp s Hs).
  assert (Hkeep : (∃ w, said (sessions g s) = Some w ∧ (state g = shown w ∨ ∃ h, at_sync g h s (Publish w))) →
    raced (sessions g s) = false →
    ∃ w, said (sessions g s) = Some w ∧ (state g' = shown w ∨ ∃ h, at_sync g' h s (Publish w))).
  { intros (w & Hsd & [Hst|[h Hat]]) Hr0; exists w; (split; [done|]).
    - destruct (state_step g g' H) as [->|[(h & t & w' & Hat & Hact & ->)|[?|?]]]; [by left| |congruence..].
      left. assert (t = s) as -> by congruence. specialize (Hi h s w' Hat Hr0). congruence.
    - destruct (publish_forward g g' h s w H Hat Hms); eauto. }
  destruct (session_step g g' s H) as [Hx|Hm Hm' Hn Hww Hx|Hm _ Hx|h' w' Hat1 _ _ Hx|h' w' _ Hat' Hx
    |Hm Hm' _ Hx|Hm Hm' _ Hx|Hm Hm' _ Hx|Hm Hm' _ Hx]; rewrite Hx in Hr |- *; cbn in Hr |- *; auto.
  all: try (by rewrite Hm in Hs).
  exists w'. split; [done|]. right. by exists h'.
Qed.
