(* ===== verification/GwLoad.v ===== *)
(** * lib/gatewayclient: the load settles, and the gateway is told *)

From stdpp Require Import functions relations.
From S2P Require Import Prelude.
From S2P Require Import GoStrings.
From S2P Require Import GwStatus.
From S2P Require Import GwStatusLaws.

(** ** The invariant *)

Record sound (g : gw) : Prop := mkSound {
  s_mutex : mutex g;
  s_places : places g;
  s_wants : wants g;
  s_drains : drains g;
  s_flag : flag g;
  s_fresh : fresh g;
  s_judged : judged g;
  s_hears : hears g;
  s_keen : keen g;
  s_agrees : agrees g;
  s_said : said_told g;
  s_published : published g;
  s_sized : (- 2 ^ 31 <= capacity g < 2 ^ 31)%Z
}.

Lemma wrap32_range z : (- 2 ^ 31 <= wrap32 z < 2 ^ 31)%Z.
Proof. unfold wrap32. pose proof (Z.mod_pos_bound (z + 2 ^ 31) (2 ^ 32)). lia. Qed.

Lemma sized_step g g' : (- 2 ^ 31 <= capacity g < 2 ^ 31)%Z → step g g' →
  (- 2 ^ 31 <= capacity g' < 2 ^ 31)%Z.
Proof. intros Hc H. steps; cbn in *; try done. apply wrap32_range. Qed.

Lemma sound_initial c : sound (initial c).
Proof.
  split; try done; try apply wrap32_range.
  all: repeat split; intros; try done; try by destruct h.
  - by intros [].
  - by intros ?%list_elem_of_singleton.
  - unfold judged, off, roomy. cbn. lia.
  - by intros [].
Qed.

Lemma sound_step g g' : sound g → step g g' → sound g'.
Proof.
  intros []. split; eauto using mutex_step, places_step, wants_step, drains_step, flag_step, fresh_step,
    judged_step, keen_step, agrees_step, said_told_step, published_step, sized_step, hears_step.
Qed.

Lemma sound_reachable c g : reachable c g → sound g.
Proof.
  intros H. apply (rtc_ind_r (R := step) sound (initial c)); eauto using sound_initial, sound_step.
Qed.

(** ** The goroutines come to rest *)

Definition sync_rank (k : sync) : nat :=
  match k with Lock => 6 | ReadFlag => 5 | ReadDraining _ _ => 4 | Decide _ _ _ => 3 | Told _ => 2 | Publish _ => 1 end.
Definition watch_rank (w : watch) : nat :=
  match w with Waiting => 0 | ReadCap => 9 | ReadCount _ => 8 | SetFlag => 7 | Syncing _ k => sync_rank k end.
Definition main_rank (m : run) : nat :=
  match m with
  | Leaving _ => 3 | Lost => 2 | Starting => 1 | Dialling | Loop _ | DrainWait _ => 0
  | WriteSaid _ => 19 | WriteReady _ => 18 | RunSync _ k => 11 + sync_rank k | Poke _ => 11
  | DrainLock _ => 4 | DrainState _ => 3 | DrainFlag _ => 2 | DrainTell _ => 1
  end.
Definition adder_rank (a : adder) : nat := match a with Added _ => 12 | Poking => 11 end.

(** What the goroutines have still to do. *)
Definition work (g : gw) : nat :=
  sum_list_with adder_rank (adders g) + (if wake g then 10 else 0) + watch_rank (watcher g) + main_rank (main g).

Lemma sum_delete (l : list adder) i a : l !! i = Some a →
  sum_list_with adder_rank l = adder_rank a + sum_list_with adder_rank (delete i l).
Proof.
  intros H. transitivity (sum_list_with adder_rank (a :: delete i l)); [|done].
  by apply sum_list_with_Permutation_proper, delete_Permutation.
Qed.

Lemma sum_insert (l : list adder) i a b : l !! i = Some a →
  sum_list_with adder_rank (<[i := b]> l) + adder_rank a = sum_list_with adder_rank l + adder_rank b.
Proof.
  intros H. assert (Hi : i < length l) by eauto using lookup_lt_Some.
  rewrite (sum_delete _ i _ H), (sum_delete (<[i := b]> l) i b) by (by apply list_lookup_insert_eq).
  rewrite !delete_take_drop, take_insert_ge, drop_insert_lt by lia. lia.
Qed.

Lemma work_decreases g g' : internal g g' → work g' < work g.
Proof.
  unfold work. intros [i H|H|H].
  - unfold step_adder in H. destruct (adders g !! i) as [[n|]|] eqn:Hi; [| |done]; injection H as <-; cbn.
    + destruct (crossing n (capacity g)).
      * pose proof (sum_insert _ i _ Poking Hi). cbn in *. lia.
      * rewrite (sum_delete _ i _ Hi). cbn. lia.
    + rewrite (sum_delete _ i _ Hi). cbn. destruct (wake g); lia.
  - unfold step_watch, step_sync, tell, set_said in H. destruct g. one_step H; cbn; lia.
  - unfold step_main, step_sync, tell, set_said, write_said, write_ready, set_draining in H.
    destruct g as [? ? ? wk ? ? ? ? ? ? ? ? ? ?]. one_step H; cbn; destruct wk; lia.
Qed.

(** Every goroutine waits: the callers of [Add] have returned, the watcher waits for a
    wake, [Run] for the gateway or for the end of a drain. *)
Definition quiet (g : gw) : Prop :=
  adders g = [] ∧ wake g = false ∧ watcher g = Waiting ∧
  match main g with Dialling | Loop _ | DrainWait _ => True | _ => False end.

Lemma watch_moves g : watcher g ≠ Waiting → (∀ s, watcher g = Syncing s Lock → statusMu g = None) →
  is_Some (step_watch g).
Proof.
  intros Hw Hl. unfold step_watch. destruct (watcher g) as [| | | |s []]; try done; cbn; try by eexists.
  - by rewrite (Hl s eq_refl).
  - destruct (negb _ || _ || _); by eexists.
Qed.

Lemma main_moves g : (∀ s, main g = RunSync s Lock ∨ main g = DrainLock s → statusMu g = None) →
  match main g with Dialling | Loop _ | DrainWait _ => False | _ => True end → is_Some (step_main g).
Proof.
  intros Hl Hm. unfold step_main. destruct (main g) as [| | | | |s []| | | | | | | |]; try done; cbn; try by eexists.
  - by rewrite (Hl s (or_introl eq_refl)).
  - destruct (negb _ || _ || _); by eexists.
  - by rewrite (Hl s (or_intror eq_refl)).
Qed.

(** No goroutine can move only when none has anything to do: there is no deadlock. *)
Lemma nf_quiet g : mutex g → nf internal g → quiet g.
Proof.
  intros [Hmu Hx] Hnf.
  assert (Hnm : ¬ is_Some (step_main g)) by (intros [g' H]; apply Hnf; exists g'; by apply by_main).
  assert (Hnw : ¬ is_Some (step_watch g)) by (intros [g' H]; apply Hnf; exists g'; by apply by_watcher).
  assert (Hmain : match main g with Dialling | Loop _ | DrainWait _ => True | _ => False end).
  { destruct (watch_holds (watcher g)) eqn:Hh.
    - destruct Hnw. apply watch_moves; [by intros E; rewrite E in Hh|].
      intros s E. by rewrite E in Hh.
    - destruct (main g) eqn:Em; try done; destruct Hnm; apply main_moves; rewrite Em; try done;
        intros t [E|E]; try done; injection E as -> ->; by rewrite Hmu. }
  assert (Hw : watcher g = Waiting).
  { destruct (decide (watcher g = Waiting)) as [|Hne]; [done|]. destruct Hnw. apply watch_moves; [done|].
    intros s E. rewrite E in Hmu. cbn in Hmu. rewrite Hmu. by destruct (main g). }
  split_and!; [| |done|done].
  - destruct (adders g) as [|a l] eqn:Ha; [done|]. exfalso. apply Hnf.
    assert (Hi : is_Some (step_adder 0 g)) by (unfold step_adder; rewrite Ha; by destruct a).
    destruct Hi as [g' Hg]. exists g'. by apply (by_adder _ _ 0).
  - destruct (wake g) eqn:Hk; [|done]. destruct Hnw. unfold step_watch. rewrite Hw, Hk. by eexists.
Qed.

Lemma reachable_internal c g g' : reachable c g → rtc internal g g' → reachable c g'.
Proof.
  intros Hg H. unfold reachable in *. induction H as [|x y z Hs _ IH]; [done|].
  apply IH. eapply rtc_r; [done|]. by apply inside.
Qed.

(** C10. The goroutines of the client come to rest: from every state it can reach they
    take at most [work] steps before something comes from outside, whatever their
    interleaving, and when none can move every caller of [Add] has returned, no wake is
    pending and no one holds or waits for [statusMu]: there is no deadlock. *)
Theorem load_settles (c : Z) (g : gw) :
  reachable c g →
  sn internal g ∧
  (∀ n g', nsteps internal n g g' → n ≤ work g) ∧
  (∀ g', rtc internal g g' → nf internal g' → quiet g' ∧ statusMu g' = None).
Proof.
  intros Hg. split_and!.
  - clear Hg. induction (well_founded_ltof _ work g) as [g _ IH]. constructor. intros g' H.
    apply IH. by apply work_decreases.
  - intros n g' H. induction H as [|n x y z Hs _ IH]; [lia|].
    apply work_decreases in Hs as Hd. enough (n ≤ work y) by lia. apply IH.
    unfold reachable in *. eapply rtc_r; [done|]. by apply inside.
  - intros g' H Hnf. apply (reachable_internal c) in H; [|done].
    destruct (s_mutex _ (sound_reachable c g' H)) as [Hmu _].
    assert (Hq : quiet g') by (apply nf_quiet; [apply (sound_reachable c g' H)|done]).
    split; [done|]. destruct Hq as (_ & _ & Hw & Hm). rewrite Hmu, Hw. cbn. by destruct (main g').
Qed.

(** ** What is told at rest *)

Lemma low_spec c : (0 < c < 2 ^ 31)%Z → low c = (c - Z.max 1 (c `div` 4))%Z ∧ (0 <= low c < c)%Z.
Proof.
  intros Hc. unfold low, wrap32. rewrite Z.quot_div_nonneg by lia.
  pose proof (Z.div_lt c 4 ltac:(lia) ltac:(lia)). pose proof (Z.div_pos c 4 ltac:(lia) ltac:(lia)).
  rewrite Z.mod_small by lia. lia.
Qed.

Definition stays (s : nat) (g g' : gw) : Prop :=
  main g' = Loop s ∧ count g' = count g ∧ capacity g' = capacity g ∧ (stale g = false → stale g' = false) ∧
  broken (sessions g' s) = broken (sessions g s) ∧ raced (sessions g' s) = raced (sessions g s).

Lemma stays_step s g g' : main g = Loop s → internal g g' → stays s g g'.
Proof.
  unfold stays. intros Hm [i H|H|H].
  - unfold step_adder in H. destruct g. one_step H; cbn in *; done.
  - unfold step_watch, step_sync, tell, set_said in H. destruct g. one_step H; cbn in *; upd; done.
  - unfold step_main in H. by rewrite Hm in H.
Qed.

Lemma stays_run s g g' : main g = Loop s → rtc internal g g' → stays s g g'.
Proof.
  intros Hm H. induction H as [g|g g1 g' H1 _ IH]; [done|].
  destruct (stays_step s g g1 Hm H1) as (Hm1 & ? & ? & Hst & ? & ?).
  destruct (IH Hm1) as (? & ? & ? & Hst' & ? & ?). unfold stays. split_and!; try congruence. auto.
Qed.

(** At rest in the loop of a session, told by the registering goroutine in turn. *)
Lemma quiet_told c g s : reachable c g → quiet g → main g = Loop s → stale g = false →
  (0 < capacity g)%Z → broken (sessions g s) = false → raced (sessions g s) = false →
  last (heard (sessions g s)) = Some (wanted g) ∧ state g = shown (wanted g) ∧ ¬ off g ∧
  overloaded g = on g.
Proof.
  intros Hg (Ha & Hk & Hw & _) Hm Hst Hcap Hb Hr. destruct (sound_reachable c g Hg).
  assert (Hdr : draining (sessions g s) = false).
  { destruct s_drains0 as [Hd _]. destruct (Hd s) as (_ & _ & Hd' & _). apply Hd'; by rewrite Hm. }
  assert (Hsd : said (sessions g s) = Some (wanted g)).
  { destruct s_agrees0 as [Hs _]. destruct (Hs s) as [|(k & Hk' & _)]; [by rewrite Hm|done|congruence]. }
  split_and!.
  - rewrite (s_hears0 s Hb Hr Hdr), Hsd. unfold told_at. by rewrite Hw, Hm.
  - destruct (s_published0 s) as (w & Hsd' & [Hst'|[h Hat]]); [by rewrite Hm|done|congruence|].
    exfalso. destruct h; cbn in Hat; congruence.
  - intros Hoff. destruct (low_spec (capacity g)) as [_ Hlow]; [lia|].
    destruct (s_judged0 (conj Hcap (proj2 Hlow)) Hst Hoff) as [?|[?|[?|[Hin|Hin]]]]; try congruence;
      rewrite Ha in Hin; by apply elem_of_nil in Hin.
  - unfold flag in s_flag0. by rewrite Hw in s_flag0.
Qed.

(** C9. The last change is always judged.  Once the goroutines have come to rest in the
    loop of a session — whatever the interleaving of the requests, of the watcher and of
    the registration — the state the gateway heard last is the state the client shows,
    and it is right for the present count and the present capacity: ready only below the
    capacity, overloaded only above the mark of [low].  (The registration must have
    followed the latest /reload, its socket must carry, and its first writes must not
    have been overtaken: see [said_overtaken].) *)
Theorem load_told (c : Z) (g g' : gw) (s : nat) :
  reachable c g → main g = Loop s → stale g = false → (0 < capacity g)%Z →
  broken (sessions g s) = false → raced (sessions g s) = false →
  rtc internal g g' → nf internal g' →
  (last (heard (sessions g' s)) = Some SReady ∧ state g' = Ready ∧ (count g < capacity g)%Z) ∨
  (last (heard (sessions g' s)) = Some SOverloaded ∧ state g' = Overloaded ∧
   (low (capacity g) < count g)%Z).
Proof.
  intros Hg Hm Hst Hcap Hb Hr Hrun Hnf.
  destruct (stays_run s g g' Hm Hrun) as (Hm' & Hn & Hc & Hst' & Hb' & Hr').
  apply (reachable_internal c) in Hrun; [|done].
  assert (Hq : quiet g') by (apply nf_quiet; [apply (sound_reachable c g' Hrun)|done]).
  destruct (quiet_told c g' s) as (Hh & Hs & Hoff & Ho); try congruence; auto.
  rewrite Hh, Hs. unfold wanted, off in *. rewrite Ho in *. rewrite Hn, Hc in Hoff. destruct (on g').
  - right. split_and!; [done..|]. destruct (Z.leb_spec (count g) (low (capacity g))); [|done].
    destruct Hoff. by right.
  - left. split_and!; [done..|]. destruct (Z.leb_spec (capacity g) (count g)); [|done].
    destruct Hoff. by left.
Qed.

(** ** Refinement: the transitions the gateway accepts *)

(** The transitions of a registered instance. *)
Inductive gateway : status → status → Prop :=
  | overload : gateway SReady SOverloaded
  | relieve : gateway SOverloaded SReady
  | drain_ready : gateway SReady SDraining
  | drain_overloaded : gateway SOverloaded SDraining.

(** The gateway's registry: the instances that registered, in turn, each with its state. *)
Inductive registry_step : list status → list status → Prop :=
  | registers l : registry_step l (l ++ [SReady])
  | reports l i v v' : l !! i = Some v → gateway v v' → registry_step l (<[i := v']> l).

Definition view (g : gw) (s : nat) : status := default SReady (last (heard (sessions g s))).
Definition registry (g : gw) : list status := view g <$> seq 0 (next g).

Lemma one_session g g' : step g g' →
  (next g' = next g ∧ ∃ s, ∀ t, t ≠ s → sessions g' t = sessions g t) ∨
  (next g' = S (next g) ∧ sessions g' (next g) = new_session ∧
   ∀ t, t ≠ next g → sessions g' t = sessions g t).
Proof.
  intros H. steps; cbn; try (left; split; [done|]; by exists 0).
  all: try (left; split; [done|]; eexists; intros; rewrite fn_lookup_insert_ne; done).
  right. rewrite fn_lookup_insert. split_and!; try done. intros. by rewrite fn_lookup_insert_ne.
Qed.

Lemma view_step g g' s : wants g → drains g → step g g' → s < next g → places g →
  view g' s = view g s ∨ gateway (view g s) (view g' s).
Proof.
  intros Hw [Hd Hc] H Hs (_ & Hn & _). unfold view. destruct (Hd s) as (H1 & H2 & H3 & H4).
  assert (Htold : ∀ w, sessions g' s = append (sessions g s) w → w ≠ SDraining → draining (sessions g s) = false →
    default SReady (last (heard (sessions g' s))) = default SReady (last (heard (sessions g s))) ∨
    gateway (default SReady (last (heard (sessions g s)))) (default SReady (last (heard (sessions g' s))))).
  { intros w -> Hne Hdr. specialize (H1 Hdr). unfold append. cbn. destruct (broken _); [by left|].
    rewrite last_snoc. cbn. destruct (last (heard (sessions g s))) as [v|] eqn:Hl; cbn.
    - assert (v ≠ SDraining) by (intros ->; by apply last_Some_elem_of in Hl).
      destruct v, w; try done; auto using overload, relieve.
    - destruct w; try done; auto using overload. }
  destruct (session_step g g' s H) as [Hx|Hm Hm' Hn' Hww Hx|Hm _ Hx|h w Hat _ _ Hx|h w _ _ Hx
    |Hm Hm' _ Hx|Hm Hm' _ Hx|Hm Hm' _ Hx|Hm Hm' _ Hx]; try (rewrite Hx; by left).
  - lia.
  - apply (Htold w Hx); [apply Hw in Hat; cbn in Hat; congruence|]. symmetry. by apply (Hc _ _ _ _ _ Hat).
  - rewrite Hx. unfold append. cbn. destruct (broken _); [by left|]. rewrite last_snoc. cbn.
    destruct (H2 (H4 Hm)) as [Hno|[? _]]; [|done].
    destruct (last (heard (sessions g s))) as [v|] eqn:Hl; cbn; [|right; constructor].
    assert (v ≠ SDraining) by (intros ->; by apply last_Some_elem_of in Hl).
    destruct v; try done; right; constructor.
Qed.

Lemma registry_same g g' : next g' = next g → (∀ t, t < next g → view g' t = view g t) →
  registry g' = registry g.
Proof.
  intros Hn Hv. unfold registry. rewrite Hn. apply list_fmap_ext. intros i t Ht.
  apply lookup_seq in Ht as [-> Ht]. by apply Hv.
Qed.

(** C11. The client implements the gateway's state machine: every step it can take either
    leaves what the gateway knows as it was, or enters one new registration, ready, or
    moves one registration along a transition the gateway accepts — between ready and
    overloaded, or to draining, after which nothing follows. *)
Theorem registry_refines (c : Z) (g g' : gw) :
  reachable c g → step g g' →
  registry g' = registry g ∨ registry_step (registry g) (registry g').
Proof.
  intros Hg H. destruct (sound_reachable c g Hg).
  destruct (one_session g g' H) as [[Hn [s Hs]]|(Hn & Hnew & Hs)].
  - assert (Hv : ∀ t, t ≠ s → view g' t = view g t) by (intros t Ht; unfold view; by rewrite Hs).
    destruct (decide (s < next g)) as [Hlt|Hge].
    2: { left. apply registry_same; [done|]. intros t Ht. apply Hv. lia. }
    destruct (view_step g g' s) as [Hsame|Hmove]; try done.
    { left. apply registry_same; [done|]. intros t Ht. destruct (decide (t = s)) as [->|]; auto. }
    right. replace (registry g') with (<[s := view g' s]> (registry g)).
    + apply (reports _ s (view g s)); [|done]. unfold registry.
      by rewrite list_lookup_fmap, lookup_seq_lt.
    + apply list_eq. intros i. unfold registry. rewrite Hn. destruct (decide (i < next g)) as [Hi|Hi].
      * destruct (decide (i = s)) as [->|Hne].
        -- rewrite list_lookup_insert_eq by (by rewrite length_fmap, length_seq).
           by rewrite list_lookup_fmap, lookup_seq_lt.
        -- rewrite list_lookup_insert_ne, !list_lookup_fmap, lookup_seq_lt by done. cbn. by rewrite Hv.
      * rewrite !lookup_ge_None_2; [done|rewrite ?length_insert, length_fmap, length_seq; lia..].
  - right. replace (registry g') with (registry g ++ [SReady]); [constructor|].
    unfold registry. rewrite Hn, seq_S, fmap_app. cbn. f_equal.
    + apply list_fmap_ext. intros i t Ht. apply lookup_seq in Ht as [-> Ht]. unfold view. by rewrite Hs by lia.
    + unfold view. by rewrite Hnew.
Qed.

(** ** Interleavings, executed *)

(** Who moves. *)
Inductive mover := Caller (i : nat) | Watch | Runner | From (e : event).

Definition move (m : mover) (g : gw) : option gw :=
  match m with
  | Caller i => step_adder i g
  | Watch => step_watch g
  | Runner => step_main g
  | From e => step_event e g
  end.

Fixpoint play (ms : list mover) (g : gw) : option gw :=
  match ms with [] => Some g | m :: ms => move m g ≫= play ms end.

Lemma play_steps ms g g' : play ms g = Some g' → rtc step g g'.
Proof.
  revert g. induction ms as [|m ms IH]; cbn; intros g H; [by injection H as <-|].
  destruct (move m g) as [g1|] eqn:Hm; [|done]. apply (rtc_l _ _ g1); [|by apply IH].
  destruct m; [apply inside; by eapply by_adder|apply inside; by apply by_watcher
    |apply inside; by apply by_main|by eapply outside].
Qed.

Lemma quiet_nf g : quiet g → nf internal g.
Proof.
  intros (Ha & Hk & Hw & Hm) [g' [i H|H|H]].
  - unfold step_adder in H. by rewrite Ha in H.
  - unfold step_watch in H. by rewrite Hw, Hk in H.
  - unfold step_main in H. by destruct (main g).
Qed.

(** The registration, then requests up to the capacity. *)
Definition registering : list mover := [Runner; From Register].
Definition settling : list mover := replicate 6 Runner ++ [Runner; Watch; Watch; Watch].
Definition adding : list mover := [Caller 0; Caller 0].
Definition judging : list mover := replicate 10 Watch.

Definition after (c : Z) (ms : list mover) : gw := default (initial c) (play ms (initial c)).

Lemma after_reachable c ms : is_Some (play ms (initial c)) → reachable c (after c ms).
Proof. intros [g H]. unfold after. rewrite H. by apply (play_steps ms). Qed.

Lemma load_settles_witness : sn internal (after 1 (registering ++ [From (Add 1)])).
Proof. apply (load_settles 1). apply after_reachable. vm_compute. by eexists. Defined.

Lemma registry_refines_witness :
  registry_step (registry (after 1 (registering ++ settling ++ [From Drain; Runner; Runner; Runner])))
    (registry (after 1 (registering ++ settling ++ [From Drain; Runner; Runner; Runner; Runner]))).
Proof.
  destruct (registry_refines 1 (after 1 (registering ++ settling ++ [From Drain; Runner; Runner; Runner]))
    (after 1 (registering ++ settling ++ [From Drain; Runner; Runner; Runner; Runner]))) as [H|H].
  - apply after_reachable. vm_compute. by eexists.
  - apply inside, by_main. vm_compute. reflexivity.
  - exfalso. vm_compute in H. discriminate H.
  - exact H.
Defined.

(** A run of the goroutines alone. *)
Lemma play_internal ms g g' : forallb (λ m, match m with From _ => false | _ => true end) ms = true →
  play ms g = Some g' → rtc internal g g'.
Proof.
  revert g. induction ms as [|m ms IH]; cbn; intros g Hi H; [by injection H as <-|].
  apply andb_true_iff in Hi as [Hm Hi].
  destruct (move m g) as [g1|] eqn:Hg; [|done]. apply (rtc_l _ _ g1); [|by apply IH].
  destruct m; [by eapply by_adder|by apply by_watcher|by apply by_main|done].
Qed.

Definition full : list mover := registering ++ settling ++ [From (Add 1)].

Lemma load_told_witness :
  last (heard (sessions (after 1 (full ++ adding ++ judging)) 0)) = Some SOverloaded.
Proof.
  destruct (load_told 1 (after 1 full) (after 1 (full ++ adding ++ judging)) 0) as [(H & _)|(H & _)].
  - apply after_reachable. vm_compute. by eexists.
  - reflexivity.
  - reflexivity.
  - reflexivity.
  - reflexivity.
  - reflexivity.
  - apply (play_internal (adding ++ judging)); [reflexivity|]. vm_compute. reflexivity.
  - apply quiet_nf. vm_compute. repeat split.
  - exfalso. vm_compute in H. discriminate H.
  - exact H.
Defined.

(** The registering goroutine publishes the session before it writes [said] for the
    first time, and writes it without [statusMu]: a load that reaches the capacity and
    falls below it while the registration is completed leaves the gateway at overloaded,
    the client at ready, and nothing pending — until the load crosses a mark again. *)
Definition overtaken : list mover :=
  registering ++ [From (Add 1)] ++ adding ++ judging ++ [Runner; Runner; From (Add (-1))] ++ adding ++
  replicate 8 Watch ++ replicate 5 Runner ++ replicate 3 Watch.

Lemma said_overtaken : ∃ g, reachable 1 g ∧ quiet g ∧ main g = Loop 0 ∧ stale g = false ∧
  broken (sessions g 0) = false ∧ count g = 0%Z ∧ capacity g = 1%Z ∧ state g = Ready ∧
  last (heard (sessions g 0)) = Some SOverloaded.
Proof.
  exists (after 1 overtaken). split; [apply after_reachable; vm_compute; by eexists|].
  vm_compute. repeat split.
Qed.
