(* ===== verification/Client.v ===== *)
(** * lib/gatewayclient: the control connection

    [New] and its validation, [Run], [runSession], [loop], [drain], [handle], [call] with
    the reader, and [endError].  What the outside does is an input: a [Session] says how
    the token, the dial and each call ended, an [outcome] of [call] is the answer, a
    failed send, the end of the socket or the timeout, and [reader_end] how the reader
    ended, [None] while the socket carries.  Each function gives the [act]s it performs,
    in their order, and its result; a result of [None] has not returned: it waits for
    what its inputs do not bring.  Durations are nanoseconds in an int64. *)

From S2P Require Import Prelude.
From S2P Require Import GoStrings.
From S2P Require Import GoJson.
From S2P Require Import Frame.
From S2P Require Import Jwt.
From S2P Require Import Db.
From S2P Require Import Decode.
From S2P Require Import GwStatus.

(** ** Data *)

Inductive Event :=
  | EventConnectFailed | EventHandshakeRejected | EventRefused | EventRegistered
  | EventDisconnected | EventReplaced | EventDrained.

Record Registration := mkReg { Address : string; Prefixes : list string; Capacity : Z }.

#[global] Instance Registration_eq_dec : EqDecision Registration.
Proof. solve_decision. Defined.

(** The configuration; of the hooks, whether they were given. *)
Record Config := mkConfig {
  URL : string;
  Module_ : string;
  Instance_ : string;
  Version : string;
  Build : string;
  cfg_Address : string;
  ListenPort : Z;
  cfg_Prefixes : list string;
  cfg_Capacity : Z;
  has_Token : bool;
  has_HTTPClient : bool;
  DrainDeadline : Z
}.

Record drainReq := mkDrainReq { req_reason : string; req_deadline : Z }.

(** The client between and during its sessions: [drained] is closed or not. *)
Record Client := mkClient {
  cfg : Config;
  reg : Registration;
  capacity32 : Z;
  drainCh : option drainReq;
  drained : bool
}.

(** How a socket ended: the close frame, or another error. *)
Inductive close_err := CloseFrame (code : Z) (reason : string) | CloseOther (text : string).

(** The errors of a session. *)
Inductive serr :=
  | errDial (text : string)
  | errDrained
  | errGoingAway
  | refusal (code : Z) (msg : string) (handshake : bool)
  | errTimeout (action : string)
  | errSend (text : string)
  | errClosed (e : close_err)
  | errSocketClosed
  | errBadRegister
  | errSilent
  | errOffline.

#[global] Instance close_err_eq_dec : EqDecision close_err.
Proof. solve_decision. Defined.
#[global] Instance serr_eq_dec : EqDecision serr.
Proof. solve_decision. Defined.

(** ** Configuration *)

Definition Second : Z := 1000000000.

Definition lower_digit (c : ascii) : bool := is_lower c || is_digit c.

(** ^[a-z0-9][a-z0-9_-]{0,62}$ *)
Definition segment (s : string) : bool :=
  head_tail lower_digit (λ c, lower_digit c || Ascii.eqb c "_" || Ascii.eqb c "-") s
  && (String.length s <=? 63)%nat.

(** ^/api/v2/[a-z0-9_/-]+$ *)
Definition prefix (s : string) : bool :=
  let rest := TrimPrefix s "/api/v2/" in
  HasPrefix s "/api/v2/" && negb (is_empty rest) &&
  sforall (λ c, lower_digit c || Ascii.eqb c "_" || Ascii.eqb c "/" || Ascii.eqb c "-") rest.

Inductive new_error :=
  | URLRequired | BadSegment | VersionRequired | NoPrefix | CapacityTooSmall | TokenRequired
  | NoAddress | CustomClientNeedsAddress | BadPrefix (p : string).

(** [New]: the first complaint, or a client that has not run. *)
Definition New (c : Config) : res new_error Client :=
  throw_if (is_empty (URL c)) URLRequired;;
  throw_if (negb (segment (Module_ c)) || negb (segment (Instance_ c))) BadSegment;;
  throw_if (is_empty (Version c)) VersionRequired;;
  throw_if (bool_decide (cfg_Prefixes c = [])) NoPrefix;;
  throw_if (cfg_Capacity c <? 1)%Z CapacityTooSmall;;
  throw_if (negb (has_Token c)) TokenRequired;;
  throw_if (is_empty (cfg_Address c) && (ListenPort c =? 0)%Z) NoAddress;;
  throw_if (is_empty (cfg_Address c) && has_HTTPClient c) CustomClientNeedsAddress;;
  mapM_res (λ p, throw_if (negb (prefix p)) (BadPrefix p)) (cfg_Prefixes c);;
  let c := if (DrainDeadline c =? 0)%Z
           then mkConfig (URL c) (Module_ c) (Instance_ c) (Version c) (Build c) (cfg_Address c)
                  (ListenPort c) (cfg_Prefixes c) (cfg_Capacity c) (has_Token c) (has_HTTPClient c)
                  (30 * Second)
           else c in
  Ok (mkClient c (mkReg (cfg_Address c) (cfg_Prefixes c) (cfg_Capacity c)) (wrap32 (cfg_Capacity c))
        None false).

(** The base of [DefaultReconnect]; [scale] is the jitter, a float times a random number. *)
Definition reconnect_base (attempt : Z) : Z :=
  let base := (Z.shiftl 1 (Z.min attempt 5) * Second)%Z in
  if (30 * Second <? base)%Z then (30 * Second)%Z else base.
Definition DefaultReconnect (scale : Z → Z) (attempt : Z) : Z := scale (reconnect_base attempt).

(** ** What a session performs *)

Inductive act :=
  | SetState (s : State)
  | Emit (e : Event)
  | Say (action : string) (payload : string)   (* a CALL the session writes, whether or not the socket takes it *)
  | Close (code : Z) (reason : string)         (* the socket closed by the client *)
  | SetActive                                  (* c.active = s *)
  | SyncStatus                                 (* c.syncStatus(s) *)
  | PokeLoad
  | CloseDrained.                              (* close(c.drained) *)

(** The outcome of [s.call]. *)
Inductive outcome := Answer (f : Frame) | SendFailed (text : string) | Ended | TimedOut.

(** How the reader ended; [None]: it has not. *)
Definition reader_end := option (option close_err).

(** ** The end of a socket *)

Definition CloseStatus (e : option close_err) : Z :=
  match e with Some (CloseFrame code _) => code | _ => -1 end.
Definition reason (e : option close_err) : string :=
  match e with Some (CloseFrame _ r) => r | _ => EmptyString end.

(** [endError] after [<-s.done]. *)
Definition end_error (draining : bool) (closeErr : option close_err) (err : option serr) : serr :=
  if draining then errDrained
  else if (CloseStatus closeErr =? 1001)%Z then errGoingAway
  else if (CloseStatus closeErr =? 1008)%Z then
    let r := reason closeErr in
    refusal 1008 r (bool_decide (r ∈ ["unauthorized"; "forbidden"; "not-found"; "bad-request"]))
  else match err, closeErr with
       | Some e, _ => e
       | None, Some e => errClosed e
       | None, None => errSocketClosed
       end.

(** [endError]: it waits for the reader to stop. *)
Definition endError (draining : bool) (fin : reader_end) (err : option serr) : option serr :=
  closeErr ← fin; Some (end_error draining closeErr err).

(** [s.call] to [action]: the answer, or an error, after its wait. *)
Definition call (draining : bool) (fin : reader_end) (action : string) (o : outcome)
    : option (res serr Frame) :=
  match o with
  | Answer f => Some (Ok f)
  | SendFailed t => Some (Err (errSend t))
  | Ended => Err <$> endError draining fin None
  | TimedOut => Some (Err (errTimeout action))
  end.

(** ** The payloads *)

Definition jint (z : Z) : json := JNum (Itoa z).
Definition jstr (s : string) : json := JStr (quote_lex s).
Definition payload (l : list (string * json)) : string := marshal_map (list_to_map l).

Definition register_payload (c : Config) (r : Registration) : string :=
  payload [("module", jstr (Module_ c)); ("instance", jstr (Instance_ c));
           ("version", jstr (Version c)); ("build", jstr (Build c)); ("address", jstr (Address r));
           ("prefixes", JArr (jstr <$> Prefixes r)); ("capacity", jint (Capacity r))].
Definition in_flight_payload (n : Z) : string := payload [("in_flight", jint n)].
Definition status_payload (state reason : string) : string :=
  payload (("state", jstr state) :: if is_empty reason then [] else [("reason", jstr reason)]).

(** [json.Unmarshal] of an object, its error returned. *)
Definition unmarshal_struct (sc : schema) (s : string) : res decode_error struct :=
  if Valid s then decode_struct false sc s else Err BadJSON.

(** The same with the error dropped: a member of another type is passed over. *)
Definition unmarshal_lenient (sc : schema) (s : string) : struct :=
  match parse s, raw_members s with
  | Some (JObj _), Some ms =>
      foldl (λ st m, match decode_member false sc st m with Ok st' => st' | Err _ => st end)
        (zero_struct sc) ms
  | _, _ => zero_struct sc
  end.

Definition int_of (st : struct) (k : string) : Z :=
  match st !! k with Some (VInt z) => z | _ => 0%Z end.

Definition ack_schema : schema := [("heartbeat_interval", TInt 64); ("gateway_node", TStr)].
Definition heartbeat_schema : schema := [("State", TStr)].
Definition drain_schema : schema := [("reason", TStr); ("deadline", TInt 64)].

(** [time.Duration(n) * time.Second] *)
Definition seconds (n : Z) : Z := wrap64 (n * Second).

(** ** Drain *)

(** The wait of [drain]: a reading of [inFlight], then what woke it. *)
Inductive wake := WokeDeadline | WokeDone | WokePoll.

(** What is left of the readings when the wait is over. *)
Fixpoint drain_wait (polls : list (Z * wake)) : option unit :=
  match polls with
  | [] => None
  | (n, w) :: rest =>
      if (n <=? 0)%Z then Some ()
      else match w with WokePoll => drain_wait rest | _ => Some () end
  end.

(** [s.drain(req)]; its calls are bounded by their timeouts, their outcome is dropped. *)
Definition drain (req : drainReq) (polls : list (Z * wake)) : list act * option serr :=
  let told := [SetState Draining; Say "/status" (status_payload "draining" (req_reason req))] in
  match drain_wait polls with
  | None => (told, None)
  | Some _ =>
      (told ++ [Say "/unregister" (payload [("reason", jstr (req_reason req))]);
                Close 1000 "unregistered"; CloseDrained], Some errDrained)
  end.

(** ** The loop of a session *)

Inductive loop_event :=
  | LoopDone
  | LoopDrain (req : drainReq) (polls : list (Z * wake))
  | Tick (in_flight : Z) (o : outcome).

(** An iteration: what it performs, and the result of [loop] or the count of heartbeats
    without an answer; [None] when it waits. *)
Definition loop_step (fin : reader_end) (unanswered : nat) (e : loop_event)
    : list act * option (serr + nat) :=
  match e with
  | LoopDone => ([], inl <$> endError false fin None)
  | LoopDrain req polls => let '(acts, r) := drain req polls in (acts, inl <$> r)
  | Tick n o =>
      let said := [Say "/heartbeat" (in_flight_payload n)] in
      match call false fin "/heartbeat" o with
      | None => (said, None)
      | Some (Err (errTimeout _)) =>
          if (2 <=? S unanswered)%nat
          then (said ++ [Close 4001 "heartbeat unanswered"], Some (inl errSilent))
          else (said, Some (inr (S unanswered)))
      | Some (Err e) => (said, inl <$> endError false fin (Some e))
      | Some (Ok f) =>
          if bool_decide (str_of (unmarshal_lenient heartbeat_schema (Payload f)) "State" = "offline")
          then (said ++ [Close 4001 "offline per gateway"], Some (inl errOffline))
          else (said, Some (inr 0))
      end
  end.

Fixpoint loop (fin : reader_end) (unanswered : nat) (es : list loop_event) : list act * option serr :=
  match es with
  | [] => ([], None)
  | e :: rest =>
      let '(acts, r) := loop_step fin unanswered e in
      match r with
      | None => (acts, None)
      | Some (inl err) => (acts, Some err)
      | Some (inr n) => let '(acts', r') := loop fin n rest in (acts ++ acts', r')
      end
  end.

(** ** A session *)

Inductive dial_result :=
  | Dialled (local_ip : option string)          (* of the socket, when it is IPv4 *)
  | DialRejected (status : Z) (text : string)   (* an answer without an upgrade *)
  | DialFailed (text : string).

Record Session := mkSession {
  ses_token : res string string;
  ses_dial : dial_result;
  ses_register : outcome;
  ses_events : list loop_event;
  ses_end : reader_end
}.

(** [reg.Address], resolved for this session. *)
Definition local_address (c : Config) (ip : option string) (r : Registration) : Registration :=
  if is_empty (Address r)
  then mkReg (default "127.0.0.1" ip +:+ ":" +:+ Itoa (ListenPort c)) (Prefixes r) (Capacity r)
  else r.

(** What goes back to [c.reg], which a /reload may have changed since the snapshot. *)
Definition keep_address (now snapshot : Registration) : Registration :=
  if is_empty (Address now) then mkReg (Address snapshot) (Prefixes now) (Capacity now) else now.

(** The acknowledgement: the heartbeat's interval, a positive number of seconds. *)
Definition ack_interval (f : Frame) : option Z :=
  match unmarshal_struct ack_schema (Payload f) with
  | Ok st => let n := int_of st "heartbeat_interval" in if (n <? 1)%Z then None else Some n
  | Err _ => None
  end.

Inductive session_result :=
  | Over (registered : bool) (e : serr)
  | Waiting_
  | TickerPanics.    (* time.NewTicker of an interval that is not positive *)

(** [runSession] from the upgrade. *)
Definition registered_session (c : Config) (r : Registration) (s : Session) : list act * session_result :=
  let said := [SetState Connecting; Say "/register" (register_payload c r)] in
  match call false (ses_end s) "/register" (ses_register s) with
  | None => (said, Waiting_)
  | Some (Err e) =>
      (said, match endError false (ses_end s) (Some e) with Some e => Over false e | None => Waiting_ end)
  | Some (Ok f) =>
      if (Type_ f =? CallError)%Z then
        (said ++ [Close 1008 "refused"], Over false (refusal (Code f) (Message f) false))
      else match ack_interval f with
      | None => (said ++ [Close 1002 "bad /register result"], Over false errBadRegister)
      | Some n =>
          let said := said ++ [SetActive; SetState Ready; Emit EventRegistered; SyncStatus; PokeLoad] in
          if (seconds n <=? 0)%Z then (said, TickerPanics)
          else let '(acts, r) := loop (ses_end s) 0 (ses_events s) in
               (said ++ acts, match r with Some e => Over true e | None => Waiting_ end)
      end
  end.

Definition runSession (c : Config) (r : Registration) (s : Session) : list act * session_result :=
  match ses_token s with
  | Err t => ([SetState Connecting], Over false (errDial ("token: " +:+ t)))
  | Ok _ =>
      match ses_dial s with
      | DialFailed t => ([SetState Connecting], Over false (errDial t))
      | DialRejected code text =>
          ([SetState Connecting],
           Over false (if ((400 <=? code) && (code <? 500))%Z then refusal code text true else errDial text))
      | Dialled ip => registered_session c (local_address c ip r) s
      end
  end.

(** ** Run *)

(** An iteration of [Run]: the session, how long it lasted, whether ctx had ended after
    it, or ended during the wait. *)
Record Iteration := mkIteration {
  it_session : Session;
  it_reg : Registration;      (* c.reg when it began *)
  it_lasted : Z;
  it_cancelled : bool;
  it_cancelled_waiting : bool
}.

Inductive wait := Reconnect (n : Z) | ReconnectAfterRefusal.
Inductive run_result := ReturnsNil | ReturnsCtxErr | Panics.

(** The switch of [Run] on how a session ended: what it performs, the wait, and the
    counters [attempt] and [replaced]. *)
Definition after_session (lasted : Z) (err : serr) (attempt replaced : Z)
    : list act * option (wait * Z * Z) :=
  match err with
  | errDrained => ([SetState Offline; Emit EventDrained], None)
  | errGoingAway =>
      let replaced := if (lasted <? 30 * Second)%Z then (replaced + 1)%Z else 0%Z in
      ([SetState Offline; Emit EventReplaced],
       Some (Reconnect (Z.max attempt (replaced - 1)), attempt + 1, replaced)%Z)
  | refusal _ _ handshake =>
      ([SetState Offline; Emit (if handshake then EventHandshakeRejected else EventRefused)],
       Some (ReconnectAfterRefusal, attempt, replaced))
  | errDial _ =>
      ([SetState Offline; Emit EventConnectFailed], Some (Reconnect attempt, attempt + 1, replaced)%Z)
  | _ =>
      ([SetState Offline; Emit EventDisconnected], Some (Reconnect attempt, attempt + 1, replaced)%Z)
  end.

(** The loop of [Run] over what the outside does; the waits it made, in turn. *)
Fixpoint Run_loop (c : Config) (attempt replaced : Z) (its : list Iteration)
    : list act * list wait * option run_result :=
  match its with
  | [] => ([], [], None)
  | it :: rest =>
      let '(acts, r) := runSession c (it_reg it) (it_session it) in
      match r with
      | Waiting_ => (acts, [], None)
      | TickerPanics => (acts, [], Some Panics)
      | Over registered err =>
          let attempt := if registered then 0%Z else attempt in
          if it_cancelled it then (acts, [], Some ReturnsCtxErr)
          else match after_session (it_lasted it) err attempt replaced with
               | (acts', None) => (acts ++ acts', [], Some ReturnsNil)
               | (acts', Some (w, attempt, replaced)) =>
                   if it_cancelled_waiting it then (acts ++ acts', [w], Some ReturnsCtxErr)
                   else let '(acts'', ws, r) := Run_loop c attempt replaced rest in
                        (acts ++ acts' ++ acts'', w :: ws, r)
               end
      end
  end.

(** [Run] begins a fresh cycle when a previous one drained. *)
Definition begin_run (c : Client) : Client :=
  mkClient (cfg c) (reg c) (capacity32 c) (drainCh c) false.

(** ** Drain requests *)

(** [c.drain]: the request is queued unless one is; the caller waits for [c.drained], or
    returns at once when it is closed already. *)
Definition request_drain (req : drainReq) (c : Client) : Client * bool :=
  (mkClient (cfg c) (reg c) (capacity32 c)
     (match drainCh c with None => Some req | Some r => Some r end) (drained c), drained c).

Definition Drain_ (reason : string) (c : Client) : Client * bool :=
  request_drain (mkDrainReq reason (DrainDeadline (cfg c))) c.

(** The loop of a session takes the request that is queued. *)
Definition take_drain (c : Client) : option (drainReq * Client) :=
  req ← drainCh c; Some (req, mkClient (cfg c) (reg c) (capacity32 c) None (drained c)).

(** [close(c.drained)]; closing it twice panics. *)
Definition close_drained (c : Client) : option Client :=
  if drained c then None
  else Some (mkClient (cfg c) (reg c) (capacity32 c) (drainCh c) true).

(** ** Commands of the gateway *)

(** The parameters of a /drain, [c.cfg.DrainDeadline] when it names none. *)
Definition drain_params (c : Config) (p : string) : drainReq :=
  let st := unmarshal_lenient drain_schema p in
  let r := str_of st "reason" in
  let d := int_of st "deadline" in
  mkDrainReq (if is_empty r then "drain" else r)
    (if (0 <? d)%Z then seconds d else DrainDeadline c).

(** The registration after a /reload whose hook gave [next], when that changes it. *)
Definition reload_reg (cur next : Registration) : option Registration :=
  let changed :=
    (negb (is_empty (Address next)) && negb (bool_decide (Address next = Address cur))) ||
    (negb (Capacity next =? 0)%Z && negb (Capacity next =? Capacity cur)%Z) ||
    (negb (bool_decide (Prefixes next = [])) && negb (bool_decide (Prefixes next = Prefixes cur))) in
  if changed
  then Some (mkReg (if is_empty (Address next) then Address cur else Address next)
               (if bool_decide (Prefixes next = []) then Prefixes cur else Prefixes next)
               (if (Capacity next =? 0)%Z then Capacity cur else Capacity next))
  else None.

Inductive effect := Send (f : Frame) | CloseSocket (code : Z) (reason : string).

(** [s.handle(f)]; [on_reload] is the hook's result, [None] when there is no hook. *)
Definition handle (f : Frame) (in_flight : Z) (on_reload : option Registration) (c : Client)
    : Client * list effect :=
  if String.eqb (Action f) "/ping"
  then (c, [Send (Result f (any_value (Some (in_flight_payload in_flight))))])
  else if String.eqb (Action f) "/drain"
  then ((request_drain (drain_params (cfg c) (Payload f)) c).1, [Send (Result f any_nil)])
  else if String.eqb (Action f) "/reload"
  then match next ← on_reload; reload_reg (reg c) next with
       | None => (c, [Send (Result f any_nil)])
       | Some r => (mkClient (cfg c) r (wrap32 (Capacity r)) (drainCh c) (drained c),
                    [Send (Result f any_nil); CloseSocket 1012 "re-register"])
       end
  else (c, [Send (Error f 404 "unknown action")]).

(** ** Calls and their answers *)

(** [s.pending]: the calls that wait, by the id of their frame, each with its channel of
    one place. *)
Record Pending := mkPending {
  waiting : gmap string nat;              (* id → channel *)
  channels : gmap nat Frame               (* what a channel holds *)
}.

Inductive read_effect := Deliver (ch : nat) | Spawn (f : Frame) | Refuse (e : frame_error) | TooBig | Drop.

(** [call] before its wait. *)
Definition open_call (id : string) (ch : nat) (p : Pending) : Pending :=
  mkPending (<[id := ch]> (waiting p)) (channels p).

(** [call] after its timeout. *)
Definition forget (id : string) (p : Pending) : Pending := mkPending (delete id (waiting p)) (channels p).

(** An iteration of the reader on a message: [None] when it would block on a channel
    that is full. *)
Definition read (text : bool) (data : string) (p : Pending) : option (Pending * read_effect) :=
  if negb text then Some (p, Drop)
  else match Parse data with
  | Err ErrTooLarge => Some (p, TooBig)
  | Err e => Some (p, Refuse e)
  | Ok f =>
      if (Type_ f =? CallResult)%Z || (Type_ f =? CallError)%Z then
        match waiting p !! ID f with
        | None => Some (mkPending (delete (ID f) (waiting p)) (channels p), Drop)
        | Some ch =>
            match channels p !! ch with
            | Some _ => None
            | None => Some (mkPending (delete (ID f) (waiting p)) (<[ch := f]> (channels p)), Deliver ch)
            end
        end
      else if (Type_ f =? Call)%Z then Some (p, Spawn f) else Some (p, Drop)
  end.

(** The calls of a session and what its reader does, in their order: each call makes the
    next channel. *)
Inductive pop := Open (id : string) | TimeOut (id : string) | Message (text : bool) (data : string).

Definition step_pending (o : pop) (s : Pending * nat) : option (Pending * nat * list read_effect) :=
  let '(p, n) := s in
  match o with
  | Open id => Some (open_call id n p, S n, [])
  | TimeOut id => Some (forget id p, n, [])
  | Message text data => '(p, e) ← read text data p; Some (p, n, [e])
  end.

Fixpoint run_pending (os : list pop) (s : Pending * nat) : option (Pending * nat * list read_effect) :=
  match os with
  | [] => Some (s, [])
  | o :: os =>
      '(s, es) ← step_pending o s;
      '(s, es') ← run_pending os s;
      Some (s, es ++ es')
  end.

Definition new_pending : Pending := mkPending ∅ ∅.
