(* ===== verification/ClientLaws.v ===== *)
(** * lib/gatewayclient: what [Run] and its sessions keep to *)

From S2P Require Import Prelude.
From S2P Require Import GoStrings.
From S2P Require Import GoJson.
From S2P Require Import Frame.
From S2P Require Import Decode.
From S2P Require Import GwStatus.
From S2P Require Import Client.

(** ** A drained session *)

(** What a drain performs, from its announcement to the close of [c.drained]. *)
Definition drained_by (req : drainReq) : list act :=
  [SetState Draining; Say "/status" (status_payload "draining" (req_reason req));
   Say "/unregister" (payload [("reason", jstr (req_reason req))]); Close 1000 "unregistered"; CloseDrained].

Lemma end_error_drained fin e err :
  end_error false fin e = err → e ≠ Some errDrained → err ≠ errDrained.
Proof.
  unfold end_error. intros <- He. repeat case_match; try done. congruence.
Qed.

Lemma endError_drained fin e err :
  endError false fin e = Some err → e ≠ Some errDrained → err ≠ errDrained.
Proof. unfold endError. destruct fin; [|done]. intros [= <-]. by eapply end_error_drained. Qed.

Lemma call_drained fin a o e : call false fin a o = Some (Err e) → e ≠ errDrained.
Proof.
  destruct o; cbn; try (by intros [= <-]). destruct (endError false fin None) as [x|] eqn:H; [|done].
  intros [= <-]. by eapply endError_drained.
Qed.

Lemma drain_spec req polls acts e : drain req polls = (acts, Some e) → acts = drained_by req ∧ e = errDrained.
Proof. unfold drain. destruct (drain_wait polls); [|done]. by intros [= <- <-]. Qed.

Lemma loop_step_drained fin n e acts err : loop_step fin n e = (acts, Some (inl err)) →
  err = errDrained → ∃ req, acts = drained_by req.
Proof.
  intros H ->. destruct e as [|req polls|k o]; cbn in H.
  - destruct (endError false fin None) as [x|] eqn:He; [|done]. injection H as _ ->.
    by apply endError_drained in He.
  - destruct (drain req polls) as [a [x|]] eqn:Hd; [|done]. injection H as <- ->.
    apply drain_spec in Hd as [-> _]. by exists req.
  - destruct (call false fin "/heartbeat" o) as [[f|x]|] eqn:Hc; [| |done].
    + by case_bool_decide.
    + apply call_drained in Hc.
      destruct x; try (by destruct n as [|[|n]]);
        (destruct (endError false fin _) as [y|] eqn:He; [|done]); injection H as _ ->;
        apply endError_drained in He; congruence.
Qed.

Lemma loop_drained fin n es acts : loop fin n es = (acts, Some errDrained) →
  ∃ pre req, acts = pre ++ drained_by req.
Proof.
  revert n acts. induction es as [|e es IH]; intros n acts; cbn; [done|].
  destruct (loop_step fin n e) as [a [[err|k]|]] eqn:Hs; [| |done].
  - intros [= <- ->]. destruct (loop_step_drained _ _ _ _ _ Hs eq_refl) as [req ->]. by exists [], req.
  - destruct (loop fin k es) as [a' r'] eqn:Hl. intros [= <- ->].
    destruct (IH _ _ Hl) as (pre & req & ->). exists (a ++ pre), req. by rewrite app_assoc.
Qed.

Lemma session_drained c r s acts reg : runSession c r s = (acts, Over reg errDrained) →
  reg = true ∧ ∃ pre req, acts = pre ++ drained_by req.
Proof.
  unfold runSession. destruct (ses_token s); [|done].
  destruct (ses_dial s) as [ip|code t|t]; [|by destruct (_ && _)|done].
  unfold registered_session. generalize (local_address c ip r) as r'. intros r'.
  destruct (call false (ses_end s) "/register" (ses_register s)) as [[f|e]|] eqn:Hc; [| |done].
  - destruct (Type_ f =? CallError)%Z; [done|]. destruct (ack_interval f) as [k|]; [|done].
    destruct (seconds k <=? 0)%Z; [done|].
    destruct (loop _ _ _) as [la [e|]] eqn:Hl; [|done]. intros [= <- <- ->].
    destruct (loop_drained _ _ _ _ Hl) as (pre & req & ->). split; [done|].
    eexists (_ :: _ :: SetActive :: _ :: _ :: _ :: _ :: pre), req. by cbn.
  - apply call_drained in Hc. destruct (endError false (ses_end s) (Some e)) as [x|] eqn:He; [|done].
    intros [= _ _ ->]. apply endError_drained in He; congruence.
Qed.

(** ** How [Run] returns *)

(** C12. [Run] ends only for a reason: it returns nil only after a session tried to announce
    draining, to unregister and to close with 1000, in that order, and then showed offline
    and told of [EventDrained]; it returns an error only when its context ended; and it
    panics only in a session whose heartbeat interval is not positive.  Every
    other end of a session - a refusal, a failed dial, a lost socket, 1001 - is followed
    by a wait and another session, as long as there is one and none waits for ever. *)
Theorem Run_returns (c : Config) (attempt replaced : Z) (its : list Iteration) :
  match Run_loop c attempt replaced its with
  | (acts, ws, Some ReturnsNil) =>
      ∃ pre req, acts = pre ++ drained_by req ++ [SetState Offline; Emit EventDrained]
  | (acts, ws, Some ReturnsCtxErr) =>
      ∃ it, it ∈ its ∧ (it_cancelled it = true ∨ it_cancelled_waiting it = true)
  | (acts, ws, Some Panics) =>
      ∃ it, it ∈ its ∧ ∃ acts, runSession c (it_reg it) (it_session it) = (acts, TickerPanics)
  | (acts, ws, None) =>
      length ws = length its ∨
      ∃ it, it ∈ its ∧ ∃ acts, runSession c (it_reg it) (it_session it) = (acts, Waiting_)
  end.
Proof.
  revert attempt replaced. induction its as [|it its IH]; intros attempt replaced; cbn; [by left|].
  destruct (runSession c (it_reg it) (it_session it)) as [acts [reg err| |]] eqn:Hs.
  2: right; exists it; split; [by left|by exists acts].
  2: exists it; split; [by left|by exists acts].
  destruct (it_cancelled it) eqn:Hc; [exists it; split; [by left|by left]|].
  destruct (after_session _ _ _ _) as [acts' [[[w a] rp]|]] eqn:Ha.
  - destruct (it_cancelled_waiting it) eqn:Hw; [exists it; split; [by left|by right]|].
    specialize (IH a rp). destruct (Run_loop c a rp its) as [[acts'' ws] [[]|]].
    + destruct IH as (pre & req & ->). exists (acts ++ acts' ++ pre), req. by rewrite <- !app_assoc.
    + destruct IH as (x & Hx & ?). exists x. split; [by right|done].
    + destruct IH as (x & Hx & ?). exists x. split; [by right|done].
    + destruct IH as [IH|(x & Hx & ?)]; [left; cbn; lia|]. right. exists x. split; [by right|done].
  - assert (err = errDrained ∧ acts' = [SetState Offline; Emit EventDrained]) as [-> ->].
    { unfold after_session in Ha. destruct err; try done. by injection Ha as <-. }
    apply session_drained in Hs as (_ & pre & req & ->). exists pre, req. by rewrite <- app_assoc.
Qed.

(** ** Waits *)

(** What [DefaultReconnect] makes of a wait, but for the jitter. *)
Definition wait_base (refused : Z) (w : wait) : Z :=
  match w with Reconnect n => reconnect_base n | ReconnectAfterRefusal => refused end.

Lemma reconnect_base_spec n : (0 <= n)%Z → reconnect_base n = (Second * Z.min (2 ^ n) 30)%Z.
Proof.
  intros Hn. unfold reconnect_base. rewrite Z.shiftl_1_l. destruct (Z.le_gt_cases n 5).
  - rewrite Z.min_l by lia. assert (n = 0 ∨ n = 1 ∨ n = 2 ∨ n = 3 ∨ n = 4 ∨ n = 5)%Z as Hc by lia.
    destruct Hc as [->|[->|[->|[->|[->| ->]]]]]; reflexivity.
  - rewrite Z.min_r by lia. rewrite (Z.min_r (2 ^ n)); [reflexivity|].
    apply Z.le_trans with (2 ^ 5)%Z; [lia|]. apply Z.pow_le_mono_r; lia.
Qed.

(** A session that was lost, or was never registered; ctx lives on. *)
Definition plain_end (e : serr) : bool :=
  match e with errDrained | errGoingAway | refusal _ _ _ => false | _ => true end.
Definition lost (c : Config) (it : Iteration) : Prop :=
  it_cancelled it = false ∧ it_cancelled_waiting it = false ∧
  ∃ acts e, runSession c (it_reg it) (it_session it) = (acts, Over false e) ∧ plain_end e = true.

(** A session that was registered and closed with 1001 within 30 s. *)
Definition replaced_soon (c : Config) (it : Iteration) : Prop :=
  it_cancelled it = false ∧ it_cancelled_waiting it = false ∧ (it_lasted it < 30 * Second)%Z ∧
  ∃ acts, runSession c (it_reg it) (it_session it) = (acts, Over true errGoingAway).

Definition counting (a : Z) (n : nat) : list wait := Reconnect <$> seqZ a (Z.of_nat n).

Lemma counting_S a n : counting a (S n) = Reconnect a :: counting (a + 1) n.
Proof. unfold counting. rewrite Nat2Z.inj_succ, seqZ_cons by lia. cbn. by rewrite Z.pred_succ, Z.add_1_r. Qed.

Lemma lost_waits c its : Forall (lost c) its → ∀ a rp,
  ∃ acts, Run_loop c a rp its = (acts, counting a (length its), None).
Proof.
  intros H. induction H as [|it its (Hc & Hw & acts & e & Hs & He) _ IH]; intros a rp; cbn -[counting];
    [by exists []|].
  rewrite Hs, Hc. assert (∃ acts', after_session (it_lasted it) e a rp =
    (acts', Some (Reconnect a, a + 1, rp)%Z)) as [acts' ->] by (destruct e; try done; by eexists).
  rewrite Hw. destruct (IH (a + 1)%Z rp) as [acts'' ->]. eexists. by rewrite counting_S.
Qed.

Lemma replaced_waits c its : Forall (replaced_soon c) its → ∀ a rp, (0 <= rp)%Z →
  ∃ acts, Run_loop c a rp its = (acts, counting rp (length its), None).
Proof.
  intros H. induction H as [|it its (Hc & Hw & Hl & acts & Hs) _ IH]; intros a rp Hrp; cbn -[counting Z.add Z.sub Z.mul];
    [by exists []|].
  rewrite Hs, Hc. cbn [after_session]. rewrite (proj2 (Z.ltb_lt _ _) Hl), Hw.
  destruct (IH (0 + 1)%Z (rp + 1)%Z) as [acts'' ->]; [lia|]. eexists. rewrite counting_S.
  repeat f_equal. lia.
Qed.

(** C26. The backoff of the protocol: sessions that fail in a row — no dial, a bad
    answer, a lost socket before the registration — and sessions replaced in a row, each
    soon after it began, are followed by waits of 1, 2, 4, 8, 16, 30, 30, … seconds (but
    for the jitter), and [Run] goes on. *)
Theorem Run_backoff (c : Config) (its : list Iteration) :
  Forall (lost c) its ∨ Forall (replaced_soon c) its →
  ∃ acts ws, Run_loop c 0 0 its = (acts, ws, None) ∧
    wait_base (30 * Second) <$> ws =
      (λ i, Second * Z.min (2 ^ i) 30)%Z <$> seqZ 0 (Z.of_nat (length its)).
Proof.
  intros H. assert (∃ acts, Run_loop c 0 0 its = (acts, counting 0 (length its), None)) as [acts Hr]
    by (destruct H; [by apply lost_waits|by apply replaced_waits]).
  exists acts, (counting 0 (length its)). split; [done|]. unfold counting. rewrite <- list_fmap_compose.
  apply list_fmap_ext. intros i z Hz. apply lookup_seqZ in Hz as [-> _]. cbn. apply reconnect_base_spec. lia.
Qed.

(** ** Calls *)

Definition opened (os : list pop) : list string :=
  omap (λ o, match o with Open id => Some id | _ => None end) os.
Definition deliveries (es : list read_effect) : list nat :=
  omap (λ e, match e with Deliver ch => Some ch | _ => None end) es.

(** The calls that wait have empty channels of their own; a channel that is not empty
    holds the answer to the call that made it. *)
Record matched (ids : list string) (s : Pending * nat) : Prop := mkMatched {
  m_next : s.2 = length ids;
  m_wait : ∀ id ch, waiting s.1 !! id = Some ch → ids !! ch = Some id ∧ channels s.1 !! ch = None;
  m_hold : ∀ ch f, channels s.1 !! ch = Some f →
    ids !! ch = Some (ID f) ∧ (Type_ f = CallResult ∨ Type_ f = CallError)
}.

Lemma matched_open ids p n id : matched ids (p, n) → matched (ids ++ [id]) (open_call id n p, S n).
Proof.
  intros [Hn Hw Hh]. cbn in *. split; cbn.
  - rewrite length_app. cbn. lia.
  - intros id' ch. destruct (decide (id = id')) as [->|Hne].
    + rewrite lookup_insert_eq. intros [= <-]. subst n. split; [by apply list_lookup_middle|].
      destruct (channels p !! length ids) as [f|] eqn:Hc; [|done].
      destruct (Hh _ _ Hc) as [Hl _]. apply lookup_lt_Some in Hl. lia.
    + rewrite lookup_insert_ne by done. intros H%Hw. destruct H. split; [by apply lookup_app_l_Some|done].
  - intros ch f H%Hh. destruct H. split; [by apply lookup_app_l_Some|done].
Qed.

Lemma matched_drop ids p n id : matched ids (p, n) → matched ids (forget id p, n).
Proof.
  intros [Hn Hw Hh]. split; cbn in *; [done| |done].
  intros id' ch [_ H]%lookup_delete_Some. by apply Hw.
Qed.

(** The reader never blocks, and what it delivers goes to an empty channel. *)
Lemma matched_read ids p n text data : matched ids (p, n) → ∃ p' e, read text data p = Some (p', e) ∧
  matched ids (p', n) ∧
  ((∀ ch, e ≠ Deliver ch) ∧ channels p' = channels p ∨
   ∃ ch f, e = Deliver ch ∧ channels p !! ch = None ∧ channels p' = <[ch := f]> (channels p)).
Proof.
  intros Hm. unfold read. destruct text; cbn [negb]; [|exists p, Drop; naive_solver].
  destruct (Parse data) as [f|[]]; try (eexists _, _; split; [done|]; naive_solver).
  destruct (_ || _) eqn:Ht.
  2: { destruct (Type_ f =? Call)%Z; eexists _, _; (split; [done|]); naive_solver. }
  destruct (waiting p !! ID f) as [ch|] eqn:Hw.
  2: { eexists _, _. split; [done|]. split; [by apply (matched_drop ids p n)|]. naive_solver. }
  destruct Hm as [Hn Hwt Hh]. cbn in *. destruct (Hwt _ _ Hw) as [Hid Hc]. rewrite Hc.
  eexists _, _. split; [done|]. split; [|right; by exists ch, f].
  split; cbn; [done| |].
  - intros id' ch' [Hne H]%lookup_delete_Some. destruct (Hwt _ _ H) as [Hid' ?].
    split; [done|]. rewrite lookup_insert_ne; [done|]. congruence.
  - intros ch' f'. destruct (decide (ch = ch')) as [->|?].
    + rewrite lookup_insert_eq. intros [= <-]. split; [done|].
      apply orb_true_iff in Ht as [Ht|Ht]; apply Z.eqb_eq in Ht; auto.
    + rewrite lookup_insert_ne by done. apply Hh.
Qed.

Lemma matched_step ids s o : matched ids s → ∃ s' es, step_pending o s = Some (s', es) ∧
  matched (ids ++ opened [o]) s' ∧
  (deliveries es = [] ∧ channels s'.1 = channels s.1 ∨
   ∃ ch f, deliveries es = [ch] ∧ channels s.1 !! ch = None ∧ channels s'.1 = <[ch := f]> (channels s.1)).
Proof.
  destruct s as [p n]. intros Hm. destruct o as [id|id|text data]; cbn [step_pending opened omap list_omap].
  - eexists _, _. split; [done|]. split; [by apply matched_open|]. by left.
  - eexists _, _. split; [done|]. rewrite app_nil_r. split; [by apply matched_drop|]. by left.
  - destruct (matched_read ids p n text data Hm) as (p' & e & -> & Hm' & H). rewrite app_nil_r.
    eexists _, _. split; [done|]. split; [done|].
    destruct H as [[He Hc]|(ch & f & -> & H1 & H2)]; [left|right; by exists ch, f].
    split; [|done]. destruct e; try done. by destruct (He ch).
Qed.

Lemma matched_run os : ∀ ids s, matched ids s → ∃ s' es, run_pending os s = Some (s', es) ∧
  matched (ids ++ opened os) s' ∧ NoDup (deliveries es) ∧
  (∀ ch, is_Some (channels s.1 !! ch) → is_Some (channels s'.1 !! ch)) ∧
  ∀ ch, ch ∈ deliveries es ↔ channels s.1 !! ch = None ∧ is_Some (channels s'.1 !! ch).
Proof.
  induction os as [|o os IH]; intros ids s Hm.
  - exists s, []. cbn. rewrite app_nil_r. split_and!; [done..|constructor|done|].
    intros ch. split; [by intros ?%elem_of_nil|]. intros [-> [? ?]]. done.
  - destruct (matched_step ids s o Hm) as (s1 & es1 & H1 & Hm1 & Hd1).
    destruct (IH _ _ Hm1) as (s2 & es2 & H2 & Hm2 & Hnd & Hmon & Hd2). cbn [run_pending].
    exists s2, (es1 ++ es2). rewrite H1. cbn [mbind option_bind]. rewrite H2. cbn [mbind option_bind].
    split; [done|]. split.
    { assert (opened (o :: os) = opened [o] ++ opened os) as -> by (by destruct o). by rewrite app_assoc. }
    unfold deliveries in *. rewrite omap_app.
    destruct Hd1 as [[-> Hc]|(ch & f & -> & Hc1 & Hc)]; [by rewrite <- Hc|]. rewrite Hc in Hmon, Hd2. cbn.
    split_and!.
    + constructor; [|done]. rewrite Hd2, lookup_insert_eq. by intros [? _].
    + intros ch' H. apply Hmon. by apply lookup_insert_is_Some'; right.
    + intros ch'. rewrite elem_of_cons, Hd2. destruct (decide (ch' = ch)) as [->|Hne].
      * split; [|by left]. intros _. split; [done|]. apply Hmon. by rewrite lookup_insert_eq.
      * rewrite lookup_insert_ne by done. naive_solver.
Qed.

(** C25. The calls of a session get their own answers: whatever the gateway sends and
    however the calls time out, the reader never blocks, no call is answered twice, and
    what a call's channel holds is a CALLRESULT or CALLERROR with the id that call sent.
    (Should two calls carry one id the later takes the answers.) *)
Theorem answers_matched (os : list pop) :
  ∃ p n es, run_pending os (new_pending, 0) = Some ((p, n), es) ∧
    NoDup (deliveries es) ∧
    ∀ ch, ch ∈ deliveries es ↔
      ∃ f, channels p !! ch = Some f ∧ opened os !! ch = Some (ID f) ∧
           (Type_ f = CallResult ∨ Type_ f = CallError).
Proof.
  destruct (matched_run os [] (new_pending, 0)) as ([p n] & es & Hr & [_ _ Hh] & Hnd & _ & Hd); [by split|].
  exists p, n, es. split_and!; [done..|]. intros ch. rewrite Hd. cbn. split.
  - intros [_ [f Hf]]. exists f. split; [done|]. by apply Hh.
  - intros (f & Hf & _). split; [done|]. by exists f.
Qed.

(** ** Reload *)

(** The registration with the fields the hook gave, the others kept. *)
Definition merged (cur next : Registration) : Registration :=
  mkReg (if is_empty (Address next) then Address cur else Address next)
    (if bool_decide (Prefixes next = []) then Prefixes cur else Prefixes next)
    (if (Capacity next =? 0)%Z then Capacity cur else Capacity next).

(** A /reload re-registers exactly when the hook's result changes the registration. *)
Lemma reload_merges (cur next : Registration) :
  reload_reg cur next = if decide (merged cur next = cur) then None else Some (merged cur next).
Proof.
  destruct cur as [a ps k], next as [a' ps' k']. unfold reload_reg, merged. cbn.
  destruct (is_empty a') eqn:Ha, (bool_decide (ps' = [])) eqn:Hp, (k' =? 0)%Z eqn:Hk; cbn;
    repeat case_bool_decide; try case_decide; try (destruct (k' =? k)%Z eqn:Hkk); cbn;
    bool_to_prop; simplify_eq; try done; try congruence.
Qed.

(** ** Commands *)

Definition sends (l : list effect) : list Frame :=
  omap (λ e, match e with Send f => Some f | CloseSocket _ _ => None end) l.

Definition closes (l : list effect) : list Z :=
  omap (λ e, match e with Send _ => None | CloseSocket code _ => Some code end) l.

(** C34. Every command of the gateway is answered once, first, under its own id: a result
    for /ping, /drain and /reload, 404 for an action the client does not know.  Only a
    /drain queues a drain request, and never over one that is queued.  A /reload merges
    what the hook gave into the registration, keeping what it left empty, and closes the
    socket, to register again, exactly when that changed it; nothing else does. *)
Theorem handle_answers (f : Frame) (n : Z) (hook : option Registration) (c c' : Client) (es : list effect) :
  handle f n hook c = (c', es) →
  (∃ g rest, es = Send g :: rest ∧ sends rest = [] ∧ ID g = ID f ∧
    if bool_decide (Action f ∈ ["/ping"; "/drain"; "/reload"])
    then Type_ g = CallResult else g = Error f 404 "unknown action") ∧
  drainCh c' = (if String.eqb (Action f) "/drain"
                then match drainCh c with Some r => Some r | None => Some (drain_params (cfg c) (Payload f)) end
                else drainCh c) ∧
  reg c' = (if String.eqb (Action f) "/reload" then from_option (merged (reg c)) (reg c) hook else reg c) ∧
  closes es = (if decide (reg c' = reg c) then [] else [1012%Z]).
Proof.
  unfold handle. intros H.
  destruct (String.eqb_spec (Action f) "/ping") as [Ha|Hp].
  { injection H as <- <-. rewrite Ha. split_and!; try done; [|by rewrite decide_True].
    eexists _, []. rewrite bool_decide_eq_true_2; [done|by left]. }
  destruct (String.eqb_spec (Action f) "/drain") as [Ha|Hd].
  { injection H as <- <-. rewrite Ha. split_and!; try done; [|by rewrite decide_True].
    eexists _, []. rewrite bool_decide_eq_true_2; [done|by right; left]. }
  destruct (String.eqb_spec (Action f) "/reload") as [Ha|Hr].
  - assert (Hin : Action f ∈ ["/ping"; "/drain"; "/reload"]) by (rewrite Ha; by right; right; left).
    destruct hook as [next|]; cbn [mbind option_bind from_option] in *.
    + rewrite reload_merges in H. case_decide as Hm; injection H as <- <-; cbn [reg drainCh].
      * split_and!; try done; [|by rewrite decide_True]. eexists _, []. by rewrite bool_decide_eq_true_2.
      * split_and!; try done; [|by rewrite decide_False]. eexists _, [_]. by rewrite bool_decide_eq_true_2.
    + injection H as <- <-. split_and!; try done; [|by rewrite decide_True].
      eexists _, []. by rewrite bool_decide_eq_true_2.
  - injection H as <- <-. split_and!; try done; [|by rewrite decide_True]. eexists _, [].
    rewrite bool_decide_eq_false_2; [done|]. set_solver.
Qed.

(** ** Heartbeats *)

Lemma endError_silent fin x y : endError false fin x = Some y → x ≠ Some errSilent → y ≠ errSilent.
Proof.
  unfold endError, end_error. intros H Hx. destruct fin as [ce|]; [|done]. injection H as <-.
  repeat case_match; try done; congruence.
Qed.

(** What a call ends with, when it is not an answer. *)
Lemma call_error fin a o e : call false fin a o = Some (Err e) →
  e = errTimeout a ∧ o = TimedOut ∨ (∀ a', e ≠ errTimeout a') ∧ e ≠ errSilent.
Proof.
  destruct o; cbn; try (intros [= <-]; auto; right; done).
  unfold endError. destruct fin as [ce|]; cbn; [|done]. intros [= <-]. right.
  unfold end_error. repeat case_match; done.
Qed.

(** The loop takes the gateway for silent only after two heartbeats in a row without an
    answer, and then closes the socket with 4001. *)
Lemma loop_silent fin es : ∀ k acts, k ≤ 1 → loop fin k es = (acts, Some errSilent) →
  (∃ pre, acts = pre ++ [Close 4001 "heartbeat unanswered"]) ∧
  ((∃ pre n m rest, es = pre ++ Tick n TimedOut :: Tick m TimedOut :: rest) ∨
   k = 1 ∧ ∃ n rest, es = Tick n TimedOut :: rest).
Proof.
  induction es as [|e es IH]; intros k acts Hk; cbn; [done|].
  destruct e as [|req polls|n o]; cbn.
  - destruct (endError false fin None) as [x|] eqn:He; cbn; [|done]. intros [= <- ->].
    by apply endError_silent in He.
  - destruct (drain req polls) as [a [x|]] eqn:Hd; cbn; [|done]. apply drain_spec in Hd as [_ ->]. done.
  - destruct (call false fin "/heartbeat" o) as [[f|x]|] eqn:Hc; [| |done].
    + case_bool_decide; [done|]. destruct (loop fin 0 es) as [a r] eqn:Hl. intros [= <- ->].
      destruct (IH 0 a ltac:(lia) Hl) as [[pre ->] [(p & n1 & n2 & rest & ->)|[? _]]]; [|done].
      split; [by eexists (_ :: pre)|]. left. by exists (Tick n o :: p), n1, n2, rest.
    + destruct (call_error _ _ _ _ Hc) as [[-> ->]|[Hne Hns]].
      * destruct k as [|[|k]]; [| |lia]; cbn.
        -- destruct (loop fin 1 es) as [a r] eqn:Hl. intros [= <- ->].
           destruct (IH 1 a ltac:(lia) Hl) as [[pre ->] [(p & n1 & n2 & rest & ->)|(_ & n1 & rest & ->)]];
             (split; [by eexists (_ :: pre)|]); left; [by exists (Tick n TimedOut :: p), n1, n2, rest|].
           by exists [], n, n1, rest.
        -- intros [= <-]. split; [by eexists [_]|]. right. split; [done|]. by exists n, es.
      * destruct x as [| | | |a'| | | | | |]; try (by destruct (Hne a'));
          (destruct (endError false fin _) as [y|] eqn:He; cbn; [|done]); intros [= _ ->];
          apply endError_silent in He; congruence.
Qed.

(** ** Corners *)

(** A gateway that takes the socket and never answers the /register is waited for without
    end: after the timeout the session waits for its reader, and nothing closes the
    socket. *)
Lemma register_hangs c r t ip es :
  runSession c r (mkSession (Ok t) (Dialled ip) TimedOut es None) =
  ([SetState Connecting; Say "/register" (register_payload c (local_address c ip r))], Waiting_).
Proof. reflexivity. Qed.

(** An interval of 9223372037 seconds passes the check of the acknowledgement and
    overflows the Duration, which the ticker does not take. *)
Lemma interval_panics c r t ip es fin :
  ∃ f, (runSession c r (mkSession (Ok t) (Dialled ip) (Answer f) es fin)).2 = TickerPanics.
Proof.
  exists (mkFrame CallResult EmptyString EmptyString (payload [("heartbeat_interval", jint 9223372037)]) 0 EmptyString).
  unfold runSession, registered_session. cbn [ses_token ses_dial ses_register call Type_].
  assert (ack_interval (mkFrame CallResult EmptyString EmptyString
    (payload [("heartbeat_interval", jint 9223372037)]) 0 EmptyString) = Some 9223372037%Z) as -> by (vm_compute; reflexivity).
  reflexivity.
Qed.

(** A capacity of 2^32 is taken and kept as 0: every count is over it. *)
Lemma capacity_truncated : ∃ c cl, New c = Ok cl ∧ Capacity (reg cl) = (2 ^ 32)%Z ∧ capacity32 cl = 0%Z.
Proof.
  eexists (mkConfig "ws://gw/gateway" "m" "i" "1" EmptyString "127.0.0.1:80" 0 ["/api/v2/x"] (2 ^ 32) true false 0), _.
  split_and!; [vm_compute; reflexivity..].
Qed.

(** A drain request made during the wait of a drain stays queued: the next [Run], a fresh
    cycle, takes it and drains at once. *)
Lemma drain_left_over c r1 r2 c1 : drainCh c = None → drained c = false →
  take_drain (Drain_ r1 c).1 = Some (mkDrainReq r1 (DrainDeadline (cfg c)), c1) →
  ∃ c2, close_drained (Drain_ r2 c1).1 = Some c2 ∧
    ∃ c3, take_drain (begin_run c2) = Some (mkDrainReq r2 (DrainDeadline (cfg c)), c3).
Proof.
  intros Hd Hc. unfold take_drain, Drain_, request_drain, close_drained, begin_run. cbn. rewrite Hd. cbn.
  intros [= <-]. cbn. rewrite Hc. eexists. split; [done|]. by eexists.
Qed.

(** The counter of 1001s in a row is kept over a session of another end: after one quick
    1001 and a day's connection that was lost, the next quick 1001 is the second in a
    row. *)
Lemma replaced_not_in_a_row : ∃ acts,
  after_session Second errGoingAway 0 0 = (acts, Some (Reconnect 0, 1, 1)%Z) ∧
  (∃ acts', after_session (86400 * Second) errSocketClosed 0 1 = (acts', Some (Reconnect 0, 1, 1)%Z)) ∧
  ∃ acts'', after_session Second errGoingAway 0 1 = (acts'', Some (Reconnect 1, 1, 2)%Z).
Proof. eexists. split; [reflexivity|]. split; eexists; reflexivity. Qed.

(** ** Witnesses *)

Definition sample_config : Config :=
  mkConfig "ws://gw/gateway" "billing" "b1" "1.0" EmptyString "10.0.0.1:80" 0 ["/api/v2/bill"] 8 true false
    (30 * Second).
Definition sample_client : Client :=
  mkClient sample_config (mkReg "10.0.0.1:80" ["/api/v2/bill"] 8) 8 None false.
Definition no_dial : Iteration :=
  mkIteration (Client.mkSession (Ok "t") (DialFailed "refused") TimedOut [] None) (reg sample_client) Second false false.

Lemma Run_backoff_witness : ∃ acts ws, Run_loop sample_config 0 0 (replicate 3 no_dial) = (acts, ws, None) ∧
  wait_base (30 * Second) <$> ws = [1000000000; 2000000000; 4000000000]%Z.
Proof.
  destruct (Run_backoff sample_config (replicate 3 no_dial)) as (acts & ws & H & Hw).
  - left. repeat constructor; by eexists _, _.
  - exists acts, ws. split; [exact H|]. rewrite Hw. reflexivity.
Defined.

Definition reload_frame : Frame := mkFrame Call "i1" "/reload" "{}" 0 EmptyString.

Lemma handle_answers_witness :
  closes (handle reload_frame 0 (Some (mkReg EmptyString [] 9)) sample_client).2 = [1012%Z].
Proof.
  destruct (handle_answers reload_frame 0 (Some (mkReg EmptyString [] 9)) sample_client _ _ eq_refl)
    as (_ & _ & _ & H). exact H.
Defined.

(** What [New] accepts, and the client it makes. *)
Lemma New_ok c cl : New c = Ok cl →
  segment (Module_ c) = true ∧ segment (Instance_ c) = true ∧ cfg_Prefixes c ≠ [] ∧
  Forall (λ p, prefix p = true) (cfg_Prefixes c) ∧ (1 <= cfg_Capacity c)%Z ∧
  reg cl = mkReg (cfg_Address c) (cfg_Prefixes c) (cfg_Capacity c) ∧
  drainCh cl = None ∧ drained cl = false ∧ DrainDeadline (cfg cl) ≠ 0%Z ∧
  (cfg_Capacity c < 2 ^ 31 → capacity32 cl = cfg_Capacity c)%Z.
Proof.
  unfold New. intros H. invert_res. bool_to_prop.
  assert (Hp : Forall (λ p, prefix p = true) (cfg_Prefixes c)).
  { match goal with H : mapM_res _ _ = Ok _ |- _ => apply mapM_res_checked in H; revert H end.
    intros Hps. eapply Forall_impl; [exact Hps|]. intros p. apply negb_false_iff. }
  destruct (Z.eqb_spec (DrainDeadline c) 0); cbn; split_and!; try done;
    intros Hc; unfold wrap32; rewrite Z.mod_small by lia; lia.
Qed.
