(* ===== verification/Recorder.v ===== *)
(** * lib/gatewayclient/recorder.go: the recorder of events

    The events recorded so far under the mutex, and the goroutines in [WaitN] on the condition
    variable: a waiter that holds the mutex counts, and returns, fails past its deadline, or
    sleeps until the next broadcast - of a [Record] or of its timer.  Steps interleave where the
    mutex is given up. *)

From S2P Require Import Prelude.
From S2P Require Import Client.

(** ** State *)

#[global] Instance Event_eq_dec : EqDecision Event.
Proof. solve_decision. Defined.

(** Where a waiter stands: before the mutex (at its call, or woken), in [cond.Wait], or back with
    whether the event was seen. *)
Inductive place := Counting | Asleep | Seen | TimedOut.

#[global] Instance place_eq_dec : EqDecision place.
Proof. solve_decision. Defined.

(** Whether its deadline has passed, and whether its timer has broadcast. *)
Record waiter := mkWaiter { w_event : Event; w_n : nat; w_place : place; w_late : bool; w_fired : bool }.

Record Recorder := mkRecorder { events : list Event; waiters : list waiter }.

Definition NewRecorder : Recorder := mkRecorder [] [].

(** [cond.Broadcast]. *)
Definition wake (w : waiter) : waiter :=
  match w_place w with
  | Asleep => mkWaiter (w_event w) (w_n w) Counting (w_late w) (w_fired w)
  | _ => w
  end.

(** ** Operations *)

Definition Record_ (e : Event) (r : Recorder) : Recorder :=
  mkRecorder (events r ++ [e]) (wake <$> waiters r).

Definition Events (r : Recorder) : list Event := events r.

Definition count (e : Event) (l : list Event) : nat := length (filter (.= e) l).

(** [WaitN] is called: its deadline is ahead. *)
Definition WaitN (e : Event) (n : nat) (r : Recorder) : Recorder :=
  mkRecorder (events r) (waiters r ++ [mkWaiter e n Counting false false]).
Definition Wait (e : Event) : Recorder → Recorder := WaitN e 1.

(** The body of its loop, under the mutex. *)
Definition look (l : list Event) (w : waiter) : waiter :=
  let place := if (w_n w <=? count (w_event w) l)%nat then Seen
               else if w_late w then TimedOut else Asleep in
  mkWaiter (w_event w) (w_n w) place (w_late w) (w_fired w).

(** The deadline passes; the timer, set after the deadline was taken, broadcasts past it. *)
Definition pass (w : waiter) : waiter := mkWaiter (w_event w) (w_n w) (w_place w) true (w_fired w).
Definition fire (w : waiter) : waiter := mkWaiter (w_event w) (w_n w) (w_place w) (w_late w) true.

(** ** Steps *)

Inductive step (r : Recorder) : Recorder → Prop :=
  | step_record e : step r (Record_ e r)
  | step_call e n : step r (WaitN e n r)
  | step_look i w : waiters r !! i = Some w → w_place w = Counting →
      step r (mkRecorder (events r) (<[i := look (events r) w]> (waiters r)))
  | step_deadline i w : waiters r !! i = Some w →
      step r (mkRecorder (events r) (<[i := pass w]> (waiters r)))
  | step_timer i w : waiters r !! i = Some w → w_late w = true →
      step r (mkRecorder (events r) (wake <$> <[i := fire w]> (waiters r))).

Definition reachable : Recorder → Prop := rtc step NewRecorder.

(** ** Lemmas *)

Lemma count_snoc e x l : count e (l ++ [x]) = count e l + (if decide (x = e) then 1 else 0).
Proof. unfold count. rewrite filter_app, length_app, filter_cons, filter_nil. by case_decide. Qed.

(** What holds of a waiter: asleep, it has not been satisfied, and its timer is still to wake it;
    back, it was satisfied, or late. *)
Definition waiter_ok (l : list Event) (w : waiter) : Prop :=
  (w_fired w = true → w_late w = true) ∧
  match w_place w with
  | Counting => True
  | Asleep => (count (w_event w) l < w_n w)%nat ∧ w_fired w = false
  | Seen => (w_n w <= count (w_event w) l)%nat
  | TimedOut => w_late w = true
  end.

Definition recorder_ok (r : Recorder) : Prop := Forall (waiter_ok (events r)) (waiters r).

Lemma wake_ok l l' w : (∀ e, (count e l <= count e l')%nat) → waiter_ok l w → waiter_ok l' (wake w).
Proof.
  intros Hl. unfold waiter_ok, wake. specialize (Hl (w_event w)).
  destruct w as [e n [] late fired]; cbn in *; naive_solver lia.
Qed.

Lemma look_ok l w : waiter_ok l w → waiter_ok l (look l w).
Proof.
  destruct w as [e n pl late fired]. unfold waiter_ok, look. cbn. intros [Hf _]. split; [done|].
  destruct (n <=? count e l)%nat eqn:Hc; [by apply Nat.leb_le|]. apply Nat.leb_gt in Hc.
  destruct late; [done|]. split; [done|]. destruct fired; naive_solver.
Qed.

Lemma pass_ok l w : waiter_ok l w → waiter_ok l (pass w).
Proof. destruct w as [e n [] late fired]; unfold waiter_ok; cbn; naive_solver. Qed.

Lemma fire_ok l w : w_late w = true → waiter_ok l w → waiter_ok l (wake (fire w)).
Proof. destruct w as [e n [] late fired]; unfold waiter_ok; cbn; naive_solver. Qed.

Lemma recorder_waiter r i w : recorder_ok r → waiters r !! i = Some w → waiter_ok (events r) w.
Proof. unfold recorder_ok. rewrite Forall_lookup. intros H. apply H. Qed.

Lemma step_keeps r r' : recorder_ok r → step r r' → recorder_ok r'.
Proof.
  intros H [e|e n|i w Hi Hp|i w Hi|i w Hi Hl]; unfold recorder_ok; cbn [events waiters Record_ WaitN].
  - apply Forall_fmap. eapply Forall_impl; [exact H|]. intros w Hw.
    eapply wake_ok; [|exact Hw]. intros x. rewrite count_snoc. lia.
  - apply Forall_app. split; [exact H|]. apply Forall_cons. split; [split; [discriminate|exact I]|constructor].
  - apply Forall_insert; [exact H|]. apply look_ok. by eapply recorder_waiter.
  - apply Forall_insert; [exact H|]. apply pass_ok. by eapply recorder_waiter.
  - rewrite list_fmap_insert. apply Forall_insert.
    + apply Forall_fmap. eapply Forall_impl; [exact H|]. intros x Hx. by eapply wake_ok.
    + apply fire_ok; [exact Hl|]. by eapply recorder_waiter.
Qed.

(** ** Properties *)

(** No wake-up of the recorder is lost: in every interleaving of recording, calls, timers and looks,
    a waiter sleeps only while its event has been recorded fewer times than it waits for and
    its timer is still to fire, one that came back satisfied counted it that often, and one
    that failed was late. *)
Lemma recorder_wakes r w : reachable r → w ∈ waiters r → waiter_ok (events r) w.
Proof.
  intros Hr Hw. assert (Hok : recorder_ok r).
  { clear w Hw. unfold reachable in Hr. revert r Hr. apply (rtc_ind_r recorder_ok); [constructor|].
    intros r1 r2 _ Hstep Hok. by eapply step_keeps. }
  unfold recorder_ok in Hok. rewrite Forall_forall in Hok. by apply Hok.
Qed.

Definition demo_recorder : Recorder := Record_ EventDrained (WaitN EventDrained 2 NewRecorder).

Lemma recorder_wakes_witness : waiter_ok (events demo_recorder) (mkWaiter EventDrained 2 Counting false false).
Proof.
  apply (recorder_wakes demo_recorder).
  - eapply rtc_l; [apply (step_call _ EventDrained 2)|]. eapply rtc_l; [apply (step_record _ EventDrained)|]. apply rtc_refl.
  - left.
Defined.
