(* ===== verification/Marshal.v ===== *)
(** * Payloads that json.Marshal writes travel as they are

    [json.Marshal] escapes what HTML reads in the strings it writes; a frame escapes its
    payload again, which changes nothing: the other side reads the object that was
    marshalled. *)

From S2P Require Import Prelude.
From S2P Require Import GoStrings.
From S2P Require Import GoJson.
From S2P Require Import Frame.
From S2P Require Import Db.
From S2P Require Import Decode.
From S2P Require Import RestLaws.
From S2P Require Client.

(** ** Escaping twice *)

Definition inert (c : ascii) : bool := is_ascii c && negb (html_byte c).

Lemma html_run u fuel t : sforall inert u = true →
  html_escape (String.length u + fuel) (u +:+ t) = u +:+ html_escape fuel t.
Proof.
  induction u as [|c u IH]; [done|]. cbn [sforall String.length Nat.add].
  intros [[Hc Hh%negb_true_iff]%andb_true_iff Hu]%andb_true_iff. rewrite !sapp_cons.
  rewrite html_step_ascii by done. by rewrite IH.
Qed.

Lemma quote_ascii_inert c : is_ascii c = true → sforall inert (quote_ascii c) = true.
Proof. byte_cases c; intros H; first [by vm_compute in H | reflexivity]. Qed.

(** A byte that starts neither separator. *)
Lemma html_step_high c fuel r : is_ascii c = false → Ascii.eqb "226" c = false →
  html_escape (S fuel) (String c r) = String c (html_escape fuel r).
Proof.
  intros Ha Hc. apply html_step; [byte_cases c; first [done | by vm_compute in Ha]|..];
    cbn [HasPrefix line_sep par_sep]; by rewrite Hc.
Qed.

Lemma cont_high c : is_cont c = true → is_ascii c = false ∧ Ascii.eqb "226" c = false.
Proof. byte_cases c; intros H; first [done | by vm_compute in H]. Qed.

Lemma range_cont lo hi c : in_range lo hi c = true → in_range "128" "191" lo = true →
  in_range "128" "191" hi = true → is_cont c = true.
Proof.
  unfold is_cont, in_range. rewrite !andb_true_iff, !N.leb_le.
  change (byte_n "128") with 128%N. change (byte_n "191") with 191%N. lia.
Qed.

(** The bytes of a rune after its first. *)
Lemma utf8_3_cont c1 c2 c3 : utf8_3 c1 c2 c3 = true → is_cont c2 = true ∧ is_cont c3 = true.
Proof.
  unfold utf8_3. rewrite !andb_true_iff, !orb_true_iff, !andb_true_iff.
  intros [H3 [[[_ H]|[_ H]]|[_ H]]]; split; try done; by eapply range_cont.
Qed.

Lemma utf8_4_cont c1 c2 c3 c4 : utf8_4 c1 c2 c3 c4 = true →
  is_cont c2 = true ∧ is_cont c3 = true ∧ is_cont c4 = true ∧ Ascii.eqb "226" c1 = false.
Proof.
  unfold utf8_4. rewrite !andb_true_iff, !orb_true_iff, !andb_true_iff.
  intros [[H3 H4] H]. split_and!; try done.
  - destruct H as [[[_ H]|[_ H]]|[_ H]]; try done; by eapply range_cont.
  - destruct H as [[[->%Ascii.eqb_eq _]|[->%Ascii.eqb_eq _]]|[H _]]; try done.
    byte_cases c1; first [done | by vm_compute in H].
Qed.

Ltac high_steps :=
  repeat match goal with H : is_cont ?c = true |- _ => apply cont_high in H as [? ?] end;
  repeat (rewrite html_step_high by done).

(** A rune of several bytes that is neither separator. *)
Lemma html_rune s n fuel t : rune_len s = S (S n) →
  HasPrefix s line_sep = false → HasPrefix s par_sep = false →
  html_escape (S (S n) + fuel) (stake (S (S n)) s +:+ t) = stake (S (S n)) s +:+ html_escape fuel t.
Proof.
  intros Hn Hl Hp. destruct s as [|c1 r]; [done|]. cbn [rune_len] in Hn.
  destruct (is_ascii c1) eqn:H1; [done|].
  destruct r as [|c2 r]; [done|]. destruct (utf8_2 c1 c2) eqn:H2.
  { injection Hn as <-. cbn [stake Nat.add]. rewrite !sapp_cons, sapp_nil_l.
    apply andb_true_iff in H2 as [H2 Hc].
    assert (Ascii.eqb "226" c1 = false) by (byte_cases c1; first [done | by vm_compute in H2]).
    by high_steps. }
  destruct r as [|c3 r]; [done|]. destruct (utf8_3 c1 c2 c3) eqn:H3.
  { injection Hn as <-. cbn [stake Nat.add]. rewrite !sapp_cons, sapp_nil_l.
    apply utf8_3_cont in H3 as [Hc2 Hc3].
    rewrite html_step; [|byte_cases c1; first [done | by vm_compute in H1]|exact Hl|exact Hp].
    by high_steps. }
  destruct r as [|c4 r]; [done|]. destruct (utf8_4 c1 c2 c3 c4) eqn:H4; [|done].
  injection Hn as <-. cbn [stake Nat.add]. rewrite !sapp_cons, sapp_nil_l.
  apply utf8_4_cont in H4 as (? & ? & ? & ?). by high_steps.
Qed.

Lemma html_escape_quote fuel s fuel' : String.length (quote_body fuel s) ≤ fuel' →
  html_escape fuel' (quote_body fuel s) = quote_body fuel s.
Proof.
  revert s fuel'. induction fuel as [|fuel IH]; intros [|c r] fuel' Hf; [by destruct fuel'..|].
  assert (Hrun : ∀ u s', sforall inert u = true →
    String.length (u +:+ quote_body fuel s') ≤ fuel' →
    html_escape fuel' (u +:+ quote_body fuel s') = u +:+ quote_body fuel s').
  { intros u s' Hu Hl. rewrite length_sapp in Hl.
    replace fuel' with (String.length u + (fuel' - String.length u)) by lia.
    rewrite html_run by done. rewrite IH by lia. done. }
  cbn [quote_body] in *. destruct (rune_len (String c r)) as [|[|n]] eqn:Hn.
  - by apply Hrun.
  - apply Hrun; [|done]. apply quote_ascii_inert. cbn [rune_len] in Hn.
    destruct (is_ascii c); [done|]. repeat case_match; done.
  - destruct (HasPrefix _ line_sep) eqn:Hls; [by apply Hrun|].
    destruct (HasPrefix _ par_sep) eqn:Hps; [by apply Hrun|].
    rewrite length_sapp, length_stake in Hf by (rewrite <- Hn; apply rune_len_length).
    replace fuel' with (S (S n) + (fuel' - S (S n))) by lia.
    rewrite html_rune by done. rewrite IH by lia. done.
Qed.

Lemma escape_lex_quote s : escape_lex (quote_lex s) = quote_lex s.
Proof. by apply html_escape_quote. Qed.

(** ** Marshalled objects *)

(** A value that [json.Marshal] made: escaping it again changes nothing. *)
Record marshalled (v : json) : Prop := mkMarshalled {
  mar_ok : json_ok v;
  mar_depth : (json_depth v ≤ 9998)%N;
  mar_escaped : escape_html v = v
}.

Lemma marshalled_str s : marshalled (Client.jstr s).
Proof.
  constructor; [apply json_ok_str|by vm_compute|]. unfold Client.jstr. cbn [escape_html].
  by rewrite escape_lex_quote.
Qed.

Lemma marshalled_int z : marshalled (Client.jint z).
Proof. constructor; [apply json_ok_Itoa|by vm_compute|done]. Qed.

Lemma marshalled_strs l : marshalled (JArr (Client.jstr <$> l)).
Proof.
  constructor.
  - constructor. apply Forall_fmap, Forall_forall. intros s _. apply json_ok_str.
  - induction l as [|s l IH]; [by vm_compute|]. revert IH. cbn. lia.
  - cbn [escape_html]. f_equal. induction l as [|s l IH]; [done|]. cbn [fmap list_fmap map].
    rewrite IH. f_equal. apply marshalled_str.
Qed.

#[export] Hint Resolve marshalled_str marshalled_int marshalled_strs : platform.

Definition marshalled_map (m : gmap string json) : Prop := ∀ k v, m !! k = Some v → marshalled v.

Lemma parse_marshalled m : marshalled_map m → parse (marshal_map m) = Some (JObj (map_object m)).
Proof. intros Hm. apply parse_marshal_map. intros k v [H1 H2 _]%Hm. split; [done|lia]. Qed.

Lemma map_object_escaped m : marshalled_map m → escape_html (JObj (map_object m)) = JObj (map_object m).
Proof.
  intros Hm. cbn [escape_html]. f_equal.
  assert (Hall : ∀ kv, kv ∈ map_object m → (escape_lex kv.1, escape_html kv.2) = kv).
  { intros kv (k & v & [_ _ Hv]%Hm & ->)%map_object_elem. cbn [fst snd].
    by rewrite escape_lex_quote, !Hv. }
  revert Hall. generalize (map_object m). intros l. induction l as [|kv l IH]; intros Hall; [done|].
  cbn [map]. rewrite (Hall kv) by left. f_equal. apply IH. intros. apply Hall. by right.
Qed.

Lemma marshal_map_compact m : marshalled_map m → compact (marshal_map m) = Some (marshal_map m).
Proof.
  intros Hm. unfold compact. rewrite parse_marshalled by done. cbn [mbind option_bind].
  rewrite map_object_escaped by done. reflexivity.
Qed.

Lemma marshal_map_payload m : marshalled_map m → object_payload (marshal_map m).
Proof.
  intros Hm. right. exists (map_object m). split; [by apply parse_marshalled|].
  change 9999%N with (N.succ 9998). apply object_depth. apply Forall_forall. intros kv (k & v & Hv & ->)%map_object_elem.
  destruct (Hm k v Hv) as [_ Hd He]. cbn [snd]. by rewrite He.
Qed.

Lemma marshal_map_not_empty m : is_empty (marshal_map m) = false.
Proof. reflexivity. Qed.

(** A call and a result with such a payload reach the other side as they are. *)
Lemma call_travels id action m : isUUID id = true → HasPrefix action "/" = true →
  valid_utf8 action = true → marshalled_map m →
  let f := NewCall id action (any_value (Some (marshal_map m))) in
  ∃ b, Encode f = Ok b ∧ (String.length b ≤ MaxSize → Parse b = Ok f).
Proof.
  intros Hid Ha Hu Hm f. destruct (parsed_back f) as (b & Hb & Hp).
  { split; [done|]. left. split_and!; try done. by apply marshal_map_payload. }
  exists b. split; [done|]. intros Hl. rewrite Hp by done. unfold received.
  subst f; cbn [NewCall Result payload_bytes Type_ ID Action Payload Z.eqb Pos.eqb Call CallResult CallError].
  change (default EmptyString (Some (marshal_map m))) with (marshal_map m). by rewrite marshal_map_not_empty, marshal_map_compact.
Qed.

Lemma result_travels f m : isUUID (ID f) = true → marshalled_map m →
  let a := Result f (any_value (Some (marshal_map m))) in
  ∃ b, Encode a = Ok b ∧ (String.length b ≤ MaxSize → Parse b = Ok a).
Proof.
  intros Hid Hm a. destruct (parsed_back a) as (b & Hb & Hp).
  { split; [done|]. right; left. split; [done|]. by apply marshal_map_payload. }
  exists b. split; [done|]. intros Hl. rewrite Hp by done. unfold received.
  subst a; cbn [NewCall Result payload_bytes Type_ ID Action Payload Z.eqb Pos.eqb Call CallResult CallError].
  change (default EmptyString (Some (marshal_map m))) with (marshal_map m). by rewrite marshal_map_not_empty, marshal_map_compact.
Qed.

(** ** Decoding what was marshalled *)

(** A member by its value, as [decode_member] takes it by its text. *)
Definition value_member (sc : schema) (st : struct) (kv : string * json) : res decode_error struct :=
  match find_field sc (Unquote kv.1) with
  | None => Ok st
  | Some (k, t) =>
      x ← of_option (decode_field t (default VNil (st !! k)) kv.2 (print kv.2)) BadType;
      Ok (<[k := x]> st)
  end.

Lemma first_text_whole s : first_text s EmptyString = s.
Proof. unfold first_text. cbn [String.length]. rewrite Nat.sub_0_r. by apply stake_all. Qed.

Lemma value_members sc l : Forall (λ kv, parse (print kv.2) = Some kv.2) l → ∀ st,
  foldM_res (decode_member false sc) ((λ kv, (kv.1, print kv.2)) <$> l) st = foldM_res (value_member sc) l st.
Proof.
  induction 1 as [|[k v] l Hv _ IH]; intros st; [done|]. cbn [fmap list_fmap foldM_res fst snd].
  replace (decode_member false sc st (k, print v)) with (value_member sc st (k, v)).
  - destruct (value_member sc st (k, v)); [apply IH|done].
  - unfold decode_member, value_member. cbn [fst snd] in *. rewrite Hv. reflexivity.
Qed.

Lemma unmarshal_marshalled sc m : marshalled_map m →
  Client.unmarshal_struct sc (marshal_map m) = foldM_res (value_member sc) (map_object m) (zero_struct sc).
Proof.
  intros Hm. destruct (parse_ok _ _ (parse_marshalled m Hm)) as [Hok Hd].
  unfold Client.unmarshal_struct, Valid. rewrite (parse_marshalled m Hm), bool_decide_true by done.
  change (marshal_map m) with (print (JObj (map_object m))).
  unfold decode_struct, decode_object.
  rewrite <- (sapp_nil_r (print (JObj (map_object m)))), decode_first_print by done.
  rewrite first_text_whole, sapp_nil_r, raw_members_print by done.
  cbn [of_option mbind res_bind]. apply value_members.
  apply Forall_forall. intros kv (k & v & [H1 H2 H3]%Hm & ->)%map_object_elem. cbn [snd].
  rewrite H3. apply parse_print; [done|lia].
Qed.
