(* ===== verification/GwStub.v ===== *)
(** * internal/gatewaystub: the other side of the control connection

    The stub of the gateway (stub.go, standalone.go): the handshake, the frames of a
    connection, the checks of /register, the closes.  Its state is what the struct holds
    under its mutex; a connection is a number.  Each handler of an [event] gives the
    next state and what is written or closed ([effect]).  The time and the outcome of a
    read are inputs.  A frame that cannot be encoded is
    not sent ([SendFrame] is the attempt).  The clock of a wait is left out. *)

From S2P Require Import Prelude.
From S2P Require Import GoStrings.
From S2P Require Import GoJson.
From S2P Require Import GoFloat.
From S2P Require Import GoNet.
From S2P Require Import Url.
From S2P Require Import Frame.
From S2P Require Import Jwt.
From S2P Require Import Db.
From S2P Require Import Decode.
From S2P Require Client.

(** ** Data *)

Record Options := mkOptions {
  Secret : string;
  Audience : string;
  HeartbeatInterval : Z;
  SuspectAfter : Z;
  OfflineAfter : Z;
  RegisterTimeout : Z;
  RejectAfterUpgrade : bool
}.

(** What a module sent in /register. *)
Record Registration := mkReg {
  reg_Module : string; reg_Instance : string; reg_Version : string; reg_Build : string;
  reg_Address : string; reg_Prefixes : list string; reg_Capacity : Z
}.

Record Heartbeat := mkHeartbeat { InFlight : Z; load : float }.
Record Status := mkStatus { st_State : string; st_Reason : string }.

(** A connection: the path it came by, the calls of the stub that wait. *)
Record conn := mkConn {
  module : string;
  instance : string;
  registered : bool;
  closed : bool;
  returned : bool;          (* serve has returned *)
  lastBeat : Z;
  pending : list string
}.

Record Stub := mkStub {
  opts : Options;
  conns : list conn;
  current : option nat;     (* s.conn *)
  registrations : list Registration;
  heartbeats : list Heartbeat;
  statuses : list Status;
  unregisters : list string;
  closeCodes : list Z;
  rejections : nat;
  fail : Z * string;
  silent : bool;
  closing : list (nat * Z * string)   (* go s.close(…) *)
}.

(** [newStub]: zero options take the defaults of the protocol. *)
Definition or_default (n d : Z) : Z := if (n =? 0)%Z then d else n.
Definition newStub (o : Options) : Stub :=
  mkStub (mkOptions (Secret o) (Audience o) (or_default (HeartbeatInterval o) 5)
            (or_default (SuspectAfter o) 2) (or_default (OfflineAfter o) 4)
            (or_default (RegisterTimeout o) (5 * Client.Second)) (RejectAfterUpgrade o))
    [] None [] [] [] [] [] 0 (0%Z, EmptyString) false [].

Inductive effect :=
  | SendFrame (i : nat) (f : Frame)
  | Refuse (i : nat) (e : frame_error)      (* a CALLERROR 400 with the zero id *)
  | Deliver (i : nat) (f : Frame)           (* to the call of the stub that waits *)
  | WsClose (i : nat) (code : Z) (reason : string)
  | SendBytes (i : nat) (b : string)        (* a text frame as it is *)
  | CloseNow (i : nat).                     (* the socket is dropped *)

Definition update (i : nat) (f : conn → conn) (s : Stub) : Stub :=
  mkStub (opts s) (alter f i (conns s)) (current s) (registrations s) (heartbeats s) (statuses s)
    (unregisters s) (closeCodes s) (rejections s) (fail s) (silent s) (closing s).

Definition mark_closed (c : conn) : conn :=
  mkConn (module c) (instance c) (registered c) true (returned c) (lastBeat c) (pending c).
Definition mark_returned (c : conn) : conn :=
  mkConn (module c) (instance c) (registered c) (closed c) true (lastBeat c) (pending c).
Definition mark_registered (now : Z) (c : conn) : conn :=
  mkConn (module c) (instance c) true (closed c) (returned c) now (pending c).
Definition mark_beat (now : Z) (c : conn) : conn :=
  mkConn (module c) (instance c) (registered c) (closed c) (returned c) now (pending c).
Definition set_pending (l : list string) (c : conn) : conn :=
  mkConn (module c) (instance c) (registered c) (closed c) (returned c) (lastBeat c) l.

Definition add_close (code : Z) (s : Stub) : Stub :=
  mkStub (opts s) (conns s) (current s) (registrations s) (heartbeats s) (statuses s) (unregisters s)
    (closeCodes s ++ [code]) (rejections s) (fail s) (silent s) (closing s).
Definition set_closing (l : list (nat * Z * string)) (s : Stub) : Stub :=
  mkStub (opts s) (conns s) (current s) (registrations s) (heartbeats s) (statuses s) (unregisters s)
    (closeCodes s) (rejections s) (fail s) (silent s) l.
Definition add_conn (c : conn) (s : Stub) : Stub :=
  mkStub (opts s) (conns s ++ [c]) (current s) (registrations s) (heartbeats s) (statuses s)
    (unregisters s) (closeCodes s) (rejections s) (fail s) (silent s) (closing s).
Definition add_rejection (s : Stub) : Stub :=
  mkStub (opts s) (conns s) (current s) (registrations s) (heartbeats s) (statuses s) (unregisters s)
    (closeCodes s) (S (rejections s)) (fail s) (silent s) (closing s).
Definition add_registration (i : nat) (r : Registration) (s : Stub) : Stub :=
  mkStub (opts s) (conns s) (Some i) (registrations s ++ [r]) (heartbeats s) (statuses s)
    (unregisters s) (closeCodes s) (rejections s) (fail s) (silent s) (closing s).
Definition add_heartbeat (h : Heartbeat) (s : Stub) : Stub :=
  mkStub (opts s) (conns s) (current s) (registrations s) (heartbeats s ++ [h]) (statuses s)
    (unregisters s) (closeCodes s) (rejections s) (fail s) (silent s) (closing s).
Definition add_status (x : Status) (s : Stub) : Stub :=
  mkStub (opts s) (conns s) (current s) (registrations s) (heartbeats s) (statuses s ++ [x])
    (unregisters s) (closeCodes s) (rejections s) (fail s) (silent s) (closing s).
Definition add_unregister (r : string) (s : Stub) : Stub :=
  mkStub (opts s) (conns s) (current s) (registrations s) (heartbeats s) (statuses s)
    (unregisters s ++ [r]) (closeCodes s) (rejections s) (fail s) (silent s) (closing s).
Definition set_fail (f : Z * string) (s : Stub) : Stub :=
  mkStub (opts s) (conns s) (current s) (registrations s) (heartbeats s) (statuses s) (unregisters s)
    (closeCodes s) (rejections s) f (silent s) (closing s).
Definition set_silent (on : bool) (s : Stub) : Stub :=
  mkStub (opts s) (conns s) (current s) (registrations s) (heartbeats s) (statuses s) (unregisters s)
    (closeCodes s) (rejections s) (fail s) on (closing s).

(** ** Payloads *)

(** [json.Unmarshal] into a []string that holds the front [n] of the array [old]: a null
    element keeps what the array has there; [None] for a type error. *)
Fixpoint decode_elems (old : list string) (l : list json) : option (list string) :=
  match l with
  | [] => Some old
  | v :: l =>
      x ← match v with
          | JStr lex => Some (Unquote lex)
          | JNull => Some (default EmptyString (head old))
          | _ => None
          end;
      rest ← decode_elems (tail old) l;
      Some (x :: rest)
  end.

Definition decode_strings (acc : list string * nat) (v : json) : option (list string * nat) :=
  match v with
  | JNull | JArr [] => Some ([], 0)
  | JArr l => a ← decode_elems acc.1 l; Some (a, length l)
  | _ => None
  end.

Definition prefixes_of (l : list (string * json)) : option (list string) :=
  '(a, n) ← foldl (λ acc v, st ← acc; decode_strings st v) (Some ([], 0)) (field_members "prefixes" l);
  Some (take n a).

Definition reg_schema : schema :=
  [("module", TStr); ("instance", TStr); ("version", TStr); ("build", TStr); ("address", TStr);
   ("capacity", TInt 64)].

(** [json.Unmarshal(p, &reg)]; [None] for its error. *)
Definition decode_registration (p : string) : option Registration :=
  match Client.unmarshal_struct reg_schema p, parse p with
  | Ok st, Some (JObj l) =>
      ps ← prefixes_of l;
      Some (mkReg (str_of st "module") (str_of st "instance") (str_of st "version") (str_of st "build")
              (str_of st "address") ps (Client.int_of st "capacity"))
  | Ok _, Some JNull => Some (mkReg "" "" "" "" "" [] 0)
  | _, _ => None
  end.

Definition zero_float : float := mkFloat false 0 0.

(** The payloads whose decoding errors are dropped. *)
Definition decode_heartbeat (p : string) : Heartbeat :=
  mkHeartbeat (Client.int_of (Client.unmarshal_lenient [("in_flight", TInt 64)] p) "in_flight")
    match parse p with
    | Some (JObj l) =>
        foldl (λ acc v, match v with JNum lex => default acc (ParseFloat lex) | _ => acc end) zero_float
          (field_members "load" l)
    | _ => zero_float
    end.

Definition decode_status (p : string) : Status :=
  let st := Client.unmarshal_lenient [("state", TStr); ("reason", TStr)] p in
  mkStatus (str_of st "state") (str_of st "reason").

Definition decode_unregister (p : string) : string :=
  str_of (Client.unmarshal_lenient [("reason", TStr)] p) "reason".

(** ** The checks of /register *)

Definition required_keys : list string :=
  ["module"; "instance"; "version"; "address"; "prefixes"; "capacity"].

(** The check of an address: a code and a message, 0 for none. *)
Definition check_address (a : string) : Z * string :=
  match SplitHostPort a with
  | None => (400, "address must be ipv4:port")%Z
  | Some (host, port) =>
      match ParseIP host ≫= To4 with
      | None => (400, "address must be ipv4:port")%Z
      | Some n =>
          match Atoi port with
          | Some p =>
              if ((p <? 1) || (65535 <? p))%Z then (400, "address port")%Z
              else if negb (IsPrivate4 n) && negb (IsLoopback4 n)
              then (403, "address outside allowed_cidr")%Z else (0, EmptyString)%Z
          | None => (400, "address port")%Z
          end
      end
  end.

Definition overlap (p q : string) : bool :=
  HasPrefix (p +:+ "/") (q +:+ "/") || HasPrefix (q +:+ "/") (p +:+ "/").

(** The loop over the prefixes, [before] those already seen. *)
Fixpoint check_prefixes (before l : list string) : Z * string :=
  match l with
  | [] => (0, EmptyString)%Z
  | p :: l =>
      if negb (Client.prefix p) then (400, "prefix " +:+ p)%Z
      else if existsb (overlap p) before then (422, "prefixes overlap")%Z
      else check_prefixes (before ++ [p]) l
  end.

(** The first check that fails. *)
Definition first_bad (l : list (Z * string)) : Z * string :=
  default (0%Z, EmptyString) (head (filter (λ x, (x.1 =? 0)%Z = false) l)).

Definition when_ (b : bool) (code : Z) (msg : string) : Z * string := if b then (code, msg) else (0%Z, EmptyString).

Definition check_registration (r : Registration) (module instance : string) : Z * string :=
  first_bad [when_ (negb (String.eqb (reg_Module r) module && String.eqb (reg_Instance r) instance)) 422
               "module/instance differ from URL";
             check_address (reg_Address r);
             when_ (bool_decide (reg_Prefixes r = [])) 400 "prefixes empty";
             check_prefixes [] (reg_Prefixes r);
             when_ (reg_Capacity r <? 1)%Z 422 "capacity"].

Section stub.
Context {T : Texts}.

Definition checkRegister (fail : Z * string) (f : Frame) (module instance : string) : Z * string :=
  if negb (fail.1 =? 0)%Z then fail
  else
    match parse (Payload f) with
    | Some (JObj l) =>
        match head (filter (λ k, object_map l !! k = None) required_keys) with
        | Some k => (400%Z, "missing " +:+ k)
        | None =>
            match decode_registration (Payload f) with
            | None => (400%Z, decode_text BadType (Payload f))
            | Some r => check_registration r module instance
            end
        end
    | Some JNull => (400%Z, "missing module")
    | _ => (400%Z, "p is not an object")
    end.

(** ** Handshake *)

Inductive handshake :=
  | Answered (status : Z)
  | Upgraded (i : nat).

(** [s.handle] of a request whose upgrade succeeds. *)
Definition handle (path authorization : string) (now : Z) (s : Stub) : Stub * list effect * handshake :=
  match HasPrefix path "/gateway/", Split (TrimPrefix path "/gateway/") "/" with
  | true, [m; n] =>
      if negb (Client.segment m) || negb (Client.segment n) then (s, [], Answered 400)
      else
        let kr := mkKeyring {[ Audience (opts s) := mkKey "HS256" (Secret (opts s)) ]} ["accounts.test"] in
        let i := length (conns s) in
        let open b := add_conn (mkConn m n false b b 0 []) in
        match Verify kr (TrimPrefix authorization "Bearer ") now with
        | Ok _ => (open false s, [], Upgraded i)
        | Err _ =>
            let s := add_rejection s in
            if RejectAfterUpgrade (opts s)
            then (add_close 1008 (open true s), [WsClose i 1008 "unauthorized"], Upgraded i)
            else (s, [], Answered 401)
        end
  | _, _ => (s, [], Answered 404)
  end.
(** ** A connection *)

Definition is_closed (i : nat) (s : Stub) : bool := from_option closed true (conns s !! i).

(** [s.close(c, code, reason)]: once per connection. *)
Definition close (i : nat) (code : Z) (reason : string) (s : Stub) : Stub * list effect :=
  if is_closed i s then (s, [])
  else (add_close code (update i mark_closed s), [WsClose i code reason]).

(** A close that ends [serve]. *)
Definition close_return (i : nat) (code : Z) (reason : string) (s : Stub) : Stub * list effect :=
  let '(s, es) := close i code reason s in (update i mark_returned s, es).

(** The result of a /register that is taken. *)
Definition register_result (o : Options) (instance : string) : string :=
  Client.payload [("heartbeat_interval", Client.jint (HeartbeatInterval o));
    ("instance_id", Client.jstr instance); ("gateway_worker", Client.jint 4242);
    ("gateway_node", Client.jstr "stub:4242"); ("suspect_after", Client.jint (SuspectAfter o));
    ("offline_after", Client.jint (OfflineAfter o))].

(** The connection a new registration replaces: [go s.close(old, 1001, …)]. *)
Definition replaced (i : nat) (s : Stub) : list (nat * Z * string) :=
  match current s with
  | Some old => if negb (old =? i)%nat && negb (is_closed old s)
                then [(old, 1001%Z, "replaced by new registration")] else []
  | None => []
  end.

Definition serve_register (i : nat) (c : conn) (f : Frame) (now : Z) (s : Stub) : Stub * list effect :=
  let '(code, msg) := checkRegister (fail s) f (module c) (instance c) in
  if negb (code =? 0)%Z then
    let '(s, es) := close_return i 1008 msg s in (s, SendFrame i (Error f code msg) :: es)
  else
    let r := default (mkReg "" "" "" "" "" [] 0) (decode_registration (Payload f)) in
    (add_registration i r (update i (mark_registered now) (set_closing (closing s ++ replaced i s) s)),
     [SendFrame i (Result f (any_value (Some (register_result (opts s) (instance c)))))]).

(** The states of a /status the stub takes. *)
Definition known_state (x : string) : bool := bool_decide (x ∈ ["ready"; "draining"; "overloaded"]).

(** A CALL of a connection. *)
Definition serve_call (i : nat) (c : conn) (f : Frame) (now : Z) (s : Stub) : Stub * list effect :=
  let act := Action f in
  if negb (registered c) && negb (String.eqb act "/register")
  then (s, [SendFrame i (Error f 409 "not registered")])
  else if String.eqb act "/register" then serve_register i c f now s
  else if String.eqb act "/heartbeat" then
    (add_heartbeat (decode_heartbeat (Payload f)) (update i (mark_beat now) s),
     if silent s then [] else
       [SendFrame i (Result f (any_value (Some (Client.payload [("state", Client.jstr "ready")]))))])
  else if String.eqb act "/status" then
    let st := decode_status (Payload f) in
    if negb (known_state (st_State st)) then (s, [SendFrame i (Error f 422 "state")])
    else (add_status st s, [SendFrame i (Result f any_nil)])
  else if String.eqb act "/unregister" then
    (add_unregister (decode_unregister (Payload f)) s, [SendFrame i (Result f any_nil)])
  else (s, [SendFrame i (Error f 404 "unknown action")]).

(** An iteration of [serve] on a message. *)
Definition serve (i : nat) (c : conn) (text : bool) (data : string) (now : Z) (s : Stub)
    : Stub * list effect :=
  if negb text then close_return i 1003 "binary frame" s
  else match Parse data with
  | Err ErrTooLarge => close_return i 1009 "frame too large" s
  | Err e => (s, [Refuse i e])
  | Ok f =>
      if (Type_ f =? CallResult)%Z || (Type_ f =? CallError)%Z then
        if bool_decide (ID f ∈ pending c)
        then (update i (set_pending (filter (λ x, x ≠ ID f) (pending c))) s, [Deliver i f])
        else (s, [])
      else serve_call i c f now s
  end.

(** [observeClose]: the code of the close frame, 1006 for none. *)
Definition observeClose (i : nat) (status : Z) (s : Stub) : Stub :=
  if is_closed i s then s
  else add_close (if (status =? -1)%Z then 1006%Z else status) (update i mark_closed s).

(** A tick of [watchHeartbeat]: late is what no heartbeat has come for [OfflineAfter]
    intervals. *)
Definition watchHeartbeat (i : nat) (c : conn) (now : Z) (s : Stub) : Stub * list effect :=
  if closed c then (s, [])
  else if (Jwt.wrap64 (OfflineAfter (opts s) * Client.seconds (HeartbeatInterval (opts s))) <=? now - lastBeat c)%Z
  then close i 4000 "heartbeat timeout" s else (s, []).

(** ** Events *)

Inductive event :=
  | Connect (path authorization : string) (now : Z)
  | Message (i : nat) (text : bool) (data : string) (now : Z)
  | ReadError (i : nat) (status : Z)
  | RegisterTimer (i : nat)
  | Tick (i : nat) (now : Z)
  | Closing (k : nat)                          (* a spawned close runs *)
  | FailRegister (code : Z) (msg : string)
  | SilenceHeartbeats (on : bool)
  | Replace
  | Kick (code : Z) (reason : string)
  | CallModule (id action : string) (payload : any)
  | DropConnection
  | SendRaw (b : string).

Definition on_current (f : nat → Stub → Stub * list effect) (s : Stub) : Stub * list effect :=
  match current s with Some i => f i s | None => (s, []) end.

(** What the stub does at an event; [None] when it cannot happen. *)
Definition step (e : event) (s : Stub) : option (Stub * list effect) :=
  match e with
  | Connect p a now => let '(s, es, _) := handle p a now s in Some (s, es)
  | Message i text data now =>
      c ← conns s !! i; if returned c then None else Some (serve i c text data now s)
  | ReadError i status =>
      c ← conns s !! i;
      if returned c then None else Some (update i mark_returned (observeClose i status s), [])
  | RegisterTimer i =>
      c ← conns s !! i;
      if registered c then None else Some (close i 1008 "no /register within timeout" s)
  | Tick i now => c ← conns s !! i; if registered c then Some (watchHeartbeat i c now s) else None
  | Closing k =>
      '(i, code, reason) ← closing s !! k; Some (close i code reason (set_closing (delete k (closing s)) s))
  | FailRegister code msg => Some (set_fail (code, msg) s, [])
  | SilenceHeartbeats on => Some (set_silent on s, [])
  | Replace => Some (on_current (λ i, close i 1001 "replaced by new registration") s)
  | Kick code reason => Some (on_current (λ i, close i code reason) s)
  | CallModule id action p =>
      Some (on_current (λ i s, (update i (λ c, set_pending (id :: pending c) c) s,
                                [SendFrame i (NewCall id action p)])) s)
  | DropConnection => Some (on_current (λ i s, (s, [CloseNow i])) s)
  | SendRaw b => Some (on_current (λ i s, (s, [SendBytes i b])) s)
  end.

Definition steps (s s' : Stub) : Prop := ∃ e es, step e s = Some (s', es).
Definition reachable (o : Options) (s : Stub) : Prop := rtc steps (newStub o) s.

(** ** Observations

    A [Wait] is over when its condition holds; what it gives back then, [None] while it
    waits.  [Last...] of nothing panics. *)
Definition wait {A} (cond : bool) (x : option A) : option A := if cond then x else None.
Definition Registrations (s : Stub) : nat := length (registrations s).
Definition LastRegistration (s : Stub) : option Registration := last (registrations s).
Definition WaitRegistered (s : Stub) : option Registration :=
  wait (1 <=? Registrations s)%nat (LastRegistration s).
Definition WaitRegistrations (n : nat) (s : Stub) : option nat :=
  wait (n <=? Registrations s)%nat (Some (Registrations s)).
Definition LastHeartbeat (s : Stub) : option Heartbeat := last (heartbeats s).
Definition WaitHeartbeats (n : nat) (s : Stub) : option nat :=
  wait (n <=? length (heartbeats s))%nat (Some (length (heartbeats s))).
Definition WaitStatus (state : string) (s : Stub) : option Status :=
  head (filter (λ x, st_State x = state) (statuses s)).
Definition Statuses (s : Stub) : list string := st_State <$> statuses s.
Definition WaitUnregister (s : Stub) : option string :=
  wait (1 <=? length (unregisters s))%nat (last (unregisters s)).
Definition CloseCodes (s : Stub) : list Z := closeCodes s.
Definition WaitCloseCodes (n : nat) (s : Stub) : option (list Z) :=
  wait (n <=? length (closeCodes s))%nat (Some (closeCodes s)).
Definition HandshakeRejections (s : Stub) : nat := rejections s.

(** ** Standalone *)

(** POST /gateway/kick: the status and the stub after it.  The codes a peer may send
    (RFC 6455, 7.4) close the current connection. *)
Definition sendable (code : Z) : bool :=
  negb ((code <? 1000) || (4999 <? code) || (1004 <=? code) && (code <=? 1006) || (code =? 1015))%Z.
Definition kick_code (query : string) : Z := default 1001%Z (Atoi (values_get (Url.Query query) "code")).
Definition kick (query : string) (s : Stub) : Z * (Stub * list effect) :=
  let code := kick_code query in
  if negb (sendable code) then (400%Z, (s, []))
  else (204%Z, on_current (λ i, close i code "kicked") s).
End stub.

Definition newline : string := one "010".

(** [ServiceToken] and the token of /oauth2/token, whose subjects differ; [now] in
    nanoseconds. *)
Definition repeat_string (n : nat) (s : string) : string := foldr String.append EmptyString (replicate n s).
Definition service_claims (audience subject : string) (now : Z) : Claims :=
  mkClaims "accounts.test" audience (repeat_string 40 subject) (now `div` Client.Second)
    ((now + 86400 * Client.Second) `div` Client.Second).
Definition ServiceToken (secret audience : string) (now : Z) : string :=
  default EmptyString (Sign (service_claims audience "a" now) "HS256" secret).

(** POST /oauth2/token over the form of the request. *)
Definition token_endpoint (o : Options) (form : Values) (now : Z) : Z * string :=
  if negb (String.eqb (values_get form "grant_type") "client_credentials") ||
     negb (String.eqb (values_get form "client_id") (Audience o)) ||
     negb (String.eqb (values_get form "client_secret") (Secret o))
  then (401%Z, print (JObj [("error", Client.jstr "invalid_client")]) +:+ newline)
  else
    let tok := default EmptyString (Sign (service_claims (Audience o) "s" now) "HS256" (Secret o)) in
    (200%Z, Client.payload [("access_token", Client.jstr tok); ("token_type", Client.jstr "Bearer");
                            ("expires_in", Client.jint 86400)] +:+ newline).

(** GET /gateway/list: a nil slice is null. *)
Definition slice_json {A} (f : A → json) (l : list A) : json :=
  match l with [] => JNull | _ => JArr (f <$> l) end.
Definition reg_json (r : Registration) : json :=
  JObj [("module", Client.jstr (reg_Module r)); ("instance", Client.jstr (reg_Instance r));
        ("version", Client.jstr (reg_Version r)); ("build", Client.jstr (reg_Build r));
        ("address", Client.jstr (reg_Address r)); ("prefixes", slice_json Client.jstr (reg_Prefixes r));
        ("capacity", Client.jint (reg_Capacity r))].
Definition status_json (x : Status) : json :=
  JObj [("state", Client.jstr (st_State x)); ("reason", Client.jstr (st_Reason x))].
Definition list_answer (s : Stub) : string :=
  Client.payload
    [("registrations", slice_json reg_json (registrations s));
     ("heartbeats", Client.jint (Z.of_nat (length (heartbeats s))));
     ("statuses", slice_json status_json (statuses s));
     ("unregisters", slice_json (λ u, JObj [("reason", Client.jstr u)]) (unregisters s));
     ("close_codes", slice_json Client.jint (closeCodes s))] +:+ newline.
