(* ===== verification/GwStubLaws.v ===== *)
(** * What the stub of the gateway keeps

    The invariant of the stub's state over every sequence of events, and the tokens of
    its endpoint. *)

From S2P Require Import Prelude.
From S2P Require Import GoStrings.
From S2P Require Import GoJson.
From S2P Require Import GoNet.
From S2P Require Import Url.
From S2P Require Import Frame.
From S2P Require Import Jwt.
From S2P Require Import Decode.
From S2P Require Client.
From S2P Require Import GwStub.

(** ** The checks of /register *)

(** What the gateway asks of a registration, said without the order of the checks. *)
Definition valid_address (a : string) : Prop :=
  ∃ host port n p, SplitHostPort a = Some (host, port) ∧ ParseIP host ≫= To4 = Some n ∧
    Atoi port = Some p ∧ (1 <= p <= 65535)%Z ∧ (IsPrivate4 n = true ∨ IsLoopback4 n = true).

Definition valid_registration (r : Registration) : Prop :=
  valid_address (reg_Address r) ∧ reg_Prefixes r ≠ [] ∧
  Forall (λ p, Client.prefix p = true) (reg_Prefixes r) ∧
  ForallOrdPairs (λ p q, overlap q p = false) (reg_Prefixes r) ∧ (1 <= reg_Capacity r)%Z.

Lemma first_bad_none l : (first_bad l).1 = 0%Z ↔ Forall (λ x, x.1 = 0%Z) l.
Proof.
  unfold first_bad. induction l as [|x l IH]; [done|]. rewrite filter_cons, Forall_cons.
  case_decide as Hx; cbn [head default].
  - apply Z.eqb_neq in Hx. naive_solver.
  - apply not_false_is_true, Z.eqb_eq in Hx. rewrite IH. naive_solver.
Qed.

Lemma when_none b code msg : code ≠ 0%Z → (when_ b code msg).1 = 0%Z ↔ b = false.
Proof. by destruct b. Qed.

Lemma check_address_ok a : (check_address a).1 = 0%Z ↔ valid_address a.
Proof.
  unfold check_address, valid_address. split.
  - intros H. destruct (SplitHostPort a) as [[host port]|]; [|done].
    destruct (ParseIP host ≫= To4) as [n|] eqn:Hn; [|done].
    destruct (Atoi port) as [p|] eqn:Hp; [|done].
    destruct (_ || _) eqn:Hr; [done|]. destruct (_ && _) eqn:Hc; [done|].
    exists host, port, n, p. bool_to_prop. split_and!; try done.
    apply andb_false_iff in Hc. rewrite !negb_false_iff in Hc. done.
  - intros (host & port & n & p & -> & Hn & Hp & Hr & Hc). rewrite Hn, Hp.
    rewrite (proj2 (Z.ltb_ge p 1)), (proj2 (Z.ltb_ge 65535 p)) by lia. cbn [orb].
    by destruct Hc as [->| ->]; rewrite ?andb_false_r.
Qed.

Lemma check_prefixes_ok l : ∀ before, (check_prefixes before l).1 = 0%Z ↔
  Forall (λ p, Client.prefix p = true) l ∧ Forall (λ p, Forall (λ q, overlap p q = false) before) l ∧
  ForallOrdPairs (λ p q, overlap q p = false) l.
Proof.
  induction l as [|p l IH]; intros before; cbn [check_prefixes].
  { split; [by repeat constructor|done]. }
  destruct (Client.prefix p) eqn:Hp; cbn [negb].
  - destruct (existsb (overlap p) before) eqn:He.
    + split; [done|]. intros (_ & [Hb _]%Forall_cons & _).
      apply existsb_exists in He as (q & Hq & Hpq). apply list_elem_of_In in Hq.
      rewrite Forall_forall in Hb. by rewrite Hb in Hpq.
    + assert (Hb : Forall (λ q, overlap p q = false) before).
      { apply Forall_forall. intros q Hq. apply not_true_is_false. intros Ho.
        assert (existsb (overlap p) before = true); [|congruence].
        apply existsb_exists. exists q. by rewrite <- list_elem_of_In. }
      rewrite IH, !Forall_cons.
      setoid_rewrite Forall_app. setoid_rewrite Forall_singleton.
      rewrite Forall_and. split.
      * intros (H1 & [H2 H3] & H4). split_and!; try done. by constructor.
      * intros ([_ H1] & [_ H2] & H3). inversion H3; subst. done.
  - split; [done|]. intros [[? _]%Forall_cons _]. congruence.
Qed.

Lemma check_registration_ok r module instance : (check_registration r module instance).1 = 0%Z ↔
  reg_Module r = module ∧ reg_Instance r = instance ∧ valid_registration r.
Proof.
  unfold check_registration, valid_registration. rewrite first_bad_none.
  repeat rewrite Forall_cons. rewrite !when_none by done.
  rewrite check_address_ok, check_prefixes_ok, negb_false_iff, andb_true_iff, !String.eqb_eq.
  rewrite bool_decide_eq_false, Z.ltb_ge.
  assert (Forall (λ p, Forall (λ q, overlap p q = false) []) (reg_Prefixes r)).
  { apply Forall_forall. intros. constructor. }
  split; [naive_solver lia|]. intros (? & ? & ? & ? & ? & ? & ?). split_and!; done || constructor.
Qed.

(** ** Lists changed at an index *)

Lemma lookup_alter_cases {A} (f : A → A) (l : list A) i j y : alter f i l !! j = Some y →
  ∃ x, l !! j = Some x ∧ (i ≠ j ∧ y = x ∨ i = j ∧ y = f x).
Proof.
  destruct (decide (i = j)) as [->|Hn].
  - rewrite list_lookup_alter_eq, fmap_Some. intros (x & Hx & ->). exists x. auto.
  - rewrite list_lookup_alter_ne by done. intros Hx. exists y. auto.
Qed.

Lemma elem_alter_cases {A} (f : A → A) (l : list A) i y : y ∈ alter f i l →
  y ∈ l ∨ ∃ x, l !! i = Some x ∧ y = f x.
Proof.
  intros [j Hj]%list_elem_of_lookup. apply lookup_alter_cases in Hj as (x & Hx & [[_ ->]|[-> ->]]).
  - left. by eapply list_elem_of_lookup_2.
  - right. by exists x.
Qed.

Lemma elem_alter {A} (f : A → A) (l : list A) i x : x ∈ l → x ∈ alter f i l ∨ l !! i = Some x ∧ f x ∈ alter f i l.
Proof.
  intros [j Hj]%list_elem_of_lookup. destruct (decide (i = j)) as [->|Hn].
  - right. split; [done|]. apply (list_elem_of_lookup_2 _ j). by rewrite list_lookup_alter_eq, Hj.
  - left. apply (list_elem_of_lookup_2 _ j). by rewrite list_lookup_alter_ne.
Qed.

Lemma filter_alter_same {A} (P : A → Prop) `{∀ x, Decision (P x)} f (l : list A) i :
  (∀ x, l !! i = Some x → (P (f x) ↔ P x)) →
  length (filter P (alter f i l)) = length (filter P l).
Proof.
  revert i. induction l as [|x l IH]; intros [|i] Hp; [done..| |].
  - change (alter f 0 (x :: l)) with (f x :: l). rewrite !filter_cons. specialize (Hp x eq_refl).
    repeat case_decide; cbn; tauto.
  - change (alter f (S i) (x :: l)) with (x :: alter f i l). rewrite !filter_cons.
    case_decide; cbn [length]; by rewrite IH.
Qed.

Lemma filter_alter_more {A} (P : A → Prop) `{∀ x, Decision (P x)} f (l : list A) i x :
  l !! i = Some x → ¬ P x → P (f x) →
  length (filter P (alter f i l)) = S (length (filter P l)).
Proof.
  revert i. induction l as [|y l IH]; intros [|i] Hx Hn Hy; [done..| |].
  - injection Hx as ->. change (alter f 0 (x :: l)) with (f x :: l). rewrite !filter_cons.
    by rewrite decide_True, decide_False.
  - change (alter f (S i) (y :: l)) with (y :: alter f i l). rewrite !filter_cons.
    case_decide; cbn [length]; by rewrite (IH i).
Qed.

Section stub.
Context {T : Texts}.

Lemma checkRegister_ok fail f m n : (checkRegister fail f m n).1 = 0%Z →
  ∃ r, decode_registration (Payload f) = Some r ∧ reg_Module r = m ∧ reg_Instance r = n ∧ valid_registration r.
Proof.
  unfold checkRegister. destruct (Z.eqb_spec (fail.1) 0) as [|Hf]; cbn [negb]; [|done].
  destruct (parse (Payload f)) as [[| | | | |l]|]; try done.
  destruct (head _); [done|]. destruct (decode_registration _) as [r|]; [|done].
  intros H%check_registration_ok. by exists r.
Qed.

(** ** The invariant *)

Definition open_conn (c : conn) : Prop := closed c = false.

(** A registration of one of the connections, under the path it came by. *)
Definition registered_by (cs : list conn) (r : Registration) : Prop :=
  ∃ c, c ∈ cs ∧ registered c = true ∧ module c = reg_Module r ∧ instance c = reg_Instance r.

Record stub_ok (s : Stub) : Prop := mkStubOk {
  segments : ∀ c, c ∈ conns s → Client.segment (module c) = true ∧ Client.segment (instance c) = true;
  closes_counted : length (closeCodes s) = length (filter (λ c, closed c = true) (conns s));
  returned_closed : ∀ c, c ∈ conns s → returned c = true → closed c = true;
  current_registered : ∀ i, current s = Some i → ∃ c, conns s !! i = Some c ∧ registered c = true;
  (* a registered connection is the current one, closed, or about to be closed *)
  registered_once : ∀ i c, conns s !! i = Some c → registered c = true →
    current s = Some i ∨ closed c = true ∨ i ∈ (closing s).*1.*1;
  closing_known : ∀ i, i ∈ (closing s).*1.*1 → i < length (conns s);
  registrations_valid : Forall valid_registration (registrations s);
  registrations_known : Forall (registered_by (conns s)) (registrations s);
  statuses_known : Forall (λ x, known_state (st_State x) = true) (statuses s);
  (* nothing is recorded before the first registration *)
  silence : current s = None → (∀ c, c ∈ conns s → registered c = false) ∧
    registrations s = [] ∧ heartbeats s = [] ∧ statuses s = [] ∧ unregisters s = []
}.


(** A change of a connection that the rest of the state does not see. *)
Record unseen (f : conn → conn) (c : conn) : Prop := mkUnseen {
  un_module : module (f c) = module c;
  un_instance : instance (f c) = instance c;
  un_registered : registered (f c) = registered c;
  un_closed : closed (f c) = closed c;
  un_returned : returned (f c) = true → returned c = true ∨ closed c = true
}.

Lemma registered_by_alter f cs i r : (∀ c, cs !! i = Some c →
    module (f c) = module c ∧ instance (f c) = instance c ∧ (registered c = true → registered (f c) = true)) →
  registered_by cs r → registered_by (alter f i cs) r.
Proof.
  intros Hf (c & Hc & Hr & Hm & Hn). destruct (elem_alter f cs i c Hc) as [He|[Hi He]].
  - by exists c.
  - destruct (Hf c Hi) as (Hm' & Hn' & Hr'). exists (f c). rewrite Hm', Hn'. auto.
Qed.

Lemma update_ok i f s : (∀ c, conns s !! i = Some c → unseen f c) → stub_ok s → stub_ok (update i f s).
Proof.
  intros Hf []. constructor; cbn; try done.
  - intros c [?|(x & Hx & ->)]%elem_alter_cases; [auto|].
    destruct (Hf x Hx) as [-> -> _ _ _]. apply segments0. by eapply list_elem_of_lookup_2.
  - rewrite filter_alter_same; [done|]. intros x Hx. by rewrite (un_closed _ _ (Hf x Hx)).
  - intros c [?|(x & Hx & ->)]%elem_alter_cases; [auto|]. destruct (Hf x Hx) as [_ _ _ -> Hr].
    intros [?|?]%Hr; [|done]. apply returned_closed0; [by eapply list_elem_of_lookup_2|done].
  - intros j (c & Hc & Hr)%current_registered0. destruct (decide (i = j)) as [->|].
    + exists (f c). rewrite list_lookup_alter_eq, Hc. by rewrite (un_registered _ _ (Hf c Hc)).
    + exists c. by rewrite list_lookup_alter_ne.
  - intros j c (x & Hx & [[_ ->]|[-> ->]])%lookup_alter_cases; [eauto|].
    destruct (Hf x Hx) as [_ _ -> -> _]. eauto.
  - intros j. rewrite length_alter. auto.
  - eapply Forall_impl; [exact registrations_known0|]. intros r. apply registered_by_alter.
    intros c Hc. by destruct (Hf c Hc) as [-> -> -> _ _].
  - intros [Hn Hs]%silence0. split; [|done]. intros c [?|(x & Hx & ->)]%elem_alter_cases; [auto|].
    rewrite (un_registered _ _ (Hf x Hx)). apply Hn. by eapply list_elem_of_lookup_2.
Qed.

Lemma set_closing_ok l s : (∀ i, i ∈ l.*1.*1 → i < length (conns s)) →
  (∀ i c, conns s !! i = Some c → i ∈ (closing s).*1.*1 → i ∈ l.*1.*1 ∨ closed c = true) →
  stub_ok s → stub_ok (set_closing l s).
Proof.
  intros Hl Hc []. constructor; cbn; try done.
  intros i c Hi Hr. destruct (registered_once0 i c Hi Hr) as [|[|Hin]]; [auto..|].
  destruct (Hc i c Hi Hin); auto.
Qed.

(** A connection is closed and its code written down, together. *)
Lemma mark_closed_ok i c code s : conns s !! i = Some c → closed c = false →
  stub_ok s → stub_ok (add_close code (update i mark_closed s)).
Proof.
  intros Hi Hc []. constructor; cbn; try done.
  - intros y [?|(x & Hx & ->)]%elem_alter_cases; [auto|].
    apply (segments0 x). by eapply list_elem_of_lookup_2.
  - rewrite length_app, (filter_alter_more _ _ _ i c), closes_counted0; cbn; [lia|done|congruence|done].
  - intros y [?|(x & Hx & ->)]%elem_alter_cases; [auto|done].
  - intros j (y & Hy & Hr)%current_registered0. destruct (decide (i = j)) as [->|].
    + exists (mark_closed y). by rewrite list_lookup_alter_eq, Hy.
    + exists y. by rewrite list_lookup_alter_ne.
  - intros j y (x & Hx & [[_ ->]|[-> ->]])%lookup_alter_cases; [eauto|]. auto.
  - intros j. rewrite length_alter. auto.
  - eapply Forall_impl; [exact registrations_known0|]. intros r. by apply registered_by_alter.
  - intros [Hn Hs]%silence0. split; [|done]. intros y [?|(x & Hx & ->)]%elem_alter_cases; [auto|].
    apply (Hn x). by eapply list_elem_of_lookup_2.
Qed.

Lemma close_ok i code why s : stub_ok s → stub_ok (close i code why s).1.
Proof.
  intros Hs. unfold close, is_closed. destruct (conns s !! i) as [c|] eqn:Hi; [|done].
  cbn [from_option]. destruct (closed c) eqn:Hc; [done|]. by eapply mark_closed_ok.
Qed.

Lemma close_closes i code why s c : conns (close i code why s).1 !! i = Some c → closed c = true.
Proof.
  unfold close, is_closed. destruct (conns s !! i) as [x|] eqn:Hi; cbn [from_option].
  - destruct (closed x) eqn:Hx; cbn; [congruence|]. rewrite list_lookup_alter_eq, Hi. by intros [= <-].
  - cbn. congruence.
Qed.

Lemma close_set_closing i code why l s :
  (close i code why (set_closing l s)).1 = set_closing l (close i code why s).1.
Proof. unfold close, is_closed. cbn. by destruct (from_option _ _ _). Qed.

Lemma close_return_ok i code why s : stub_ok s → stub_ok (close_return i code why s).1.
Proof.
  intros Hs%(close_ok i code why). pose proof (close_closes i code why s) as Hc. unfold close_return.
  destruct (close i code why s) as [s' es]. cbn in *. apply update_ok; [|done].
  intros c Hi. constructor; try done. right. auto.
Qed.

Lemma read_error_ok i st s : stub_ok s → stub_ok (update i mark_returned (observeClose i st s)).
Proof.
  intros Hs. unfold observeClose, is_closed. destruct (conns s !! i) as [c|] eqn:Hi; cbn [from_option].
  - destruct (closed c) eqn:Hc.
    + apply update_ok; [|done]. rewrite Hi. intros x [= <-]. by constructor; auto.
    + apply update_ok; [|by eapply mark_closed_ok]. cbn. rewrite list_lookup_alter_eq, Hi.
      intros x [= <-]. by constructor; auto.
  - apply update_ok; [|done]. by rewrite Hi.
Qed.

Lemma closing_ok k i code why s : closing s !! k = Some (i, code, why) → stub_ok s →
  stub_ok (close i code why (set_closing (delete k (closing s)) s)).1.
Proof.
  intros Hk Hs. rewrite close_set_closing.
  assert (Hcl : closing (close i code why s).1 = closing s).
  { unfold close. by destruct (is_closed i s). }
  assert (Hlen : length (conns (close i code why s).1) = length (conns s)).
  { unfold close. destruct (is_closed i s); [done|]. cbn. apply length_alter. }
  rewrite delete_take_drop.
  pose proof (take_drop_middle _ _ _ Hk) as Hmid.
  generalize dependent (drop (S k) (closing s)). generalize (take k (closing s)). intros a b Hmid.
  apply set_closing_ok; [| |by apply close_ok].
  - rewrite Hlen. intros j Hj. apply (closing_known s Hs). rewrite <- Hmid.
    rewrite !fmap_app, elem_of_app in *. cbn. rewrite elem_of_cons. tauto.
  - rewrite Hcl, <- Hmid, !fmap_app. cbn. intros j c Hj. rewrite !elem_of_app, elem_of_cons.
    intros [?|[->|?]]; [auto| |auto]. right. by eapply close_closes.
Qed.

Lemma on_current_ok f s : (∀ i, stub_ok (f i s).1) → stub_ok s → stub_ok (on_current f s).1.
Proof. intros Hf Hs. unfold on_current. by destruct (current s). Qed.

(** A connection that is not registered yet, closed or not. *)
Lemma add_conn_ok c s : stub_ok s → registered c = false → closed c = false → returned c = false →
  Client.segment (module c) = true → Client.segment (instance c) = true → stub_ok (add_conn c s).
Proof.
  intros [] Hr Hc Hret Hm Hn. constructor; cbn; try done.
  - intros x [?| ->%list_elem_of_singleton]%elem_of_app; auto.
  - rewrite filter_app, length_app, filter_cons, decide_False; cbn; [lia|congruence].
  - intros x [?| ->%list_elem_of_singleton]%elem_of_app; [auto|congruence].
  - intros i (x & Hx & ?)%current_registered0. exists x. split; [|done]. by apply lookup_app_l_Some.
  - intros i x [?|[? [_ <-]%list_lookup_singleton_Some]]%lookup_app_Some; [eauto|congruence].
  - intros i ?%closing_known0. rewrite length_app. lia.
  - eapply Forall_impl; [exact registrations_known0|]. intros r (x & ? & ?).
    exists x. split; [|done]. apply elem_of_app. auto.
  - intros [Hno Hs]%silence0. split; [|done].
    intros x [?| ->%list_elem_of_singleton]%elem_of_app; auto.
Qed.


Lemma replaced_index i s j : j ∈ (replaced i s).*1.*1 ↔
  current s = Some j ∧ j ≠ i ∧ is_closed j s = false.
Proof.
  unfold replaced. destruct (current s) as [old|]; [|split; [by intros ?%elem_of_nil|by intros [? _]]].
  destruct (negb (old =? i)%nat && negb (is_closed old s)) eqn:He; cbn.
  - rewrite list_elem_of_singleton. apply andb_true_iff in He as [H1%negb_true_iff H2%negb_true_iff].
    apply Nat.eqb_neq in H1. naive_solver.
  - split; [by intros ?%elem_of_nil|]. intros ([= ->] & Hn & Hc). apply Nat.eqb_neq in Hn.
    by rewrite Hn, Hc in He.
Qed.

(** A registration that passed the checks becomes the current one. *)
Lemma registered_ok i c r now s : conns s !! i = Some c →
  valid_registration r → reg_Module r = module c → reg_Instance r = instance c → stub_ok s →
  stub_ok (add_registration i r (update i (mark_registered now) (set_closing (closing s ++ replaced i s) s))).
Proof.
  intros Hi Hv Hm Hn []. constructor; cbn; try done.
  - intros y [?|(x & Hx & ->)]%elem_alter_cases; [auto|].
    apply (segments0 x). by eapply list_elem_of_lookup_2.
  - by rewrite filter_alter_same.
  - intros y [?|(x & Hx & ->)]%elem_alter_cases; [auto|].
    apply (returned_closed0 x). by eapply list_elem_of_lookup_2.
  - intros j [= <-]. exists (mark_registered now c). by rewrite list_lookup_alter_eq, Hi.
  - intros j y (x & Hx & [[Hne ->]|[-> ->]])%lookup_alter_cases; [|auto]. intros Hr.
    destruct (registered_once0 j x Hx Hr) as [Hc|[Hc|Hc]]; [|auto|];
      [|right; right; rewrite !fmap_app, elem_of_app; auto].
    right. destruct (closed x) eqn:Hcl; [auto|]. right.
    rewrite !fmap_app, elem_of_app, replaced_index. right. unfold is_closed. by rewrite Hx.
  - intros j. rewrite length_alter, !fmap_app, elem_of_app, replaced_index.
    intros [?|[(x & Hx & _)%current_registered0 _]]; [auto|]. by eapply lookup_lt_Some.
  - apply Forall_app. split; [done|]. by apply Forall_singleton.
  - apply Forall_app. split; [|apply Forall_singleton].
    + eapply Forall_impl; [exact registrations_known0|]. intros x. by apply registered_by_alter.
    + exists (mark_registered now c). split_and!; try done.
      apply (list_elem_of_lookup_2 _ i). by rewrite list_lookup_alter_eq, Hi.
Qed.

Lemma serve_register_ok i c f now s : conns s !! i = Some c → stub_ok s →
  stub_ok (serve_register i c f now s).1.
Proof.
  intros Hi Hs. unfold serve_register.
  destruct (checkRegister (fail s) f (module c) (instance c)) as [code msg] eqn:Hc.
  destruct (Z.eqb_spec code 0) as [->|]; cbn [negb].
  - destruct (checkRegister_ok (fail s) f (module c) (instance c)) as (r & Hr & Hm & Hn & Hv);
      [by rewrite Hc|]. rewrite Hr. by eapply registered_ok.
  - pose proof (close_return_ok i 1008 msg s Hs). by destruct (close_return _ _ _ _).
Qed.

(** What a registered connection sends is recorded after the registration. *)
Lemma recorded i c s : stub_ok s → conns s !! i = Some c → registered c = true → current s ≠ None.
Proof.
  intros [] Hi Hr [Hn _]%silence0. rewrite (Hn c) in Hr; [done|]. by eapply list_elem_of_lookup_2.
Qed.

Lemma add_heartbeat_ok h s : current s ≠ None → stub_ok s → stub_ok (add_heartbeat h s).
Proof. intros Hc []. by constructor. Qed.
Lemma add_unregister_ok u s : current s ≠ None → stub_ok s → stub_ok (add_unregister u s).
Proof. intros Hc []. by constructor. Qed.
Lemma add_status_ok x s : current s ≠ None → known_state (st_State x) = true → stub_ok s →
  stub_ok (add_status x s).
Proof. intros Hc Hx []. constructor; try done. cbn. apply Forall_app. split; [done|]. by apply Forall_singleton. Qed.

Lemma serve_call_ok i c f now s : conns s !! i = Some c → stub_ok s →
  stub_ok (serve_call i c f now s).1.
Proof.
  intros Hi Hs. unfold serve_call.
  destruct (registered c) eqn:Hr; cbn [negb andb].
  - pose proof (recorded i c s Hs Hi Hr).
    destruct (String.eqb (Action f) "/register"); [by apply serve_register_ok|].
    destruct (String.eqb (Action f) "/heartbeat").
    { apply add_heartbeat_ok; [done|]. apply update_ok; [|done]. constructor; auto. }
    destruct (String.eqb (Action f) "/status").
    { destruct (known_state _) eqn:Hk; cbn; [by apply add_status_ok|done]. }
    destruct (String.eqb (Action f) "/unregister"); [by apply add_unregister_ok|done].
  - destruct (String.eqb (Action f) "/register"); [by apply serve_register_ok|done].
Qed.

Lemma serve_ok i c text data now s : conns s !! i = Some c → stub_ok s →
  stub_ok (serve i c text data now s).1.
Proof.
  intros Hi Hs. unfold serve. destruct text; cbn [negb]; [|by apply close_return_ok].
  destruct (Parse data) as [f|[]]; [|done || by apply close_return_ok..].
  destruct (_ || _); [|by apply serve_call_ok].
  case_bool_decide; [|done]. apply update_ok; [|done]. constructor; auto.
Qed.

Lemma handle_ok path auth now s : stub_ok s → stub_ok (handle path auth now s).1.1.
Proof.
  intros Hs. unfold handle. destruct (HasPrefix path "/gateway/"); [|done].
  destruct (Split _ _) as [|m [|n []]]; try done.
  destruct (Client.segment m) eqn:Hm; cbn [negb orb]; [|done].
  destruct (Client.segment n) eqn:Hn; cbn [negb]; [|done].
  destruct (Verify _ _ _).
  - by apply add_conn_ok.
  - destruct (RejectAfterUpgrade _); [|by destruct Hs]. 
    assert (Ho : stub_ok (add_conn (mkConn m n false false false 0 []) (add_rejection s))).
    { apply add_conn_ok; try done. by destruct Hs. }
    apply (close_return_ok (length (conns s)) 1008 "unauthorized") in Ho. revert Ho.
    unfold close_return, close, is_closed. cbn.
    rewrite list_lookup_middle by done. cbn. unfold add_close, add_conn, update, add_rejection. cbn.
    rewrite !alter_app_r_alt by (rewrite ?length_alter; lia). by rewrite Nat.sub_diag.
Qed.

Lemma stub_step_ok e s s' es : step e s = Some (s', es) → stub_ok s → stub_ok s'.
Proof.
  intros He Hs. replace s' with ((s', es).1) by done. revert He.
  destruct e as [p a now|i text data now|i st|i|i now|k|code msg|on| |code why|id act p| |b]; cbn [step].
  - pose proof (handle_ok p a now s Hs). destruct (handle p a now s) as [[x y] z]. by intros [= -> ->].
  - intros (c & Hi & H)%bind_Some. destruct (returned c); [done|]. injection H as <-. by apply serve_ok.
  - intros (c & Hi & H)%bind_Some. destruct (returned c); [done|]. injection H as <-.
    by apply read_error_ok.
  - intros (c & Hi & H)%bind_Some. destruct (registered c); [done|]. injection H as <-. by apply close_ok.
  - intros (c & Hi & H)%bind_Some. destruct (registered c); [|done]. injection H as <-.
    unfold watchHeartbeat. destruct (closed c); [done|]. destruct (_ <=? _)%Z; [|done]. by apply close_ok.
  - intros ([[i code] why] & Hk & [= <-])%bind_Some. by apply closing_ok.
  - intros [= <-]. by destruct Hs.
  - intros [= <-]. by destruct Hs.
  - intros [= <-]. apply on_current_ok; [|done]. intros. by apply close_ok.
  - intros [= <-]. apply on_current_ok; [|done]. intros. by apply close_ok.
  - intros [= <-]. apply on_current_ok; [|done]. intros. apply update_ok; [|done]. constructor; auto.
  - intros [= <-]. by apply on_current_ok.
  - intros [= <-]. by apply on_current_ok.
Qed.

Lemma newStub_ok o : stub_ok (newStub o).
Proof.
  constructor; cbn; try done.
  - by intros c ?%elem_of_nil.
  - by intros c ?%elem_of_nil.
  - by intros i ?%elem_of_nil.
  - split; [|done]. by intros c ?%elem_of_nil.
Qed.

(** ** A connection that ended *)

(** Nothing of the connection has changed but the calls of the stub that wait on it. *)
Record stays (c c' : conn) : Prop := mkStays {
  stays_module : module c' = module c;
  stays_instance : instance c' = instance c;
  stays_registered : registered c' = registered c;
  stays_beat : lastBeat c' = lastBeat c;
  stays_returned : returned c' = true
}.

Definition kept_at (i : nat) (c : conn) (s : Stub) : Prop := ∃ c', conns s !! i = Some c' ∧ stays c c'.

Lemma kept_update i j f c s : kept_at i c s →
  (∀ x, i = j → stays c x → stays c (f x)) → kept_at i c (update j f s).
Proof.
  intros (x & Hx & Hs) Hf. unfold kept_at. cbn. destruct (decide (j = i)) as [->|Hne].
  - exists (f x). rewrite list_lookup_alter_eq, Hx. split; [done|]. by apply Hf.
  - exists x. by rewrite list_lookup_alter_ne.
Qed.

Lemma stays_closed c x : stays c x → stays c (mark_closed x).
Proof. by intros []. Qed.
Lemma stays_back c x : stays c x → stays c (mark_returned x).
Proof. by intros []. Qed.
Lemma stays_pending c x l : stays c x → stays c (set_pending l x).
Proof. by intros []. Qed.

Lemma kept_close i c j code why s : kept_at i c s → kept_at i c (close j code why s).1.
Proof.
  intros Hk. unfold close. destruct (is_closed j s); [done|]. change (kept_at i c (update j mark_closed s)).
  apply kept_update; [done|]. intros x _. apply stays_closed.
Qed.

Lemma kept_on_current i c f s : (∀ j, kept_at i c (f j s).1) → kept_at i c s → kept_at i c (on_current f s).1.
Proof. intros Hf Hk. unfold on_current. by destruct (current s). Qed.

(** What another connection sends does not reach it. *)
Lemma kept_close_return i c j code why s : kept_at i c s → kept_at i c (close_return j code why s).1.
Proof.
  intros Hk%(kept_close i c j code why). unfold close_return. destruct (close j code why s) as [s1 es].
  apply kept_update; [done|]. intros x _. apply stays_back.
Qed.

Lemma kept_serve i c j c' text data now s : i ≠ j → kept_at i c s → kept_at i c (serve j c' text data now s).1.
Proof.
  intros Hne Hk. assert (Hu : ∀ f, kept_at i c (update j f s)) by (intros f; by apply kept_update).
  unfold serve. destruct text; cbn [negb]; [|by apply kept_close_return].
  destruct (Parse data) as [f|[]]; [|done || by apply kept_close_return..].
  destruct (_ || _); [case_bool_decide; [apply Hu|done]|]. unfold serve_call.
  destruct (negb (registered c') && _); [done|]. destruct (String.eqb (Action f) "/register").
  { unfold serve_register. destruct (checkRegister _ _ _ _) as [code msg]. destruct (negb _); [|apply Hu].
    pose proof (kept_close_return i c j 1008 msg s Hk). by destruct (close_return _ _ _ _). }
  destruct (String.eqb (Action f) "/heartbeat"); [apply Hu|].
  destruct (String.eqb (Action f) "/status"); [by destruct (negb _)|]. by destruct (String.eqb (Action f) "/unregister").
Qed.

Lemma kept_handle i c path auth now s : kept_at i c s → kept_at i c (handle path auth now s).1.1.
Proof.
  intros (x & Hx & Hs).
  assert (Ha : ∀ l, kept_at i c (add_conn l s)).
  { intros l. exists x. split; [|done]. cbn. by apply lookup_app_l_Some. }
  assert (Hr : ∀ l, kept_at i c (add_conn l (add_rejection s))).
  { intros l. exists x. split; [|done]. cbn. by apply lookup_app_l_Some. }
  unfold handle. destruct (HasPrefix path "/gateway/"); [|by exists x].
  destruct (Split _ _) as [|m [|n []]]; try by exists x.
  destruct (_ || _); [by exists x|]. destruct (Verify _ _ _); [apply Ha|].
  destruct (RejectAfterUpgrade _); [apply Hr|by exists x].
Qed.

Lemma kept_step i c e s s' es : step e s = Some (s', es) → kept_at i c s → kept_at i c s'.
Proof.
  intros He Hk. replace s' with ((s', es).1) by done. revert He.
  destruct e as [p a now|j text data now|j st|j|j now|k|code msg|on| |code why|id act p| |b]; cbn [step].
  - pose proof (kept_handle i c p a now s Hk). destruct (handle p a now s) as [[x y] z]. by intros [= -> ->].
  - intros (x & Hj & H)%bind_Some. destruct (returned x) eqn:Hr; [done|]. injection H as <-.
    apply kept_serve; [|done]. intros <-. destruct Hk as (y & Hy & []). congruence.
  - intros (x & Hj & H)%bind_Some. destruct (returned x); [done|]. injection H as <-.
    apply kept_update; [|intros y _; apply stays_back]. unfold observeClose. destruct (is_closed j s); [done|].
    change (kept_at i c (update j mark_closed s)). apply kept_update; [done|]. intros y _. apply stays_closed.
  - intros (x & Hj & H)%bind_Some. destruct (registered x); [done|]. injection H as <-. by apply kept_close.
  - intros (x & Hj & H)%bind_Some. destruct (registered x); [|done]. injection H as <-.
    unfold watchHeartbeat. destruct (closed x); [done|]. destruct (_ <=? _)%Z; [by apply kept_close|done].
  - intros ([[j code] why] & _ & [= <-])%bind_Some. by apply kept_close.
  - by intros [= <-].
  - by intros [= <-].
  - intros [= <-]. apply kept_on_current; [|done]. intros. by apply kept_close.
  - intros [= <-]. apply kept_on_current; [|done]. intros. by apply kept_close.
  - intros [= <-]. apply kept_on_current; [|done]. intros j. apply kept_update; [done|].
    intros x _. apply stays_pending.
  - intros [= <-]. by apply kept_on_current.
  - intros [= <-]. by apply kept_on_current.
Qed.

Lemma kept_steps i c s s' : rtc steps s s' → kept_at i c s → kept_at i c s'.
Proof. induction 1 as [|x y z (e & es & He) _ IH]; eauto using kept_step. Qed.

Lemma stub_reachable_ok o s : reachable o s → stub_ok s.
Proof.
  intros H. pose proof (newStub_ok o) as Hs. revert Hs.
  induction H as [|x y z (e & es & He) _ IH]; [done|]. eauto using stub_step_ok.
Qed.

(** C15. What the gateway stub keeps, whatever comes and in whatever order: every
    registration it recorded passes the checks of the protocol and came by the path it
    names; a connection is closed once and its code is written down once; a connection
    whose serving has returned is closed and never served again - no message of it is a step,
    whatever comes next it is registered, and was heard last, as when it returned; a
    registered connection is the current one, closed, or about to be closed; and nothing
    is recorded before the first registration. *)
Theorem stub_invariant (o : Options) (s : Stub) : reachable o s →
  stub_ok s ∧
  ∀ i c, conns s !! i = Some c → returned c = true → ∀ s', rtc steps s s' →
    (∃ c', conns s' !! i = Some c' ∧ stays c c' ∧ closed c' = true) ∧
    ∀ text data now, step (Message i text data now) s' = None.
Proof.
  intros Hs. split; [by eapply stub_reachable_ok|]. intros i c Hi Hr s' Hs'.
  assert (Hk : kept_at i c s) by (exists c; by split).
  destruct (kept_steps i c s s' Hs' Hk) as (c' & Hc' & Hst). split.
  - exists c'. split; [done|]. split; [done|]. apply (returned_closed s').
    + apply (stub_reachable_ok o). unfold reachable in *. by etrans.
    + by eapply list_elem_of_lookup_2.
    + by apply stays_returned in Hst.
  - intros text data now. cbn. rewrite Hc'. cbn. by rewrite (stays_returned _ _ Hst).
Qed.

Fixpoint run_events (es : list event) (s : Stub) : option Stub :=
  match es with
  | [] => Some s
  | e :: es => x ← step e s; run_events es x.1
  end.

Lemma run_events_steps es : ∀ s s', run_events es s = Some s' → rtc steps s s'.
Proof.
  induction es as [|e es IH]; intros s s'; cbn [run_events]; [by intros [= ->]|].
  intros ([x fx] & Hx & H)%bind_Some. eapply rtc_l; [by exists e, fx|]. by apply IH.
Qed.
End stub.

(** ** Witnesses *)

Definition sample_options : Options := mkOptions "stub-secret" "gateway-stub" 0 0 0 0 false.
Definition sample_now : Z := 1700000000000000000.
Definition sample_auth : string := Eval vm_compute in "Bearer " +:+ ServiceToken "stub-secret" "gateway-stub" sample_now.
Definition register_data (instance : string) : string :=
  match Encode (NewCall "00000000-0000-4000-8000-000000000001" "/register" (any_value (Some (Client.payload
    [("module", Client.jstr "web"); ("instance", Client.jstr instance); ("version", Client.jstr "1");
     ("address", Client.jstr "127.0.0.1:8080"); ("prefixes", JArr [Client.jstr "/api/v2/web"]);
     ("capacity", Client.jint 8)])))) with
  | Ok b => b
  | Err _ => EmptyString
  end.

(** A module registers, a second one takes its place, the first is closed. *)
Definition sample_events : list event :=
  [Connect "/gateway/web/w1" sample_auth sample_now; Message 0 true (register_data "w1") sample_now;
   Connect "/gateway/web/w2" sample_auth sample_now; Message 1 true (register_data "w2") sample_now;
   Closing 0; ReadError 0 (-1)].

Definition sample_stub : Stub := Eval vm_compute in
  default (newStub sample_options) (run_events (T := plain_texts) sample_events (newStub sample_options)).

Lemma stub_invariant_witness : current sample_stub = Some 1%nat ∧ length (registrations sample_stub) = 2%nat ∧
  closeCodes sample_stub = [1001%Z] ∧ stub_ok sample_stub ∧
  step (T := plain_texts) (Message 0 true (register_data "w1") sample_now) sample_stub = None.
Proof.
  split; [reflexivity|]. split; [reflexivity|]. split; [reflexivity|].
  destruct (stub_invariant (T := plain_texts) sample_options sample_stub) as [Hok Hend].
  { apply (run_events_steps sample_events). vm_compute. reflexivity. }
  split; [exact Hok|].
  assert (H0 : match conns sample_stub !! 0 with Some c => returned c | None => false end = true)
    by (vm_compute; reflexivity).
  destruct (conns sample_stub !! 0) as [c|] eqn:Hc; [|discriminate H0].
  destruct (Hend 0 c Hc H0 sample_stub (rtc_refl _ _)) as [_ Hno]. apply Hno.
Defined.
