(* ===== verification/Platform.v ===== *)
(** * The packages of the platform in one process

    Every package as the host's [Module], the way its New, Name, Prefixes and Routes give
    it (a package of the entity form is lib/entity's Module), and what composing them
    does: a process built of any of them, in any order, starts, and the order says
    nothing of how it serves. *)

From S2P Require Import Prelude.
From S2P Require Import GoStrings.
From S2P Require Import Problem.
From S2P Require Import Jwt.
From S2P Require Import Db.
From S2P Require Import Pgtx.
From S2P Require Import GoTime.
From S2P Require Import Http.
From S2P Require Import Mux.
From S2P Require Import Host.
From S2P Require Import Doer.
From S2P Require Import Decode.
From S2P Require Rest.
From S2P Require Entity.
From S2P Require Entities.
From S2P Require Admin.
From S2P Require Object.
From S2P Require Workflow.
From S2P Require Packages.
From S2P Require Caller.
From S2P Require Registry.
From S2P Require Client.

(** ** The packages *)

Section packages.
Context {DO : Doer} {T : Texts} (now : Time).

(** [entity.Module]. *)
Definition entity_module (e : Entity.Entity) : Module Rest.posting :=
  mkModule (Entity.Name e) [Entity.entity_Prefix e] (Entity.Routes e).

Definition admin_module : Module Rest.posting :=
  mkModule "admin" Admin.admin_Prefixes (Admin.userRoutes ++ Admin.collectionRoutes).
Definition object_module : Module Rest.posting :=
  mkModule "object" [Rest.Prefix Object.objects; Object.search_path]
    ((λ r, (r.1, Rest.lift r.2)) <$> Object.object_Routes).
Definition workflow_module : Module Rest.posting :=
  mkModule "workflow" Workflow.workflow_Prefixes Workflow.workflow_Routes.
Definition verification_module : Module Rest.posting :=
  mkModule "verification" ["/api/v2/verification"] Packages.Verification.Routes.
Definition log_module : Module Rest.posting :=
  mkModule "log" [Rest.Prefix Packages.Log.eventLog; Rest.Prefix Packages.Log.myLog] Packages.Log.Routes.
Definition kladr_module : Module Rest.posting :=
  mkModule "kladr" [Rest.Prefix Packages.Kladr.nodes] Packages.Kladr.Routes.
Definition error_module : Module Rest.posting :=
  mkModule "error" [Rest.Prefix (Rest.resource Packages.Errors.errors)] Packages.Errors.error_Routes.
Definition resource_module : Module Rest.posting :=
  mkModule "resource" [Rest.Prefix (Rest.resource Packages.Resources.resources)]
    Packages.Resources.resource_Routes.
Definition api_module : Module Rest.posting :=
  mkModule "api" [Rest.Prefix Packages.Api.apiLog] Packages.Api.api_Routes.
Definition current_module : Module Rest.posting :=
  mkModule "current" [Caller.Current.prefix] Caller.Current.current_Routes.
Definition notification_module : Module Rest.posting :=
  mkModule "notification" [Rest.Prefix Caller.Notification.notifications]
    (Caller.Notification.notification_Routes now).
Definition observer_module : Module Rest.posting :=
  mkModule "observer" [Caller.Observer.prefix] Caller.Observer.observer_Routes.
Definition registry_module : Module Rest.posting :=
  mkModule "registry" [Registry.Registry.prefix] Registry.Registry.registry_Routes.

Definition packages : list (Module Rest.posting) :=
  (entity_module <$> [Entities.reference; Entities.agent; Entities.program; Entities.vendor;
                      Entities.version; Entities.scheduler; Entities.job; Entities.message]) ++
  [admin_module; object_module; workflow_module; verification_module; log_module; kladr_module;
   error_module; resource_module; api_module; current_module; notification_module;
   observer_module; registry_module].
End packages.

(** ** Lemmas: the packages fit together *)

Definition path_of (pat : string) : string := (Cut pat " ").1.2.

(** What is checked of every package: its patterns are ones the mux takes, each lies
    on a prefix of the package, and the gateway takes the prefixes. *)
Definition sound_module {H} (m : Module H) : bool :=
  forallb (λ r, valid_pattern r.1 &&
                existsb (λ p, String.eqb p (path_of r.1) || under (path_of r.1) p) (module_Prefixes m))
    (Routes m)
  && forallb Client.prefix (module_Prefixes m) && negb (bool_decide (module_Prefixes m = [])).

(** No two of the patterns conflict. *)
Fixpoint no_conflict (l : list pattern) : bool :=
  match l with
  | [] => true
  | p :: l => forallb (λ q, negb (conflict p q) && negb (conflict q p)) l && no_conflict l
  end.

Lemma packages_sound {DO : Doer} {T : Texts} now : forallb sound_module (packages now) = true.
Proof. by vm_compute. Qed.

Lemma packages_prefixes {DO : Doer} {T : Texts} now : NoDup (packages now ≫= module_Prefixes).
Proof. apply (bool_decide_unpack _). by vm_compute. Qed.

Lemma packages_apart {DO : Doer} {T : Texts} now :
  no_conflict (parse_pattern <$> (packages now ≫= Routes).*1) = true.
Proof. by vm_compute. Qed.

Lemma conflict_refl p : conflict p p = true.
Proof. unfold conflict. by rewrite compareMethods_refl, shape_conflict. Qed.

Lemma no_conflict_spec (l : list string) : no_conflict (parse_pattern <$> l) = true →
  NoDup l ∧ ∀ p q, p ∈ l → q ∈ l → p ≠ q → conflict (parse_pattern p) (parse_pattern q) = false.
Proof.
  induction l as [|a l IH]; [split; [constructor|]; by intros ? ? ?%elem_of_nil|].
  rewrite fmap_cons. cbn [no_conflict]. intros [Ha Hl]%andb_true_iff. destruct (IH Hl) as [Hn Hc].
  assert (Hal : ∀ q, q ∈ l → conflict (parse_pattern a) (parse_pattern q) = false ∧
                             conflict (parse_pattern q) (parse_pattern a) = false).
  { intros q Hq. rewrite forallb_forall in Ha. specialize (Ha (parse_pattern q)).
    rewrite andb_true_iff, !negb_true_iff in Ha. apply Ha, list_elem_of_In, list_elem_of_fmap.
    by exists q. }
  split.
  - apply NoDup_cons. split; [|done]. intros Hin. destruct (Hal _ Hin) as [H _].
    by rewrite conflict_refl in H.
  - intros p q [->|Hp]%elem_of_cons [->|Hq]%elem_of_cons Hne; [done|by apply Hal|by apply Hal|by apply Hc].
Qed.

(** [New] takes modules whose prefixes are all different. *)
Lemma claims_ok name ps : ∀ owner : gmap string string, NoDup ps → (∀ p, p ∈ ps → owner !! p = None) →
  ∃ owner', foldM_res (claim name) ps owner = Ok owner' ∧
    ∀ p, p ∉ ps → owner' !! p = owner !! p.
Proof.
  induction ps as [|p ps IH]; intros owner Hn Ho; [by exists owner|].
  apply NoDup_cons in Hn as [Hp Hn]. cbn [foldM_res].
  assert (claim name owner p = Ok (<[p := name]> owner)) as -> by (unfold claim; by rewrite (Ho p) by left).
  cbn [mbind res_bind]. destruct (IH (<[p := name]> owner) Hn) as (o & -> & Hk).
  { intros q Hq. rewrite lookup_insert_ne by (by intros ->). apply Ho. by right. }
  exists o. split; [done|]. intros q Hq. rewrite Hk by (intros ?; apply Hq; by right).
  apply lookup_insert_ne. intros ->. apply Hq. by left.
Qed.

Lemma HandleFunc_all {H} (rs : list (string * H)) (m : mux H) :
  foldl (λ x r, HandleFunc r.1 r.2 x) m rs = m ++ rs.
Proof.
  revert m. induction rs as [|[p h] rs IH]; intros m; cbn [foldl]; [by rewrite app_nil_r|].
  rewrite IH. unfold HandleFunc. by rewrite <- app_assoc.
Qed.

Lemma compose_ok {H} (ms : list (Module H)) : ∀ (owner : gmap string string) (x : mux H),
  NoDup (ms ≫= module_Prefixes) → (∀ p, p ∈ ms ≫= module_Prefixes → owner !! p = None) →
  ∃ owner', foldM_res compose ms (owner, x) = Ok (owner', x ++ (ms ≫= Routes)).
Proof.
  induction ms as [|m ms IH]; intros owner x Hn Ho; [exists owner; cbn; by rewrite app_nil_r|].
  rewrite bind_cons in Hn, Ho. apply NoDup_app in Hn as (Hm & Hd & Hn). cbn [foldM_res].
  destruct (claims_ok (Name m) (module_Prefixes m) owner Hm) as (o & Hc & Hk).
  { intros p Hp. apply Ho, elem_of_app. by left. }
  assert (compose (owner, x) m = Ok (o, x ++ Routes m)) as ->
    by (unfold compose; cbn [fst snd]; by rewrite Hc, HandleFunc_all).
  cbn [mbind res_bind]. destruct (IH o (x ++ Routes m) Hn) as [o' Ho'].
  { intros p Hp. rewrite Hk by (intros ?; by eapply Hd). apply Ho, elem_of_app. by right. }
  exists o'. by rewrite bind_cons, app_assoc.
Qed.

Lemma NoDup_sub {A} (l k : list A) : l ⊆+ k → NoDup k → NoDup l.
Proof.
  intros [k' Hk]%submseteq_Permutation Hn. rewrite Hk in Hn. by apply NoDup_app in Hn as [? _].
Qed.

(** What the check of a package says. *)
Lemma sound_route {H} (m : Module H) r : sound_module m = true → r ∈ Routes m →
  valid_pattern r.1 = true ∧
  ∃ p, p ∈ module_Prefixes m ∧ (p = path_of r.1 ∨ under (path_of r.1) p = true).
Proof.
  unfold sound_module. rewrite !andb_true_iff, forallb_forall. intros [[Hv _] _] Hr.
  apply list_elem_of_In, Hv, andb_true_iff in Hr as [? He]. split; [done|].
  apply existsb_exists in He as (p & Hp & Ho). exists p. split; [by apply list_elem_of_In|].
  apply orb_true_iff in Ho as [->%String.eqb_eq|]; auto.
Qed.

Lemma sound_prefix {H} (m : Module H) : sound_module m = true →
  module_Prefixes m ≠ [] ∧ ∀ p, p ∈ module_Prefixes m → Client.prefix p = true.
Proof.
  unfold sound_module. rewrite !andb_true_iff, negb_true_iff, bool_decide_eq_false, !forallb_forall.
  intros [[_ Hp] Hne]. split; [done|]. intros p ?%list_elem_of_In. auto.
Qed.

Lemma claimed {H} (ms : list (Module H)) p :
  p ∈ concat (module_Prefixes <$> ms) ↔ ∃ m, m ∈ ms ∧ p ∈ module_Prefixes m.
Proof.
  induction ms as [|m ms IH]; [cbn; split; [by intros ?%elem_of_nil|by intros (m & ?%elem_of_nil & _)]|].
  cbn [fmap list_fmap concat]. rewrite elem_of_app, IH. setoid_rewrite elem_of_cons. naive_solver.
Qed.

(** What holds of the patterns of all holds of those of some. *)
Lemma registers_sub {H} (ms ps : list (Module H)) : ms ⊆+ ps →
  forallb sound_module ps = true → no_conflict (parse_pattern <$> (ps ≫= Routes).*1) = true →
  registers (ms ≫= Routes).
Proof.
  intros Hs Hv Hc. apply no_conflict_spec in Hc as [Hn Hc].
  assert (Hr : ms ≫= Routes ⊆+ ps ≫= Routes) by by rewrite Hs.
  split_and!.
  - apply Forall_forall. intros r (m & Hr' & Hm)%list_elem_of_bind.
    rewrite forallb_forall in Hv. apply (sound_route m); [|done].
    apply Hv, list_elem_of_In. by eapply elem_of_submseteq.
  - eapply NoDup_sub; [|exact Hn]. by rewrite Hr.
  - intros r r' Hin Hin' Hne.
    apply Hc; [apply list_elem_of_fmap; exists r|apply list_elem_of_fmap; exists r'|done];
      (split; [done|]); by eapply elem_of_submseteq.
Qed.

Section composed.
Context {H : Type} (ps : list (Module H)).
Context (Hv : forallb sound_module ps = true) (Hp : NoDup (ps ≫= module_Prefixes)).
Context (Hc : no_conflict (parse_pattern <$> (ps ≫= Routes).*1) = true).

Lemma composed_New (c : Config) ms : ms ≠ [] → ms ⊆+ ps →
  New c ms = Ok (mkHost c (ms ≫= Routes)) ∧ registers (ms ≫= Routes).
Proof.
  intros Hne Hs. split; [|by eapply registers_sub].
  destruct (compose_ok ms ∅ []) as [o Ho].
  { eapply NoDup_sub; [|exact Hp]. by rewrite Hs. }
  { intros p _. apply lookup_empty. }
  destruct ms; [done|]. exact (f_equal (λ x, acc ← x; Ok (mkHost c acc.2)) Ho).
Qed.

Lemma composed_Prefixes ms : ms ≠ [] → ms ⊆+ ps →
  Prefixes ms ≠ [] ∧ Forall (λ p, Client.prefix p = true) (Prefixes ms) ∧
  ∀ r, r ∈ ms ≫= Routes → ∃ p, p ∈ Prefixes ms ∧ (p = path_of r.1 ∨ under (path_of r.1) p = true).
Proof.
  intros Hne Hs. destruct (Prefixes_topmost ms) as (Hall & _ & Hcov).
  assert (Hsound : ∀ m, m ∈ ms → sound_module m = true).
  { intros m Hm. rewrite forallb_forall in Hv. apply Hv, list_elem_of_In. by eapply elem_of_submseteq. }
  split_and!.
  - destruct ms as [|m ms]; [done|]. destruct (sound_prefix m) as [Hm _]; [apply Hsound; left|].
    destruct (module_Prefixes m) as [|p ps'] eqn:Hpm; [done|]. destruct (Hcov p) as (q & Hq & _).
    { apply claimed. exists m. rewrite Hpm. split; left. }
    intros Hnil. rewrite Hnil in Hq. by apply elem_of_nil in Hq.
  - apply Forall_forall. intros p Hpp. apply Hall, claimed in Hpp as (m & Hm & Hpp).
    apply (sound_prefix m); [by apply Hsound|done].
  - intros r (m & Hr & Hm)%list_elem_of_bind.
    destruct (sound_route m r (Hsound m Hm) Hr) as (_ & p & Hpp & Hu).
    destruct (Hcov p) as (q & Hq & Hor); [apply claimed; by exists m|].
    exists q. split; [done|]. destruct Hor as [->|Hor]; [done|].
    destruct Hu as [<-|Hu]; [by right|]. right. by eapply under_trans.
Qed.
End composed.

(** The host asks the mux for nothing but what it finds. *)
Lemma gate_order {H} qe (h h' : host H) r w : registers (host_mux h) → host_mux h ≡ₚ host_mux h' →
  cfg h = cfg h' → gate qe h r w = gate qe h' r w.
Proof.
  intros Hr Hp Hc.
  assert (Hf : ∀ me e, find (host_mux h) me e = find (host_mux h') me e) by (intros; by apply find_order).
  unfold gate, dispatch, allowed. cbv zeta. rewrite Hc. destruct (_ || _); [done|].
  destruct (Verify _ _ _) as [claims|]; [|done]. cbn [fmap list_fmap list_fmap]. by rewrite !Hf.
Qed.

(** ** Properties *)

Section platform.
Context {DO : Doer} {T : Texts} (now : Time).

(** C13. Any of the packages, in any order, make a process: [New] takes them, none of
    their patterns makes the mux panic, and the gateway client takes the prefixes the
    process announces, on which every route of it lies. *)
Theorem platform_composes (c : Config) ms : ms ≠ [] → ms ⊆+ packages now → ∃ h,
  New c ms = Ok h ∧ cfg h = c ∧ host_mux h = ms ≫= Routes ∧ registers (host_mux h) ∧
  Prefixes ms ≠ [] ∧ Forall (λ p, Client.prefix p = true) (Prefixes ms) ∧
  ∀ r, r ∈ host_mux h → ∃ p, p ∈ Prefixes ms ∧ (p = path_of r.1 ∨ under (path_of r.1) p = true).
Proof.
  intros Hne Hs. exists (mkHost c (ms ≫= Routes)). cbn [cfg host_mux].
  destruct (composed_New _ (packages_sound now) (packages_prefixes now) (packages_apart now) c ms Hne Hs)
    as [HN Hr]. split; [exact HN|]. split; [reflexivity|]. split; [reflexivity|]. split; [exact Hr|].
  exact (composed_Prefixes _ (packages_sound now) ms Hne Hs).
Qed.

(** C32. The order of the modules says nothing of how a process serves: composed of the
    same packages in another order, the host answers every request the same way or
    gives it to the same handler with the same session and the same path values. *)
Theorem order_irrelevant (c : Config) ms ms' h h' qe r w : ms ⊆+ packages now → ms ≡ₚ ms' →
  New c ms = Ok h → New c ms' = Ok h' → gate qe h r w = gate qe h' r w.
Proof.
  intros Hs Hp Hh Hh'. assert (Hne : ms ≠ []) by by intros ->.
  assert (Hne' : ms' ≠ []) by by intros ->.
  assert (Hs' : ms' ⊆+ packages now) by by rewrite <- Hp.
  destruct (composed_New _ (packages_sound now) (packages_prefixes now) (packages_apart now) c ms Hne Hs)
    as [HN Hr].
  destruct (composed_New _ (packages_sound now) (packages_prefixes now) (packages_apart now) c ms' Hne' Hs')
    as [HN' _].
  rewrite HN in Hh. rewrite HN' in Hh'. injection Hh as <-. injection Hh' as <-.
  apply gate_order; [exact Hr| |reflexivity]. cbn [host_mux]. by rewrite Hp.
Qed.
End platform.

(** ** Witnesses *)

Definition sample_now : Time := mkTime 2026 1 2 3 4 5 0 0.

Definition sample_config : Config := cfg sample_host.

Definition two_modules : list (Module Rest.posting) :=
  [log_module (T := plain_texts); api_module (T := plain_texts)].

Lemma two_modules_sub : two_modules ⊆+ packages (T := plain_texts) sample_now.
Proof.
  apply sublist_submseteq. unfold packages, two_modules. cbn [fmap list_fmap app].
  do 12 apply sublist_cons. apply sublist_skip. do 3 apply sublist_cons. apply sublist_skip.
  apply sublist_nil_l.
Qed.

Lemma platform_composes_witness : two_modules ≠ [] ∧ ∃ h, New sample_config two_modules = Ok h ∧
  registers (host_mux h) ∧ length (host_mux h) = 7.
Proof.
  split; [discriminate|].
  destruct (platform_composes (T := plain_texts) sample_now sample_config two_modules ltac:(discriminate)
    two_modules_sub) as (h & HN & _ & Hm & Hr & _).
  exists h. split; [exact HN|]. split; [exact Hr|]. rewrite Hm. reflexivity.
Defined.

Lemma order_irrelevant_witness :
  let h := mkHost sample_config (two_modules ≫= Routes) in
  let h' := mkHost sample_config (reverse two_modules ≫= Routes) in
  New sample_config two_modules = Ok h ∧ New sample_config (reverse two_modules) = Ok h' ∧
  gate (λ _, EmptyString) h (sample_get EmptyString EmptyString) new_writer =
  gate (λ _, EmptyString) h' (sample_get EmptyString EmptyString) new_writer.
Proof.
  cbv zeta. assert (H1 : New sample_config two_modules = Ok (mkHost sample_config (two_modules ≫= Routes)))
    by reflexivity.
  assert (H2 : New sample_config (reverse two_modules) =
    Ok (mkHost sample_config (reverse two_modules ≫= Routes))) by reflexivity.
  split; [exact H1|]. split; [exact H2|].
  apply (order_irrelevant (T := plain_texts) sample_now sample_config two_modules (reverse two_modules));
    [exact two_modules_sub|symmetry; apply reverse_Permutation|exact H1|exact H2].
Defined.
