(* ===== verification/Transact.v ===== *)
(** * One request, one transaction

    The database's side and the client's side of a request together, over [pgtx.Runner]: a
    handler runs its program in at most one transaction, and what the client is told is
    what became of it.  [transacts] is that shape of a handler, kept by the handlers of
    lib/rest; [transacts_run] says what it means over a database that keeps its
    promises.  Process has the packages. *)

From S2P Require Import Prelude.
From S2P Require Import GoStrings.
From S2P Require Import GoJson.
From S2P Require Import Problem.
From S2P Require Import Db.
From S2P Require Import Pgtx.
From S2P Require Import PgtxLaws.
From S2P Require Import Http.
From S2P Require Import Decode.
From S2P Require Import Doer.
From S2P Require Import Rest.
From S2P Require Import Asks.
From S2P Require Import RestLaws.

(** ** Programs that do not go on after a statement failed *)

(** An error as the driver of the database gives it: neither "no row" nor a problem. *)
Definition hard (e : error) : Prop := is_ErrNoRow e = false ∧ as_problem e = None.

(** After a statement that failed the result is such an error. *)
Fixpoint hardly {A} (p : prog (res error A * road)) (failed : bool) : Prop :=
  match p with
  | Ret r => failed = true → match r.1 with Ok _ => False | Err e => hard e end
  | Op o k => ∀ x, (∀ e, x = Err e → hard e) → hardly (k x) (failed || negb (is_ok x))
  end.

Definition strict {A} (m : M (res error A)) : Prop := ∀ s, hardly (m s) false.

Lemma hardly_bind {A B} (p : prog (res error A * road)) (f : res error A → M (res error B)) :
  (∀ x, strict (f x)) → (∀ e s, hard e → hardly (f (Err e) s) true) →
  ∀ failed, hardly p failed → hardly (prog_bind p (λ '(x, s), f x s)) failed.
Proof.
  intros Hf He. induction p as [[x s]|o k IH]; intros failed; cbn.
  - destruct failed; [|intros _; apply Hf]. intros H. specialize (H eq_refl).
    destruct x as [a|e]; [done|]. by apply He.
  - intros H x Hx. by apply IH, H.
Qed.

Lemma strict_bind {A B} (m : M (res error A)) (f : res error A → M (res error B)) :
  strict m → (∀ x, strict (f x)) → (∀ e s, hard e → hardly (f (Err e) s) true) → strict (m ≫= f).
Proof. intros Hm Hf He s. by apply hardly_bind. Qed.

Lemma strict_ret {A} (x : res error A) : strict (mret x).
Proof. by intros s. Qed.

(** A step that asks nothing. *)
Lemma strict_silent {A B} (m : M A) (f : A → M (res error B)) :
  (∀ s, ∃ a s', m s = Ret (a, s')) → (∀ a, strict (f a)) → strict (m ≫= f).
Proof.
  intros Hm Hf s. destruct (Hm s) as (a & s' & Ha). unfold mbind, M_bind. rewrite Ha. apply Hf.
Qed.

Lemma strict_Call h fn args : strict (Call h fn args).
Proof.
  assert (Hop : ∀ o s, hardly ((x ← call o; mret (scan_rows x) : M (res error (list row))) s) false).
  { intros o s [rows|e] Hx; [done|]. intros _. by apply Hx. }
  unfold Call, callDaemon. intros s. destruct (onDaemonRoad h).
  - do 3 (match goal with |- hardly ((if ?b then _ else _) _) _ => destruct b; [done|] end).
    destruct (args_json args); [apply Hop|done].
  - destruct (callSQL fn args) as [[sql vals]|e]; [apply Hop|done].
Qed.

Lemma strict_rows h sql args : strict (Rows h sql args).
Proof. intros s [rows|e] Hx; [done|]. intros _. by apply Hx. Qed.

(** The error goes on as it is, whatever its kind is looked at for. *)
Ltac hardened :=
  let H1 := fresh in let H2 := fresh in
  intros ? ? [H1 H2]; cbn; rewrite ?H1, ?H2; intros _; (split; assumption).

#[export] Hint Resolve strict_ret strict_Call strict_rows : platform.

Lemma strict_then {A B} (m : M (res error A)) (k : A → M (res error B)) :
  strict m → (∀ a, strict (k a)) → strict (then_ m k).
Proof. intros Hm Hk. unfold then_. apply strict_bind; [done|by intros [a|e]; auto with platform|hardened]. Qed.
#[export] Hint Resolve strict_then : platform.

Lemma strict_CallRow h fn args : strict (CallRow h fn args).
Proof. unfold CallRow. apply strict_bind; [auto with platform..|hardened]. Qed.
#[export] Hint Resolve strict_CallRow : platform.

Lemma strict_CallScalar {A} (dec : string → option A) h fn args : strict (CallScalar dec h fn args).
Proof. unfold CallScalar. apply strict_bind; [auto with platform..|hardened]. Qed.

Lemma strict_Call_ h fn args : strict (Call_ h fn args).
Proof. unfold Call_. auto with platform. Qed.

Lemma strict_GetRow rs h id : strict (GetRow rs h id).
Proof. unfold GetRow. apply strict_bind; [auto with platform..|hardened]. Qed.
#[export] Hint Resolve strict_CallScalar strict_Call_ strict_GetRow : platform.

Lemma strict_on_visible {A} rs h id (m : M (res error A)) : strict m → strict (on_visible rs h id m).
Proof. intros Hm. unfold on_visible. auto with platform. Qed.

Lemma strict_list_rows rs search orderby limit offset fields h :
  strict (list_rows rs search orderby limit offset fields h).
Proof.
  unfold list_rows. apply strict_bind; [auto with platform| |hardened].
  intros [total|e]; [|auto with platform]. apply strict_bind; [auto with platform..|hardened].
Qed.

Lemma strict_create wr st h : strict (create wr st h).
Proof.
  unfold create. destruct (is_empty _); [auto with platform|].
  apply strict_bind; [auto with platform| |hardened]. intros [out|e]; [|auto with platform].
  destruct (created_id _); [|auto with platform]. apply strict_bind; [auto with platform..|hardened].
Qed.
#[export] Hint Resolve strict_on_visible strict_list_rows strict_create : platform.

(** A database whose errors are its own. *)
Class OwnErrors {D} (drv : driver D) := own_errors d o e d' : drv d o = (Err e, d') → hard e.

(** A result means that no statement failed. *)
Lemma hardly_result {A D} (drv : driver D) {HL : TxLaws drv} {HE : OwnErrors drv} h
    (p : prog (res error A * road)) : on h = Tx 0 → only (on_tx h) p → ∀ failed d,
  hardly p failed → (failed = false → aborted d 0 = false) →
  is_ok (run drv p d).1.1.1 = true → aborted (run drv p d).2 0 = false.
Proof.
  intros Hh. induction p as [[x s]|o k IH]; intros Ho failed d; cbn.
  - intros Hx Hd. destruct x as [a|e]; [|done]. intros _. apply Hd. destruct failed; [by destruct Hx|done].
  - intros Hx Hd. cbn in Ho. destruct Ho as [(c & sql & args & ->) Ho]. rewrite Hh in *.
    destruct (drv d _) as [x d1] eqn:Hq.
    assert (Hk : hardly (k x) (failed || negb (is_ok x))).
    { apply Hx. intros e ->. by eapply HE. }
    specialize (IH x (Ho x) _ d1 Hk). destruct (run drv (k x) d1) as [[r t] d2]. cbn in *. apply IH.
    intros [Hf Hx1]%orb_false_iff. apply law_query in Hq as (_ & _ & Hok & _).
    destruct x as [rows|e]; [|done]. by apply Hok.
Qed.

(** ** A handler over the runner *)

(** The answer is a problem. *)
Definition problem_sent (r : Http.Request) (w' : ResponseWriter) : Prop :=
  ∃ p w1, w_status w1 = None ∧ w' = Write p (Some r) w1.

Lemma fail_problem r e w : w_status w = None → problem_sent r (Fail r e w).
Proof. intros Hw. by eexists _, w. Qed.

(** What a handler does: it refuses before the database, or runs one program that only asks on
    its transaction; an error of the transaction is answered with a problem, a result that
    left the status [code] with an answer that is [ok] for it. *)
Inductive transacts (ok : Z → ResponseWriter → Prop) (r : Http.Request) : M ResponseWriter → Prop :=
  | refused_early w' : problem_sent r w' → transacts ok r (mret w')
  | in_transaction {A} ss req (fn : handle → M (res error A)) (code : A → Z)
      (answer : res error A → M ResponseWriter) w1 :
      (∀ h, asks h (fn h)) → (∀ h, strict (fn h)) →
      (∀ h s, req_status s = Pgtx.Status req →
         post (fn h s) (λ x, ∀ a, x.1 = Ok a → req_status x.2 = code a)) →
      (∀ a, (0 < code a)%Z) →
      w_status w1 = None → (∀ x s, ∃ w', answer x s = Ret (w', s)) →
      (∀ e s, answer (Err e) s = Ret (Fail r e w1, s)) →
      (∀ a s, req_status s = code a → ∃ w', answer (Ok a) s = Ret (w', s) ∧ ok (code a) w') →
      transacts ok r (x ← Do ss req fn; answer x).

(** A request that ended without a trace of the handler's work. *)
Definition refused_of {D} (drv : driver D) {HL : TxLaws drv} (d d' : D) : Prop :=
  ∃ l, durable d' = durable d ++ l ∧ Forall road_statement l.

(** A request that was served with the result [a] under the status [z]: durable are the statement
    that authorized it, every successful statement of the one run of the handler's program that
    gave [a], and the journal line of [z] where the database journals. *)
Definition served_of {A D} (drv : driver D) {HL : TxLaws drv} (fn : handle → M (res error A))
    (st : road) (a : A) (z : Z) (d d' : D) : Prop :=
  ∃ first h s1 d1 s2 t2 d2 journal,
    run drv (fn h s1) d1 = (Ok a, s2, t2, d2) ∧ on h = Tx 0 ∧ road_statement first ∧
    durable d' = durable d ++ first :: done_ops t2 ++ journal ∧
    let f := features (runner st) in
    if Daemon f || LogRequest f then ∃ o, journal = [o] ∧ journal_line z o else journal = [].

(** The handler [m] is the transaction of the program [fn], which only asks on it, and an answer
    made of what it gave without the database. *)
Definition runs {A} (m : M ResponseWriter) ss req (fn : handle → M (res error A))
    (answer : res error A → M ResponseWriter) : Prop :=
  m = (x ← Do ss req fn; answer x) ∧ (∀ h, asks h (fn h)) ∧ ∀ x s, ∃ w', answer x s = Ret (w', s).

(** Both of a handler's sides: it refused without the database; or its transaction gave an error, the
    answer to it is a problem and the handler's program left no trace; or it gave a
    result, and the program that gave it is what is durable. *)
Definition accounted {D} (drv : driver D) {HL : TxLaws drv} (ok : Z → ResponseWriter → Prop)
    (r : Http.Request) (m : M ResponseWriter) (st : road) (d d' : D) (w' : ResponseWriter) : Prop :=
  m = mret w' ∧ problem_sent r w' ∧ d' = d ∨
  ∃ A ss req (fn : handle → M (res error A)) answer s, runs m ss req fn answer ∧
    ((∃ e, answer (Err e) s = Ret (w', s)) ∧ problem_sent r w' ∧ refused_of drv d d' ∨
     ∃ a z, answer (Ok a) s = Ret (w', s) ∧ ok z w' ∧ served_of drv fn st a z d d').

(** A handler opens one transaction at most. *)
Lemma transacts_opens ok r m st : transacts ok r m → opens (m st).
Proof.
  intros [w' Hw|A ss req fn code answer w1 Hask _ _ _ _ Hans _ _]; [done|].
  apply opens_bind; [|intros x s; destruct (Hans x s) as [w' ->]; by eexists].
  apply Do_opens. intros h s Hh. eapply only_mono; [|apply (Hask h s)].
  intros o (c & sql & args & ->). rewrite Hh. by repeat eexists.
Qed.

Lemma Status_request s req : Pgtx.Status <$> request s = Some (Pgtx.Status req) →
  req_status s = Pgtx.Status req.
Proof. unfold req_status. destruct (request s) as [q|]; [|done]. cbn. by intros [= ->]. Qed.

Lemma status_req s z : req_status s = z → (0 < z)%Z → status (request s) = z.
Proof.
  unfold req_status, status. destruct (request s) as [q|]; cbn [from_option]; [|lia]. intros <- Hz.
  destruct (_ =? 0)%Z eqn:H0; [|done]. apply Z.eqb_eq in H0. lia.
Qed.

Section run.
Context {D : Type} (drv : driver D) {HL : TxLaws drv}.

(** The transaction itself. *)
Lemma Do_accounted {A} ss req (fn : handle → M (res error A)) (code : A → Z) st d :
  (∀ h, asks h (fn h)) →
  (∀ h s, req_status s = Pgtx.Status req →
     post (fn h s) (λ x, ∀ a, x.1 = Ok a → req_status x.2 = code a)) →
  (∀ a, (0 < code a)%Z) →
  wp drv (Do ss req fn st) d (λ '(x, s) d',
    match x with
    | Err e => refused_of drv d d'
    | Ok a => req_status s = code a ∧ served_of drv fn st a (code a) d d'
    end).
Proof.
  intros Hask Hcode Hpos.
  assert (Hfn : ∀ h s, on h = Tx 0 → only (queries 0) (fn h s)).
  { intros h s Hh. eapply only_mono; [|apply (Hask h s)]. intros o (c & sql & args & ->). rewrite Hh. by repeat eexists. }
  cbn. rewrite modify_bind. set (s0 := mkRoad (runner st) (Some req)).
  assert (Href : wp drv (Pgtx.Do ss fn s0) d (λ '(r, _) d', refused drv d r d')).
  { unfold Pgtx.Do. rewrite get_bind. destruct (Daemon _);
      [by apply wp_doDaemon_refused|by apply wp_doDirect_refused]. }
  assert (Hsrv : wp drv (Pgtx.Do ss fn s0) d (λ '(r, _) d', served drv fn s0 d r d')).
  { unfold Pgtx.Do. rewrite get_bind. destruct (Daemon _) eqn:Hr;
      [by apply served_doDaemon|by apply served_doDirect]. }
  assert (Hend : post (Pgtx.Do ss fn s0) (λ r, match r.1 with
                     | Ok a => req_status r.2 = code a | Err _ => True end)).
  { pose proof (do_post ss req fn st (λ a z, z = code a)) as H. cbn in H. rewrite modify_bind in H.
    eapply post_mono; [|apply H]; [by intros [[a|e] s]|]. intros h s Hs.
    eapply post_mono; [|by apply Hcode]. intros [x s'] Hx a Ha. by apply Hx. }
  apply (post_run drv _ d) in Hend. unfold wp in *.
  destruct (run drv (Pgtx.Do ss fn s0) d) as [[[x s'] t] d']. cbn [fst snd] in Hend.
  destruct x as [a|e]; [|exact Href]. split; [exact Hend|].
  destruct Hsrv as (first & h & s1 & d1 & s2 & t2 & d2 & journal & Hrun & Hh & Hst & Hfirst & Hd' & Hj & Hnj).
  exists first, h, s1, d1, s2, t2, d2, journal. split; [exact Hrun|]. split; [exact Hh|].
  split; [exact Hfirst|]. split; [exact Hd'|].
  assert (Hz : status (request s2) = code a).
  { pose proof (Hcode h s1) as Hs. specialize (Hs (Status_request s1 req Hst)).
    apply (post_run drv _ d1) in Hs. rewrite Hrun in Hs. specialize (Hs a eq_refl). cbn in Hs.
    apply status_req; [exact Hs|apply Hpos]. }
  rewrite Hz in Hj. cbv zeta. destruct (Daemon _ || LogRequest _) eqn:Hf.
  - apply Hj. apply orb_true_iff in Hf as [Hf|Hf]; [by left|right]. split; [done|by eexists].
  - apply Hnj. apply orb_false_iff in Hf as [Hf1 Hf2]. intros [H|[H _]]; cbn in H; congruence.
Qed.

(** What the shape means: the answer and the database agree. *)
Lemma transacts_run ok r m : transacts ok r m → ∀ st d,
  wp drv (m st) d (λ '(w', _) d', accounted drv ok r m st d d' w').
Proof.
  intros [w' Hw|A ss req fn code answer w1 Hask _ Hcode Hpos Hw1 Hans Herr Hok] st d.
  - apply wp_ret. by left.
  - apply wp_mbind. eapply wp_mono; [|by apply Do_accounted].
    intros [[a|e] s] d'; cbn.
    + intros [Hs Hsrv]. destruct (Hok a s Hs) as (w' & Hx & Hw'). rewrite Hx. apply wp_ret. right.
      exists A, ss, req, fn, answer, s. split; [done|]. right. by exists a, (code a).
    + intros Href. rewrite Herr. apply wp_ret. right. exists A, ss, req, fn, answer, s. split; [done|].
      left. split; [by exists e|]. split; [by apply fail_problem|done].
Qed.

(** The handler refused, and asked nothing of the database; or the journal has the request with a status
    the answer is [ok] for. *)
Definition on_record (ok : Z → ResponseWriter → Prop) (r : Http.Request) (m : M ResponseWriter) (st : road)
    (d d' : D) (w' : ResponseWriter) : Prop :=
  m = mret w' ∧ problem_sent r w' ∧ d' = d ∨
  ∃ z, in_journal drv (Daemon (features (runner st))) z d d' ∧ ok z w'.

Lemma good_of {A} {HE : OwnErrors drv} (fn : handle → M (res error A)) :
  (∀ h, asks h (fn h)) → (∀ h, strict (fn h)) → good_handler drv fn.
Proof.
  intros Hask Hst. split.
  - intros h s Hh. eapply only_mono; [|apply (Hask h s)].
    intros o (c & sql & args & ->). rewrite Hh. by repeat eexists.
  - intros h s. apply Hask.
  - intros h s d a s' t d' Hh Hab Hrun.
    pose proof (hardly_result drv h (fn h s) Hh (proj1 (Hask h s)) false d (Hst h s) (λ _, Hab)) as H.
    rewrite Hrun in H. by apply H.
Qed.

(** On a database whose errors are its own and which journals, the journal has what the client got. *)
Lemma transacts_recorded {HE : OwnErrors drv} ok r m : transacts ok r m →
  (∀ e w, w_status w = None → ok (refusal_status e).1 (Fail r e w)) → ∀ st d,
  JournalWorks drv (Daemon (features (runner st))) →
  Daemon (features (runner st)) || LogRequest (features (runner st)) = true →
  wp drv (m st) d (λ '(w', _) d', on_record ok r m st d d' w').
Proof.
  intros [w' Hw|A ss req fn code answer w1 Hask Hst Hcode Hpos Hw1 _ Herr Hok] Hfail st d HW Hj.
  - apply wp_ret. by left.
  - apply wp_mbind. pose proof (Do_accounted ss req fn code st d Hask Hcode Hpos) as Hacc.
    assert (Hrec : wp drv (Do ss req fn st) d
                     (λ '(x, _) d', recorded drv (daemon := Daemon (features (runner st))) d x d')).
    { cbn. rewrite modify_bind. apply (wp_Do_recorded drv ss fn); [by apply good_of|done| |by eexists].
      apply orb_true_iff in Hj as [Hj|Hj]; [by left|right]. split; [done|by eexists]. }
    unfold wp in Hacc, Hrec |- * at 1. destruct (run drv (Do ss req fn st) d) as [[[x s] t] d'].
    destruct x as [a|e].
    + destruct Hacc as [Hs (first & h & s1 & d1 & s2 & t2 & d2 & journal & _ & _ & _ & Hd' & Hl)].
      cbv zeta in Hl. rewrite Hj in Hl.
      destruct Hl as (o & -> & Ho). destruct (Hok a s Hs) as (w' & -> & Hw'). apply wp_ret. right.
      exists (code a). split; [|exact Hw']. left. exists (first :: done_ops t2), o. by split.
    + rewrite Herr. apply wp_ret. right. exists (refusal_status e).1. split; [exact Hrec|]. by apply Hfail.
Qed.
End run.

(** ** The handlers of lib/rest *)

(** The answer carries the status. *)
Definition sent (z : Z) (w' : ResponseWriter) : Prop := sent_status w' = Some z.

Definition handled (ok : Http.Request → Z → ResponseWriter → Prop) (hd : handler) : Prop :=
  ∀ r ss w, w_status w = None → transacts (ok r) r (hd r ss w).

(** The row is the one the client holds. *)
Definition row_code (r : Http.Request) (rw : row) : Z :=
  if negb (is_empty (ETagOf rw)) && String.eqb (hdr_get (ReqHeader r) "If-None-Match") (ETagOf rw)
  then 304 else 200.

Section rest.
Context {T : Texts}.

Lemma fail_transacts ok r e w : w_status w = None → transacts ok r (mret (Fail r e w)).
Proof. intros Hw. by apply refused_early, fail_problem. Qed.

(** A handler that answers what its transaction gave. *)
Lemma answer_transacts {A} ok ss req (fn : handle → M (res error A)) (k : res error A → ResponseWriter) r w :
  w_status w = None → (∀ h, asks h (fn h)) → (∀ h, strict (fn h)) → (∀ h, keeps (fn h)) →
  (0 < Pgtx.Status req)%Z →
  (∀ e, k (Err e) = Fail r e w) → (∀ a, ok (Pgtx.Status req) (k (Ok a))) →
  transacts ok r (x ← Do ss req fn; mret (k x)).
Proof.
  intros Hw Hask Hst Hk Hpos Herr Hok.
  apply (in_transaction _ _ ss req fn (λ _, Pgtx.Status req) (λ x, mret (k x)) w); [done|done| |done|done|..].
  - intros h s Hs. eapply post_mono; [|apply Hk]. intros [x s'] Hx a _. cbn in *. by subst.
  - intros x s. by eexists.
  - intros e s. by rewrite Herr.
  - intros a s _. by eexists.
Qed.

(** A row's handler. *)
Lemma row_transacts (ok : Z → ResponseWriter → Prop) ss req (read : handle → M (res error row)) f (answer : row → ResponseWriter) r w :
  w_status w = None → Pgtx.Status req = 200%Z → (∀ h, asks h (read h)) → (∀ h, strict (read h)) →
  (∀ h, keeps (read h)) → (∀ e, hard e → f e = e) →
  (∀ rw, ok 200%Z (answer rw)) → (∀ rw, ok 304%Z (WriteHeader 304 (SetETag rw w))) →
  transacts ok r (
    x ← Do ss req (λ h, rw ← read h;
                        match rw with
                        | Err e => mret (Err (f e))
                        | Ok rw => not_modified r rw;; mret (Ok rw)
                        end);
    match x with
    | Err e => mret (Fail r e w)
    | Ok rw => st ← get; let w := SetETag rw w in
               mret (if (req_status st =? 304)%Z then WriteHeader 304 w else answer rw)
    end).
Proof.
  intros Hw Hreq Hask Hst Hk Hf Hok Hnot. apply (in_transaction _ _ ss req _ (row_code r) _ w).
  - intros h. apply asks_bind; [done|]. intros [rw|e]; auto with platform.
  - intros h. apply strict_bind; [done| |].
    + intros [rw|e]; [|auto with platform]. apply strict_silent; [|auto with platform].
      intros s. unfold not_modified. destruct (_ && _); by do 2 eexists.
    + intros e s He _. cbn. by rewrite Hf.
  - intros h s Hs. apply post_mbind. eapply post_mono; [|apply Hk].
    intros [[rw|e] s'] Hs'; cbn in Hs'; subst s'; [|done].
    apply post_mbind. unfold not_modified. destruct (_ && _) eqn:Hc; cbn; intros a [= <-];
      unfold row_code; rewrite Hc; [|congruence].
    revert Hs. unfold req_status. cbn. rewrite Hreq. by destruct (request s).
  - intros rw. unfold row_code. by destruct (_ && _).
  - done.
  - intros [rw|e] s; cbn; by eexists.
  - done.
  - intros rw s. unfold row_code. destruct (_ && _); intros Hs; (eexists; split; [done|]); rewrite Hs; cbn; auto.
Qed.

Lemma rows_answer_handled {B} ok (args : Http.Request → res error B) read :
  (∀ h a, asks h (read h a)) → (∀ h a, strict (read h a)) → (∀ h a, keeps (read h a)) →
  (∀ r w b, w_status w = None → ok r 200%Z (WriteJSON 200 b w)) → handled ok (rows_answer args read).
Proof.
  intros Hask Hst Hk Hok r ss w Hw. unfold rows_answer. destruct (args r); [|by apply fail_transacts].
  apply (answer_transacts _ ss _ _ _ r w); [done|auto..|done|done|]. intros rows. by apply Hok.
Qed.

Lemma rowHandler_handled {B} (args : Http.Request → res error B) read fields :
  (∀ h a, asks h (read h a)) → (∀ h a, strict (read h a)) → (∀ h a, keeps (read h a)) →
  handled (λ _, sent) (rowHandler args read fields).
Proof.
  intros Hask Hst Hk r ss w Hw. unfold rowHandler. destruct (_ ≫= _) as [[a cut]|e]; [|by apply fail_transacts].
  apply (row_transacts _ ss _ (λ h, read h a) (λ e, if is_ErrNoRow e then not_found else e));
    [done|done|auto..|by intros e [He _]; cbv beta; rewrite He| |].
  - intros rw. apply WriteJSON_status. by rewrite SetETag_status.
  - intros rw. by apply header_304.
Qed.
End rest.

Lemma sent_json z b w : w_status w = None → sent z (WriteJSON z b w).
Proof. apply WriteJSON_status. Qed.

Lemma sent_row z b rw w : w_status w = None → sent z (WriteJSON z b (SetETag rw w)).
Proof. intros Hw. apply WriteJSON_status. by rewrite SetETag_status. Qed.

Lemma sent_at (b : bool) k v z body w : w_status w = None →
  sent z (WriteJSON z body (if b then SetHeader k v w else w)).
Proof. intros Hw. apply WriteJSON_status. by destruct b. Qed.

Lemma sent_new (b : bool) k v z body rw w : w_status w = None →
  sent z (WriteJSON z body (SetETag rw (if b then w else SetHeader k v w))).
Proof. intros Hw. apply sent_row. by destruct b. Qed.

Lemma sent_nothing z w : w_status w = None → sent z (WriteHeader z w).
Proof. intros Hw. unfold sent, sent_status. by rewrite WriteHeader_sent. Qed.

(** A problem carries its status, and the journal's. *)
Lemma sent_refusal r e w : w_status w = None → sent (refusal_status e).1 (Fail r e w).
Proof.
  intros Hw. unfold Fail, refusal_status. destruct (as_problem e) as [p|].
  - by destruct (Write_headers p (Some r) w Hw) as [H _].
  - by destruct (Write_headers internal_error (Some r) w Hw) as [H _].
Qed.

#[export] Hint Resolve sent_json sent_row sent_at sent_new sent_nothing : platform.

(** A program that only asks, and leaves the request alone. *)
Ltac quiet :=
  first
  [ by auto with platform
  | match goal with
    | |- strict (match ?x with _ => _ end) => destruct x; quiet
    | |- strict (_ ≫= _) => apply strict_bind; [quiet|intros; quiet|hardened]
    | |- strict (then_ _ _) => apply strict_then; [quiet|intros; quiet]
    | |- strict (on_visible _ _ _ _) => apply strict_on_visible; quiet
    | |- asks _ (match ?x with _ => _ end) => destruct x; quiet
    | |- keeps (match ?x with _ => _ end) => destruct x; quiet
    | |- asks _ (_ ≫= _) => apply asks_bind; [quiet|intros; quiet]
    | |- keeps (_ ≫= _) => apply keeps_bind; [quiet|intros; quiet]
    | |- asks _ (then_ _ _) => apply asks_then; [quiet|intros; quiet]
    | |- keeps (then_ _ _) => apply keeps_then; [quiet|intros; quiet]
    | |- asks _ (on_visible _ _ _ _) => apply asks_on_visible; quiet
    | |- keeps (on_visible _ _ _ _) => apply keeps_on_visible; quiet
    end ].

(** A handler that answers once its arguments are taken: the cases of the arguments, then
    [answer_transacts] with the hints for the program and the answer. *)
Ltac answered :=
  match goal with
  | |- transacts _ _ (mret (Fail _ _ _)) => by apply fail_transacts
  | Hw : w_status ?w = None |- transacts _ ?r (Do ?ss _ _ ≫= _) =>
      eapply (answer_transacts _ ss _ _ _ r w); [exact Hw|..];
        [intro; quiet|intro; quiet|intro; quiet|done|done|
         intro; repeat case_match; cbn [Pgtx.Status ReqOf]; auto with platform]
  end.

Section writable.
Context {T : Texts}.

Lemma list_answer_handled rs params search : handled (λ _, sent) (list_answer rs params search).
Proof.
  intros r ss w Hw. unfold list_answer. destruct (Query.JSONArgs _) as [[? orderby] ?]. answered.
Qed.

Lemma List_handled rs : handled (λ _, sent) (List rs).
Proof. intros r ss w Hw. unfold List. destruct (Query.Parse _); [by apply list_answer_handled|answered]. Qed.

Lemma Get_handled rs : handled (λ _, sent) (Get rs).
Proof.
  intros r ss w Hw. unfold Get. destruct (resource_id rs r) as [id|e]; [|answered].
  apply (row_transacts _ ss _ (λ h, GetRow rs h id) (λ e, e)); [done|done|auto with platform..|done| |].
  - intros rw. by apply sent_row.
  - intros rw. by apply header_304.
Qed.

Lemma created_handled wr raw st : handled (λ _, sent) (created wr raw st).
Proof. intros r ss w Hw. unfold created. answered. Qed.

Lemma Update_handled wr : handled (λ _, sent) (Update wr).
Proof.
  intros r ss w Hw. unfold Update. destruct (update_args wr r) as [[[id raw] b]|e]; answered.
Qed.

Lemma Delete_handled wr : handled (λ _, sent) (Delete wr).
Proof. intros r ss w Hw. unfold Delete. destruct (resource_id _ r); answered. Qed.

Lemma rows_of_visible_handled rs fn key : handled (λ _, sent) (rows_of_visible rs fn key).
Proof. apply rows_answer_handled; auto with platform. Qed.
End writable.

(** ** lib/rest: the access form *)

Section access.
Context {T : Texts}.

Lemma access_list_handled a : handled (λ _, sent) (access_list a).
Proof. apply rows_answer_handled; auto with platform. Qed.

Lemma access_decode_handled a : handled (λ _, sent) (access_decode a).
Proof. intros r ss w Hw. unfold access_decode. destruct (decode_args r) as [[id user]|]; answered. Qed.

(** A grant that is calls and nothing else. *)
Definition calls_only (a : Access) : Prop :=
  ∀ h id b, asks h (access_Set a h id b) ∧ strict (access_Set a h id b) ∧ keeps (access_Set a h id b).

Lemma access_put_handled a : calls_only a → handled (λ _, sent) (access_put a).
Proof.
  intros Ha r ss w Hw. unfold access_put. destruct (access_args a r) as [[[id raw] b]|]; [|answered].
  assert (Hask : ∀ h id b, asks h (access_Set a h id b)) by apply Ha.
  assert (Hst : ∀ h id b, strict (access_Set a h id b)) by apply Ha.
  assert (Hk : ∀ h id b, keeps (access_Set a h id b)) by apply Ha.
  answered.
Qed.
End access.

(** ** A POST with its store *)

(** Either the handler's answer, what is stored decided by it, or an answer that was stored. *)
Inductive posts (ok : Z → ResponseWriter → Prop) (r : Http.Request) (idem : option Idempotency)
    : M (ResponseWriter * option Idempotency) → Prop :=
  | posted m (g : ResponseWriter → option Idempotency) : transacts ok r m →
      posts ok r idem (w' ← m; mret (w', g w'))
  | replayed i k s w : idem = Some i → stored i !! k = Some s → w_status w = None →
      posts ok r idem (mret (Replay s w, idem)).

Definition performs (hd : posting) : Prop :=
  ∀ r ss idem clock w, w_status w = None → posts sent r idem (hd r ss idem clock w).

Section posting.
Context {T : Texts}.

Lemma lift_performs hd : handled (λ _, sent) hd → performs (lift hd).
Proof. intros Hhd r ss idem clock w Hw. apply (posted _ _ _ _ (λ _, idem)). by apply Hhd. Qed.

Lemma fail_posts r idem e w : w_status w = None → posts sent r idem (mret (Fail r e w, idem)).
Proof.
  intros Hw. change (mret (Fail r e w, idem) : M (ResponseWriter * option Idempotency)) with
    ((mret (Fail r e w) : M ResponseWriter) ≫= λ w', mret (w', idem)).
  by apply posted, fail_transacts.
Qed.

Lemma Once_posts r idem clock user raw (do : ResponseWriter → M ResponseWriter) w :
  w_status w = None → transacts sent r (do w) → posts sent r idem (Once r idem clock user raw do w).
Proof.
  intros Hw Hdo. unfold Once. destruct idem as [i|]; [|by apply (posted _ _ _ _ (λ _, None))].
  destruct (is_empty _); [by apply (posted _ _ _ _ (λ _, Some i))|]. cbv zeta.
  destruct (Lookup _ _ _ _ _) as [[s|] []] eqn:Hl.
  - by apply fail_posts.
  - unfold Lookup in Hl. destruct (stored i !! _) as [s'|] eqn:Hs; [|done].
    destruct (expired _ _ _); [done|]. destruct (negb _); [done|]. injection Hl as ->.
    by eapply replayed.
  - by apply fail_posts.
  - match goal with |- posts _ _ _ (_ ≫= λ w', mret (w', @?g w')) => apply (posted _ _ _ _ g) end. exact Hdo.
Qed.

Lemma Create_performs wr : performs (Create wr).
Proof.
  intros r ss idem clock w Hw. unfold Create. destruct (create_body wr r) as [[raw st]|e]; [|by apply fail_posts].
  apply Once_posts; [done|]. by apply created_handled.
Qed.

(** The routes of a mux. *)
Definition performed (rs : list (string * posting)) : Prop := Forall (λ x, performs x.2) rs.

Lemma performed_nil : performed [].
Proof. constructor. Qed.

Lemma performed_lift pat hd rs : handled (λ _, sent) hd → performed rs → performed ((pat, lift hd) :: rs).
Proof. intros Hhd Hrs. constructor; [by apply lift_performs|done]. Qed.

Lemma performed_cons pat hd rs : performs hd → performed rs → performed ((pat, hd) :: rs).
Proof. by constructor. Qed.

Lemma performed_app rs rs' : performed rs → performed rs' → performed (rs ++ rs').
Proof. apply Forall_app_2. Qed.

Lemma performed_bind {A} (l : list A) (f : A → list (string * posting)) :
  (∀ a, performed (f a)) → performed (l ≫= f).
Proof.
  intros Hf. apply Forall_forall. intros x (a & Hx & _)%list_elem_of_bind.
  specialize (Hf a). unfold performed in Hf. rewrite Forall_forall in Hf. by apply Hf.
Qed.
End posting.

#[export] Hint Resolve list_answer_handled List_handled Get_handled Update_handled Delete_handled
  rows_of_visible_handled rows_answer_handled rowHandler_handled access_list_handled access_decode_handled
  access_put_handled Create_performs performed_nil performed_lift performed_cons performed_app
  performed_bind : platform.

Section routes.
Context {T : Texts}.

Lemma Routes_performed wr : performed (Routes wr).
Proof. unfold Routes. apply performed_app; [auto 20 with platform|]. destruct (is_empty _); auto with platform. Qed.

Lemma access_Routes_performed a : calls_only a → performed ((λ kv, (kv.1, lift kv.2)) <$> access_Routes a).
Proof. intros Ha. cbn. auto 20 with platform. Qed.

Lemma RowsHandler_handled sql args : handled (λ _, sent) (RowsHandler sql args).
Proof.
  apply rows_answer_handled; [intros h a; unfold Rows; auto with platform|auto with platform
    |intros h a; unfold Rows; auto with platform|auto with platform].
Qed.

Lemma CallRowsOf_handled fn args : handled (λ _, sent) (CallRowsOf fn args).
Proof. apply rows_answer_handled; auto with platform. Qed.

Lemma CallRowsHandler_handled fn args : handled (λ _, sent) (CallRowsHandler fn args).
Proof. apply CallRowsOf_handled. Qed.

Lemma CallRowHandler_handled fn args : handled (λ _, sent) (CallRowHandler fn args).
Proof. apply rowHandler_handled; auto with platform. Qed.
End routes.

(** The parts of a list of routes. *)
Ltac performed_parts :=
  repeat match goal with
  | |- performed (_ ++ _) => apply performed_app
  | |- performed (_ ≫= _) => apply performed_bind; intro
  end.

#[export] Hint Resolve Routes_performed RowsHandler_handled CallRowsOf_handled CallRowsHandler_handled
  CallRowHandler_handled : platform.
