(* ===== verification/PgtxTest.v ===== *)
(** * lib/pgtx/pgtxtest and internal/resttest: the road of an integration test

    The sign-in of a test on the administrator's connection ([Login]), the [Doer] that hands a
    request the token the database issued for its session ([Tokens]), and the calls a test makes
    through the same road for comparison ([Try], [Rows], [Row]).  The wrapped [Doer] keeps the law
    of the interface, so what is proved of the packages holds over it.  The environment
    variables, the pool and [httptest] are left out. *)

From S2P Require Import Prelude.
From S2P Require Import GoStrings.
From S2P Require Import GoJson.
From S2P Require Import Problem.
From S2P Require Import Db.
From S2P Require Import Pgtx.
From S2P Require Import PgtxLaws.
From S2P Require Import Doer.
From S2P Require Rest.

(** ** pgtxtest: the sign-in *)

(** [conn.QueryRow(ctx, sql, args).Scan(&p)] into a pointer: the administrator's connection is the
    pool of the driver that answers. *)
Definition ask {A} (scan : value → res error A) (sql : string) (args : list value)
    : Db.M unit (res error (option A)) :=
  x ← call (Query Pool Cx sql (PVal <$> args)); mret (first_row (scan1 (scan_ptr scan)) x).

Definition oauth2_sql : string := "SELECT kernel.createoauth2(kernel.getaudience($1), current_database())".
Definition login_sql : string := "SELECT kernel.login($1, $2, $3, $4, '127.0.0.1')".
Definition code_sql : string := "SELECT kernel.oauth2_current_code($1)".
Definition exchange_sql : string :=
  "SELECT t->>'access_token', t::text FROM (SELECT kernel.exchangetoken(kernel.getaudience($1), $2, interval '1 hour', 'C')::jsonb t) x".

(** [Login]: the session and the token. *)
Definition Login (audience user password agent : string) : Db.M unit (res error (string * string)) :=
  x ← ask scan_int64 oauth2_sql [VStr audience];
  match x with
  | Err e => mret (Err (EWrap ("pgtxtest: oauth2 of " +:+ audience) e))
  | Ok None => mret (Err (EText ("pgtxtest: no audience " +:+ quoted audience)))
  | Ok (Some oauth2) =>
      x ← ask scan_text login_sql [VInt oauth2; VStr user; VStr password; VStr agent];
      match x with
      | Err e => mret (Err (EWrap ("pgtxtest: login " +:+ user) e))
      | Ok None => mret (Err (EText ("pgtxtest: login " +:+ user +:+ " refused")))
      | Ok (Some session) =>
          x ← ask scan_text code_sql [VStr session];
          match x with
          | Err _ | Ok None => mret (Err (EText ("pgtxtest: authorization code of " +:+ user)))
          | Ok (Some code) =>
              x ← call (Query Pool Cx exchange_sql (PVal <$> [VStr audience; VStr code]));
              mret (match first_row (scan2 (scan_ptr scan_text) scan_bytes) x with
                    | Err e => Err (EWrap ("pgtxtest: exchange the code of " +:+ user) e)
                    | Ok (None, answer) =>
                        Err (EText ("pgtxtest: exchange the code of " +:+ user +:+ ": "
                                    +:+ default EmptyString answer))
                    | Ok (Some token, _) => Ok (session, token)
                    end)
          end
      end
  end.

(** ** pgtxtest: the tokens *)

(** The tokens of the sessions. *)
Record Tokens := mkTokens { m : gmap string string }.

Definition Add (session token : string) (t : Tokens) : Tokens := mkTokens (<[session := token]> (m t)).
(** [t.Token]. *)
Definition token_of (t : Tokens) (session : string) : string := default EmptyString (m t !! session).

(** The session as it goes to the database. *)
Definition issued (t : Tokens) (s : Session) : Session :=
  let tok := token_of t (SCode s) in
  if is_empty tok then s else mkSession (SCode s) tok (Agent s) (Pgtx.Host s).

(** [tokenDoer]. *)
Definition token_doer (t : Tokens) (d : Doer) : Doer :=
  {| Do A s req fn := @Do d A (issued t s) req fn |}.

(** ** resttest: the calls of a test *)

Section live.
Context {DO : Doer} (session : Session).

Definition RefPath : string := "/api/v2/me".

Definition Try (fn : string) (args : Args) : M (res error (list Rest.row)) :=
  Do session (Pgtx.mkRequest "GET" RefPath EmptyString EmptyString 0 0) (λ h, Call h fn args).

(** [Rows] and [Row]: an error is the test's failure. *)
Definition Rows (fn : string) (args : Args) : M (res error string) :=
  x ← Try fn args;
  mret (match x with
        | Err e => Err (EWrap fn e)
        | Ok rows => Ok (default EmptyString (Rest.marshal_rows rows))
        end).

Definition Row (fn : string) (args : Args) : M (res error string) :=
  x ← Try fn args;
  mret (match x with
        | Err e => Err (EWrap fn e)
        | Ok (Some rw :: _) => Ok rw
        | Ok _ => Ok "null"
        end).
End live.

(** ** Laws *)

(** The wrapped [Doer] keeps the law of the interface. *)
#[export] Instance token_laws t (d : Doer) {L : @DoerLaws d} : @DoerLaws (token_doer t d).
Proof. split. intros A P ss req fn st past Q. apply (@do_sat d L A P (issued t ss)). Qed.

(** What goes to the database: the code, the agent and the address of the session, and the token
    issued for it where one was recorded. *)
Lemma issued_session t s :
  SCode (issued t s) = SCode s ∧ Agent (issued t s) = Agent s ∧ Pgtx.Host (issued t s) = Pgtx.Host s ∧
  Pgtx.Token (issued t s) =
    match m t !! SCode s with
    | Some tok => if is_empty tok then Pgtx.Token s else tok
    | None => Pgtx.Token s
    end.
Proof.
  unfold issued, token_of. destruct (m t !! SCode s) as [tok|]; [|by split_and!].
  cbn. destruct (is_empty tok); by split_and!.
Qed.

(** The driver's next answer, and what was scanned of it into a pointer. *)
Ltac next_answer H x :=
  cbn [prog_bind run fst snd] in H;
  match type of H with context [?drv ?d ?o] =>
    match type of o with op => destruct (drv d o) as [x ?]; cbn [prog_bind run fst snd] in H end
  end.
Ltac next_value H x E :=
  next_answer H x;
  match type of H with context [first_row ?f x] => destruct (first_row f x) as [[?|]|] eqn:E; try done end.

(** A sign-in that succeeds has asked the database the four questions in their order, each about
    what the one before gave, and every answer was a value. *)
Lemma Login_signs {D} (drv : driver D) audience user password agent d s tok t d' :
  run drv (Login audience user password agent tt) d = (Ok (s, tok), tt, t, d') →
  ∃ oauth2 code x1 x2 x3 x4 txt,
    t = [(Query Pool Cx oauth2_sql [PVal (VStr audience)], x1);
         (Query Pool Cx login_sql [PVal (VInt oauth2); PVal (VStr user); PVal (VStr password); PVal (VStr agent)], x2);
         (Query Pool Cx code_sql [PVal (VStr s)], x3);
         (Query Pool Cx exchange_sql [PVal (VStr audience); PVal (VStr code)], x4)] ∧
    first_row (scan1 (scan_ptr scan_int64)) x1 = Ok (Some oauth2) ∧
    first_row (scan1 (scan_ptr scan_text)) x2 = Ok (Some s) ∧
    first_row (scan1 (scan_ptr scan_text)) x3 = Ok (Some code) ∧
    first_row (scan2 (scan_ptr scan_text) scan_bytes) x4 = Ok (Some tok, txt).
Proof.
  unfold Login, ask, mbind, M_bind, mret, M_ret, call. intros H.
  next_value H x1 E1. next_value H x2 E2. next_value H x3 E3. next_answer H x4.
  destruct (first_row _ x4) as [[[token|] txt]|] eqn:E4; try done. injection H as <- <- <- <-.
  do 6 eexists. exists txt. by split_and!.
Qed.
