(* ===== verification/EntityTest.v ===== *)
(** * internal/entitytest: what every entity package refuses without the database

    The template of requests each package of the form is run against under the host
    (entitytest.go: Keys, Token, Srv, Do, ID, Template), as a statement about every entity of the
    catalogue: the package answers each of them with the status (and catalogue code) the
    template asks for, before its transaction, so whatever the request transaction is. *)

From S2P Require Import Prelude.
From S2P Require Import GoStrings.
From S2P Require Import GoJson.
From S2P Require Import Problem.
From S2P Require Import Jwt.
From S2P Require Import Db.
From S2P Require Import GoTime.
From S2P Require Import Url.
From S2P Require Import Mux.
From S2P Require Pgtx.
From S2P Require Import Http.
From S2P Require Import Decode.
From S2P Require Import Doer.
From S2P Require Import Rest.
From S2P Require Import RestLaws.
From S2P Require Entity.
From S2P Require Entities.
From S2P Require Host.
From S2P Require Platform.

(** ** The harness *)

(** [Keys], and [Token] at a time in seconds. *)
Definition Keys : Keyring := mkKeyring {[ "web-test" := mkKey "HS256" "s" ]} ["accounts.test"].
Definition token_claims (sub : string) (seconds : Z) : Claims :=
  mkClaims "accounts.test" "web-test" sub 0 (seconds + 3600).
Definition Token (sub : string) (seconds : Z) : string :=
  default EmptyString (Sign (token_claims sub seconds) "HS256" "s").

(** [Srv]: the host over the modules; the clock of [Host] is in nanoseconds. *)
Definition config (now : Z) : Host.Config := Host.mkConfig Keys now None None.
Definition Srv {H} (now : Z) (mods : list (Host.Module H)) : res Host.host_error (Host.host H) :=
  Host.New (config now) mods.

(** The request of [Do]: the target's path holds no escape, [httptest.NewRequest] splits it at
    the question mark. *)
Definition request (token method target body : string) (hdr : list (string * string)) : Http.Request :=
  let '(path, query, _) := Cut target "?" in
  Http.mkRequest method path path query
    (foldl (λ h kv, hdr_set h kv.1 kv.2) (hdr_set ∅ "Authorization" ("Bearer " +:+ token)) hdr)
    body false "192.0.2.1:1234" ∅.

Definition ID : string := "7f3a0000-0000-4000-8000-000000000001".

(** One line of the template: the request, and the status and code [ProblemOf] is asked for; a code of
    [None] is not looked at, an empty one is none. *)
Record check := mkCheck {
  c_method : string; c_target : string; c_body : string; c_match : bool;
  c_status : Z; c_code : option string
}.

Definition if_match (c : check) : list (string * string) :=
  if c_match c then [("If-Match", "W/" +:+ quoted "1")] else [].

Definition member (k v : string) : string := "{" +:+ quoted k +:+ ":" +:+ quoted v +:+ "}".

(** A body over the limit of an action: a run of spaces and an object. *)
Fixpoint spaces (n : nat) : string := match n with 0 => EmptyString | S n => String " " (spaces n) end.
Definition oversized : string := spaces (S max_body) +:+ "{}".

Section template.
Context (p : string).

Definition queries : list check :=
  (λ q, mkCheck "GET" (p +:+ q) EmptyString false 400 None) <$>
  ["?page[limit]=0"; "?filter[name][between]=a"; "?sort=name;drop"; "?filter=x"; "?limit=10"; "?Q=x"; "?reclimit=0"].
Definition bad_ids : list check :=
  (λ t, mkCheck "GET" (p +:+ t) EmptyString false 400 None) <$> ["/not-a-uuid"; "/not-a-uuid/methods"].
Definition patches : list check :=
  mkCheck "PATCH" (p +:+ "/" +:+ ID) (member "code" "x") false 428 None ::
  mkCheck "PATCH" (p +:+ "/" +:+ ID) (member "no_such_key" "x") true 400 None ::
  ((λ b, mkCheck "PATCH" (p +:+ "/" +:+ ID) b true 400 None) <$>
   [EmptyString; "{}"; member "code" EmptyString; member "parent" "abc"]).
Definition method_queries : list check :=
  (λ q, mkCheck "GET" (p +:+ "/" +:+ ID +:+ "/methods" +:+ q) EmptyString false 400 None) <$>
  ["?sort=sequence"; "?page[limit]=1"; "?filter[name]=x"].
Definition coded : list check :=
  (λ '(m, t, b, code), mkCheck m (p +:+ t) b true 400 (Some code)) <$>
  [("GET", "?limit=10", EmptyString, "ERR-400-061");
   ("GET", "/" +:+ ID +:+ "?limit=10", EmptyString, "ERR-400-061");
   ("GET", "/" +:+ ID +:+ "?filter[name]=x", EmptyString, "ERR-400-061");
   ("GET", "/" +:+ ID +:+ "?fields=name&page[limit]=1", EmptyString, "ERR-400-061");
   ("GET", "/" +:+ ID +:+ "/methods?sort=sequence", EmptyString, "ERR-400-061");
   ("PATCH", "/" +:+ ID, member "no_such_key" "x", "ERR-400-061");
   ("POST", EmptyString, member "no_such_key" "x", "ERR-400-061");
   ("POST", EmptyString, EmptyString, "ERR-400-060");
   ("PATCH", "/" +:+ ID, EmptyString, "ERR-400-060");
   ("PATCH", "/" +:+ ID, "{}", EmptyString);
   ("GET", "/" +:+ ID +:+ "?fields=A", EmptyString, EmptyString)].
Definition actions : list check :=
  (λ '(t, b), mkCheck "POST" (p +:+ "/" +:+ ID +:+ "/actions/" +:+ t) b false 400 None) <$>
  [("Enable", EmptyString); ("enable", "[1]")].
Definition too_large : check :=
  mkCheck "POST" (p +:+ "/" +:+ ID +:+ "/actions/enable") oversized false 413 None.

Definition Template : list check :=
  queries ++ bad_ids ++ patches ++ method_queries ++
  [mkCheck "POST" p EmptyString false 400 None] ++ coded ++ actions ++ [too_large].
End template.

(** ** Refusals *)

(** The problem a check asks for. *)
Definition wanted (c : check) (q : Problem) : Prop :=
  Problem.Status q = c_status c ∧
  match c_code c with
  | None => True
  | Some code => default EmptyString (Problem.Code q) = code
  end.

(** The host, or the module's handler, answers with the problem: the handler calls nothing and leaves the
    answers kept for a replay alone, whatever runs the transactions. *)
Definition refuses_with (h : Host.host posting) (query_error : string → string) (r : Http.Request)
    (q : Problem) : Prop :=
  match Host.gate query_error h r new_writer with
  | Host.Answered w => w = Write q (Some r) new_writer
  | Host.Dispatched hd r' ss w =>
      w = new_writer ∧ ∀ idem clock st, hd r' ss idem clock w st = Ret ((Write q (Some r') w, idem), st)
  end.

(** ** Lemmas: a mux of names *)

Definition renamed {H K} (f : H → K) (m : mux H) : mux K := (λ r, (r.1, f r.2)) <$> m.
Definition renamed_node {H K} (f : H → K) (n : Mux.node H) : Mux.node K :=
  (λ x, (x.1.1, x.1.2, (x.2.1, f x.2.2))) <$> n.

Lemma omap_fmap_both {A B C D} (f : A → B) (g : C → D) (h : A → option C) (k : B → option D) (l : list A) :
  (∀ x, k (f x) = g <$> h x) → omap k (f <$> l) = g <$> omap h l.
Proof.
  intros Hk. induction l as [|x l IH]; [done|]. rewrite fmap_cons. cbn. rewrite Hk.
  destruct (h x); cbn; [f_equal|]; exact IH.
Qed.

Lemma lit_child_renamed {H K} (f : H → K) s n : lit_child s (renamed_node f n) = renamed_node f (lit_child s n).
Proof. apply omap_fmap_both. intros [[[|[l|x] q] b] r]; try done. cbn. by case_match. Qed.

Lemma wild_child_renamed {H K} (f : H → K) s n : wild_child s (renamed_node f n) = renamed_node f (wild_child s n).
Proof. apply omap_fmap_both. by intros [[[|[l|x] q] b] r]. Qed.

Definition renamed_route {H K} (f : H → K) (x : list (string * string) * (string * H)) :=
  (x.1, (x.2.1, f x.2.2)).

Lemma head_renamed {A B} (f : A → B) l : head (f <$> l) = f <$> head l.
Proof. by destruct l. Qed.

Lemma match_path_renamed {H K} (f : H → K) segs : ∀ n,
  match_path (renamed_node f n) segs = renamed_route f <$> match_path n segs.
Proof.
  induction segs as [|s segs IH]; intros n; cbn [match_path].
  - unfold renamed_node. rewrite (omap_fmap_both _ (renamed_route f)
      (λ '(p, b, r), match p with [] => Some (b, r) | _ => None end)) by (by intros [[[|] ?] ?]).
    apply head_renamed.
  - rewrite lit_child_renamed, IH. destruct (match_path (lit_child s n) segs); [done|]. cbn.
    destruct (String.eqb s "/"); [done|]. by rewrite wild_child_renamed, IH.
Qed.

Lemma find_renamed {H K} (f : H → K) m me path : find (renamed f m) me path = renamed_route f <$> find m me path.
Proof.
  assert (Hm : ∀ me', method_child me' (renamed f m) = renamed_node f (method_child me' m)).
  { intros me'. apply omap_fmap_both. intros r. cbn. by case_match. }
  unfold find. rewrite !Hm, !match_path_renamed. destruct (match_path (method_child me m) _); [done|]. cbn.
  destruct (String.eqb me "HEAD"); [destruct (match_path (method_child "GET" m) _); done|done].
Qed.

(** ** What a handler of the form finds wrong before its transaction *)

Inductive form_route := RList | RGet | RCreate | RUpdate | RAction | RMethods.

Definition form_patterns (p : string) : list (string * form_route) :=
  [("GET " +:+ p, RList); ("GET " +:+ p +:+ "/{id}", RGet); ("POST " +:+ p, RCreate);
   ("PATCH " +:+ p +:+ "/{id}", RUpdate); ("POST " +:+ p +:+ "/{id}/actions/{action}", RAction);
   ("GET " +:+ p +:+ "/{id}/methods", RMethods)].

Section early.
Context {DO : Doer} {T : Texts}.

Definition form_handler (e : Entity.Entity) (k : form_route) : posting :=
  match k with
  | RList => lift (Entity.List e) | RGet => lift (Entity.Get e) | RCreate => Create (Entity.creator e)
  | RUpdate => lift (Entity.Update e) | RAction => lift (Entity.Action e) | RMethods => lift (Entity.Methods e)
  end.

Lemma form_renamed e : Entity.Routes e = renamed (form_handler e) (form_patterns (Entity.entity_Prefix e)).
Proof. reflexivity. Qed.

Definition error_of {A} (x : res error A) : option error := match x with Ok _ => None | Err e => Some e end.

(** The error of the arguments. *)
Definition early (e : Entity.Entity) (k : form_route) (r : Http.Request) : option error :=
  match k with
  | RList => error_of (Entity.listArgs (Query (RawQuery r)) (Entity.SearchFields e))
  | RGet => error_of (a ← Entity.idArg r; cut ← Entity.fieldsOf r; Ok (a, cut))
  | RCreate => error_of (create_body (Entity.creator e) r)
  | RUpdate => error_of (Entity.update_args e r)
  | RAction => error_of (Entity.action_args r)
  | RMethods => error_of (id ← IDOf r; fields ← Entity.fieldsOf r; Ok (id, fields))
  end.

Lemma early_refuses e k r x ss idem clock w st : early e k r = Some x →
  form_handler e k r ss idem clock w st = Ret ((Fail r x w, idem), st).
Proof.
  destruct k; cbn [early form_handler]; intros H.
  - unfold lift, Entity.List. destruct (Entity.listArgs _ _) as [[? ?]|]; [done|]. by injection H as ->.
  - unfold lift, Entity.Get, RowFieldsFunc, rowHandler. cbv beta iota.
    destruct (a ← Entity.idArg r; _) as [[? ?]|]; [done|]. by injection H as ->.
  - unfold Create. destruct (create_body _ _) as [[? ?]|]; [done|]. by injection H as ->.
  - unfold lift, Entity.Update. destruct (Entity.update_args e r) as [[[? ?] ?]|]; [done|]. by injection H as ->.
  - unfold lift, Entity.Action. destruct (Entity.action_args r) as [[[? ?] ?]|]; [done|]. by injection H as ->.
  - unfold lift, Entity.Methods, Entity.RowsOf, rows_answer.
    destruct (id ← IDOf r; _) as [[? ?]|]; [done|]. by injection H as ->.
Qed.
End early.

(** ** One check *)

Section checks.
Context {DO : Doer} {T : Texts}.

Definition asked (c : check) (q : Problem) : bool :=
  (Problem.Status q =? c_status c)%Z &&
  match c_code c with None => true | Some code => String.eqb (default EmptyString (Problem.Code q)) code end.

(** The request of a check, whatever the token. *)
Definition check_request (token : string) (c : check) : Http.Request :=
  request token (c_method c) (c_target c) (c_body c) (if_match c).

(** The check as a computation: the host refuses the query, or the handler its arguments. *)
Definition passes (e : Entity.Entity) (token : string) (c : check) : bool :=
  let r := check_request token c in
  Host.canonical (URL_Path r) && is_empty (hdr_get (ReqHeader r) "X-Request-Id") &&
  match find (form_patterns (Entity.entity_Prefix e)) (Http.Method r) (Http.EscapedPath r) with
  | None => false
  | Some (b, rt) =>
      if negb (ParseQuery_ok (RawQuery r)) then (c_status c =? 400)%Z && bool_decide (c_code c = None)
      else match early e rt.2 (with_PathValues (list_to_map b) r) with
           | None => false
           | Some x => asked c (default internal_error (as_problem x))
           end
  end.

Lemma asked_wanted c q : asked c q = true → wanted c q.
Proof.
  unfold asked, wanted. intros [Hs Hc]%andb_true_iff. split; [by apply Z.eqb_eq|].
  destruct (c_code c); [by apply String.eqb_eq|done].
Qed.

(** The gate with a token the host accepts. *)
Lemma gate_bearer {H} (h : Host.host H) qe r token claims : token ≠ EmptyString →
  hdr_get (ReqHeader r) "Authorization" = "Bearer " +:+ token → hdr_get (ReqHeader r) "X-Request-Id" = EmptyString →
  Verify (Host.Keys (Host.cfg h)) token (Host.Now (Host.cfg h)) = Ok claims →
  ∃ ss, Host.gate qe h r new_writer = Host.dispatch qe h ss r new_writer.
Proof.
  intros Hne Ha Hid Hv. unfold Host.gate. rewrite Ha, Hid. cbn [is_empty].
  replace (TrimPrefix ("Bearer " +:+ token) "Bearer ") with token.
  2: { unfold TrimPrefix. rewrite HasPrefix_app. by rewrite (sdrop_app "Bearer " token). }
  destruct (is_empty token) eqn:He; [by apply is_empty_spec in He|].
  destruct (String.eqb_spec token ("Bearer " +:+ token)) as [Hl|_].
  { apply (f_equal String.length) in Hl. rewrite length_sapp in Hl. cbn in Hl. lia. }
  cbn [orb]. rewrite Hv. by eexists.
Qed.

Lemma passes_refused e now token claims qe c : token ≠ EmptyString → Verify Keys token now = Ok claims →
  hdr_get (ReqHeader (check_request token c)) "Authorization" = "Bearer " +:+ token →
  passes e token c = true →
  ∃ q, wanted c q ∧ refuses_with (Host.mkHost (config now) (Entity.Routes e)) qe (check_request token c) q.
Proof.
  intros Hne Hv Ha Hp. unfold passes in Hp. cbv zeta in Hp. set (r := check_request token c) in *.
  apply andb_true_iff in Hp as [[Hcan Hid]%andb_true_iff Hp]. apply is_empty_spec in Hid.
  destruct (gate_bearer (Host.mkHost (config now) (Entity.Routes e)) qe r token claims) as [ss Hg]; [done..|].
  unfold refuses_with. rewrite Hg. unfold Host.dispatch. rewrite Hcan. cbn [negb Host.host_mux].
  rewrite form_renamed, find_renamed.
  destruct (find _ _ _) as [[b [pat k]]|]; [|done]. cbn [fmap option_fmap option_map renamed_route fst snd] in *.
  destruct (ParseQuery_ok (RawQuery r)); cbn [negb] in *.
  - destruct (early e k _) as [x|] eqn:Hx; [|done]. exists (default internal_error (as_problem x)).
    split; [by apply asked_wanted|]. split; [done|]. intros idem clock st. by rewrite (early_refuses _ _ _ _ _ _ _ _ _ Hx).
  - apply andb_true_iff in Hp as [Hs%Z.eqb_eq Hc%bool_decide_eq_true].
    eexists. split; [|reflexivity]. split; [by rewrite Hs|by rewrite Hc].
Qed.
End checks.

(** ** The body that is too large *)

Lemma length_spaces n : String.length (spaces n) = n.
Proof. induction n as [|n IH]; [done|]. cbn. by rewrite IH. Qed.

Lemma oversized_over : (max_body <? String.length oversized)%nat = true.
Proof. unfold oversized. rewrite length_sapp, length_spaces. apply Nat.ltb_lt. lia. Qed.

#[local] Opaque max_body.

(** The request reaches the action's parameters. *)
Definition reaches_params (e : Entity.Entity) (token target : string) : bool :=
  let r := request token "POST" target EmptyString [] in
  Host.canonical (URL_Path r) && is_empty (hdr_get (ReqHeader r) "X-Request-Id") && ParseQuery_ok (RawQuery r) &&
  match find (form_patterns (Entity.entity_Prefix e)) "POST" (Http.EscapedPath r) with
  | Some (b, (_, RAction)) =>
      let r := with_PathValues (list_to_map b) r in is_ok (IDOf r) && Entity.actionRe (PathValue r "action")
  | _ => false
  end.

Lemma too_large_args r : is_ok (IDOf r) = true → Entity.actionRe (PathValue r "action") = true →
  (max_body <? String.length (Http.Body r))%nat = true →
  Entity.action_args r = Err (EProblem (New 413 "validation" "Payload too large" "body over 1 MiB")).
Proof.
  intros Hi Ha Hb. unfold Entity.action_args, Entity.action_params. rewrite Ha, Hb. by destruct (IDOf r).
Qed.

Lemma passes_too_large {DO : Doer} {T : Texts} e token target : reaches_params e token target = true →
  passes e token (mkCheck "POST" target oversized false 413 None) = true.
Proof.
  pose proof oversized_over as Hb. unfold reaches_params, passes, check_request, request, if_match.
  generalize oversized Hb. intros body Hbody.
  cbn [c_method c_target c_body c_match c_status c_code]. destruct (Cut target "?") as [[path query] f]. cbv zeta.
  cbn [URL_Path ReqHeader RawQuery Http.Method Http.EscapedPath]. intros [[[Hc Hx]%andb_true_iff Hq]%andb_true_iff Hf]%andb_true_iff.
  rewrite Hc, Hx, Hq. cbn [negb]. destruct (find _ _ _) as [[b [pat k]]|]; [|discriminate Hf].
  destruct k; try discriminate Hf. cbn [snd early andb].
  apply andb_true_iff in Hf as [Hi Ha]. rewrite too_large_args; [reflexivity|exact Hi|exact Ha|exact Hbody].
Qed.

#[local] Transparent max_body.

(** ** The theorem *)

(** The checks that are computed. *)
Definition computed (p : string) : list check :=
  queries p ++ bad_ids p ++ patches p ++ method_queries p ++ [mkCheck "POST" p EmptyString false 400 None] ++
  coded p ++ actions p.

Lemma catalogue_passes {DO : Doer} {T : Texts} token :
  forallb (λ x, let e := x.1.1 in
      forallb (passes e token) (computed (Entity.entity_Prefix e)) &&
      reaches_params e token (Entity.entity_Prefix e +:+ "/" +:+ ID +:+ "/actions/enable"))
    Entities.catalogue = true.
Proof. vm_compute. reflexivity. Qed.

(** A token of the test audience is accepted until it expires. *)
Lemma Token_verifies sub now : valid_utf8 sub = true → sub ≠ EmptyString →
  (0 <= now < 9000000000000000000)%Z →
  Token sub (now / 1000000000) ≠ EmptyString ∧
  Verify Keys (Token sub (now / 1000000000)) now = Ok (token_claims sub (now / 1000000000)).
Proof.
  intros Hu Hs Hnow. set (sec := (now / 1000000000)%Z).
  assert (Hsec : (0 <= sec <= 9000000000 ∧ now < (sec + 1) * 1000000000)%Z).
  { split; [split; [apply Z.div_pos; lia|apply Z.div_le_upper_bound; lia]|].
    pose proof (Z.mul_succ_div_gt now 1000000000 ltac:(lia)). lia. }
  assert (Hunix : Unix (sec + 3600) = ((sec + 3600) * 1000000000)%Z).
  { unfold Unix, wrap64, unixToInternal. rewrite Z.mod_small by lia. lia. }
  destruct (signed_verifies Keys (token_claims sub sec) (mkKey "HS256" "s") now) as (token & Ht & Hv).
  - reflexivity.
  - by eexists.
  - repeat split; try done. cbn. unfold in_bits. apply andb_true_iff. split; (apply Z.leb_le || apply Z.ltb_lt); lia.
  - exact Hs.
  - discriminate.
  - left.
  - cbn. lia.
  - cbn [Exp token_claims]. rewrite Hunix. lia.
  - unfold Token. cbn [Alg Secret] in Ht. rewrite Ht. split; [|exact Hv]. cbn. intros ->. discriminate Hv.
Qed.

Lemma request_bearer token c : hdr_get (ReqHeader (check_request token c)) "Authorization" = "Bearer " +:+ token.
Proof.
  unfold check_request, request. destruct (Cut _ _) as [[path query] f]. unfold if_match.
  destruct (c_match c); cbn [ReqHeader foldl]; [|apply hdr_get_set].
  rewrite hdr_get_set_ne by (by vm_compute). apply hdr_get_set.
Qed.

Lemma catalogue_check {DO : Doer} {T : Texts} token x k : x ∈ Entities.catalogue →
  k ∈ Template (Entity.entity_Prefix x.1.1) → passes x.1.1 token k = true.
Proof.
  intros Hx Hk. pose proof (proj1 (forallb_forall _ _) (catalogue_passes token) x) as H.
  specialize (H (proj1 (list_elem_of_In _ _) Hx)). cbv zeta in H. apply andb_true_iff in H as [Hc Hl].
  assert (Hsplit : Template (Entity.entity_Prefix x.1.1) =
    computed (Entity.entity_Prefix x.1.1) ++ [too_large (Entity.entity_Prefix x.1.1)]).
  { unfold Template, computed. by rewrite <- !app_assoc. }
  rewrite Hsplit in Hk. apply elem_of_app in Hk as [Hk| ->%list_elem_of_singleton].
  - apply (proj1 (forallb_forall _ _) Hc), list_elem_of_In, Hk.
  - by apply passes_too_large.
Qed.

(** C20. Every entity package refuses the template before the database: under the host, with a valid
    token, each request of it - bad list queries, ids that are no UUIDs, a PATCH without If-Match,
    unknown and empty bodies, bad action names and parameters, a body over the limit - is answered
    with the problem of the status, and of the catalogue code, that it asks for, by a handler that
    has called nothing, whatever runs the transactions and whatever was kept for replays. *)
Theorem Template_refused {DO : Doer} {T : Texts} qe now sub e fields checks :
  valid_utf8 sub = true → sub ≠ EmptyString → (0 <= now < 9000000000000000000)%Z →
  (e, fields, checks) ∈ Entities.catalogue →
  ∃ h, Srv now [Platform.entity_module e] = Ok h ∧
    ∀ k, k ∈ Template (Entity.entity_Prefix e) →
      ∃ q, wanted k q ∧ refuses_with h qe (check_request (Token sub (now / 1000000000)) k) q.
Proof.
  intros Hu Hs Hnow He. destruct (Token_verifies sub now Hu Hs Hnow) as [Hne Hv].
  exists (Host.mkHost (config now) (Entity.Routes e)). split.
  - reflexivity.
  - intros k Hk. eapply passes_refused; [exact Hne|exact Hv|apply request_bearer|].
    by apply (catalogue_check _ (e, fields, checks)).
Qed.

#[local] Instance test_texts : Texts := plain_texts.

Lemma Template_refused_witness :
  ∃ h, Srv 1700000000000000000 [Platform.entity_module Entities.reference] = Ok h ∧
    ∃ q, wanted (too_large "/api/v2/references") q.
Proof.
  destruct (Template_refused (λ _, EmptyString) 1700000000000000000 "s" Entities.reference
    ["parent"; "type"; "code"; "name"; "description"]
    (Entities.mkChecks ["type"; "code"] false ["parent"; "type"] [])) as (h & Hh & Hk).
  - reflexivity.
  - discriminate.
  - split; [discriminate|reflexivity].
  - left.
  - exists h. split; [exact Hh|]. destruct (Hk (too_large "/api/v2/references")) as (q & Hq & _).
    + unfold Template. rewrite !app_assoc. apply elem_of_app. right. left.
    + exists q. exact Hq.
Defined.
