(* ===== verification/Process.v ===== *)
(** * Every route of the platform is one transaction

    The packages over [pgtx.Runner] under the host: each route keeps the shape of
    Transact, so what a client is told of a request is what its transaction did.  Two
    routes fail after their transaction was committed: the path of a registry key and
    the caller's listeners. *)

From S2P Require Import Prelude.
From S2P Require Import GoStrings.
From S2P Require Import GoJson.
From S2P Require Import GoTime.
From S2P Require Import Problem.
From S2P Require Import Db.
From S2P Require Import Pgtx.
From S2P Require Import PgtxLaws.
From S2P Require Import Http.
From S2P Require Import Mux.
From S2P Require Import Decode.
From S2P Require Import Doer.
From S2P Require Import Rest.
From S2P Require Import Asks.
From S2P Require Import RestLaws.
From S2P Require Import Transact.
From S2P Require Entity.
From S2P Require EntityLaws.
From S2P Require Host.
From S2P Require Admin.
From S2P Require Object.
From S2P Require Workflow.
From S2P Require Packages.
From S2P Require Caller.
From S2P Require Registry.
From S2P Require Platform.
From S2P Require Entities.
From S2P Require EntityTest.

(** ** The entity form *)

Section entity.
Context {T : Texts} (e : Entity.Entity).

#[local] Hint Resolve EntityLaws.asks_getRow EntityLaws.asks_Current EntityLaws.keeps_getRow
  EntityLaws.keeps_Current : platform.

Lemma strict_getRow h a : strict (Entity.getRow e h a).
Proof. unfold Entity.getRow. quiet. Qed.
#[local] Hint Resolve strict_getRow : platform.

Lemma strict_Current h id : strict (Entity.Current e h id).
Proof. unfold Entity.Current. quiet. Qed.
#[local] Hint Resolve strict_Current : platform.

Lemma strict_update_row id st h : strict (Entity.update_row e id st h).
Proof. unfold Entity.update_row. quiet. Qed.

Lemma strict_rows_of fn key id fields h : strict (Entity.rows_of e fn key id fields h).
Proof. unfold Entity.rows_of. quiet. Qed.

(** The row that is gone is an answer, the error of a statement is not. *)
Lemma strict_run_action id action params h : strict (Entity.run_action e id action params h).
Proof.
  unfold Entity.run_action. apply strict_bind; [quiet| |hardened]. intros [cur|]; [|quiet].
  apply strict_bind; [quiet| |hardened]. intros [rows|]; [|quiet].
  apply strict_bind; [quiet| |].
  - intros [rw|x]; [quiet|]. destruct (Entity.is_404 x); [|quiet].
    apply strict_silent; [|auto with platform]. intros s. by do 2 eexists.
  - intros x s [H1 H2]. cbn. unfold Entity.is_404. rewrite H2. by intros _.
Qed.

Lemma entity_List_handled : handled (λ _, sent) (Entity.List e).
Proof.
  intros r ss w Hw. unfold Entity.List. destruct (Entity.listArgs _ _) as [[params search]|]; [|answered].
  by apply list_answer_handled.
Qed.

Lemma entity_Get_handled : handled (λ _, sent) (Entity.Get e).
Proof. apply rowHandler_handled; auto with platform. Qed.

Lemma entity_Update_handled : handled (λ _, sent) (Entity.Update e).
Proof.
  intros r ss w Hw. unfold Entity.Update. destruct (Entity.update_args e r) as [[[id raw] st]|]; [|answered].
  assert (Hask : ∀ h, asks h (Entity.update_row e id st h)) by (intros h; apply EntityLaws.asks_update_row).
  assert (Hst : ∀ h, strict (Entity.update_row e id st h)) by (intros h; apply strict_update_row).
  assert (Hk : ∀ h, keeps (Entity.update_row e id st h)) by (intros h; apply EntityLaws.keeps_update_row).
  answered.
Qed.

Lemma entity_Methods_handled : handled (λ _, sent) (Entity.Methods e).
Proof.
  apply rows_answer_handled.
  - intros h [id fields]. apply EntityLaws.asks_rows_of.
  - intros h [id fields]. apply strict_rows_of.
  - intros h [id fields]. apply EntityLaws.keeps_rows_of.
  - auto with platform.
Qed.

(** An action: the status is 204 when the row is gone. *)
Definition action_code (o : option row) : Z := match o with Some _ => 200 | None => 204 end.

Lemma action_status id action params h s : req_status s = 200%Z →
  post (Entity.run_action e id action params h s) (λ x, ∀ a, x.1 = Ok a → req_status x.2 = action_code a).
Proof.
  intros Hs. unfold Entity.run_action. apply post_mbind. eapply post_mono; [|apply EntityLaws.keeps_Current].
  intros [[cur|x] s1] H1; cbn in H1; subst s1; [|done].
  apply post_mbind. eapply post_mono; [|apply keeps_Call]. intros [[rows|x] s2] H2; cbn in H2; subst s2; [|done].
  apply post_mbind. eapply post_mono; [|apply EntityLaws.keeps_Current].
  intros [[rw|x] s3] H3; cbn in H3; subst s3; [by intros a [= <-]|].
  destruct (Entity.is_404 x); [|done]. intros a [= <-]. revert Hs. unfold req_status. cbn.
  by destruct (request s).
Qed.

Lemma entity_Action_handled : handled (λ _, sent) (Entity.Action e).
Proof.
  intros r ss w Hw. unfold Entity.Action. destruct (Entity.action_args r) as [[[id action] params]|]; [|answered].
  apply (in_transaction _ _ ss _ (Entity.run_action e id action params) action_code _ w).
  - intros h. unfold Entity.run_action. quiet.
  - intros h. apply strict_run_action.
  - intros h s Hs. by apply action_status.
  - by intros [].
  - done.
  - intros [o|x] s; eexists; reflexivity.
  - done.
  - intros o s Hs. eexists. split; [done|]. rewrite Hs. destruct o; cbn; auto with platform.
Qed.

Lemma entity_performed : performed (Entity.Routes e).
Proof.
  unfold Entity.Routes. auto 10 using entity_List_handled, entity_Get_handled, entity_Update_handled,
    entity_Action_handled, entity_Methods_handled with platform.
Qed.
End entity.

(** ** admin *)

Section admin.
Context {T : Texts}.
Import Admin.

Lemma patch_handled id raw update r ss w : w_status w = None →
  (∀ h id, asks h (update h id)) → (∀ h id, strict (update h id)) → (∀ h id, keeps (update h id)) →
  transacts sent r (patch id raw update r ss w).
Proof. intros Hw Hask Hst Hk. unfold patch, row_answer. answered. Qed.

Lemma userProfile_handled : handled (λ _, sent) userProfile.
Proof.
  intros r ss w Hw. unfold userProfile. destruct (profile_head r) as [[[id raw] b]|]; [|answered].
  apply patch_handled; [done|auto with platform..].
Qed.

Lemma changePassword_handled id : handled (λ _, sent) (changePassword id).
Proof.
  intros r ss w Hw. unfold changePassword. destruct (password_args r) as [[[raw old] new]|]; unfold no_content; answered.
Qed.

Lemma userAction_handled : handled (λ _, sent) userAction.
Proof.
  intros r ss w Hw. unfold userAction. destruct (IDOf r) as [id|]; [|answered].
  destruct (user_fn _) as [fn|]; [unfold row_answer; answered|].
  destruct (String.eqb _ _); [by apply changePassword_handled|answered].
Qed.

Lemma iptable_read_keeps h id kind : keeps (iptable_read h id kind).
Proof. unfold iptable_read. quiet. Qed.
Lemma iptable_read_strict h id kind : strict (iptable_read h id kind).
Proof. unfold iptable_read. quiet. Qed.
#[local] Hint Resolve Admin.iptable_read_asks iptable_read_strict iptable_read_keeps : platform.

Lemma userIptableGet_handled : handled (λ _, sent) userIptableGet.
Proof. intros r ss w Hw. unfold userIptableGet. destruct (IDOf r) as [id|]; answered. Qed.

Lemma userIptablePut_handled : handled (λ _, sent) userIptablePut.
Proof.
  intros r ss w Hw. unfold userIptablePut, iptable_write.
  destruct (iptable_args r) as [[[id raw] t]|]; cbv zeta; answered.
Qed.

Lemma membershipAdd_handled ms : handled (λ _, sent) (membershipAdd ms).
Proof.
  intros r ss w Hw. unfold membershipAdd, no_content. destruct (add_args _ r) as [[[id raw] added]|]; answered.
Qed.

Lemma membershipDelete_handled ms : handled (λ _, sent) (membershipDelete ms).
Proof.
  intros r ss w Hw. unfold membershipDelete, no_content. destruct (remove_args _ r) as [[id gid]|]; answered.
Qed.

Lemma membersAdd_handled c : handled (λ _, sent) (membersAdd c).
Proof.
  intros r ss w Hw. unfold membersAdd, no_content. destruct (add_args _ r) as [[[id raw] added]|]; answered.
Qed.

Lemma membersDelete_handled c : handled (λ _, sent) (membersDelete c).
Proof.
  intros r ss w Hw. unfold membersDelete, no_content. destruct (remove_args _ r) as [[id uid]|]; answered.
Qed.

Lemma areaAction_handled : handled (λ _, sent) areaAction.
Proof.
  intros r ss w Hw. unfold areaAction. destruct (IDOf r) as [id|]; [|answered].
  destruct (negb _); answered.
Qed.

Lemma areasClear_handled : handled (λ _, sent) areasClear.
Proof. intros r ss w Hw. unfold areasClear. answered. Qed.

#[local] Hint Resolve userProfile_handled userAction_handled userIptableGet_handled userIptablePut_handled
  membershipAdd_handled membershipDelete_handled membersAdd_handled membersDelete_handled
  areaAction_handled areasClear_handled : platform.

Lemma admin_performed : performed (userRoutes ++ collectionRoutes).
Proof.
  unfold userRoutes, collectionRoutes, membershipList, membersList, userMemberships. cbv zeta.
  performed_parts; auto 20 with platform.
Qed.
End admin.

(** ** object *)

Section object.
Context {T : Texts}.
Import Object.

Lemma files_handled : handled (λ _, sent) files.
Proof.
  intros r ss w Hw. unfold files. destruct (files_args r) as [[id params]|]; [|answered].
  destruct (Query.JSONArgs params) as [[search orderby] ?]. answered.
Qed.

Lemma filesAdd_handled : handled (λ _, sent) filesAdd.
Proof.
  intros r ss w Hw. unfold filesAdd, rows_body. destruct (filesAdd_args r) as [[[id raw] l]|]; answered.
Qed.

Lemma file_handled : handled (λ _, sent) file.
Proof. intros r ss w Hw. unfold file. destruct (file_args r) as [[id f]|]; answered. Qed.

Lemma fileDelete_handled : handled (λ _, sent) fileDelete.
Proof. intros r ss w Hw. unfold fileDelete, no_content. destruct (file_args r) as [[id f]|]; answered. Qed.

Lemma filesClear_handled : handled (λ _, sent) filesClear.
Proof. intros r ss w Hw. unfold filesClear, no_content. destruct (IDOf r); answered. Qed.

Lemma search_handled : handled (λ _, sent) search.
Proof.
  intros r ss w Hw. unfold search. destruct (search_args r) as [args|]; [|answered].
  by apply CallRowsHandler_handled.
Qed.

Lemma run_handled what valid fn key : handled (λ _, sent) (run what valid fn key).
Proof.
  intros r ss w Hw. unfold run, row_answer. destruct (run_args what valid r) as [[[id k] params]|]; answered.
Qed.

Lemma object_access_calls : calls_only object_access.
Proof. intros h id b. cbn. unfold chmodo. split_and!; auto with platform. Qed.

Lemma object_performed : performed ((λ r, (r.1, lift r.2)) <$> object_Routes).
Proof.
  unfold object_Routes, methods. cbv zeta. rewrite !fmap_app. performed_parts; cbn;
    auto 20 using files_handled, filesAdd_handled, file_handled, fileDelete_handled, filesClear_handled,
      search_handled, run_handled, object_access_calls with platform.
Qed.
End object.

(** ** workflow *)

Section workflow.
Context {T : Texts}.
Import Workflow.

Lemma copyClass_handled id : handled (λ _, sent) (copyClass id).
Proof. intros r ss w Hw. unfold copyClass, no_content. destruct (copy_args r) as [[raw dst]|]; answered. Qed.

Lemma cloneClass_handled id : handled (λ _, sent) (cloneClass id).
Proof.
  intros r ss w Hw. unfold cloneClass. destruct (clone_args r) as [[raw b]|]; [|answered].
  eapply (answer_transacts _ ss _ _ _ r w); [done|intro; quiet..|done|done|].
  intros rw. by apply sent_row.
Qed.

Lemma classAction_handled : handled (λ _, sent) classAction.
Proof.
  intros r ss w Hw. unfold classAction. destruct (IDOf r) as [id|]; [|answered].
  destruct (String.eqb _ _); [by apply copyClass_handled|].
  destruct (String.eqb _ _); [by apply cloneClass_handled|answered].
Qed.

Lemma class_access_calls : calls_only class_access.
Proof. intros h id b. cbn. unfold chmodc. split_and!; auto with platform. Qed.

Lemma method_access_calls : calls_only method_access.
Proof. intros h id b. cbn. unfold chmodm. split_and!; auto with platform. Qed.

Lemma workflow_performed : performed workflow_Routes.
Proof.
  unfold workflow_Routes. rewrite fmap_app. performed_parts;
    auto 20 using classAction_handled, access_Routes_performed, class_access_calls, method_access_calls
      with platform.
Qed.
End workflow.

(** ** The small packages *)

Section packages.
Context {T : Texts}.

Lemma verification_performed : performed Packages.Verification.Routes.
Proof.
  unfold Packages.Verification.Routes. cbv zeta. apply performed_lift; [apply List_handled|].
  apply performed_lift; [apply Get_handled|]. apply performed_cons.
  - intros r ss idem clock w Hw. unfold Packages.Verification.create.
    destruct (Packages.Verification.read r false) as [[[raw kind] code]|]; [|by apply fail_posts].
    apply Once_posts; [done|]. unfold Packages.Verification.create_do. answered.
  - apply performed_lift; [|constructor]. intros r ss w Hw. unfold Packages.Verification.confirm.
    destruct (Packages.Verification.read r true) as [[[raw kind] code]|]; answered.
Qed.

Lemma log_performed : performed Packages.Log.Routes.
Proof.
  unfold Packages.Log.Routes. performed_parts; [auto 20 with platform|].
  apply performed_cons; [|constructor]. intros r ss idem clock w Hw. unfold Packages.Log.write.
  destruct (Packages.Log.entry r) as [[raw e]|]; [|by apply fail_posts].
  apply Once_posts; [done|]. unfold Packages.Log.write_do. answered.
Qed.

Lemma kladr_performed : performed Packages.Kladr.Routes.
Proof.
  unfold Packages.Kladr.Routes. cbv zeta. do 3 (apply performed_lift; [auto with platform|]).
  apply performed_lift; [|constructor]. apply rowHandler_handled; auto with platform.
Qed.

Lemma error_performed : performed Packages.Errors.error_Routes.
Proof. unfold Packages.Errors.error_Routes. performed_parts; auto with platform. Qed.

Lemma resource_performed : performed Packages.Resources.resource_Routes.
Proof. unfold Packages.Resources.resource_Routes. performed_parts; auto with platform. Qed.

Lemma api_performed : performed Packages.Api.api_Routes.
Proof. unfold Packages.Api.api_Routes. performed_parts; auto 20 with platform. Qed.
End packages.

(** ** current, notification, observer *)

Lemma asks_each {A S} h (f : S → A → M (res error S)) l :
  (∀ s a, asks h (f s a)) → ∀ s, asks h (Caller.each f l s).
Proof. intros Hf. induction l as [|a l IH]; intros s; cbn [Caller.each]; auto with platform. Qed.

Lemma keeps_each {A S} (f : S → A → M (res error S)) l :
  (∀ s a, keeps (f s a)) → ∀ s, keeps (Caller.each f l s).
Proof. intros Hf. induction l as [|a l IH]; intros s; cbn [Caller.each]; auto with platform. Qed.

Lemma strict_each {A S} (f : S → A → M (res error S)) l :
  (∀ s a, strict (f s a)) → ∀ s, strict (Caller.each f l s).
Proof. intros Hf. induction l as [|a l IH]; intros s; cbn [Caller.each]; auto with platform. Qed.

(** A program that only asks, stops at the first error and leaves the request alone. *)
Definition still {A} (h : handle) (m : M (res error A)) : Prop := asks h m ∧ strict m ∧ keeps m.

Lemma still_then {A B} h (m : M (res error A)) (k : A → M (res error B)) :
  still h m → (∀ a, still h (k a)) → still h (then_ m k).
Proof.
  intros (? & ? & ?) Hk. split_and!; [apply asks_then|apply strict_then|apply keeps_then]; try done; intros a; apply Hk.
Qed.

Lemma still_each {A S} h (f : S → A → M (res error S)) l s :
  (∀ s a, still h (f s a)) → still h (Caller.each f l s).
Proof. intros Hf. split_and!; [apply asks_each|apply strict_each|apply keeps_each]; intros s' a; apply Hf. Qed.

Section caller.
Context {T : Texts}.
Import Caller.

Lemma me_part_asks h k : asks h (Current.me_part h k).
Proof. unfold Current.me_part. quiet. Qed.
Lemma me_part_keeps h k : keeps (Current.me_part h k).
Proof. unfold Current.me_part. quiet. Qed.
Lemma me_part_strict h k : strict (Current.me_part h k).
Proof. unfold Current.me_part. quiet. Qed.
#[local] Hint Resolve me_part_asks me_part_strict me_part_keeps : platform.

Lemma readMe_still h : still h (Current.readMe h).
Proof. unfold Current.readMe. split_and!; quiet. Qed.

Lemma change_still c h : still h (Current.apply_change c h).
Proof.
  unfold Current.apply_change. apply still_then.
  2: { intros _. apply still_then; [split_and!; quiet|intros _; apply readMe_still]. }
  apply still_each. intros _ f. unfold Current.set_field. destruct (Current.sessionCall _ _).
  split_and!; quiet.
Qed.

(** A handler that answers with the row of such a program. *)
Lemma still_handled {A} ss req (fn : handle → M (res error A)) z (b : A → string) r w :
  w_status w = None → (∀ h, still h (fn h)) → Pgtx.Status req = z → (0 < z)%Z →
  transacts sent r (x ← Do ss req fn;
    mret (match x with Err e => Fail r e w | Ok a => WriteJSON z (b a) w end)).
Proof.
  intros Hw Hf <- Hpos. eapply (answer_transacts _ ss _ _ _ r w); [done|apply Hf..|done|done|].
  intros a. by apply sent_json.
Qed.

Lemma current_performed : performed Current.current_Routes.
Proof.
  unfold Current.current_Routes. apply performed_lift; [|apply performed_lift; [|constructor]].
  - intros r ss w Hw. unfold Current.get_me. apply still_handled; [done|apply readMe_still|done|done].
  - intros r ss w Hw. unfold Current.patch_me. destruct (Current.patch_args r) as [[raw c]|]; [|answered].
    apply still_handled; [done|apply change_still|done|done].
Qed.

Lemma note_still h s n : still h (Notification.note h s n).
Proof.
  unfold Notification.note. destruct s as [seen out]. destruct (Notification.pair_of n) as [p|e]; [|split_and!; quiet].
  case_bool_decide; [split_and!; quiet|]. destruct (Notification.getFnOf _); split_and!; quiet.
Qed.

Lemma changed_still h search : still h (Notification.changed_do search h).
Proof.
  unfold Notification.changed_do. apply still_then; [split_and!; quiet|]. intros notes.
  apply still_then; [|intros a; split_and!; quiet]. apply still_each. intros s a. apply note_still.
Qed.

Lemma notification_performed now : performed (Notification.notification_Routes now).
Proof.
  unfold Notification.notification_Routes. cbv zeta. do 3 (apply performed_lift; [auto with platform|]).
  apply performed_lift; [|constructor].
  apply rows_answer_handled; [intros h search; apply changed_still..|auto with platform].
Qed.
End caller.

(** ** The routes that fail after their transaction *)

(** The path of a registry key that has none, and listeners whose row cannot be read: the transaction
    was committed with 200 when the handler finds the problem it answers. *)
Definition late : list string :=
  ["GET " +:+ Registry.Registry.prefix +:+ "/keys/{id}/path"; "GET " +:+ Caller.Observer.prefix +:+ "/listeners"].

(** What a route answers under the status of its transaction. *)
Definition answers_at (pat : string) (r : Http.Request) (z : Z) (w' : ResponseWriter) : Prop :=
  sent z w' ∨ pat ∈ late ∧ problem_sent r w'.

Definition performs_at (pat : string) (hd : posting) : Prop :=
  ∀ r ss idem clock w, w_status w = None → posts (answers_at pat r) r idem (hd r ss idem clock w).

Section late.
Context {T : Texts}.

Lemma transacts_mono (ok ok' : Z → ResponseWriter → Prop) r m :
  (∀ z w', ok z w' → ok' z w') → transacts ok r m → transacts ok' r m.
Proof.
  intros Hok [w' Hw|A ss req fn code answer w1 Hask Hst Hcode Hpos Hw Hans Herr Ha]; [by apply refused_early|].
  apply (in_transaction _ _ ss req fn code answer w1); [done..|]. intros a s Hs.
  destruct (Ha a s Hs) as (w' & Hw' & ?). exists w'. auto.
Qed.

Lemma performs_anywhere pat hd : performs hd → performs_at pat hd.
Proof.
  intros Hp r ss idem clock w Hw. destruct (Hp r ss idem clock w Hw) as [m g Hm|i k s w' Hi Hs Hw'].
  - apply posted. eapply transacts_mono; [|exact Hm]. by left.
  - by eapply replayed.
Qed.

Lemma late_lift pat hd : handled (answers_at pat) hd → performs_at pat (lift hd).
Proof. intros Hhd r ss idem clock w Hw. apply (posted _ _ _ _ (λ _, idem)). by apply Hhd. Qed.

Lemma keyPath_at pat : pat ∈ late → performs_at pat (lift Registry.Registry.keyPath).
Proof.
  intros Hl. apply late_lift. intros r ss w Hw. unfold Registry.Registry.keyPath.
  destruct (IDOf r) as [id|]; [|answered].
  eapply (answer_transacts _ ss _ _ _ r w); [done|intro; quiet..|done|done|].
  intros path. destruct (default None path) as [p|]; [left; by apply sent_json|right].
  split; [done|by apply fail_problem].
Qed.

Lemma listeners_at pat : pat ∈ late → performs_at pat (lift Caller.Observer.listeners).
Proof.
  intros Hl. apply late_lift. intros r ss w Hw. unfold Caller.Observer.listeners, rows_body.
  eapply (answer_transacts _ ss _ _ _ r w); [done|intro; quiet..|done|done|].
  intros rows. cbn [mbind res_bind]. destruct (mapM_res _ rows) as [l|e]; [left; by apply sent_json|right].
  split; [done|by apply fail_problem].
Qed.

Definition performed_at (rs : list (string * posting)) : Prop := Forall (λ x, performs_at x.1 x.2) rs.

Lemma performed_anywhere rs : performed rs → performed_at rs.
Proof. intros H. eapply Forall_impl; [exact H|]. intros x. apply performs_anywhere. Qed.

Lemma observer_performed : performed_at Caller.Observer.observer_Routes.
Proof.
  unfold Caller.Observer.observer_Routes.
  constructor; [by apply performs_anywhere, lift_performs, CallRowsHandler_handled|].
  constructor; [by apply performs_anywhere, lift_performs, CallRowHandler_handled|].
  constructor; [apply listeners_at; right; left|].
  constructor; [|constructor]. apply performs_anywhere, lift_performs, rowHandler_handled; auto with platform.
Qed.

Lemma read_handled : handled (λ _, sent) Registry.Registry.read.
Proof. intros r ss w Hw. unfold Registry.Registry.read. destruct (Registry.Registry.name_args r); answered. Qed.

Lemma write_handled : handled (λ _, sent) Registry.Registry.write.
Proof.
  intros r ss w Hw. unfold Registry.Registry.write.
  destruct (Registry.Registry.write_args r) as [[[[raw args] name] ty]|]; answered.
Qed.

Lemma exec_handled fn args : handled (λ _, sent) (Registry.Registry.exec fn args).
Proof. intros r ss w Hw. unfold Registry.Registry.exec, no_content. destruct (args r); answered. Qed.

Lemma registry_performed : performed_at Registry.Registry.registry_Routes.
Proof.
  unfold Registry.Registry.registry_Routes.
  do 2 (constructor; [apply performs_anywhere, lift_performs; intros r; by apply CallRowsOf_handled|]).
  constructor; [apply keyPath_at; left|].
  do 2 (constructor; [apply performs_anywhere, lift_performs; intros r; by apply CallRowsOf_handled|]).
  apply performed_anywhere. unfold Registry.Registry.deleteValueByID, Registry.Registry.deleteValue,
    Registry.Registry.deleteKey, Registry.Registry.deleteTree.
  auto 20 using read_handled, write_handled, exec_handled with platform.
Qed.

(** Every route of every package. *)
Lemma modules_performed now : Forall (λ m, performed_at (Host.Routes m)) (Platform.packages now).
Proof.
  unfold Platform.packages. apply Forall_app. split.
  - apply Forall_fmap, Forall_forall. intros e _. apply performed_anywhere, entity_performed.
  - constructor; [exact (performed_anywhere _ admin_performed)|].
    constructor; [exact (performed_anywhere _ object_performed)|].
    constructor; [exact (performed_anywhere _ workflow_performed)|].
    constructor; [exact (performed_anywhere _ verification_performed)|].
    constructor; [exact (performed_anywhere _ log_performed)|].
    constructor; [exact (performed_anywhere _ kladr_performed)|].
    constructor; [exact (performed_anywhere _ error_performed)|].
    constructor; [exact (performed_anywhere _ resource_performed)|].
    constructor; [exact (performed_anywhere _ api_performed)|].
    constructor; [exact (performed_anywhere _ current_performed)|].
    constructor; [exact (performed_anywhere _ (notification_performed now))|].
    constructor; [exact observer_performed|].
    constructor; [exact registry_performed|constructor].
Qed.

Lemma packages_performed now pat hd :
  (pat, hd) ∈ Platform.packages now ≫= Host.Routes → performs_at pat hd.
Proof.
  intros (m & Hx & Hm)%list_elem_of_bind. pose proof (modules_performed now) as Hall.
  rewrite Forall_forall in Hall. specialize (Hall m Hm). unfold performed_at in Hall.
  rewrite Forall_forall in Hall. exact (Hall _ Hx).
Qed.
End late.

(** ** A request through the process *)

(** [ServeHTTP] with the handler it dispatches to, the store of its package and the clock at the
    lookup and the store of an answer. *)
Definition handle_request (query_error : string → string) (h : Host.host posting) (r : Http.Request)
    (idem : option Idempotency) (clock : Z * Z) : M (ResponseWriter * option Idempotency) :=
  match Host.gate query_error h r new_writer with
  | Host.Answered w => mret (w, idem)
  | Host.Dispatched hd r' ss w => hd r' ss idem clock w
  end.

(** The route the mux finds for a request, and the request as the handler gets it. *)
Definition routed (h : Host.host posting) (r : Http.Request) (pat : string) (hd : posting)
    (r' : Http.Request) : Prop :=
  ∃ b, find (Host.host_mux h) (Method r) (EscapedPath r) = Some (b, (pat, hd)) ∧
    r' = with_PathValues (list_to_map b) r.

Lemma gate_routed qe (h : Host.host posting) r w hd r' s w' :
  Host.gate qe h r w = Host.Dispatched hd r' s w' →
  w_status w' = w_status w ∧ ∃ pat, routed h r pat hd r'.
Proof.
  unfold Host.gate. set (w0 := if is_empty _ then w else _).
  assert (Hw0 : w_status w0 = w_status w) by (unfold w0; by destruct (is_empty _)).
  destruct (_ || _); [done|]. destruct (Jwt.Verify _ _ _) as [claims|e]; [|by destruct e].
  unfold Host.dispatch. destruct (negb _); [done|].
  destruct (find _ _ _) as [[b [pat hd']]|] eqn:Hf; [|by case_match].
  destruct (negb _); [done|]. intros [= -> <- _ <-]. split; [done|]. by exists pat, b.
Qed.

(** The routes of a process of packages. *)
Lemma composed_mux {T : Texts} now c ms h : Host.New c ms = Ok h → ms ⊆+ Platform.packages now →
  Host.host_mux h = ms ≫= Host.Routes.
Proof.
  intros Hh Hs. assert (Hne : ms ≠ []) by by intros ->.
  destruct (Platform.composed_New _ (Platform.packages_sound now) (Platform.packages_prefixes now)
    (Platform.packages_apart now) c ms Hne Hs) as [HN _].
  rewrite HN in Hh. by injection Hh as <-.
Qed.

(** The answer of a POST is the one kept under its key, and the database is not asked. *)
Definition replay (idem : option Idempotency) {X} (m : M (ResponseWriter * X)) (w' : ResponseWriter) : Prop :=
  ∃ i k s w x, idem = Some i ∧ stored i !! k = Some s ∧ w' = Replay s w ∧ m = mret (w', x).

(** The handler is [m], and what it keeps of its answer. *)
Definition keeping {X} (m' : M (ResponseWriter * X)) (m : M ResponseWriter) : Prop :=
  ∃ g, m' = (w ← m; mret (w, g w)).

(** What a posting's shape means. *)
Lemma posts_run {D} (drv : driver D) {HL : TxLaws drv} ok r idem m st d : posts ok r idem m →
  wp drv (m st) d (λ '(x, _) d', replay idem m x.1 ∧ d' = d ∨
    ∃ m1, keeping m m1 ∧ accounted drv ok r m1 st d d' x.1).
Proof.
  intros [m' g Hm|i k s w Hi Hs Hw].
  - apply wp_mbind. eapply wp_mono; [|by eapply transacts_run]. intros [w' s'] d' Ha.
    apply wp_ret. right. exists m'. split; [by exists g|done].
  - apply wp_ret. left. split; [|done]. by exists i, k, s, w, idem.
Qed.

Lemma posts_opens ok r idem m st : posts ok r idem m → opens (m st).
Proof.
  intros [m' g Hm|i k s w Hi Hs Hw]; [|done].
  apply opens_bind; [by eapply transacts_opens|]. intros w s. by eexists.
Qed.

Lemma posts_recorded {D} (drv : driver D) {HL : TxLaws drv} {HE : OwnErrors drv} pat r idem m st d :
  JournalWorks drv (Daemon (features (runner st))) → posts (answers_at pat r) r idem m →
  Daemon (features (runner st)) || LogRequest (features (runner st)) = true →
  wp drv (m st) d (λ '(x, _) d', replay idem m x.1 ∧ d' = d ∨
    ∃ m1, keeping m m1 ∧ on_record drv (answers_at pat r) r m1 st d d' x.1).
Proof.
  intros HW [m' g Hm|i k s w Hi Hs Hw] Hj.
  - apply wp_mbind. eapply wp_mono; [|apply (transacts_recorded drv _ _ _ Hm); [|done|done]].
    + intros [w' s'] d' Ha. apply wp_ret. right. exists m'. split; [by exists g|done].
    + intros e w Hw. left. by apply sent_refusal.
  - apply wp_ret. left. split; [|done]. by exists i, k, s, w, idem.
Qed.

(** A request the process gives to a handler gives it to one that keeps its shape. *)
Lemma dispatched_posts {T : Texts} now c ms h qe r hd r' ss w idem clock :
  Host.New c ms = Ok h → ms ⊆+ Platform.packages now →
  Host.gate qe h r new_writer = Host.Dispatched hd r' ss w →
  ∃ pat, routed h r pat hd r' ∧ posts (answers_at pat r') r' idem (hd r' ss idem clock w).
Proof.
  intros Hh Hs Hg. destruct (gate_routed _ _ _ _ _ _ _ _ Hg) as [Hw [pat Hf]].
  exists pat. split; [done|]. destruct Hf as (b & Hin & _). apply find_sound in Hin as (Hin & _). assert (Hp : performs_at pat hd); [|by apply Hp].
  apply (packages_performed now). rewrite (composed_mux now c ms h Hh Hs) in Hin.
  apply list_elem_of_bind in Hin as (m & Hr & Hm). apply list_elem_of_bind. exists m.
  split; [exact Hr|]. by eapply elem_of_submseteq.
Qed.

(** C4. A request through a process of the platform opens one transaction at most, and the client is told
    what became of it: composed of any packages, over a database that keeps the promises of
    transactions, with whatever answers, the database is not called, or the request's
    transaction is begun first, it is not begun again, and all that is asked after it is the
    road's own or a query on it.  The host answers the request itself; or the request is given
    to the handler of the route the mux finds for it, and the answer is one kept under an
    Idempotency-Key, or a problem, without the database; or the handler is [rest.Doer]'s [Do] of one
    program, which only asks on its transaction, and an answer made of what that gave without the
    database: the answer to an error is a problem, and nothing of the program is durable; the
    answer to a result comes with the authorization, every successful statement of the run of this
    program that gave the result and, where the database journals, the journal line of a status,
    all durable and nothing else, and has this status - but for the two routes of [late], which
    may answer a problem then. *)
Theorem request_accounted {T : Texts} {D} (drv : driver D) (HL : TxLaws drv) now c ms h qe r idem clock
    st d w' idem' st' t d' :
  Host.New c ms = Ok h → ms ⊆+ Platform.packages now →
  run drv (handle_request qe h r idem clock st) d = (w', idem', st', t, d') →
  one_transaction t ∧
  (Host.gate qe h r new_writer = Host.Answered w' ∧ d' = d ∨
   ∃ hd r' ss w pat, Host.gate qe h r new_writer = Host.Dispatched hd r' ss w ∧ routed h r pat hd r' ∧
     (replay idem (hd r' ss idem clock w) w' ∧ d' = d ∨
      ∃ m, keeping (hd r' ss idem clock w) m ∧ accounted drv (answers_at pat r') r' m st d d' w')).
Proof.
  intros Hh Hs Hrun. unfold handle_request in Hrun.
  destruct (Host.gate qe h r new_writer) as [w|hd r' ss w] eqn:Hg.
  - injection Hrun as <- <- <- <- <-. split; by left.
  - destruct (dispatched_posts now c ms h qe r hd r' ss w idem clock Hh Hs Hg) as (pat & Hin & Hp). split.
    + pose proof (opens_run drv _ d (posts_opens _ _ _ _ st Hp)) as H. by rewrite Hrun in H.
    + right. exists hd, r', ss, w, pat. split; [done|]. split; [done|].
      pose proof (posts_run drv _ _ _ _ st d Hp) as H. unfold wp in H. rewrite Hrun in H. exact H.
Qed.

(** C5. The journal tells what the client was told: on either road, over a database that journals and whose
    errors are its own, a request through a process of the platform is answered without the
    database - by the host, by an answer kept under its key, by the refusal of the handler of the
    route the mux finds for it - or the journal has its line, the last statement that is
    durable, and the answer carries the status of this line, whether the request was served or
    refused and wherever it was refused; what [daemon.begin] refused is answered with the status
    of its verdict; only when the route found is one of the two of [late] may the answer be a
    problem after the line of another status. *)
Theorem request_recorded {T : Texts} {D} (drv : driver D) (HL : TxLaws drv) st
    (HW : JournalWorks drv (Daemon (features (runner st)))) (HE : OwnErrors drv)
    now c ms h qe r idem clock d w' idem' st' t d' :
  Host.New c ms = Ok h → ms ⊆+ Platform.packages now →
  Daemon (features (runner st)) || LogRequest (features (runner st)) = true →
  run drv (handle_request qe h r idem clock st) d = (w', idem', st', t, d') →
  Host.gate qe h r new_writer = Host.Answered w' ∧ d' = d ∨
  ∃ hd r' ss w pat, Host.gate qe h r new_writer = Host.Dispatched hd r' ss w ∧ routed h r pat hd r' ∧
    (replay idem (hd r' ss idem clock w) w' ∧ d' = d ∨
     ∃ m, keeping (hd r' ss idem clock w) m ∧ on_record drv (answers_at pat r') r' m st d d' w').
Proof.
  intros Hh Hs Hj Hrun. unfold handle_request in Hrun.
  destruct (Host.gate qe h r new_writer) as [w|hd r' ss w] eqn:Hg.
  - injection Hrun as <- <- <- <- <-. by left.
  - right. destruct (dispatched_posts now c ms h qe r hd r' ss w idem clock Hh Hs Hg) as (pat & Hin & Hp).
    exists hd, r', ss, w, pat. split; [done|]. split; [done|].
    pose proof (posts_recorded drv _ _ _ _ st d HW Hp Hj) as H. unfold wp in H. rewrite Hrun in H. exact H.
Qed.

#[local] Instance process_texts : Texts := plain_texts.

(** A process of one package, and a request for a row of it that the database gives. *)
Definition reference_process : list (Host.Module posting) := [Platform.entity_module Entities.reference].

Definition process_now : Z := 1700000000000000000.

Definition process_request : Http.Request :=
  EntityTest.request (EntityTest.Token "s" 1700000000) "GET" ("/api/v2/references/" +:+ EntityTest.ID)
    EmptyString [].

Definition process_run (ans : op → answer) (daemon : bool) (h : Host.host posting) :=
  run (toy_driver ans) (handle_request (λ _, EmptyString) h process_request None (0, 0)%Z (sample_road daemon))
    toy_init.

Lemma request_accounted_witness : ∃ h,
  Host.New (EntityTest.config process_now) reference_process = Ok h ∧
  let '((w', _, _), _, d') := process_run user_answers false h in
  sent_status w' = Some 200%Z ∧ length (toy_durable d') = 3 ∧
  ∃ pat r' m, accounted (toy_driver user_answers) (answers_at pat r') r' m (sample_road false) toy_init d' w'.
Proof.
  exists (Host.mkHost (EntityTest.config process_now) (reference_process ≫= Host.Routes)).
  split; [reflexivity|]. set (h := Host.mkHost _ _).
  assert (Hsent : sent_status (process_run user_answers false h).1.1.1.1 = Some 200%Z) by (vm_compute; reflexivity).
  assert (Hdisp : match Host.gate (λ _, EmptyString) h process_request new_writer with
                  | Host.Answered _ => false | Host.Dispatched _ _ _ _ => true end = true)
    by (vm_compute; reflexivity).
  assert (Hdur : length (toy_durable (process_run user_answers false h).2) = 3) by (vm_compute; reflexivity).
  unfold process_run in *. destruct (run _ _ _) as [[[[w' idem'] st'] t] d'] eqn:Hrun.
  split; [exact Hsent|]. split; [exact Hdur|].
  destruct (request_accounted (toy_driver user_answers) _ Platform.sample_now
    (EntityTest.config process_now) reference_process h (λ _, EmptyString) process_request None (0, 0)%Z
    (sample_road false) toy_init w' idem' st' t d' eq_refl
    (submseteq_skip _ _ _ (submseteq_nil_l _)) Hrun)
    as [_ [[Hg _]|(hd & r' & ss & w & pat & Hg & Hin & [[(i & k & sd & w1 & x & [=] & _) _]|(m & _ & Ha)])]].
  - exfalso. rewrite Hg in Hdisp. discriminate Hdisp.
  - exists pat, r', m. exact Ha.
Defined.

(** A database where no row has the id. *)
Definition no_row (o : op) : answer :=
  match o with
  | Db.Query _ _ sql _ => if HasPrefix sql "SELECT c FROM daemon.call" then Ok [] else sample_answers o
  | _ => Ok []
  end.

Lemma no_row_answers : road_answers no_row.
Proof.
  split; try done. intros t c sql args Hsql.
  destruct (answers_log _ sample_road_answers t c sql args Hsql) as (id & Hid & Ha).
  exists id. split; [exact Hid|]. unfold log_texts in Hsql. cbn [no_row].
  repeat (apply elem_of_cons in Hsql as [->|Hsql]; [exact Ha|]). by apply elem_of_nil in Hsql.
Qed.

(** Its errors are those of an aborted transaction. *)
Lemma no_row_errors : OwnErrors (toy_driver no_row).
Proof.
  intros d o e d'. unfold toy_driver. destruct (toy_refuses d o); [by intros [= <- _]|].
  unfold no_row, sample_answers. by repeat case_match.
Qed.

(** The row is not there: 404 to the client, and to [daemon.end]. *)
Lemma request_recorded_witness : ∃ h,
  Host.New (EntityTest.config process_now) reference_process = Ok h ∧
  let '((w', _, _), _, d') := process_run no_row true h in
  sent_status w' = Some 404%Z ∧ ∃ pat r' z l o,
    toy_durable d' = l ++ [o] ∧ journal_line z o ∧ answers_at pat r' z w'.
Proof.
  exists (Host.mkHost (EntityTest.config process_now) (reference_process ≫= Host.Routes)).
  split; [reflexivity|]. set (h := Host.mkHost _ _).
  assert (Hsent : sent_status (process_run no_row true h).1.1.1.1 = Some 404%Z) by (vm_compute; reflexivity).
  assert (Hdur : length (toy_durable (process_run no_row true h).2) = 2) by (vm_compute; reflexivity).
  unfold process_run in *. destruct (run _ _ _) as [[[[w' idem'] st'] t] d'] eqn:Hrun.
  split; [exact Hsent|].
  destruct (request_recorded (toy_driver no_row) _ (sample_road true) (toy_works _ _ no_row_answers) no_row_errors
    Platform.sample_now (EntityTest.config process_now) reference_process h (λ _, EmptyString) process_request None
    (0, 0)%Z toy_init w' idem' st' t d' eq_refl (submseteq_skip _ _ _ (submseteq_nil_l _)) eq_refl Hrun)
    as [[_ ->]|(hd & r' & ss & w & pat & _ & _ & [[_ ->]|(m & _ & [(_ & _ & ->)|(z & Hz & Ha)])])];
    [exfalso; discriminate Hdur..|]. destruct Hz as [(l & o & Hd & Ho)|(_ & v & o & Hd & _)].
  - exists pat, r', z, l, o. split; [exact Hd|]. split; [exact Ho|exact Ha].
  - exfalso. cbn in Hdur, Hd. rewrite Hd in Hdur. discriminate Hdur.
Defined.

(** ** The two routes that fail late *)

(** A database where the path of a key is null. *)
Definition no_path (o : op) : answer :=
  match o with
  | Db.Query _ _ sql _ =>
      if HasPrefix sql "SELECT to_json(t)" then Ok [[VNil]] else sample_answers o
  | _ => Ok []
  end.

Definition late_run {A} (ans : op → answer) (hd : handler) (f : ResponseWriter → A) : A * option (list param) :=
  let '((w', _), _, d') := run (toy_driver ans)
    (hd (user_request "GET" EmptyString EmptyString) sample_session new_writer (sample_road false)) toy_init in
  (f w', match last (toy_durable d') with Some (Db.Query _ _ _ args) => Some args | _ => None end).

(** The client is told 404, the journal 200. *)
Lemma keyPath_late : ∃ args, late_run no_path Registry.Registry.keyPath sent_status = (Some 404%Z, Some args) ∧
  args !! 3 = Some (PVal (VInt 200)).
Proof. eexists. split; [vm_compute; reflexivity|reflexivity]. Qed.

(** A listener's row that cannot be read: the client is told 500, the journal 200. *)
Lemma listeners_late : ∃ args,
  late_run (λ o, match no_path o with Ok [[VNil]] => Ok [[VRaw "[]"]] | x => x end)
    Caller.Observer.listeners sent_status = (Some 500%Z, Some args) ∧
  args !! 3 = Some (PVal (VInt 200)).
Proof. eexists. split; [vm_compute; reflexivity|reflexivity]. Qed.
