(* ===== verification/OpenApi.v ===== *)
(** * lib/openapi: the description of the routes

    The document of openapi.go as a function of the operations the modules declare: the
    schemas of Go types by their tags, the components they become, the checks of [Build],
    the printing of [Marshal], the comparison of [Gaps] with the mux.

    A Go type is its reflection ([gotype]); a struct type has its name.  A map is
    its members, a later one of the same key replacing the value; [Marshal] sorts them. *)

From S2P Require Import Prelude.
From S2P Require Import GoStrings.
From S2P Require Import GoJson.
From S2P Require Import Mux.

(** ** Go types *)

Inductive kind : Type :=
  | KString | KBool | KInt | KInt8 | KInt16 | KInt32 | KInt64
  | KUint | KUint8 | KUint16 | KUint32 | KUint64 | KFloat32 | KFloat64 | KInterface
  | KOther.      (* a function, a channel, a complex number *)

#[global] Instance kind_eq_dec : EqDecision kind.
Proof. solve_decision. Defined.

(** The tags the schemas read. *)
Record tags := mkTags {
  tag_json : string; tag_doc : string; tag_format : string; tag_enum : string; tag_required : string
}.

#[global] Instance tags_eq_dec : EqDecision tags.
Proof. solve_decision. Defined.

Record field_info := mkField { Anonymous : bool; Exported : bool; field_tags : tags }.

Inductive gotype : Type :=
  | GKind (k : kind)
  | GTime                                    (* time.Time *)
  | GRaw                                     (* json.RawMessage *)
  | GPtr (t : gotype)
  | GSlice (t : gotype)
  | GMap (t : gotype)                        (* the type of its values *)
  | GStruct (name : string) (fields : list (field_info * gotype)).

#[global] Instance field_info_eq_dec : EqDecision field_info.
Proof. solve_decision. Defined.

(** [reflect.TypeOf(a) == reflect.TypeOf(b)]: the same name and the same fields. *)
Fixpoint same_type (a b : gotype) : bool :=
  match a, b with
  | GKind k, GKind l => bool_decide (k = l)
  | GTime, GTime | GRaw, GRaw => true
  | GPtr a, GPtr b | GSlice a, GSlice b | GMap a, GMap b => same_type a b
  | GStruct n fs, GStruct m gs =>
      let same := fix same (fs gs : list (field_info * gotype)) : bool :=
        match fs, gs with
        | [], [] => true
        | (f, t) :: fs, (g, u) :: gs => bool_decide (f = g) && same_type t u && same fs gs
        | _, _ => false
        end in
      String.eqb n m && same fs gs
  | _, _ => false
  end.

Definition is_struct (t : gotype) : bool :=
  match t with GTime | GStruct _ _ => true | _ => false end.

(** The type past its pointers. *)
Fixpoint Elem (t : gotype) : gotype := match t with GPtr t => Elem t | t => t end.

(** ** Values of the document *)

(** An [any] the source builds; a reference [R] is what is not resolved yet. *)
Inductive node (R : Type) : Type :=
  | NNil
  | NBool (b : bool)
  | NInt (z : Z)
  | NStr (s : string)
  | NList (l : list (node R))
  | NMap (l : list (string * node R))
  | NSchema (r : R).
Arguments NNil {R}.
Arguments NBool {R} b.
Arguments NInt {R} z.
Arguments NStr {R} s.
Arguments NList {R} l.
Arguments NMap {R} l.
Arguments NSchema {R} r.

Inductive Mode : Type := Row | Create | Patch.

#[global] Instance Mode_eq_dec : EqDecision Mode.
Proof. solve_decision. Defined.

Record Schema := mkSchema { Name : string; Value : gotype; Mode_ : Mode; Description : string }.

(** The document holds no reference that is not resolved. *)
Abbreviation doc := (node Empty_set).
Abbreviation members A := (list (string * A)).

Fixpoint mset {A} (k : string) (v : A) (l : members A) : members A :=
  match l with
  | [] => [(k, v)]
  | (k', v') :: l => if String.eqb k' k then (k, v) :: l else (k', v') :: mset k v l
  end.

Definition mget {A} (k : string) (l : members A) : option A :=
  snd <$> head (filter (λ kv, kv.1 = k) l).

(** [if s != "" { m[k] = s }]. *)
Definition mtext (k s : string) (l : members doc) : members doc :=
  if is_empty s then l else mset k (NStr s) l.

(** ** Schemas of Go types *)

Definition nullable (s : members doc) : members doc :=
  match mget "type" s with
  | Some (NStr typ) => mset "type" (NList [NStr typ; NStr "null"]) s
  | _ => s
  end.

Definition of_type (t f : string) : members doc := [("type", NStr t); ("format", NStr f)].

(** The kinds with a schema of their own; the others panic. *)
Definition kind_schema (k : kind) : option (members doc) :=
  match k with
  | KString => Some [("type", NStr "string")]
  | KBool => Some [("type", NStr "boolean")]
  | KInt8 | KInt16 | KInt32 | KUint8 | KUint16 => Some (of_type "integer" "int32")
  | KInt | KInt64 | KUint | KUint32 | KUint64 => Some (of_type "integer" "int64")
  | KFloat32 => Some (of_type "number" "float")
  | KFloat64 => Some (of_type "number" "double")
  | KInterface => Some []
  | KOther => None
  end.

(** The key of a field and the options of its json tag; [None] for a field that is
    passed over. *)
Definition field_key (f : field_info) : option (string * string) :=
  if negb (Exported f) then None
  else
    let '(key, opts, _) := Cut (tag_json (field_tags f)) "," in
    if String.eqb key "-" || is_empty key then None else Some (key, opts).

(** The schema of a field's type with what its tags say. *)
Definition tagged (f : field_info) (s : members doc) : members doc :=
  let s := mtext "description" (tag_doc (field_tags f)) s in
  let s := mtext "format" (tag_format (field_tags f)) s in
  if is_empty (tag_enum (field_tags f)) then s
  else mset "enum" (NList (NStr <$> Split (tag_enum (field_tags f)) ",")) s.

(** A required text of a create is neither null nor empty. *)
Definition not_empty (s : members doc) : members doc :=
  let s := match mget "type" s with
           | Some (NList [t; _]) => mset "type" t s
           | _ => s
           end in
  match mget "type" s with
  | Some (NStr "string") => mset "minLength" (NInt 1) s
  | _ => s
  end.

(** [strings.Contains]. *)
Fixpoint Contains (s p : string) : bool :=
  HasPrefix s p || match s with String _ r => Contains r p | EmptyString => false end.

Definition required_field (mode : Mode) (f : field_info) (opts : string) : bool :=
  match mode with
  | Row => negb (Contains opts "omitempty")
  | Create => String.eqb (tag_required (field_tags f)) "create"
  | Patch => false
  end.

(** The properties and the required keys so far. *)
Abbreviation walked := (members doc * list string)%type.

(** One property. *)
Definition add_field (mode : Mode) (f : field_info) (key opts : string) (s : members doc)
    (acc : walked) : walked :=
  let s := tagged f s in
  let req := required_field mode f opts in
  (mset key (NMap (if bool_decide (mode = Create) && req then not_empty s else s)) acc.1,
   if req then acc.2 ++ [key] else acc.2).

Definition finish (mode : Mode) (acc : walked) : members doc :=
  let out := [("type", NStr "object"); ("properties", NMap acc.1)] in
  let out := match acc.2 with [] => out | l => mset "required" (NList (NStr <$> l)) out end in
  let out := match mode with
             | Create | Patch => mset "additionalProperties" (NBool false) out
             | Row => out
             end in
  match mode with Patch => mset "minProperties" (NInt 1) out | _ => out end.

(** [typeSchema] ([embed] is false, the result is in front), and the [walk] of
    [structSchema] over the fields of a struct, embedded ones included ([embed]). *)
Fixpoint visit (embed : bool) (mode : Mode) (acc : walked) (t : gotype) : option walked :=
  match t with
  | GKind k => s ← kind_schema k; Some (s, [])
  | GTime => if embed then Some acc else Some (of_type "string" "date-time", [])
  | GRaw => Some ([], [])
  | GPtr t => '(s, _) ← visit false Row ([], []) t; Some (nullable s, [])
  | GSlice t => '(s, _) ← visit false Row ([], []) t; Some ([("type", NStr "array"); ("items", NMap s)], [])
  | GMap t =>
      '(s, _) ← visit false Row ([], []) t;
      Some ([("type", NStr "object"); ("additionalProperties", NMap s)], [])
  | GStruct _ fields =>
      let mode := if embed then mode else Row in
      let walk := fix walk (l : list (field_info * gotype)) (acc : walked) : option walked :=
        match l with
        | [] => Some acc
        | (f, t) :: l =>
            acc ← (if Anonymous f && is_struct t then visit true mode acc t
                   else match field_key f with
                   | None => Some acc
                   | Some (key, opts) =>
                       '(s, _) ← visit false Row ([], []) t; Some (add_field mode f key opts s acc)
                   end);
            walk l acc
        end in
      acc ← walk fields (if embed then acc else ([], []));
      if embed then Some acc else Some (finish Row acc, [])
  end.

(** [None] for their panic. *)
Definition typeSchema (t : gotype) : option (members doc) := fst <$> visit false Row ([], []) t.
Definition structSchema (t : gotype) (mode : Mode) : option (members doc) :=
  finish mode <$> visit true mode ([], []) t.

(** ** Operations *)

Record Param := mkParam {
  p_Name : string; In : string; p_Description : string; p_Required : bool;
  p_Schema : node Schema; Deep : bool
}.
Record Body := mkBody { b_Description : string; b_Required : bool; b_Schema : node Schema }.
Record Header := mkHeader { h_Name : string; h_Description : string; h_Schema : node Schema }.

(** A response; no schema is nil. *)
Record Response := mkResponse {
  r_Status : string; r_Description : string; r_Schema : option (node Schema); r_Problem : bool;
  r_Headers : list Header
}.

Record Operation := mkOperation {
  op_Method : string; Path : string; ID : string; Summary : string; op_Description : string;
  Tag : string; Params : list Param; op_Body : option Body; Responses : list Response
}.

Definition Pattern (o : Operation) : string := op_Method o +:+ " " +:+ Path o.

(** ** The builder *)

Inductive op_error : Type :=
  | ParamIn (name in_ : string)
  | NotDeclared (name : string)
  | NotInPath (names : list string)     (* any of them is named: the order of a map *)
  | NoResponses
  | ResponseTwice (status : string)
  | Panics.                              (* a schema that cannot be built *)

Inductive build_error : Type :=
  | Incomplete (pattern : string)
  | DuplicateID (id prev pattern : string)
  | DescribedTwice (pattern : string)
  | InOperation (pattern : string) (e : op_error).

(** The components so far and what they were made of. *)
Record builder := mkBuilder { schemas : members doc; source : members Schema }.

Definition ref_of (name : string) : doc := NMap [("$ref", NStr ("#/components/schemas/" +:+ name))].

(** [b.schema]. *)
Definition schema (s : Schema) (b : builder) : res op_error builder :=
  match mget (Name s) (source b) with
  | Some prev =>
      if negb (bool_decide (Mode_ prev = Mode_ s)) || negb (same_type (Value prev) (Value s))
      then Err Panics else Ok b
  | None =>
      let t := Elem (Value s) in
      if negb (is_struct t) then Err Panics
      else
        out ← of_option (structSchema t (Mode_ s)) Panics;
        Ok (mkBuilder (mset (Name s) (NMap (mtext "description" (Description s) out)) (schemas b))
              (mset (Name s) s (source b)))
  end.

(** A state threaded through a list. *)
Section map_st.
Context {A B S E : Type} (f : A → S → res E (S * B)).
Fixpoint map_st (l : list A) (s : S) : res E (S * list B) :=
  match l with
  | [] => Ok (s, [])
  | x :: l => '(s, y) ← f x s; '(s, ys) ← map_st l s; Ok (s, y :: ys)
  end.
End map_st.

(** [b.node]. *)
Fixpoint resolve (n : node Schema) (b : builder) : res op_error (builder * doc) :=
  match n with
  | NSchema s => b ← schema s b; Ok (b, ref_of (Name s))
  | NMap l => '(b, l) ← map_st (λ kv b, '(b, v) ← resolve kv.2 b; Ok (b, (kv.1, v))) l b; Ok (b, NMap l)
  | NList l => '(b, l) ← map_st resolve l b; Ok (b, NList l)
  | NNil => Ok (b, NNil)
  | NBool x => Ok (b, NBool x)
  | NInt z => Ok (b, NInt z)
  | NStr s => Ok (b, NStr s)
  end.

Definition mflag (k : string) (x : bool) (l : members doc) : members doc :=
  if x then mset k (NBool true) l else l.

Definition param (p : Param) (b : builder) : res op_error (builder * doc) :=
  throw_if (negb (bool_decide (In p ∈ ["path"; "query"; "header"]))) (ParamIn (p_Name p) (In p));;
  '(b, s) ← resolve (p_Schema p) b;
  let pm := [("name", NStr (p_Name p)); ("in", NStr (In p)); ("schema", s)] in
  let pm := mtext "description" (p_Description p) pm in
  let pm := mflag "required" (p_Required p || String.eqb (In p) "path") pm in
  let pm := if Deep p then mset "explode" (NBool true) (mset "style" (NStr "deepObject") pm) else pm in
  Ok (b, NMap pm).

(** [pathParams]: the names between braces. *)
Fixpoint pathParams_from (fuel : nat) (rest : string) : list string :=
  match fuel with
  | 0 => []
  | S fuel =>
      match Cut rest "{" with
      | (_, _, false) => []
      | (_, inside, true) =>
          match Cut inside "}" with
          | (_, _, false) => []
          | (name, rest, true) => TrimSuffix name "..." :: pathParams_from fuel rest
          end
      end
  end.
Definition pathParams (path : string) : list string := pathParams_from (S (String.length path)) path.

(** The path's parameters against the declared ones, which are taken off one by one. *)
Fixpoint undeclare (names declared : list string) : res op_error (list string) :=
  match names with
  | [] => Ok declared
  | name :: names =>
      throw_if (negb (bool_decide (name ∈ declared))) (NotDeclared name);;
      undeclare names (filter (.≠ name) declared)
  end.

Definition check_params (o : Operation) : res op_error unit :=
  left ← undeclare (pathParams (Path o))
           (remove_dups (p_Name <$> filter (λ p, In p = "path") (Params o)));
  throw_if (negb (bool_decide (left = []))) (NotInPath left).

Definition content (typ : string) (schema : doc) : doc :=
  NMap [(typ, NMap [("schema", schema)])].

Definition request_body (o : Operation) (b : builder) : res op_error (builder * members doc) :=
  match op_Body o with
  | None => Ok (b, [])
  | Some body =>
      '(b, s) ← resolve (b_Schema body) b;
      let rb := [("content", content "application/json" s)] in
      let rb := mtext "description" (b_Description body) rb in
      Ok (b, [("requestBody", NMap (mflag "required" (b_Required body) rb))])
  end.

Definition header (h : Header) (b : builder) : res op_error (builder * (string * doc)) :=
  '(b, s) ← resolve (h_Schema h) b;
  Ok (b, (h_Name h, NMap (mtext "description" (h_Description h) [("schema", s)]))).

Definition mset_all {A} (l acc : members A) : members A := foldl (λ m kv, mset kv.1 kv.2 m) acc l.

Definition response (r : Response) (b : builder) : res op_error (builder * doc) :=
  let rm := [("description", NStr (r_Description r))] in
  '(b, rm) ← (if r_Problem r then Ok (b, rm ++ [("content", content "application/problem+json" (ref_of "Problem"))])
              else match r_Schema r with
                   | None => Ok (b, rm)
                   | Some n => '(b, s) ← resolve n b; Ok (b, rm ++ [("content", content "application/json" s)])
                   end);
  match r_Headers r with
  | [] => Ok (b, NMap rm)
  | hs => '(b, hs) ← map_st header hs b; Ok (b, NMap (rm ++ [("headers", NMap (mset_all hs []))]))
  end.

(** The responses in order, none of a status that came before. *)
Fixpoint responses (l : list Response) (acc : members doc) (b : builder)
    : res op_error (builder * members doc) :=
  match l with
  | [] => Ok (b, acc)
  | r :: l =>
      throw_if (bool_decide (r_Status r ∈ acc.*1)) (ResponseTwice (r_Status r));;
      '(b, rm) ← response r b;
      responses l (acc ++ [(r_Status r, rm)]) b
  end.

(** [b.operation]. *)
Definition operation (o : Operation) (b : builder) : res op_error (builder * doc) :=
  let out := mtext "description" (op_Description o)
               (mtext "summary" (Summary o) [("operationId", NStr (ID o))]) in
  let out := if is_empty (Tag o) then out else mset "tags" (NList [NStr (Tag o)]) out in
  '(b, params) ← map_st param (Params o) b;
  check_params o;;
  let out := match params with [] => out | _ => out ++ [("parameters", NList params)] end in
  '(b, rb) ← request_body o b;
  throw_if (bool_decide (Responses o = [])) NoResponses;;
  '(b, rs) ← responses (Responses o) [] b;
  Ok (b, NMap (out ++ rb ++ [("responses", NMap rs)])).

(** ** Build *)

Record Info := mkInfo {
  Title : string; Version : string; i_Description : string; Extensions : members doc
}.

(** [problem.Problem], as reflection sees it. *)
Definition json_tag (key doc : string) : field_info :=
  mkField false true (mkTags key doc EmptyString EmptyString EmptyString).
Definition Problem_type : gotype := GStruct "problem.Problem"
  [(json_tag "type" "urn:apostol:error:ERR-GGG-CCC for a catalogue error, urn:apostol:error:<slug> (unauthorized, validation, not-found, precondition-failed, precondition-required, conflict, internal, raise, and others) for one the module makes itself; read the slug as a class that may grow, not as a closed list.", GKind KString);
   (json_tag "title" "Short text of the problem, in the language of the session where there is one.", GKind KString);
   (json_tag "status" "The HTTP status of the answer.", GKind KInt);
   (json_tag "detail,omitempty" "What exactly is wrong with this request.", GKind KString);
   (json_tag "instance,omitempty" "The path of the request.", GKind KString);
   (json_tag "request_id,omitempty" "The X-Request-Id of the request.", GKind KString);
   (json_tag "code" "The machine key ERR-GGG-CCC of the error catalogue; null where the catalogue has none.", GPtr (GKind KString));
   (mkField false false (mkTags EmptyString EmptyString EmptyString EmptyString EmptyString), GKind KBool)].

Definition problemSchema : Schema := mkSchema "Problem" Problem_type Row
  "application/problem+json (RFC 9457). Catalogue errors carry the ERR-GGG-CCC code in `type` and `code`; the HTTP status is GGG when that is a valid status, else 400.".

(** The paths so far, each with its methods, and the operation of each id. *)
Record built := mkBuilt { paths : members (members doc); seen : members string; bld : builder }.

Definition add_operation (s : built) (o : Operation) : res build_error built :=
  let pat := Pattern o in
  throw_if (is_empty (op_Method o) || negb (HasPrefix (Path o) "/") || is_empty (ID o)) (Incomplete pat);;
  match mget (ID o) (seen s) with Some prev => Err (DuplicateID (ID o) prev pat) | None => Ok tt end;;
  let item := default [] (mget (Path o) (paths s)) in
  let method := ToLower (op_Method o) in
  throw_if (bool_decide (is_Some (mget method item))) (DescribedTwice pat);;
  '(b, op) ← map_err (InOperation pat) (operation o (bld s));
  Ok (mkBuilt (mset (Path o) (mset method op item) (paths s)) (mset (ID o) pat (seen s)) b).

Definition info_members (i : Info) : members doc :=
  mset_all (Extensions i)
    (mtext "description" (i_Description i) [("title", NStr (Title i)); ("version", NStr (Version i))]).

Definition security_schemes : doc :=
  NMap [("bearerAuth", NMap [("type", NStr "http"); ("scheme", NStr "bearer"); ("bearerFormat", NStr "JWT");
    ("description", NStr "The access token of the OAuth 2.0 provider, verified before any route.")])].

(** The builder a document begins with: the problem is its first component. *)
Definition new_builder : res op_error builder := schema problemSchema (mkBuilder [] []).

Definition document (i : Info) (s : built) : members doc :=
  [("openapi", NStr "3.1.0"); ("info", NMap (info_members i));
   ("paths", NMap ((λ kv, (kv.1, NMap kv.2)) <$> paths s));
   ("components", NMap [("schemas", NMap (schemas (bld s))); ("securitySchemes", security_schemes)]);
   ("security", NList [NMap [("bearerAuth", NList [])]])].

Definition Build (i : Info) (ops : list Operation) : res build_error (members doc) :=
  b ← map_err (InOperation EmptyString) new_builder;
  s ← foldM_res add_operation ops (mkBuilt [] [] b);
  Ok (document i s).

(** ** Marshal *)

(** A string literal with HTML escaping off. *)
Definition quote_byte (c : ascii) : string :=
  if html_byte c then one c else quote_ascii c.
Fixpoint quote_raw (fuel : nat) (s : string) : string :=
  match fuel, s with
  | S fuel, String c r =>
      match rune_len s with
      | 0 => String bslash "ufffd" +:+ quote_raw fuel r
      | 1 => quote_byte c +:+ quote_raw fuel r
      | n =>
          (if HasPrefix s line_sep then String bslash "u2028"
           else if HasPrefix s par_sep then String bslash "u2029"
           else stake n s) +:+ quote_raw fuel (sdrop n s)
      end
  | _, _ => EmptyString
  end.
Definition literal (s : string) : string := quoted (quote_raw (String.length s) s).

Definition newline : string := one "010".
Definition indent (n : nat) : string := newline +:+ foldr String.append EmptyString (replicate n "  ").

(** The members of a map in the order of their keys. *)
Definition sorted {A} (l : members A) : members A :=
  omap (λ k, v ← mget k l; Some (k, v)) (sort_Strings (remove_dups l.*1)).

(** [json.Encoder] with an indent of two spaces, [n] levels deep; the nodes of a document
    are a tree of at most [fuel] levels. *)
Fixpoint render (fuel n : nat) (v : doc) : string :=
  match fuel with
  | 0 => EmptyString
  | S fuel =>
      match v with
      | NNil => "null"
      | NBool true => "true"
      | NBool false => "false"
      | NInt z => Itoa z
      | NStr s => literal s
      | NList [] => "[]"
      | NList l => "[" +:+ Join ((λ v, indent (S n) +:+ render fuel (S n) v) <$> l) "," +:+ indent n +:+ "]"
      | NMap [] => "{}"
      | NMap l =>
          "{" +:+ Join ((λ kv, indent (S n) +:+ literal kv.1 +:+ ": " +:+ render fuel (S n) kv.2) <$> sorted l) ","
          +:+ indent n +:+ "}"
      | NSchema r => match r with end
      end
  end.

Fixpoint levels {R} (v : node R) : nat :=
  match v with
  | NList l => S (foldr (λ v n, Nat.max (levels v) n) 0 l)
  | NMap l => S (foldr (λ kv n, Nat.max (levels kv.2) n) 0 l)
  | _ => 1
  end.

Definition Marshal (d : members doc) : string := render (levels (NMap d)) 0 (NMap d) +:+ newline.

(** ** Gaps *)

(** [concrete]: every parameter of a template becomes a segment. *)
Fixpoint concrete_from (fuel : nat) (path : string) : string :=
  match fuel, path with
  | S fuel, String c r =>
      if negb (Ascii.eqb c "{") then String c (concrete_from fuel r)
      else match Cut path "}" with
           | (_, rest, true) => String "v" (concrete_from fuel rest)
           | (_, _, false) => path
           end
  | _, _ => EmptyString
  end.
Definition concrete (path : string) : string := concrete_from (String.length path) path.

(** The bytes a path may hold for a request to have it as it is: no escape, no query, no
    fragment, a path [path.Clean] keeps.  [Gaps] is given for templates of such paths. *)
Definition plain_path (p : string) : bool :=
  HasPrefix p "/" &&
  sforall (λ c, is_lower c || is_upper c || is_digit c || Ascii.eqb c "-" || Ascii.eqb c "_" || Ascii.eqb c "/") p &&
  negb (Contains p "//") && negb (HasSuffix p "/").

Definition methods : list string :=
  ["GET"; "HEAD"; "POST"; "PUT"; "PATCH"; "DELETE"; "OPTIONS"; "TRACE"; "CONNECT"].

Section gaps.
Context {H : Type} (m : mux H).

(** [probe]: the pattern the mux serves the request by, empty for none. *)
Definition probe (method path : string) : string :=
  match find m method (concrete path) with Some (_, r) => r.1 | None => EmptyString end.

Definition missing (ops : list Operation) : list string :=
  Pattern <$> filter (λ o, probe (op_Method o) (Path o) ≠ Pattern o) ops.

(** The patterns no operation describes, each once. *)
Definition undocumented (ops : list Operation) : list string :=
  let want := Pattern <$> ops in
  remove_dups (filter (λ pat, pat ≠ EmptyString ∧ pat ∉ want)
    (p ← remove_dups (Path <$> ops); (λ me, probe me p) <$> methods)).

(** [None] for paths outside [plain_path]. *)
Definition Gaps (ops : list Operation) : option (list string * list string) :=
  if forallb (λ o, plain_path (concrete (Path o))) ops
  then Some (sort_Strings (missing ops), sort_Strings (undocumented ops)) else None.
End gaps.
