(* ===== verification/OpenApiLaws.v ===== *)
(** * When a description can be built, and what it holds

    [Build] succeeds exactly on the operations that are complete, distinct and agree on
    the components they name ([described]); the document then has every operation at
    its path and method and no others, and no reference without its component. *)

From S2P Require Import Prelude.
From S2P Require Import GoStrings.
From S2P Require Import GoJson.
From S2P Require Import Mux.
From S2P Require Import OpenApi.

(** ** Maps as members *)

Lemma mget_mset {A} k v (l : members A) j : mget j (mset k v l) = if decide (k = j) then Some v else mget j l.
Proof.
  unfold mget. induction l as [|[i x] l IH]; cbn [mset].
  - rewrite filter_cons. cbn [fst]. by repeat case_decide.
  - destruct (String.eqb_spec i k) as [->|Hik]; rewrite !filter_cons; cbn [fst].
    + by repeat case_decide.
    + destruct (decide (i = j)) as [->|]; [by rewrite decide_False|exact IH].
Qed.

Lemma mset_keys {A} k v (l : members A) j : j ∈ (mset k v l).*1 ↔ j = k ∨ j ∈ l.*1.
Proof.
  induction l as [|[i x] l IH]; cbn [mset fmap list_fmap fst].
  - rewrite list_elem_of_singleton, elem_of_nil. tauto.
  - destruct (String.eqb_spec i k) as [->|]; cbn [fmap list_fmap fst]; rewrite !elem_of_cons; [tauto|].
    change (list_fmap (string * A)%type string fst (mset k v l)) with ((mset k v l).*1). rewrite IH. tauto.
Qed.

Lemma mset_elem {A} k v (l : members A) kv : kv ∈ mset k v l → kv = (k, v) ∨ kv ∈ l.
Proof.
  induction l as [|[i x] l IH]; cbn [mset]; [rewrite list_elem_of_singleton; by left|].
  case_match; rewrite !elem_of_cons; tauto.
Qed.

Lemma mget_elem {A} k v (l : members A) : mget k l = Some v → (k, v) ∈ l.
Proof.
  unfold mget. intros ([j x] & Hh & ->)%fmap_Some. 
  assert (Hin : (j, x) ∈ filter (λ kv : string * A, kv.1 = k) l) by (destruct (filter _ _); [done|injection Hh as ->; left]).
  apply list_elem_of_filter in Hin as [<- Hin]. exact Hin.
Qed.

Lemma mget_Some {A} k (l : members A) : is_Some (mget k l) ↔ k ∈ l.*1.
Proof.
  unfold mget. induction l as [|[i x] l IH]; cbn [fmap list_fmap fst].
  - split; [by intros [? ?]|by intros ?%elem_of_nil].
  - rewrite filter_cons. cbn [fst]. rewrite elem_of_cons. case_decide as Hi; [split; [by left|by eexists]|].
    rewrite IH. split; [by right|]. intros [->|?]; [done|done].
Qed.

(** ** What resolving does *)

Definition add_schemas : list Schema → builder → res op_error builder := foldM_res (λ b s, schema s b).

Lemma add_schemas_app l k b b' :
  add_schemas (l ++ k) b = Ok b' ↔ ∃ b1, add_schemas l b = Ok b1 ∧ add_schemas k b1 = Ok b'.
Proof.
  unfold add_schemas. rewrite foldM_res_app. destruct (foldM_res _ l b) as [b1|]; cbn.
  - split; [by exists b1|]. by intros (? & [= <-] & ?).
  - split; [done|]. by intros (? & ? & _).
Qed.

(** [f] succeeds on [x] exactly when [P x] holds and the schemas [g x] can be added, and
    gives [h x] then. *)
Definition builds {A B} (f : A → builder → res op_error (builder * B)) (P : A → Prop)
    (g : A → list Schema) (h : A → B) : Prop :=
  ∀ x b b' y, f x b = Ok (b', y) ↔ P x ∧ add_schemas (g x) b = Ok b' ∧ y = h x.

Lemma map_st_builds {A B} (f : A → builder → res op_error (builder * B)) P g h l :
  (∀ x b b' y, x ∈ l → (f x b = Ok (b', y) ↔ P x ∧ add_schemas (g x) b = Ok b' ∧ y = h x)) →
  ∀ b b' ys, map_st f l b = Ok (b', ys) ↔ Forall P l ∧ add_schemas (l ≫= g) b = Ok b' ∧ ys = h <$> l.
Proof.
  induction l as [|x l IH]; intros Hf b b' ys; cbn [map_st].
  { split; [intros [= -> <-]; by split_and!|by intros (_ & [= ->] & ->)]. }
  assert (Hl : ∀ x b b' y, x ∈ l → (f x b = Ok (b', y) ↔ P x ∧ add_schemas (g x) b = Ok b' ∧ y = h x))
    by (intros; apply Hf; by right).
  specialize (IH Hl). change ((x :: l) ≫= g) with (g x ++ (l ≫= g)).
  rewrite Forall_cons, add_schemas_app. split.
  - destruct (f x b) as [[b1 y]|] eqn:Hx; cbn; [|done]. destruct (map_st f l b1) as [[b2 zs]|] eqn:Hm; cbn; [|done].
    intros [= -> <-]. apply Hf in Hx as (? & ? & ->); [|by left]. apply IH in Hm as (? & ? & ->).
    split_and!; try done. by exists b1.
  - intros ([Hp Hps] & (b1 & H1 & H2) & ->).
    assert (Hx : f x b = Ok (b1, h x)) by (apply Hf; [by left|done]). rewrite Hx. cbn.
    assert (Hm : map_st f l b1 = Ok (b', h <$> l)) by (apply IH; done). rewrite Hm. done.
Qed.

(** The schemas of a node and the node with its references in place. *)
Fixpoint node_schemas (n : node Schema) : list Schema :=
  match n with
  | NSchema s => [s]
  | NMap l => kv ← l; node_schemas kv.2
  | NList l => l ≫= node_schemas
  | _ => []
  end.

Fixpoint plain (n : node Schema) : doc :=
  match n with
  | NSchema s => ref_of (Name s)
  | NMap l => NMap ((λ kv, (kv.1, plain kv.2)) <$> l)
  | NList l => NList (plain <$> l)
  | NNil => NNil
  | NBool x => NBool x
  | NInt z => NInt z
  | NStr s => NStr s
  end.

Lemma node_ind' {R} (Q : node R → Prop) :
  Q NNil → (∀ x, Q (NBool x)) → (∀ z, Q (NInt z)) → (∀ s, Q (NStr s)) →
  (∀ l, Forall Q l → Q (NList l)) → (∀ l, Forall (λ kv, Q kv.2) l → Q (NMap l)) →
  (∀ r, Q (NSchema r)) → ∀ n, Q n.
Proof.
  intros H1 H2 H3 H4 H5 H6 H7. fix IH 1. intros [| | | |l|l|]; [done|done|done|done| | |done].
  - apply H5. induction l as [|n l IHl]; constructor; [apply IH|done].
  - apply H6. induction l as [|[k n] l IHl]; constructor; [apply IH|done].
Qed.

Lemma resolve_builds : builds resolve (λ _, True) node_schemas plain.
Proof.
  intros n. induction n as [| | | |l IH|l IH|s] using node_ind'; intros b b' y; cbn [resolve node_schemas plain];
    try (cbn; split; [intros [= -> <-]; by split_and!|by intros (_ & [= ->] & ->)]).
  - rewrite Forall_forall in IH.
    pose proof (map_st_builds resolve (λ _, True) node_schemas plain l (λ x b b' y Hx, IH x Hx b b' y)) as Hm.
    split.
    + destruct (map_st resolve l b) as [[b1 ys]|] eqn:Hl; cbn; [|done]. intros [= -> <-].
      apply Hm in Hl as (_ & ? & ->). done.
    + intros (_ & Ha & ->).
      assert (map_st resolve l b = Ok (b', plain <$> l)) as -> by (apply Hm; split_and!; [by apply Forall_true|done..]).
      done.
  - rewrite Forall_forall in IH.
    pose proof (map_st_builds (λ kv b, '(b, v) ← resolve kv.2 b; Ok (b, (kv.1, v))) (λ _, True)
      (λ kv, node_schemas kv.2) (λ kv, (kv.1, plain kv.2)) l) as Hm.
    match type of Hm with (?X → _) => assert (X) as Hf end.
    { intros [k v] b0 b1 y0 Hin. specialize (IH _ Hin). cbn [fst snd] in *. split.
      - destruct (resolve v b0) as [[b2 z]|] eqn:Hv; cbn; [|done]. intros [= -> <-].
        by apply IH in Hv as (_ & ? & ->).
      - intros (_ & Ha & ->). assert (resolve v b0 = Ok (b1, plain v)) as -> by (by apply IH). done. }
    specialize (Hm Hf). split.
    + destruct (map_st _ l b) as [[b1 ys]|] eqn:Hl; cbn; [|done]. intros [= -> <-].
      apply Hm in Hl as (_ & ? & ->). done.
    + intros (_ & Ha & ->).
      match goal with |- context [map_st ?g l b] =>
        assert (map_st g l b = Ok (b', (λ kv, (kv.1, plain kv.2)) <$> l)) as ->
          by (apply Hm; split_and!; [by apply Forall_true|done..]) end.
      done.
  - cbn. destruct (schema s b) as [b1|]; cbn; [|split; [done|by intros (_ & ? & _)]].
    split; [intros [= -> <-]; by split_and!|by intros (_ & [= ->] & ->)].
Qed.

(** One node and what is made of it. *)
Lemma resolve_then {B} n (k : doc → B) b b' y :
  ('(b, s) ← resolve n b; Ok (b, k s)) = Ok (b', y) ↔
  add_schemas (node_schemas n) b = Ok b' ∧ y = k (plain n).
Proof.
  pose proof (resolve_builds n b) as Hr. destruct (resolve n b) as [[b1 s]|e] eqn:Hn; cbn.
  - destruct (proj1 (Hr b1 s) eq_refl) as (_ & Ha & ->). rewrite Ha. split; [by intros [= -> <-]|by intros [[= ->] ->]].
  - split; [done|]. intros [Ha ->]. assert (Err e = Ok (b', plain n)); [by apply Hr|done].
Qed.

(** ** Parameters, headers, bodies, responses *)

Definition param_ok (p : Param) : Prop := In p ∈ ["path"; "query"; "header"].
Definition param_doc (p : Param) : doc :=
  let pm := [("name", NStr (p_Name p)); ("in", NStr (In p)); ("schema", plain (p_Schema p))] in
  let pm := mtext "description" (p_Description p) pm in
  let pm := mflag "required" (p_Required p || String.eqb (In p) "path") pm in
  NMap (if Deep p then mset "explode" (NBool true) (mset "style" (NStr "deepObject") pm) else pm).

Lemma param_builds : builds param param_ok (λ p, node_schemas (p_Schema p)) param_doc.
Proof.
  intros p b b' y. unfold param, param_ok. case_bool_decide as Hin; cbn [negb throw_if mbind res_bind].
  - rewrite (resolve_then (p_Schema p) (λ s, NMap _)). tauto.
  - split; [done|by intros [? _]].
Qed.

Definition header_doc (h : Header) : string * doc :=
  (h_Name h, NMap (mtext "description" (h_Description h) [("schema", plain (h_Schema h))])).

Lemma header_builds : builds header (λ _, True) (λ h, node_schemas (h_Schema h)) header_doc.
Proof.
  intros h b b' y. unfold header. rewrite (resolve_then (h_Schema h) (λ s, (h_Name h, NMap _))). tauto.
Qed.

Definition response_schemas (r : Response) : list Schema :=
  (if r_Problem r then [] else from_option node_schemas [] (r_Schema r)) ++
  (r_Headers r ≫= λ h, node_schemas (h_Schema h)).

Definition response_doc (r : Response) : doc :=
  let rm := [("description", NStr (r_Description r))] in
  let rm := if r_Problem r then rm ++ [("content", content "application/problem+json" (ref_of "Problem"))]
            else match r_Schema r with
                 | None => rm
                 | Some n => rm ++ [("content", content "application/json" (plain n))]
                 end in
  NMap match r_Headers r with
       | [] => rm
       | hs => rm ++ [("headers", NMap (mset_all (header_doc <$> hs) []))]
       end.

Lemma response_builds : builds response (λ _, True) response_schemas response_doc.
Proof.
  intros r b b' y. unfold response, response_schemas, response_doc. cbv zeta. rewrite add_schemas_app.
  pose proof (map_st_builds header (λ _, True) (λ h, node_schemas (h_Schema h)) header_doc (r_Headers r)
    (λ x b b' y _, header_builds x b b' y)) as Hh.
  assert (Hhd : ∀ rm b1,
    match r_Headers r with
    | [] => Ok (b1, NMap rm)
    | hs => '(b, hs) ← map_st header hs b1; Ok (b, NMap (rm ++ [("headers", NMap (mset_all hs []))]))
    end = Ok (b', y) ↔
    add_schemas (r_Headers r ≫= λ h, node_schemas (h_Schema h)) b1 = Ok b' ∧
    y = NMap match r_Headers r with
             | [] => rm
             | hs => rm ++ [("headers", NMap (mset_all (header_doc <$> hs) []))]
             end).
  { intros rm b1. destruct (r_Headers r) as [|h hs].
    { cbn. split; [by intros [= -> <-]|by intros [[= ->] ->]]. }
    destruct (map_st header (h :: hs) b1) as [[b2 ds]|] eqn:Hm; cbn [mbind res_bind].
    - destruct (proj1 (Hh _ _ _) Hm) as (_ & Ha & ->). split; [by intros [= -> <-]|].
      intros [Ha' ->]. pose proof (eq_trans (eq_sym Ha) Ha') as [= ->]. done.
    - split; [done|]. intros [Ha ->]. assert (map_st header (h :: hs) b1 = Ok (b', header_doc <$> (h :: hs))).
      { apply Hh. split_and!; [by apply Forall_true|done..]. } congruence. }
  destruct (r_Problem r); [|destruct (r_Schema r) as [n|]]; cbn [from_option].
  - cbn [mbind res_bind]. rewrite Hhd. cbn. split.
    + intros [? ->]. split_and!; try done. by exists b.
    + intros (_ & (b1 & [= ->] & ?) & ->). done.
  - pose proof (resolve_builds n b) as Hr. destruct (resolve n b) as [[b1 s]|e] eqn:Hn; cbn [mbind res_bind].
    + destruct (proj1 (Hr b1 s) eq_refl) as (_ & Ha & ->). rewrite Hhd. split.
      * intros [? ->]. split_and!; try done. by exists b1.
      * intros (_ & (b2 & Hb2 & ?) & ->). split; [congruence|done].
    + split; [done|]. intros (_ & (b2 & Hb2 & _) & _).
      assert (Err e = Ok (b2, plain n)); [by apply Hr|done].
  - cbn [mbind res_bind]. rewrite Hhd. cbn. split.
    + intros [? ->]. split_and!; try done. by exists b.
    + intros (_ & (b1 & [= ->] & ?) & ->). done.
Qed.

Definition response_members (l : list Response) : members doc := (λ r, (r_Status r, response_doc r)) <$> l.

Lemma responses_ok l : ∀ acc b b' y, responses l acc b = Ok (b', y) ↔
  (NoDup (r_Status <$> l) ∧ Forall (λ r, r_Status r ∉ acc.*1) l) ∧
  add_schemas (l ≫= response_schemas) b = Ok b' ∧ y = acc ++ response_members l.
Proof.
  induction l as [|r l IH]; intros acc b b' y; cbn [responses].
  { cbn. rewrite app_nil_r. split; [intros [= -> ->]; by repeat constructor|by intros (_ & [= ->] & ->)]. }
  change ((r :: l) ≫= response_schemas) with (response_schemas r ++ (l ≫= response_schemas)).
  rewrite add_schemas_app, fmap_cons, NoDup_cons, Forall_cons.
  case_bool_decide as Hin; cbn [throw_if mbind res_bind]; [split; [done|tauto]|].
  pose proof (response_builds r b) as Hr. destruct (response r b) as [[b1 d]|e] eqn:Hd; cbn.
  - destruct (proj1 (Hr b1 d) eq_refl) as (_ & Ha & ->). rewrite IH, fmap_app, <- app_assoc. cbn.
    assert (Hout : Forall (λ r', r_Status r' ∉ acc.*1 ++ [r_Status r]) l ↔
      Forall (λ r', r_Status r' ∉ acc.*1) l ∧ r_Status r ∉ r_Status <$> l).
    { rewrite !Forall_forall. setoid_rewrite elem_of_app. setoid_rewrite list_elem_of_singleton.
      rewrite list_elem_of_fmap. naive_solver. }
    rewrite Hout. split.
    + intros (? & ? & ->). split_and!; try tauto. by exists b1.
    + intros (? & (b2 & Hb2 & ?) & ->). split_and!; try tauto. congruence.
  - split; [done|]. intros (_ & (b2 & Hb2 & _) & _).
    assert (Err e = Ok (b2, response_doc r)); [by apply Hr|done].
Qed.

Definition body_schemas (o : Operation) : list Schema := from_option (λ b, node_schemas (b_Schema b)) [] (op_Body o).
Definition body_members (o : Operation) : members doc :=
  match op_Body o with
  | None => []
  | Some body =>
      [("requestBody", NMap (mflag "required" (b_Required body)
          (mtext "description" (b_Description body) [("content", content "application/json" (plain (b_Schema body)))])))]
  end.

Lemma request_body_ok o b b' y : request_body o b = Ok (b', y) ↔
  add_schemas (body_schemas o) b = Ok b' ∧ y = body_members o.
Proof.
  unfold request_body, body_schemas, body_members. destruct (op_Body o) as [body|]; cbn [from_option].
  - apply (resolve_then (b_Schema body) (λ s, [("requestBody", NMap (mflag "required" (b_Required body)
      (mtext "description" (b_Description body) [("content", content "application/json" s)])))])).
  - cbn. split; [by intros [= -> <-]|by intros [[= ->] ->]].
Qed.

Lemma filter_none (l : list string) : filter (.∉ []) l = l.
Proof.
  induction l as [|x l IH]; [done|]. rewrite filter_cons_True by (by intros ?%elem_of_nil). by rewrite IH.
Qed.

(** The path's parameters are the declared ones, each once. *)
Lemma undeclare_ok names : ∀ declared left, undeclare names declared = Ok left ↔
  NoDup names ∧ Forall (.∈ declared) names ∧ left = filter (.∉ names) declared.
Proof.
  induction names as [|n names IH]; intros declared left; cbn [undeclare].
  { rewrite filter_none. split; [intros [= ->]; by repeat constructor|by intros (_ & _ & ->)]. }
  rewrite NoDup_cons, Forall_cons. case_bool_decide as Hin; cbn [negb throw_if mbind res_bind]; [|naive_solver].
  rewrite IH. rewrite list_filter_filter.
  assert (Hf : filter (λ x, x ∉ names ∧ x ≠ n) declared = filter (.∉ n :: names) declared).
  { apply list_filter_iff. intros x. rewrite elem_of_cons. tauto. }
  rewrite Hf, !Forall_forall. setoid_rewrite list_elem_of_filter.
  split; [intros (? & Ha & ->); split_and!; naive_solver|].
  intros ((Hn & ?) & (_ & Ha) & ->). split_and!; try done. intros x Hx. split; [by intros ->|auto].
Qed.

Definition declared (o : Operation) : list string := p_Name <$> filter (λ p, In p = "path") (Params o).

Lemma check_params_ok o : check_params o = Ok tt ↔
  NoDup (pathParams (Path o)) ∧ ∀ name, name ∈ pathParams (Path o) ↔ name ∈ declared o.
Proof.
  unfold check_params. fold (declared o). pose proof (undeclare_ok (pathParams (Path o)) (remove_dups (declared o))) as Hu.
  destruct (undeclare _ _) as [left|e] eqn:He; cbn [mbind res_bind].
  - destruct (proj1 (Hu left) eq_refl) as (Hn & Hf & ->). rewrite Forall_forall in Hf.
    setoid_rewrite elem_of_remove_dups in Hf.
    case_bool_decide as Hl; cbn [negb throw_if].
    + split; [|done]. intros _. split; [done|]. intros name. split; [apply Hf|]. intros Hd.
      destruct (decide (name ∈ pathParams (Path o))) as [|Hno]; [done|]. exfalso.
      assert (Hin : name ∈ filter (.∉ pathParams (Path o)) (remove_dups (declared o)))
        by (apply list_elem_of_filter; by rewrite elem_of_remove_dups).
      rewrite Hl in Hin. by apply elem_of_nil in Hin.
    + split; [done|]. intros [_ Hd]. exfalso. apply Hl, elem_of_nil_inv. intros x [Hx Hin]%list_elem_of_filter.
      apply Hx, Hd. by rewrite elem_of_remove_dups in Hin.
  - split; [done|]. intros [Hn Hd]. assert (Err e = Ok (filter (.∉ pathParams (Path o)) (remove_dups (declared o)))); [|done].
    apply Hu. split_and!; try done. apply Forall_forall. intros x Hx. rewrite elem_of_remove_dups. by apply Hd.
Qed.

(** ** Operations *)

(** What an operation says of itself, apart from the components it names. *)
Record sound_operation (o : Operation) : Prop := mkSound {
  so_in : Forall param_ok (Params o);
  so_once : NoDup (pathParams (Path o));
  so_declared : ∀ name, name ∈ pathParams (Path o) ↔ name ∈ declared o;
  so_answers : Responses o ≠ [];
  so_statuses : NoDup (r_Status <$> Responses o)
}.

Definition op_schemas (o : Operation) : list Schema :=
  (Params o ≫= λ p, node_schemas (p_Schema p)) ++ body_schemas o ++ (Responses o ≫= response_schemas).

Definition op_members (o : Operation) : members doc :=
  let out := mtext "description" (op_Description o)
               (mtext "summary" (Summary o) [("operationId", NStr (ID o))]) in
  let out := if is_empty (Tag o) then out else mset "tags" (NList [NStr (Tag o)]) out in
  let ps := param_doc <$> Params o in
  let out := match ps with [] => out | _ => out ++ [("parameters", NList ps)] end in
  out ++ body_members o ++ [("responses", NMap (response_members (Responses o)))].

Lemma operation_builds : builds operation sound_operation op_schemas (λ o, NMap (op_members o)).
Proof.
  intros o b b' y. unfold operation, op_schemas, op_members. cbv zeta.
  rewrite add_schemas_app. setoid_rewrite (add_schemas_app (body_schemas o)).
  pose proof (map_st_builds param param_ok (λ p, node_schemas (p_Schema p)) param_doc (Params o)
    (λ x b b' y _, param_builds x b b' y) b) as Hp.
  assert (Hpar : (∃ b1, map_st param (Params o) b = Ok (b1, param_doc <$> Params o)) ∨
    ∀ b1 ys, map_st param (Params o) b ≠ Ok (b1, ys)).
  { destruct (map_st _ _ _) as [[b1 ys]|]; [left|by right]. destruct (proj1 (Hp b1 ys) eq_refl) as (_ & _ & ->). by exists b1. }
  destruct Hpar as [[b1 Hpar]|Hno].
  2: { split.
       - destruct (map_st _ _ _) as [[b1 ys]|] eqn:E; [by edestruct Hno|done].
       - intros ([Hin _ _ _ _] & (b1 & H1 & _) & _). exfalso. eapply Hno, Hp. by split_and!. }
  rewrite Hpar. cbn [mbind res_bind]. apply Hp in Hpar as (Hin & Ha & _).
  destruct (check_params o) as [[]|] eqn:Hc; cbn [mbind res_bind].
  2: { split; [done|]. intros ([_ H1 H2 _ _] & _). assert (check_params o = Ok tt); [by apply check_params_ok|congruence]. }
  apply check_params_ok in Hc as [Hn Hd]. pose proof (request_body_ok o b1) as Hb.
  destruct (request_body o b1) as [[b2 rb]|e] eqn:Hrb; cbn [mbind res_bind].
  2: { split; [done|]. intros (_ & (b1' & H1 & b2 & H2 & _) & _).
       assert (b1' = b1) as -> by congruence.
       assert (Err e = Ok (b2, body_members o)); [by apply Hb|done]. }
  destruct (proj1 (Hb b2 rb) eq_refl) as [Hb2 ->].
  case_bool_decide as Hr; cbn [throw_if mbind res_bind].
  { split; [done|]. by intros ([_ _ _ H _] & _). }
  pose proof (responses_ok (Responses o) [] b2) as Hrs.
  destruct (responses _ _ _) as [[b3 rs]|e] eqn:Hre; cbn [mbind res_bind].
  - destruct (proj1 (Hrs b3 rs) eq_refl) as ([Hnd _] & Ha3 & ->). split.
    + intros [= -> <-]. split; [by constructor|]. split; [|reflexivity]. exists b1. split; [done|]. by exists b2.
    + intros (_ & (b1' & H1 & b2' & H2 & H3) & ->). assert (b1' = b1) as -> by congruence.
      assert (b2' = b2) as -> by congruence. assert (b' = b3) as -> by congruence. reflexivity.
  - split; [done|]. intros ([_ _ _ _ Hnd] & (b1' & H1 & b2' & H2 & H3) & _).
    assert (b1' = b1) as -> by congruence. assert (b2' = b2) as -> by congruence.
    assert (Err e = Ok (b', [] ++ response_members (Responses o))); [|done].
    apply Hrs. split_and!; try done. apply Forall_true. intros r. apply not_elem_of_nil.
Qed.

(** ** Components *)

Lemma gotype_ind' (Q : gotype → Prop) :
  (∀ k, Q (GKind k)) → Q GTime → Q GRaw → (∀ t, Q t → Q (GPtr t)) → (∀ t, Q t → Q (GSlice t)) →
  (∀ t, Q t → Q (GMap t)) → (∀ n fs, Forall (λ f, Q f.2) fs → Q (GStruct n fs)) → ∀ t, Q t.
Proof.
  intros H1 H2 H3 H4 H5 H6 H7. fix IH 1. intros [| | |t|t|t|n fs]; [apply H1|exact H2|exact H3|apply H4, IH|apply H5, IH|apply H6, IH|].
  apply H7. induction fs as [|[f t] fs IHf]; constructor; [apply IH|done].
Qed.

Lemma same_type_eq a : ∀ b, same_type a b = true ↔ a = b.
Proof.
  induction a as [k| | |t IH|t IH|t IH|n fs IH] using gotype_ind'; intros [l| | |u|u|u|m gs]; cbn [same_type];
    try done; try (rewrite IH; split; [by intros ->|by intros [= ->]]).
  - rewrite bool_decide_eq_true. split; [by intros ->|by intros [= ->]].
  - rewrite andb_true_iff, String.eqb_eq.
    match goal with |- _ ∧ ?same fs gs = true ↔ _ => assert (Hs : same fs gs = true ↔ fs = gs) end.
    { clear n m. revert gs. induction fs as [|[f t] fs IHf]; intros [|[g u] gs]; try done.
      apply Forall_cons in IH as [Ht Hf]. rewrite !andb_true_iff, bool_decide_eq_true, (Ht u), (IHf Hf gs).
      cbn. naive_solver. }
    rewrite Hs. naive_solver.
Qed.

(** A struct whose fields all have a schema. *)
Definition describable (s : Schema) : Prop :=
  is_struct (Elem (Value s)) = true ∧ is_Some (structSchema (Elem (Value s)) (Mode_ s)).

(** Two schemas of one name are one component. *)
Definition agree (s s' : Schema) : Prop := Name s = Name s' → Mode_ s = Mode_ s' ∧ Value s = Value s'.

(** The component of a schema. *)
Definition component (s : Schema) : doc :=
  NMap (mtext "description" (Description s) (default [] (structSchema (Elem (Value s)) (Mode_ s)))).

Record builder_ok (b : builder) : Prop := mkBuilderOk {
  bo_name : ∀ name s, mget name (source b) = Some s → Name s = name ∧ describable s;
  bo_component : ∀ name, mget name (schemas b) = component <$> mget name (source b);
  bo_only : ∀ name v, (name, v) ∈ schemas b → ∃ s, v = component s
}.

Lemma schema_ok s b : builder_ok b →
  ((∃ b', schema s b = Ok b') ↔ describable s ∧ ∀ s', mget (Name s) (source b) = Some s' → agree s' s) ∧
  ∀ b', schema s b = Ok b' → builder_ok b' ∧
    ∀ name, mget name (source b') = match mget name (source b) with
                                    | Some s' => Some s'
                                    | None => if decide (Name s = name) then Some s else None
                                    end.
Proof.
  intros [Hn Hc Ho]. unfold schema. destruct (mget (Name s) (source b)) as [prev|] eqn:Hp.
  - destruct (Hn _ _ Hp) as [Hname Hd]. case_bool_decide as Hm; cbn [negb orb].
    + destruct (same_type (Value prev) (Value s)) eqn:Ht; cbn [negb].
      * apply same_type_eq in Ht. split.
        -- split; [intros _|by exists b]. split; [unfold describable in *; by rewrite <- Ht, <- Hm|].
           by intros s' [= ->] _.
        -- intros b' [= <-]. split; [done|]. intros name. destruct (mget name (source b)) eqn:Hx; [done|].
           case_decide; [congruence|done].
      * split; [|done]. split; [by intros [? ?]|]. intros [_ Ha]. destruct (Ha prev eq_refl Hname) as [_ He].
        apply same_type_eq in He. congruence.
    + split; [|done]. split; [by intros [? ?]|]. intros [_ Ha]. by destruct (Ha prev eq_refl Hname).
  - destruct (is_struct (Elem (Value s))) eqn:Hs; cbn [negb].
    + destruct (structSchema _ _) as [out|] eqn:Hout; cbn [of_option mbind res_bind].
      * assert (Hd : describable s) by (split; [done|by rewrite Hout]).
        assert (Hcs : NMap (mtext "description" (Description s) out) = component s) by (unfold component; by rewrite Hout).
        rewrite Hcs.
        split; [split; [intros _; done|by eexists]|]. intros b' [= <-].
        split; [|intros name; cbn [source]; rewrite mget_mset; case_decide; subst; [by rewrite Hp|by case_match]].
        constructor; cbn [source schemas].
        -- intros name s'. rewrite mget_mset. case_decide; [by intros [= <-]|apply Hn].
        -- intros name. rewrite !mget_mset. by case_decide; [|apply Hc].
        -- intros name v [[= _ ->]|Hv]%mset_elem; [by exists s|by apply (Ho name)].
      * split; [|done]. split; [by intros [? ?]|]. intros [[_ [? ?]] _]. congruence.
    + split; [|done]. split; [by intros [? ?]|]. intros [[? _] _]. congruence.
Qed.

Lemma add_schemas_ok l : ∀ b, builder_ok b →
  ((∃ b', add_schemas l b = Ok b') ↔ Forall describable l ∧
    (∀ s s', s ∈ l → mget (Name s) (source b) = Some s' → agree s' s) ∧
    ∀ s s', s ∈ l → s' ∈ l → agree s s') ∧
  ∀ b', add_schemas l b = Ok b' → builder_ok b' ∧
    ∀ name, name ∈ (schemas b').*1 ↔ name ∈ (schemas b).*1 ∨ name ∈ Name <$> l.
Proof.
  induction l as [|s l IH]; intros b Hb; cbn [add_schemas foldM_res].
  { split.
    - split; [|by exists b]. intros _. split; [by constructor|]. split; [by intros ? ? ?%elem_of_nil|by intros ? ? ?%elem_of_nil].
    - intros b' [= <-]. split; [done|]. intros name. rewrite elem_of_nil. tauto. }
  destruct (schema_ok s b Hb) as [Hs Hb']. fold (add_schemas l).
  destruct (schema s b) as [b1|e] eqn:Hsb; cbn [mbind res_bind].
  - destruct (Hb' b1 eq_refl) as [Hb1 Hget]. destruct (proj1 Hs) as [Hd Ha]; [by exists b1|].
    destruct (IH b1 Hb1) as [Hiff Hfin]. split.
    + unfold add_schemas in Hiff. rewrite Hiff, Forall_cons. clear -Hget Hd Ha Hb. split.
      * intros (Hall & Hsrc & Hpair). split; [done|].
        assert (Hs1 : ∀ s', s' ∈ l → agree s s').
        { intros s' Hs' Hname. specialize (Hget (Name s')). rewrite decide_True in Hget by done.
          destruct (mget (Name s') (source b)) as [x|] eqn:Hx.
          - destruct (Hsrc s' x Hs' Hget); [by apply (bo_name b Hb)|].
            destruct (Ha x) as [? ?]; [by rewrite Hname|rewrite Hname; by apply (bo_name b Hb)|]. split; congruence.
          - by apply (Hsrc s' s). }
        split.
        -- intros a x [->|Ha']%elem_of_cons Hx; [by apply Ha|]. apply (Hsrc a x); [done|]. by rewrite Hget, Hx.
        -- intros a x [->|Ha']%elem_of_cons [->|Hx]%elem_of_cons; [done|by apply Hs1| |by apply Hpair].
           intros He. symmetry in He. destruct (Hs1 a Ha' He). done.
      * intros ([_ Hall] & Hsrc & Hpair). split; [done|]. split.
        -- intros a x Ha' Hx. rewrite Hget in Hx. destruct (mget (Name a) (source b)) as [y|] eqn:Hy.
           ++ injection Hx as ->. by apply Hsrc; [right|].
           ++ case_decide; [|done]. injection Hx as <-. apply Hpair; [left|by right].
        -- intros a x ? ?. apply Hpair; by right.
    + intros b' Hok. destruct (Hfin b' Hok) as [? Hk]. split; [done|]. intros name. rewrite Hk, fmap_cons, elem_of_cons.
      rewrite <- !mget_Some, (bo_component _ Hb1), (bo_component _ Hb), !fmap_is_Some, Hget.
      destruct (mget name (source b)); [split; [by left|by left; eexists]|].
      case_decide; [split; [by right; left|by left; eexists]|].
      split; [intros [[? ?]|?]; [done|by right; right]|intros [[? ?]|[?|?]]; [done|congruence|by right]].
  - split; [|done]. split; [by intros [? ?]|]. rewrite Forall_cons. intros ([Hd _] & Hsrc & _). exfalso.
    destruct (proj2 Hs) as [? ?]; [|done]. split; [done|]. intros s' Hs'. apply Hsrc; [left|done].
Qed.

(** The first schema of a name is the one its component is made of. *)
Definition of_name (name : string) (l : list Schema) : option Schema := head (filter (λ s, Name s = name) l).

Lemma add_schemas_source l : ∀ b b', builder_ok b → add_schemas l b = Ok b' →
  ∀ name, mget name (source b') = match mget name (source b) with Some s => Some s | None => of_name name l end.
Proof.
  unfold add_schemas, of_name. induction l as [|s l IH]; intros b b' Hb; cbn [foldM_res].
  { intros [= <-] name. by destruct (mget name (source b)). }
  destruct (schema_ok s b Hb) as [_ Hs]. destruct (schema s b) as [b1|] eqn:H1; cbn [mbind res_bind]; [|done].
  destruct (Hs b1 eq_refl) as [Hb1 Hget]. intros Hf name. rewrite (IH b1 b' Hb1 Hf name), Hget, filter_cons.
  destruct (mget name (source b)); [done|]. by case_decide.
Qed.

(** ** The document *)

Definition complete (o : Operation) : Prop :=
  op_Method o ≠ EmptyString ∧ HasPrefix (Path o) "/" = true ∧ ID o ≠ EmptyString.

(** Where an operation stands. *)
Definition place (o : Operation) : string * string := (Path o, ToLower (op_Method o)).

(** The schemas a description names, the problem's first. *)
Definition all_schemas (ops : list Operation) : list Schema := problemSchema :: (ops ≫= op_schemas).

(** The descriptions [Build] takes. *)
Record described (ops : list Operation) : Prop := mkDescribed {
  de_complete : Forall complete ops;
  de_ids : NoDup (ID <$> ops);
  de_places : NoDup (place <$> ops);
  de_sound : Forall sound_operation ops;
  de_describable : Forall describable (all_schemas ops);
  de_agree : ∀ s s', s ∈ all_schemas ops → s' ∈ all_schemas ops → agree s s'
}.

(** What stands at a place of the paths. *)
Definition at_ (ps : members (members doc)) (pm : string * string) : option doc :=
  item ← mget pm.1 ps; mget pm.2 item.

Definition the_operation (ops : list Operation) (pm : string * string) : option doc :=
  (λ o, NMap (op_members o)) <$> head (filter (λ o, place o = pm) ops).

Record builds_to (done : list Operation) (s : built) : Prop := mkBuildsTo {
  bt_seen : ∀ id, is_Some (mget id (seen s)) ↔ id ∈ ID <$> done;
  bt_paths : ∀ pm, at_ (paths s) pm = the_operation done pm;
  bt_only : ∀ path item, (path, item) ∈ paths s → ∀ me d, (me, d) ∈ item →
    ∃ o, o ∈ done ∧ d = NMap (op_members o)
}.

Lemma the_operation_Some ops pm : is_Some (the_operation ops pm) ↔ pm ∈ place <$> ops.
Proof.
  unfold the_operation. rewrite fmap_is_Some, list_elem_of_fmap. split.
  - intros [o Ho]. assert (Hin : o ∈ filter (λ o, place o = pm) ops) by (destruct (filter _ _); [done|injection Ho as ->; left]).
    apply list_elem_of_filter in Hin as [<- Hin]. by exists o.
  - intros (o & -> & Hin). destruct (filter _ _) as [|x l] eqn:Hf; [|by exists x].
    assert (H : o ∈ filter (λ o', place o' = place o) ops) by (by apply list_elem_of_filter).
    rewrite Hf in H. by apply elem_of_nil in H.
Qed.

Lemma the_operation_snoc ops o pm : place o ∉ place <$> ops →
  the_operation (ops ++ [o]) pm = if decide (place o = pm) then Some (NMap (op_members o)) else the_operation ops pm.
Proof.
  intros Hn. unfold the_operation. rewrite filter_app, filter_cons, filter_nil. case_decide as Hp.
  - subst. destruct (filter _ ops) as [|x l] eqn:Hf; [done|]. exfalso. apply Hn.
    assert (H : x ∈ filter (λ o', place o' = place o) ops) by (rewrite Hf; left).
    apply list_elem_of_filter in H as [<- H]. apply list_elem_of_fmap. by exists x.
  - by rewrite app_nil_r.
Qed.

Lemma add_operation_ok done s o : builds_to done s →
  (∀ s', add_operation s o = Ok s' → complete o ∧ ID o ∉ ID <$> done ∧ place o ∉ place <$> done ∧
    sound_operation o ∧ add_schemas (op_schemas o) (bld s) = Ok (bld s') ∧ builds_to (done ++ [o]) s') ∧
  (∀ b', complete o → ID o ∉ ID <$> done → place o ∉ place <$> done → sound_operation o →
    add_schemas (op_schemas o) (bld s) = Ok b' → ∃ s', add_operation s o = Ok s').
Proof.
  intros [Hseen Hpaths Honly]. unfold add_operation.
  assert (Hcomp : is_empty (op_Method o) || negb (HasPrefix (Path o) "/") || is_empty (ID o) = false ↔ complete o).
  { unfold complete. rewrite !orb_false_iff, negb_false_iff. rewrite <- !not_true_iff_false, !is_empty_spec. tauto. }
  assert (Hid : mget (ID o) (seen s) = None ↔ ID o ∉ ID <$> done).
  { rewrite <- Hseen, <- not_eq_None_Some. split; [tauto|]. intros H. destruct (mget _ _); [by destruct H|done]. }
  assert (Hat : mget (ToLower (op_Method o)) (default [] (mget (Path o) (paths s))) = at_ (paths s) (place o)).
  { unfold at_, place. cbn. by destruct (mget (Path o) (paths s)). }
  assert (Hpl : is_Some (at_ (paths s) (place o)) ↔ place o ∈ place <$> done) by (rewrite Hpaths; apply the_operation_Some).
  rewrite Hat.
  pose proof (operation_builds o (bld s)) as Hop.
  assert (Hstep : ∀ b d, builds_to (done ++ [o]) (mkBuilt (mset (Path o) (mset (ToLower (op_Method o)) (NMap (op_members o))
      (default [] (mget (Path o) (paths s)))) (paths s)) (mset (ID o) d (seen s)) b) ∨ place o ∈ place <$> done).
  { intros b d. destruct (decide (place o ∈ place <$> done)) as [|Hno]; [by right|left]. constructor; cbn [paths seen].
    - intros id. rewrite mget_mset, fmap_app, elem_of_app. cbn. rewrite list_elem_of_singleton.
      case_decide; [split; [by right; subst|by eexists]|]. rewrite Hseen. split; [by left|intros [?|?]; [done|congruence]].
    - intros [p me]. rewrite the_operation_snoc by done. unfold at_. cbn [fst snd]. rewrite mget_mset.
      case_decide as Hp; cbn [mbind option_bind].
      + subst p. rewrite mget_mset. case_decide as Hm; [by rewrite decide_True by (unfold place; congruence)|].
        rewrite decide_False by (unfold place; congruence). rewrite <- Hpaths. unfold at_. cbn.
        by destruct (mget (Path o) (paths s)).
      + rewrite decide_False by (unfold place; congruence). by rewrite <- Hpaths.
    - assert (Hmore : ∀ path item, (path, item) ∈ paths s → ∀ me x, (me, x) ∈ item →
        ∃ o', o' ∈ done ++ [o] ∧ x = NMap (op_members o')).
      { intros path item Hp me x Hx. destruct (Honly path item Hp me x Hx) as (o' & Ho' & ->).
        exists o'. split; [|done]. apply elem_of_app. by left. }
      intros path item [[= -> ->]|Hp]%mset_elem me x; [|by apply (Hmore path)].
      intros [[= -> ->]|Hx]%mset_elem; [exists o; split; [apply elem_of_app; right; left|done]|].
      destruct (mget (Path o) (paths s)) as [item|] eqn:Hit; [|by apply elem_of_nil in Hx].
      apply mget_elem in Hit. by apply (Hmore (Path o) item Hit me). }
  split.
  - intros s'. destruct (_ || _ || _) eqn:H1; cbn [throw_if mbind res_bind]; [done|].
    pose proof (proj1 Hcomp eq_refl) as Hco.
    destruct (mget (ID o) (seen s)) eqn:H2; cbn [mbind res_bind]; [done|].
    pose proof (proj1 Hid eq_refl) as Hni.
    case_bool_decide as Hb; cbn [throw_if mbind res_bind]; [done|].
    destruct (operation o (bld s)) as [[b d]|]; cbn; [|done]. intros [= <-].
    destruct (proj1 (Hop b d) eq_refl) as (Hs & Ha & ->).
    assert (H3 : place o ∉ place <$> done) by tauto.
    repeat (split; [done|]). by destruct (Hstep b (Pattern o)).
  - intros b' H1 H2 H3 H4 H5. apply Hcomp in H1. rewrite H1. apply Hid in H2. rewrite H2. cbn [throw_if mbind res_bind].
    rewrite bool_decide_false by tauto. cbn [throw_if mbind res_bind].
    assert (operation o (bld s) = Ok (b', NMap (op_members o))) as -> by (by apply Hop). by eexists.
Qed.

Lemma add_operations_ok ops : ∀ done s, builds_to done s →
  (∀ s', foldM_res add_operation ops s = Ok s' → Forall complete ops ∧
    Forall (λ o, ID o ∉ ID <$> done) ops ∧ NoDup (ID <$> ops) ∧
    Forall (λ o, place o ∉ place <$> done) ops ∧ NoDup (place <$> ops) ∧
    Forall sound_operation ops ∧ add_schemas (ops ≫= op_schemas) (bld s) = Ok (bld s') ∧
    builds_to (done ++ ops) s') ∧
  (∀ b', Forall complete ops → Forall (λ o, ID o ∉ ID <$> done) ops → NoDup (ID <$> ops) →
    Forall (λ o, place o ∉ place <$> done) ops → NoDup (place <$> ops) → Forall sound_operation ops →
    add_schemas (ops ≫= op_schemas) (bld s) = Ok b' → ∃ s', foldM_res add_operation ops s = Ok s').
Proof.
  assert (Hout : ∀ {K} (f : Operation → K) done o l, Forall (λ o', f o' ∉ f <$> done ++ [o]) l ↔
    Forall (λ o', f o' ∉ f <$> done) l ∧ f o ∉ f <$> l).
  { intros K f done o l. rewrite !Forall_forall. setoid_rewrite fmap_app. setoid_rewrite elem_of_app.
    cbn. setoid_rewrite list_elem_of_singleton. rewrite list_elem_of_fmap. naive_solver. }
  induction ops as [|o ops IH]; intros done s Hs; cbn [foldM_res].
  { split; [|by eexists]. intros s' [= <-]. rewrite app_nil_r. split_and!; done || constructor. }
  destruct (add_operation_ok done s o Hs) as [Hdo Hcan].
  change ((o :: ops) ≫= op_schemas) with (op_schemas o ++ (ops ≫= op_schemas)).
  setoid_rewrite add_schemas_app. setoid_rewrite Forall_cons. rewrite !fmap_cons. setoid_rewrite NoDup_cons. split.
  - intros s'. destruct (add_operation s o) as [s1|] eqn:Ho; cbn [mbind res_bind]; [|done]. intros Hf.
    destruct (Hdo s1 eq_refl) as (H1 & H2 & H3 & H4 & H5 & H6).
    destruct (proj1 (IH _ _ H6) s' Hf) as (H7 & [H8 H8']%Hout & H9 & [H10 H10']%Hout & H11 & H12 & H13 & H14).
    rewrite <- app_assoc in H14. split_and!; try done. by exists (bld s1).
  - intros b' [? ?] [? ?] [? ?] [? ?] [? ?] [? ?] (b1 & Hb1 & Hb').
    destruct (Hcan b1) as [s1 Hs1]; [done..|]. destruct (Hdo s1 Hs1) as (_ & _ & _ & _ & Ha & Hto).
    rewrite Hs1. cbn [mbind res_bind]. apply (proj2 (IH _ _ Hto) b'); try done; [by apply Hout|by apply Hout|].
    assert (bld s1 = b1) as -> by congruence. done.
Qed.


Definition empty_builder : builder := mkBuilder [] [].

Lemma empty_builder_ok : builder_ok empty_builder.
Proof. constructor; [done|done|]. by intros ? ? ?%elem_of_nil. Qed.

Lemma all_schemas_built ops b : add_schemas (all_schemas ops) empty_builder = Ok b ↔
  ∃ b0, new_builder = Ok b0 ∧ add_schemas (ops ≫= op_schemas) b0 = Ok b.
Proof.
  unfold all_schemas, new_builder. change (problemSchema :: ?l) with ([problemSchema] ++ l).
  rewrite add_schemas_app. unfold add_schemas at 1. cbn [foldM_res]. fold empty_builder.
  destruct (schema problemSchema empty_builder) as [b1|]; cbn; [done|]. split; by intros (? & ? & _).
Qed.

(** What [Build] gives: its paths and components. *)
Record document_of (i : Info) (ops : list Operation) (d : members doc) : Prop := mkDocumentOf {
  do_state : ∃ s, d = document i s ∧ builds_to ops s ∧ builder_ok (bld s) ∧
    ∀ name, mget name (schemas (bld s)) = component <$> of_name name (all_schemas ops)
}.

Lemma Build_ok i ops :
  ((∃ d, Build i ops = Ok d) ↔ described ops) ∧ ∀ d, Build i ops = Ok d → document_of i ops d.
Proof.
  destruct (add_schemas_ok (all_schemas ops) empty_builder empty_builder_ok) as [Hiff Hfin].
  assert (Hsrc : ∀ s s', s ∈ all_schemas ops → mget (Name s) (source empty_builder) = Some s' → agree s' s) by done.
  assert (Hcan : ∀ b0, builds_to [] (mkBuilt [] [] b0)).
  { intros b0. constructor; cbn; [|done|by intros ? ? ?%elem_of_nil].
    intros id. split; [by intros [? ?]|by intros ?%elem_of_nil]. }
  unfold Build. destruct new_builder as [b0|] eqn:Hnb; cbn [map_err mbind res_bind].
  - destruct (add_operations_ok ops [] (mkBuilt [] [] b0) (Hcan b0)) as [Hdo Hall].
    assert (Hdone : ∀ s', foldM_res add_operation ops (mkBuilt [] [] b0) = Ok s' →
      described ops ∧ document_of i ops (document i s')).
    { intros s' Hs'. destruct (Hdo s' Hs') as (H1 & _ & H2 & _ & H3 & H4 & H5 & H6).
      assert (Hb : add_schemas (all_schemas ops) empty_builder = Ok (bld s')) by (apply all_schemas_built; by exists b0).
      destruct (Hfin _ Hb) as [Hok Hk]. destruct (proj1 Hiff) as (Hd & _ & Ha); [by exists (bld s')|].
      split; [by constructor|]. constructor. exists s'. split_and!; try done.
      intros name. rewrite (bo_component _ Hok). by rewrite (add_schemas_source _ _ _ empty_builder_ok Hb). }
    split; [split|].
    + intros [d H]. destruct (foldM_res _ ops _) as [s'|] eqn:Hs'; cbn in H; [|done]. by apply (Hdone s').
    + intros []. destruct (proj2 Hiff) as [b' Hb']; [by split_and!|].
      apply all_schemas_built in Hb' as (b1 & Hb1 & Hb'). rewrite Hnb in Hb1. injection Hb1 as <-.
      destruct (Hall b') as [s' Hs']; try done; try (by apply Forall_true; intros ? ?%elem_of_nil).
      rewrite Hs'. by eexists.
    + intros d. destruct (foldM_res _ ops _) as [s'|] eqn:Hs'; cbn; [|done]. intros [= <-]. by apply Hdone.
  - split; [split; [by intros [? ?]|]|done]. intros []. exfalso.
    destruct (proj2 Hiff) as [b' Hb']; [by split_and!|].
    apply all_schemas_built in Hb' as (b1 & Hb1 & Hb'). congruence.
Qed.

(** ** References *)

(** The targets of the references in a node: the texts under [$ref]. *)
Fixpoint refs {R} (n : node R) : list string :=
  match n with
  | NList l => l ≫= refs
  | NMap l => kv ← l; match kv with
                      | (k, NStr s) => if String.eqb k "$ref" then [s] else []
                      | (_, v) => refs v
                      end
  | _ => []
  end.

Definition member_refs {R} (kv : string * node R) : list string :=
  match kv with
  | (k, NStr s) => if String.eqb k "$ref" then [s] else []
  | (_, v) => refs v
  end.

Lemma refs_map {R} (l : members (node R)) : refs (NMap l) = l ≫= member_refs.
Proof. reflexivity. Qed.

Lemma member_refs_node {R} k (n : node R) x : x ∈ member_refs (k, n) → x ∈ refs n ∨ n = NStr x ∧ k = "$ref".
Proof.
  destruct n; cbn; try (by left). destruct (String.eqb_spec k "$ref") as [->|]; [|by intros ?%elem_of_nil].
  intros ->%list_elem_of_singleton. by right.
Qed.

Lemma elem_refs {R} (l : members (node R)) x : x ∈ refs (NMap l) ↔ ∃ kv, kv ∈ l ∧ x ∈ member_refs kv.
Proof. rewrite refs_map, list_elem_of_bind. naive_solver. Qed.

(** Every reference of the members satisfies [P]. *)
Section within.
Context (P : string → Prop).

Definition within (l : members doc) : Prop := ∀ x, x ∈ refs (NMap l) → P x.

Lemma within_nil : within [].
Proof. intros x H. by apply elem_of_nil in H. Qed.

Lemma within_cons k (v : doc) l : (∀ x, x ∈ member_refs (k, v) → P x) → within l → within ((k, v) :: l).
Proof. intros Hv Hl x (kv & [->|Hkv]%elem_of_cons & Hx)%elem_refs; [by apply Hv|]. apply Hl, elem_refs. by exists kv. Qed.

Lemma within_app l l' : within l → within l' → within (l ++ l').
Proof. intros Hl Hl' x (kv & [H|H]%elem_of_app & Hx)%elem_refs; [apply Hl|apply Hl']; apply elem_refs; by exists kv. Qed.

Lemma within_mset k v l : (∀ x, x ∈ member_refs (k, v) → P x) → within l → within (mset k v l).
Proof. intros Hv Hl x (kv & [->|Hkv]%mset_elem & Hx)%elem_refs; [by apply Hv|]. apply Hl, elem_refs. by exists kv. Qed.

Lemma within_text k s l : k ≠ "$ref" → within l → within (mtext k s l).
Proof.
  intros Hk Hl. unfold mtext. destruct (is_empty s); [done|]. apply within_mset; [|done].
  intros x. cbn. apply String.eqb_neq in Hk. rewrite Hk. by intros ?%elem_of_nil.
Qed.

Lemma within_flag k x l : within l → within (mflag k x l).
Proof. intros Hl. destruct x; [|done]. apply within_mset; [|done]. by intros y ?%elem_of_nil. Qed.
End within.

(** No reference in the members. *)
Definition clean (l : members doc) : Prop := within (λ _, False) l.

Lemma clean_mset k v l : (∀ x, x ∉ member_refs (k, v)) → clean l → clean (mset k v l).
Proof. apply within_mset. Qed.

Lemma clean_nil : clean [].
Proof. apply within_nil. Qed.

Lemma clean_mtext k s l : k ≠ "$ref" → clean l → clean (mtext k s l).
Proof. apply within_text. Qed.

Lemma clean_cons k (v : doc) l : (∀ x, x ∉ member_refs (k, v)) → clean l → clean ((k, v) :: l).
Proof. apply within_cons. Qed.

Lemma clean_one k (v : doc) : (∀ x, x ∉ member_refs (k, v)) → clean [(k, v)].
Proof. intros Hv. by apply clean_cons, clean_nil. Qed.

Lemma clean_map k s x : clean s → x ∉ member_refs (k, NMap s).
Proof. intros Hs H. by apply Hs in H. Qed.

Lemma strs_clean (l : list string) x : x ∉ refs (NList (NStr <$> l) : doc).
Proof. cbn [refs]. rewrite list_elem_of_bind. intros (y & Hx & (s & -> & _)%list_elem_of_fmap). by apply elem_of_nil in Hx. Qed.

Lemma clean_tagged f s : clean s → clean (tagged f s).
Proof.
  intros Hs. unfold tagged. assert (H : clean (mtext "format" (tag_format (field_tags f)) (mtext "description" (tag_doc (field_tags f)) s))).
  { by repeat apply clean_mtext. }
  destruct (is_empty _); [done|]. apply clean_mset; [|done]. intros x. apply strs_clean.
Qed.

Lemma clean_mget k v l : clean l → mget k l = Some v → ∀ x, x ∉ member_refs (k, v).
Proof. intros Hl Hm%mget_elem x Hx. apply (Hl x), elem_refs. by exists (k, v). Qed.

Lemma clean_not_empty s : clean s → clean (not_empty s).
Proof.
  intros Hs. unfold not_empty.
  set (s' := match mget "type" s with Some (NList [t; _]) => mset "type" t s | _ => s end).
  assert (Hs' : clean s').
  { unfold s'. destruct (mget "type" s) as [[| | | |[|t [|u []]]| |]|] eqn:Ht; try done.
    apply clean_mset; [|done]. intros x Hx. eapply (clean_mget _ _ _ Hs Ht x).
    apply member_refs_node in Hx as [Hx|[_ ?]]; [|done]. cbn. apply elem_of_app. by left. }
  destruct (mget "type" s') as [[| | |str| | |]|]; try done.
  repeat (destruct str as [|[[] [] [] [] [] [] [] []] str]; try done); apply clean_mset; try done.
  all: intros x; apply not_elem_of_nil.
Qed.

Lemma clean_nullable s : clean s → clean (nullable s).
Proof.
  intros Hs. unfold nullable. destruct (mget "type" s) as [[| | | | | |]|]; try done.
  apply clean_mset; [|done]. intros x Hx. by repeat (apply elem_of_nil in Hx || apply elem_of_app in Hx as [Hx|Hx]).
Qed.

Lemma clean_add_field mode f key opts s acc : clean s → clean acc.1 → clean (add_field mode f key opts s acc).1.
Proof.
  intros Hs Ha. unfold add_field. cbn [fst]. apply clean_mset; [|done]. intros x. apply clean_map.
  apply clean_tagged with (f := f) in Hs. destruct (_ && _); [by apply clean_not_empty|done].
Qed.

Lemma clean_finish mode acc : clean acc.1 → clean (finish mode acc).
Proof.
  intros Ha. unfold finish. cbv zeta.
  assert (H0 : clean [("type", NStr "object"); ("properties", NMap acc.1)]).
  { apply clean_cons; [intros x; apply not_elem_of_nil|]. apply clean_one. intros x. by apply clean_map. }
  assert (H1 : clean match acc.2 with [] => [("type", NStr "object"); ("properties", NMap acc.1)]
    | l => mset "required" (NList (NStr <$> l)) [("type", NStr "object"); ("properties", NMap acc.1)] end).
  { destruct (acc.2) as [|k l]; [done|]. apply clean_mset; [|done]. intros x. apply (strs_clean (k :: l)). }
  destruct mode; [done|..]; repeat (apply clean_mset; [intros x; apply not_elem_of_nil|]); done.
Qed.

Lemma clean_of_type t f : clean (of_type t f).
Proof. repeat (apply clean_cons; [intros x; apply not_elem_of_nil|]). apply clean_nil. Qed.

Lemma clean_kind k s : kind_schema k = Some s → clean s.
Proof.
  destruct k; intros [= <-]; try apply clean_of_type; try apply clean_nil;
    (apply clean_one; intros x; apply not_elem_of_nil).
Qed.

(** A schema of a type names no component. *)
Lemma visit_clean t : ∀ embed mode acc acc', visit embed mode acc t = Some acc' → clean acc.1 → clean acc'.1.
Proof.
  induction t as [k| | |t IH|t IH|t IH|n fs IH] using gotype_ind'; intros embed mode acc acc' H Ha; cbn [visit] in H.
  - destruct (kind_schema k) as [s|] eqn:Hk; [|done]. injection H as <-. by eapply clean_kind.
  - destruct embed; injection H as <-; [done|]. apply clean_of_type.
  - injection H as <-. apply clean_nil.
  - destruct (visit _ _ _ t) as [[s r]|] eqn:Hs; [|done]. injection H as <-.
    apply clean_nullable, (IH _ _ _ _ Hs), clean_nil.
  - destruct (visit _ _ _ t) as [[s r]|] eqn:Hs; [|done]. injection H as <-.
    apply clean_cons; [intros x; apply not_elem_of_nil|]. apply clean_one. intros x.
    apply clean_map, (IH _ _ _ _ Hs), clean_nil.
  - destruct (visit _ _ _ t) as [[s r]|] eqn:Hs; [|done]. injection H as <-.
    apply clean_cons; [intros x; apply not_elem_of_nil|]. apply clean_one. intros x.
    apply clean_map, (IH _ _ _ _ Hs), clean_nil.
  - match type of H with context [?w fs (if embed then _ else _)] =>
      assert (Hw : ∀ a a', w fs a = Some a' → clean a.1 → clean a'.1) end.
    { clear H. generalize (if embed then mode else Row). intros m. revert IH.
      induction fs as [|[f t] fs IHf]; intros IH a a' H Hc; [by injection H as <-|].
      apply Forall_cons in IH as [Ht Hfs]. cbn in Ht.
      apply bind_Some in H as (a1 & Ha1 & H). apply (IHf Hfs a1 a' H).
      destruct (Anonymous f && is_struct t); [by apply (Ht _ _ _ _ Ha1)|].
      destruct (field_key f) as [[key opts]|]; [|by injection Ha1 as <-].
      apply bind_Some in Ha1 as ([s r] & Hs & [= <-]). apply clean_add_field; [|done].
      apply (Ht _ _ _ _ Hs), clean_nil. }
    apply bind_Some in H as (a & H & He).
    assert (Hc : clean a.1) by (destruct embed; refine (Hw _ _ H _); [exact Ha|exact clean_nil]).
    destruct embed; injection He as <-; [done|]. exact (clean_finish Row a Hc).
Qed.

Lemma component_clean s x : x ∉ refs (component s).
Proof.
  intros Hx. refine (clean_mtext "description" (Description s) _ _ _ x Hx); [done|]. unfold structSchema.
  destruct (visit _ _ _ _) as [acc|] eqn:Hv; cbn; [|apply clean_nil].
  apply clean_finish. eapply visit_clean; [exact Hv|]. apply clean_nil.
Qed.

(** ** What an operation refers to *)

Definition target (name : string) : string := "#/components/schemas/" +:+ name.

(** The references of a node: those it was written with and those of its schemas. *)
Lemma plain_refs n x : x ∈ refs (plain n) → x ∈ refs n ∨ x ∈ (λ s, target (Name s)) <$> node_schemas n.
Proof.
  induction n as [| | | |l IH|l IH|s] using node_ind'; cbn [plain]; try (by left).
  - cbn [refs node_schemas]. rewrite list_elem_of_bind. intros (d & Hx & (n & -> & Hn)%list_elem_of_fmap).
    rewrite Forall_forall in IH. destruct (IH n Hn Hx) as [H|(s & -> & H)%list_elem_of_fmap].
    + left. apply list_elem_of_bind. by exists n.
    + right. apply list_elem_of_fmap. exists s. split; [done|]. apply list_elem_of_bind. by exists n.
  - rewrite elem_refs. intros (kv & (kn & -> & Hin)%list_elem_of_fmap & Hx). rewrite Forall_forall in IH.
    apply member_refs_node in Hx as [Hx|[Hx Hk]].
    + destruct (IH kn Hin Hx) as [H|(s & -> & H)%list_elem_of_fmap].
      * left. apply elem_refs. exists kn. split; [done|]. destruct kn as [k n]. destruct n; try done.
        by apply elem_of_nil in H.
      * right. apply list_elem_of_fmap. exists s. split; [done|]. cbn. apply list_elem_of_bind. by exists kn.
    + left. apply elem_refs. exists kn. split; [done|]. destruct kn as [k n]. cbn [fst snd] in *. subst k.
      destruct n; try done. injection Hx as ->. cbn. by left.
  - cbn. intros ->%list_elem_of_singleton. right. by apply list_elem_of_singleton.
Qed.

(** The nodes of an operation. *)
Definition response_nodes (r : Response) : list (node Schema) :=
  (if r_Problem r then [] else from_option (λ n, [n]) [] (r_Schema r)) ++ (h_Schema <$> r_Headers r).
Definition op_nodes (o : Operation) : list (node Schema) :=
  (p_Schema <$> Params o) ++ from_option (λ b, [b_Schema b]) [] (op_Body o) ++ (Responses o ≫= response_nodes).

Lemma op_schemas_nodes o s : s ∈ op_schemas o ↔ ∃ n, n ∈ op_nodes o ∧ s ∈ node_schemas n.
Proof.
  unfold op_schemas, op_nodes, body_schemas.
  repeat setoid_rewrite elem_of_app. repeat setoid_rewrite list_elem_of_bind. setoid_rewrite list_elem_of_fmap.
  assert (Hb : s ∈ from_option (λ b, node_schemas (b_Schema b)) [] (op_Body o) ↔
    ∃ n, n ∈ from_option (λ b, [b_Schema b]) [] (op_Body o) ∧ s ∈ node_schemas n).
  { destruct (op_Body o) as [b|]; cbn; [|by setoid_rewrite elem_of_nil; split; [|intros (? & ? & ?)]].
    setoid_rewrite list_elem_of_singleton. naive_solver. }
  assert (Hr : ∀ r, s ∈ response_schemas r ↔ ∃ n, n ∈ response_nodes r ∧ s ∈ node_schemas n).
  { intros r. unfold response_schemas, response_nodes. setoid_rewrite elem_of_app. rewrite list_elem_of_bind.
    setoid_rewrite list_elem_of_fmap. destruct (r_Problem r), (r_Schema r) as [n|]; cbn;
      try setoid_rewrite list_elem_of_singleton; try setoid_rewrite elem_of_nil; naive_solver. }
  rewrite Hb. setoid_rewrite Hr. naive_solver.
Qed.

Lemma within_weaken (P Q : string → Prop) l : (∀ x, P x → Q x) → within P l → within Q l.
Proof. intros H Hl x Hx. by apply H, Hl. Qed.

(** A member that is a text under a key other than [$ref], or holds no node at all. *)
Lemma within_bare (P : string → Prop) k (v : doc) l :
  member_refs (k, v) = [] → within P l → within P ((k, v) :: l).
Proof. intros Hv. apply within_cons. intros x. rewrite Hv. by intros ?%elem_of_nil. Qed.

(** A member that is one node, under a key other than [$ref]. *)
Lemma within_node (P : string → Prop) k (v : doc) l :
  k ≠ "$ref" → (∀ x, x ∈ refs v → P x) → within P l → within P ((k, v) :: l).
Proof. intros Hk Hv. apply within_cons. by intros x [H|[_ ?]]%member_refs_node; [apply Hv|]. Qed.

Lemma within_map (P : string → Prop) k (v l : members doc) :
  within P v → within P l → within P ((k, NMap v) :: l).
Proof. intros Hv. by apply within_cons. Qed.

Lemma within_content (P : string → Prop) typ (v : doc) l :
  (∀ x, x ∈ refs v → P x) → within P l → within P (("content", content typ v) :: l).
Proof.
  intros Hv. apply within_map. repeat apply within_map; [|apply within_nil].
  by apply within_node, within_nil.
Qed.

Lemma within_param (P : string → Prop) p :
  (∀ x, x ∈ refs (plain (p_Schema p)) → P x) → ∀ x, x ∈ refs (param_doc p) → P x.
Proof.
  intros Hn. assert (Hb : within P (mflag "required" (p_Required p || String.eqb (In p) "path")
    (mtext "description" (p_Description p)
       [("name", NStr (p_Name p)); ("in", NStr (In p)); ("schema", plain (p_Schema p))]))).
  { apply within_flag, within_text; [done|]. do 2 (apply within_bare; [done|]). by apply within_node, within_nil. }
  unfold param_doc. cbv zeta. destruct (Deep p); [|exact Hb].
  do 2 (apply within_mset; [by intros x ?%elem_of_nil|]). exact Hb.
Qed.

Lemma within_headers (P : string → Prop) hs :
  (∀ h, h ∈ hs → ∀ x, x ∈ refs (plain (h_Schema h)) → P x) → within P (header_doc <$> hs).
Proof.
  induction hs as [|h hs IH]; intros Hn; [apply within_nil|]. cbn [fmap list_fmap]. apply within_map.
  - apply within_text; [done|]. apply within_node, within_nil; [done|]. apply Hn. left.
  - apply IH. intros h' Hh'. apply Hn. by right.
Qed.

Lemma within_mset_all (P : string → Prop) l : ∀ acc, within P l → within P acc → within P (mset_all l acc).
Proof.
  induction l as [|[k v] l IH]; intros acc Hl Ha; [done|]. apply IH.
  - intros x (kv & Hkv & Hx)%elem_refs. apply Hl, elem_refs. exists kv. split; [by right|done].
  - apply within_mset; [|done]. intros x Hx. apply Hl, elem_refs. exists (k, v). split; [left|done].
Qed.

(** Where the references of an operation may come from. *)
Definition op_target (nodes : list (node Schema)) (x : string) : Prop :=
  x = target "Problem" ∨ ∃ n, n ∈ nodes ∧ x ∈ refs (plain n).

Lemma within_response r x : x ∈ refs (response_doc r) → op_target (response_nodes r) x.
Proof.
  unfold response_doc, response_nodes. set (P := op_target _). cbv zeta.
  match goal with |- context [NMap match r_Headers r with [] => ?rm | _ => _ end] => assert (Hrm : within P rm) end.
  { destruct (r_Problem r); [|destruct (r_Schema r) as [n|]]; cbn [app]; apply within_bare; try done;
      try apply within_nil; apply within_content; try apply within_nil; intros y Hy.
    - cbn in Hy. apply list_elem_of_singleton in Hy as ->. by left.
    - right. exists n. split; [apply elem_of_app; left; left|done]. }
  destruct (r_Headers r) as [|h hs] eqn:Hh; [exact (Hrm x)|]. rewrite <- Hh. cbn [app].
  intros Hx. refine (within_app P _ _ Hrm _ x Hx). apply within_map, within_nil.
  apply within_mset_all; [|apply within_nil].
  apply within_headers. intros h' Hin y Hy. right. exists (h_Schema h'). split; [|done].
  apply elem_of_app. right. apply list_elem_of_fmap_2. by rewrite <- Hh.
Qed.

Lemma op_target_mono l l' x : (∀ n, n ∈ l → n ∈ l') → op_target l x → op_target l' x.
Proof. intros Hl [->|(n & Hn & Hx)]; [by left|right]. exists n. auto. Qed.

Lemma within_operation o : within (op_target (op_nodes o)) (op_members o).
Proof.
  unfold op_members. cbv zeta. set (P := op_target _).
  assert (Hhead : within P (if is_empty (Tag o) then mtext "description" (op_Description o) (mtext "summary" (Summary o)
      [("operationId", NStr (ID o))]) else mset "tags" (NList [NStr (Tag o)]) (mtext "description" (op_Description o)
      (mtext "summary" (Summary o) [("operationId", NStr (ID o))])))).
  { assert (H0 : within P (mtext "description" (op_Description o) (mtext "summary" (Summary o) [("operationId", NStr (ID o))]))).
    { do 2 (apply within_text; [done|]). by apply within_bare, within_nil. }
    destruct (is_empty (Tag o)); [exact H0|]. apply within_mset; [by intros x ?%elem_of_nil|exact H0]. }
  assert (Hps : ∀ d, d ∈ param_doc <$> Params o → ∀ x, x ∈ refs d → P x).
  { intros d (p & -> & Hp)%list_elem_of_fmap. apply within_param. intros x Hx. right. exists (p_Schema p).
    split; [|done]. apply elem_of_app. left. by apply list_elem_of_fmap_2. }
  apply within_app; [destruct (param_doc <$> Params o) as [|d ds]|apply within_app].
  - exact Hhead.
  - apply within_app; [exact Hhead|]. apply within_node, within_nil; [done|].
    intros x (d' & Hd & Hin)%list_elem_of_bind. by apply (Hps d').
  - unfold body_members. destruct (op_Body o) as [body|] eqn:Hb; [|apply within_nil].
    apply within_map, within_nil. apply within_flag, within_text; [done|]. apply within_content, within_nil.
    intros x Hx. right. exists (b_Schema body). split; [|done]. unfold op_nodes. rewrite Hb. cbn.
    apply elem_of_app. right. left.
  - apply within_map, within_nil. intros x (kv & (r & -> & Hr)%list_elem_of_fmap & Hx)%elem_refs.
    apply (op_target_mono (response_nodes r)).
    + intros n Hn. unfold op_nodes. apply elem_of_app. right. apply elem_of_app. right. apply list_elem_of_bind. by exists r.
    + by apply within_response.
Qed.

(** The references an operation was not written with name its schemas. *)
Lemma operation_targets o x : Forall (λ n, refs n = []) (op_nodes o) → x ∈ refs (NMap (op_members o)) →
  x = target "Problem" ∨ x ∈ (λ s, target (Name s)) <$> op_schemas o.
Proof.
  rewrite Forall_forall. intros Hno [Hx|(n & Hn & Hx)]%within_operation; [by left|right].
  apply plain_refs in Hx as [Hx|(s & -> & Hs)%list_elem_of_fmap].
  - rewrite (Hno n Hn) in Hx. by apply elem_of_nil in Hx.
  - apply list_elem_of_fmap. exists s. split; [done|]. apply op_schemas_nodes. by exists n.
Qed.

(** ** The two laws *)

(** The parts of a document a reader looks up. *)
Definition submap (k : string) (l : members doc) : members doc :=
  match mget k l with Some (NMap m) => m | _ => [] end.
Definition operation_at (d : members doc) (path method : string) : option doc :=
  mget method (submap path (submap "paths" d)).
Definition components (d : members doc) : members doc := submap "schemas" (submap "components" d).

Lemma mget_fmap {A B} (f : A → B) k (l : members A) : mget k ((λ kv, (kv.1, f kv.2)) <$> l) = f <$> mget k l.
Proof.
  unfold mget. induction l as [|[i x] l IH]; [done|]. rewrite fmap_cons, !filter_cons. cbn [fst snd].
  case_decide; [done|exact IH].
Qed.

Lemma document_parts i s path method :
  operation_at (document i s) path method = at_ (paths s) (path, method) ∧
  components (document i s) = schemas (bld s).
Proof.
  split; [|done]. unfold operation_at, at_, submap at 1. cbn [fst snd].
  change (submap "paths" (document i s)) with ((λ kv, (kv.1, NMap kv.2)) <$> paths s).
  rewrite mget_fmap. by destruct (mget path (paths s)).
Qed.

(** C21. [Build] succeeds exactly on the operations that are complete, of distinct ids and
    places, whose path parameters are the declared ones, whose statuses are distinct, and
    whose schemas can be built and agree wherever two have one name.  The document has then
    at every path and method the operation declared there and at no other place one, and
    as components the schemas the operations name, and the problem. *)
Theorem Build_described i ops :
  ((∃ d, Build i ops = Ok d) ↔ described ops) ∧
  ∀ d, Build i ops = Ok d →
    (∀ path method, operation_at d path method = the_operation ops (path, method)) ∧
    ∀ name, mget name (components d) = component <$> of_name name (all_schemas ops).
Proof.
  destruct (Build_ok i ops) as [Hiff Hdoc]. split; [exact Hiff|]. intros d [(s & -> & Hto & _ & Hk)]%Hdoc.
  split; [|exact Hk]. intros path method. rewrite (proj1 (document_parts i s path method)). apply bt_paths, Hto.
Qed.

Lemma operation_found i ops d o : Build i ops = Ok d → o ∈ ops →
  is_Some (operation_at d (Path o) (ToLower (op_Method o))).
Proof.
  intros Hb Ho. destruct (Build_ok i ops) as [_ Hdoc]. destruct (Hdoc d Hb) as [(s & -> & Hto & _)].
  rewrite (proj1 (document_parts i s _ _)), (bt_paths _ _ Hto). apply the_operation_Some.
  by apply (list_elem_of_fmap_2 place).
Qed.

Definition demo_type : gotype := GStruct "thing.Row" [(json_tag "id" "Identifier." , GKind KString)].
Definition demo_schema : Schema := mkSchema "Thing" demo_type Row "A thing.".
Definition demo_ops : list Operation :=
  [mkOperation "GET" "/things/{id}" "thing_get" "Get a thing" EmptyString "things"
     [mkParam "id" "path" "Identifier." false (NMap [("type", NStr "string")]) false] None
     [mkResponse "200" "The thing." (Some (NSchema demo_schema)) false [];
      mkResponse "default" "A refusal." None true []]].
Definition demo_info : Info := mkInfo "Things" "1.0" EmptyString [].
Definition demo_doc : members doc := match Build demo_info demo_ops with Ok d => d | Err _ => [] end.

Lemma Build_described_witness :
  described demo_ops ∧ is_Some (operation_at demo_doc "/things/{id}" "get").
Proof.
  assert (Hb : Build demo_info demo_ops = Ok demo_doc) by (vm_compute; reflexivity).
  pose proof (Build_described demo_info demo_ops) as [Hiff Hdoc]. split.
  - apply Hiff. exists demo_doc. exact Hb.
  - rewrite (proj1 (Hdoc demo_doc Hb)). vm_compute. eexists. reflexivity.
Defined.

(** A reference of a document that was built names one of its components. *)
Lemma document_closed i ops d x :
  Build i ops = Ok d → refs (NMap (Extensions i)) = [] →
  Forall (λ o, Forall (λ n, refs n = []) (op_nodes o)) ops →
  x ∈ refs (NMap d) → ∃ name, x = target name ∧ is_Some (mget name (components d)).
Proof.
  intros Hb Hext Hno. destruct (Build_ok i ops) as [_ Hdoc].
  destruct (Hdoc d Hb) as [(s & -> & Hto & Hok & Hk)]. rewrite (proj2 (document_parts i s EmptyString EmptyString)).
  set (P := λ x, ∃ name, x = target name ∧ is_Some (mget name (schemas (bld s)))).
  assert (Hnamed : ∀ sc, sc ∈ all_schemas ops → P (target (Name sc))).
  { intros sc Hsc. exists (Name sc). split; [done|]. rewrite Hk. apply fmap_is_Some. unfold of_name.
    assert (Hin : sc ∈ filter (λ s', Name s' = Name sc) (all_schemas ops)) by (by apply list_elem_of_filter).
    destruct (filter _ _); [by apply elem_of_nil in Hin|by eexists]. }
  revert x. change (within P (document i s)). unfold document.
  apply within_bare; [done|]. apply within_map.
  { unfold info_members. apply within_mset_all.
    - intros x. rewrite Hext. by intros ?%elem_of_nil.
    - apply within_text; [done|]. do 2 (apply within_bare; [done|]). apply within_nil. }
  apply within_map.
  { intros x (kv & ([path item] & -> & Hp)%list_elem_of_fmap & Hx)%elem_refs. cbn in Hx.
    apply elem_refs in Hx as ([me v] & Hv & Hx). destruct (bt_only ops s Hto path item Hp me v Hv) as (o & Ho & ->).
    rewrite Forall_forall in Hno. destruct (operation_targets o x (Hno o Ho) Hx) as [->|(sc & -> & Hsc)%list_elem_of_fmap].
    - apply (Hnamed problemSchema). left.
    - apply Hnamed. right. apply list_elem_of_bind. by exists o. }
  apply within_map; [|by intros x ?%elem_of_nil].
  apply within_map; [|by intros x ?%elem_of_nil].
  intros x ([name v] & Hv & Hx)%elem_refs. apply (bo_only _ Hok) in Hv as [sc ->].
  exfalso. apply (component_clean sc x). apply member_refs_node in Hx as [Hx|[Hx _]]; [exact Hx|done].
Qed.

(** C24. No reference of a document that was built dangles: where the nodes of the operations
    and the extensions of the info were written without a [$ref] of their own, every [$ref]
    of the document is the path of one of its components. *)
Theorem Build_refs i ops d x :
  Build i ops = Ok d → refs (NMap (Extensions i)) = [] →
  Forall (λ o, Forall (λ n, refs n = []) (op_nodes o)) ops →
  x ∈ refs (NMap d) → ∃ name, x = target name ∧ is_Some (mget name (components d)).
Proof. apply document_closed. Qed.

Lemma Build_refs_witness : ∃ name, target "Problem" = target name ∧ is_Some (mget name (components demo_doc)).
Proof.
  apply (Build_refs demo_info demo_ops demo_doc (target "Problem")).
  - vm_compute. reflexivity.
  - reflexivity.
  - repeat constructor.
  - vm_compute. repeat first [left | right].
Defined.

(** ** What Gaps tells *)

Section gaps.
Context {H : Type} (m : mux H).








End gaps.



