(* ===== verification/EntityApi.v ===== *)
(** * lib/entity/openapi.go: what the form says of its routes

    The six routes of the form as operations of lib/openapi, beside the handlers [Routes]
    registers: one table for both.  The Go types behind a row and a body are arguments:
    an entity of [Entity] names its body by a schema of keys. *)

From S2P Require Import Prelude.
From S2P Require Import GoStrings.
From S2P Require Import GoJson.
From S2P Require Import Db.
From S2P Require Import Mux.
From S2P Require Import Doer.
From S2P Require Import Decode.
From S2P Require Rest.
From S2P Require Query.
From S2P Require Entity.
From S2P Require Import OpenApi.

(** ** The row of GET <xs>/{id}/methods *)

Definition column (key format doc : string) : field_info :=
  mkField false true (mkTags key doc format EmptyString EmptyString).

Definition MethodRow : gotype := GStruct "entity.MethodRow"
  [
   (column "id" "uuid" "Identifier of the method.", GKind KString);
   (column "parent" "uuid" "Parent method (a nested or sub-menu method), or null.", GPtr (GKind KString));
   (column "entity" "uuid" "Entity of the class.", GKind KString);
   (column "entitycode" EmptyString "Code of the entity.", GKind KString);
   (column "entityname" EmptyString "Name of the entity in the session's locale, or null where it has no text.", GPtr (GKind KString));
   (column "class" "uuid" "Class the method belongs to.", GKind KString);
   (column "classcode" EmptyString "Code of the class.", GKind KString);
   (column "classlabel" EmptyString "Label of the class in the session's locale, or null where it has no text.", GPtr (GKind KString));
   (column "state" "uuid" "State in which the method is available; null means any state.", GPtr (GKind KString));
   (column "statecode" EmptyString "Code of that state, or null.", GPtr (GKind KString));
   (column "statelabel" EmptyString "Label of that state in the session's locale, or null.", GPtr (GKind KString));
   (column "action" "uuid" "Action the method performs.", GKind KString);
   (column "actioncode" EmptyString "Code of the action: the {action} of POST <xs>/{id}/actions/{action}.", GKind KString);
   (column "actionname" EmptyString "Name of the action in the session's locale, or null.", GPtr (GKind KString));
   (column "code" EmptyString "Code of the method, state_code:action_code.", GKind KString);
   (column "label" EmptyString "Label of the method in the session's locale, or null.", GPtr (GKind KString));
   (column "sequence" EmptyString "Display and processing order; the answer is in this order.", GKind KInt32);
   (column "execute" EmptyString "The caller may execute the method on this object.", GKind KBool);
   (column "visible" EmptyString "The method is shown to the caller.", GKind KBool);
   (column "enable" EmptyString "The method is enabled for the caller.", GKind KBool)].

Definition method_schema : Schema := mkSchema "ObjectMethod" MethodRow Row
  "A method of an object's class, as GET <xs>/{id}/methods gives it.".

(** ** Names *)

Definition is_sep (c : ascii) : bool := Ascii.eqb c "_" || Ascii.eqb c "-".
(** The words of a name, and the name as an identifier. *)
Definition words (s : string) : string := smap (λ c, if is_sep c then " "%char else c) s.
Definition ident_of (s : string) : string := smap (λ c, if Ascii.eqb c "-" then "_"%char else c) s.

(** [pascalOf]: every word of the name with its first byte in upper case. *)
Definition capital (w : string) : string :=
  match w with
  | String c r => (if is_ascii c then one (upper_byte c) else replacement) +:+ r
  | EmptyString => EmptyString
  end.
Definition pascalOf (name : string) : string :=
  foldr String.append EmptyString
    (capital <$> filter (λ w, is_empty w = false) (Split (smap (λ c, if is_sep c then "_"%char else c) name) "_")).

(** ** The form *)

Definition typed (t : string) : node Schema := NMap [("type", NStr t)].

Section form.
Context {DO : Doer} {T : Texts}.
(* the entity, the types of its row and of its body; None for nil *)
Context (e : Entity.Entity) (Row_ : option gotype) (body : option gotype).

Definition p : string := Entity.entity_Prefix e.
Definition plural : string := TrimPrefix p "/api/v2/".
Definition noun : string := words (Entity.Name e).
Definition nouns : string := words plural.
Definition id : string := ident_of plural.
Definition pascal : string := pascalOf (Entity.Name e).

(** The components of the entity: its row, its body of a create and of a patch. *)
Definition row_schema (t : gotype) : Schema := mkSchema pascal t Row
  ("A row of api." +:+ Entity.Name e +:+ " as the database gives it: every property is present, a property that has no value is null. In a list answered with `fields`, only the named properties are present.").
Definition input_schema (t : gotype) : Schema := mkSchema (pascal +:+ "Input") t Create
  ("Body of POST " +:+ p +:+ ". An absent key and an explicit null both mean " +:+ quoted "not set" +:+ ", except for a required key: it must be present and not empty (400 otherwise); a key the schema does not name is refused with 400.").
Definition patch_schema (t : gotype) : Schema := mkSchema (pascal +:+ "Patch") t Patch
  ("Body of PATCH " +:+ p +:+ "/{id}. An absent key and an explicit null both mean " +:+ quoted "do not change" +:+ "; at least one key with a value (not null) is required; a key the schema does not name is refused with 400.").

Definition row : node Schema :=
  match Row_ with
  | None => NMap [("type", NStr "object"); ("additionalProperties", NBool true);
      ("description", NStr ("A row of api." +:+ Entity.Name e +:+ "; its fields are not described yet."))]
  | Some t => NSchema (row_schema t)
  end.
Definition input : node Schema := match body with None => NNil | Some t => NSchema (input_schema t) end.
Definition patch : node Schema := match body with None => NNil | Some t => NSchema (patch_schema t) end.

Definition idParam : Param := mkParam "id" "path"
  ("Identifier of the " +:+ noun +:+ ": a UUID. Anything else is refused with 400 before the database.") false
  (NMap [("type", NStr "string"); ("format", NStr "uuid")]) false.
Definition etag : Header :=
  mkHeader "ETag" "Weak ETag of the row: its last update, or a digest of the row." (typed "string").

(** A problem of a status. *)
Definition refusal (status what : string) : Response := mkResponse status what None true [].

Definition errs (rs : list Response) : list Response :=
  rs ++
  [refusal "401" "No bearer token, a token that does not verify or has expired, or a session the database does not know. Carries WWW-Authenticate.";
   refusal "403" "The database refused: the route is not open to this session, or a right is missing (ERR-403-…).";
   refusal "default" "Any other refusal of the error catalogue: the status is the GGG of its ERR-GGG-CCC code (400 where that is not a status). A failure of the service itself is 500 with type urn:apostol:error:internal."].
Definition bad (what : string) : Response := refusal "400" what.
Definition notFound : Response :=
  refusal "404" ("There is no such " +:+ noun +:+ ", or the caller may not see it — the two are not told apart.").
Definition ok (desc : string) (h : list Header) : Response := mkResponse "200" desc (Some row) false h.

(** A parameter of the query or the header that is a text. *)
Definition text_param (name in_ desc : string) (required : bool) : Param :=
  mkParam name in_ desc required (typed "string") false.

Definition listParams : list Param :=
  [mkParam "filter" "query" "Conditions on the row's properties: filter[<property>]=<value>, or filter[<property>][<operator>]=<value> with the operator one of eq, ne, lt, lte, gt, gte, like, ilike, in (comma-separated values), null. Conditions are joined with AND." false
     (NMap [("type", NStr "object"); ("additionalProperties", NMap [("oneOf", NList [typed "string";
        NMap [("type", NStr "object"); ("additionalProperties", typed "string")]])])]) true;
   text_param "sort" "query" "Comma-separated properties; a leading - is descending: sort=-created,name." false;
   text_param "fields" "query" "Comma-separated properties to return; the others are left out of each item." false;
   mkParam "page[limit]" "query" "Page size." false
     (NMap [("type", NStr "integer"); ("minimum", NInt 1); ("maximum", NInt Query.MaxLimit);
            ("default", NInt Query.DefaultLimit)]) false;
   mkParam "page[offset]" "query" "Rows to skip." false
     (NMap [("type", NStr "integer"); ("minimum", NInt 0); ("default", NInt 0)]) false]
  ++ match Entity.SearchFields e with
     | [] => []
     | fields => [text_param "q" "query"
         ("One term, matched without regard to case over " +:+ Join fields ", " +:+ "; given once.") false]
     end.

Definition list_page : node Schema :=
  NMap [("type", NStr "object");
        ("required", NList [NStr "items"; NStr "total"; NStr "limit"; NStr "offset"]);
        ("properties", NMap
          [("items", NMap [("type", NStr "array"); ("items", row)]);
           ("total", NMap [("type", NStr "integer"); ("format", NStr "int64"); ("description", NStr "Number of rows of the whole selection.")]);
           ("limit", NMap [("type", NStr "integer"); ("description", NStr "Page size applied.")]);
           ("offset", NMap [("type", NStr "integer"); ("description", NStr "Rows skipped.")])])].

Definition op_list : Operation :=
  mkOperation "GET" p (id +:+ "_list") ("List " +:+ nouns)
    ("The " +:+ nouns +:+ " the caller may see, filtered, sorted and paged. total counts the rows of the same selection before paging.")
    plural listParams None
    (errs [mkResponse "200" "The page." (Some list_page) false [];
           bad "An unknown query parameter, or a bad filter, sort, fields or page value; q given more than once."]).

Definition op_get : Operation :=
  mkOperation "GET" (p +:+ "/{id}") (id +:+ "_get") ("Get a " +:+ noun) EmptyString plural
    [idParam;
     text_param "fields" "query" "Comma-separated properties to return; the others are left out. The ETag is that of the whole row." false;
     text_param "If-None-Match" "header" "The ETag of the copy the client holds: when it is current the answer is 304 with no body." false]
    None
    (errs [ok "The row." [etag];
           mkResponse "304" "The row has not changed since If-None-Match. No body." None false [etag];
           bad "The id is not a UUID, a bad fields value, or a query parameter other than fields."; notFound]).

Definition op_create : Operation :=
  mkOperation "POST" p (id +:+ "_create") ("Create a " +:+ noun)
    "One request is one transaction. The answer is the new row." plural
    [text_param "Idempotency-Key" "header" "Optional. The same key with the same body replays the stored answer (marked Idempotency-Replayed: true) for 24 hours; the same key with another body is 409. A key is scoped to the session and the path; a 5xx answer is not stored. The store is in the memory of one service process: a replay is not found after a restart, nor on another instance." false]
    (Some (mkBody EmptyString true input))
    (errs [mkResponse "201" "Created." (Some row) false
             [mkHeader "Location" "Path of the new row." (typed "string"); etag];
           bad "No body, an unknown key, a value of the wrong type, a required property missing, or a value the database refuses.";
           refusal "409" "Idempotency-Key reused with a different body, or the database reports a conflict."]).

Definition op_update : Operation :=
  mkOperation "PATCH" (p +:+ "/{id}") (id +:+ "_update") ("Change a " +:+ noun)
    "Only the given keys change. If-Match is required: the ETag of the revision the client read." plural
    [idParam;
     text_param "If-Match" "header" "The ETag of the row as read; * matches any current row. Without it the answer is 428 and the body is not read." true]
    (Some (mkBody EmptyString true patch))
    (errs [ok "The row after the change." [etag];
           bad "The id is not a UUID, the body is empty or has no key, an unknown key, a value of the wrong type or one the database refuses."; notFound;
           refusal "412" "The row changed since it was read: If-Match is no longer its ETag.";
           refusal "428" "No If-Match header."]).

Definition op_action : Operation :=
  mkOperation "POST" (p +:+ "/{id}/actions/{action}") (id +:+ "_action") ("Execute an action of the " +:+ noun)
    "Runs a method of the object's workflow by the code of its action, on a row the caller may see. The methods available now are listed by GET …/methods. The answer is the row after the action; a row the action removed leaves none and the answer is 204."
    plural
    [idParam;
     mkParam "action" "path" "Code of the action (enable, disable, delete, drop, …)." false
       (NMap [("type", NStr "string"); ("pattern", NStr "^[a-z][a-z0-9_]{0,63}$")]) false]
    (Some (mkBody "Parameters of the action. Optional; a JSON object, at most 1 MiB." false
       (NMap [("type", NStr "object"); ("additionalProperties", NBool true)])))
    (errs [ok "The row after the action." [etag];
           mkResponse "204" "The action removed the row. No body." None false [];
           bad "The id is not a UUID, the action name is malformed, or the body is not a JSON object."; notFound;
           refusal "413" "The body is over 1 MiB."]).

Definition op_methods : Operation :=
  mkOperation "GET" (p +:+ "/{id}/methods") (id +:+ "_methods") ("Methods of the " +:+ noun +:+ " now")
    "The methods of the object's class bound to its current state, with the caller's rights to each, in the workflow's order. Not paged."
    plural
    [idParam;
     text_param "fields" "query" "Comma-separated properties to return; the only query parameter taken." false]
    None
    (errs [mkResponse "200" "The methods." (Some (NMap [("type", NStr "array");
             ("items", NSchema method_schema)])) false [];
           bad "The id is not a UUID, or a query parameter other than fields."; notFound]).

(** [form]: the operations, each with its handler. *)
Definition form : list (Operation * Rest.posting) :=
  [(op_list, Rest.lift (Entity.List e)); (op_get, Rest.lift (Entity.Get e));
   (op_create, Rest.Create (Entity.creator e)); (op_update, Rest.lift (Entity.Update e));
   (op_action, Rest.lift (Entity.Action e)); (op_methods, Rest.lift (Entity.Methods e))].

(** [Operations]: nothing for an entity without a row. *)
Definition Operations : list Operation := match Row_ with None => [] | Some _ => form.*1 end.
End form.
