(* ===== verification/EntityApiLaws.v ===== *)
(** * What the form says of its routes is what they do

    The operations of the form are the routes [Entity.Routes] mounts; their
    descriptions build, for any entities of distinct names; the mux of the platform has
    no route of theirs that is not described and none described that is not mounted;
    and every answer of a handler is one its operation declares. *)

From S2P Require Import Prelude.
From S2P Require Import GoStrings.
From S2P Require Import GoJson.
From S2P Require Import Problem.
From S2P Require Import Db.
From S2P Require Import Pgtx.
From S2P Require Import PgtxLaws.
From S2P Require Import Http.
From S2P Require Import Mux.
From S2P Require Import Decode.
From S2P Require Import Doer.
From S2P Require Import Rest.
From S2P Require Import RestLaws.
From S2P Require Entity.
From S2P Require Import EntityLaws.
From S2P Require Entities.
From S2P Require Platform.
From S2P Require Host.
From S2P Require Import OpenApi.
From S2P Require Import OpenApiLaws.
From S2P Require Import EntityApi.

(** ** Writers *)

Definition problem_type : string := "application/problem+json".
Definition json_type : string := "application/json".

(** The headers of the writer are those that were sent. *)
Definition settled (z : Z) (w : ResponseWriter) : Prop := w_status w = Some (z, w_header w).

Lemma WriteBody_header b w : w_header (WriteBody b w) = w_header w.
Proof.
  unfold WriteBody, WriteHeader. destruct (w_status w) as [[z h]|] eqn:Hw; [|done]. rewrite Hw.
  by destruct (bodyAllowed z).
Qed.

Lemma written z b w : w_status w = None → settled z (WriteBody b (WriteHeader z w)).
Proof.
  intros Hw. unfold settled. rewrite WriteBody_header.
  rewrite (WriteBody_sent _ _ z (w_header w)) by (by apply WriteHeader_sent).
  unfold WriteHeader. by rewrite Hw.
Qed.

Lemma WriteJSON_settled z b w : w_status w = None →
  settled z (WriteJSON z b w) ∧ hdr_get (w_header (WriteJSON z b w)) "Content-Type" = json_type.
Proof.
  intros Hw. split; [by apply written|]. unfold WriteJSON. rewrite WriteBody_header. unfold WriteHeader.
  cbn [w_status SetHeader]. rewrite Hw. cbn [w_header]. apply hdr_get_set.
Qed.

Lemma Write_settled p r w : w_status w = None →
  settled (Problem.Status p) (Write p r w) ∧ hdr_get (w_header (Write p r w)) "Content-Type" = problem_type.
Proof.
  intros Hw. pose proof (Write_headers p r w Hw) as (_ & Hc & _).
  assert (Hs : settled (Problem.Status p) (Write p r w)).
  { unfold Write. change (Problem.Status (completed p r)) with (Problem.Status p).
    destruct (Problem.Status p =? 401)%Z, (is_empty (Problem.RequestID (completed p r))); by apply written. }
  split; [exact Hs|]. revert Hc. unfold sent_header. rewrite Hs. done.
Qed.

Lemma sent_settled z w k : settled z w → sent_status w = Some z ∧ sent_header w k = hdr_get (w_header w) k.
Proof. intros Hs. unfold sent_status, sent_header. rewrite Hs. done. Qed.

(** ** Answers and what is declared of them *)

(** An answer other than a problem that the operation declares: a status of it, with a JSON body
    exactly where there is a schema. *)
Definition said (o : Operation) (z : Z) (w : ResponseWriter) : Prop :=
  sent_status w = Some z ∧ ∃ x, x ∈ Responses o ∧ r_Status x = Itoa z ∧ r_Problem x = false ∧
    match r_Schema x with
    | Some _ => sent_header w "Content-Type" = json_type
    | None => w_body w = EmptyString
    end.

(** A problem the operation declares, by its status or by the default one. *)
Definition refuses (o : Operation) (w : ResponseWriter) : Prop :=
  ∃ z x, sent_status w = Some z ∧ sent_header w "Content-Type" = problem_type ∧
    x ∈ Responses o ∧ r_Problem x = true ∧ (r_Status x = Itoa z ∨ r_Status x = "default").

Definition documented (o : Operation) (w : ResponseWriter) : Prop :=
  (∃ z, said o z w) ∨ refuses o w.

(** The operation has the default problem. *)
Definition has_default (o : Operation) : Prop :=
  ∃ x, x ∈ Responses o ∧ r_Problem x = true ∧ r_Status x = "default".

Lemma problem_refuses o p r w : has_default o → w_status w = None → refuses o (Write p r w).
Proof.
  intros (x & Hx & Hp & Hd) Hw. destruct (Write_settled p r w Hw) as [Hs Hc].
  destruct (sent_settled _ _ "Content-Type" Hs) as [Hz Hh].
  exists (Problem.Status p), x. split_and!; try done; [congruence|by right].
Qed.

Lemma wired_documented o r x : has_default o → wired (said o) r x → documented o x.1.
Proof.
  intros Hd [(p & w1 & Hw & ->)|H]; [right; by apply problem_refuses|left; by eexists].
Qed.

(** The operation declares the status, with content or without. *)
Definition declares (o : Operation) (z : Z) (content : bool) : bool :=
  existsb (λ x, String.eqb (r_Status x) (Itoa z) && negb (r_Problem x)
                && Bool.eqb content (bool_decide (is_Some (r_Schema x)))) (Responses o).

Lemma declares_elem o z content : declares o z content = true →
  ∃ x, x ∈ Responses o ∧ r_Status x = Itoa z ∧ r_Problem x = false ∧ (is_Some (r_Schema x) ↔ content = true).
Proof.
  unfold declares. intros (x & Hx & ((Hs & Hp)%andb_true_iff & Hc)%andb_true_iff)%existsb_exists.
  apply String.eqb_eq in Hs. apply negb_true_iff in Hp. apply Bool.eqb_prop in Hc. exists x.
  apply list_elem_of_In in Hx. split; [done|]. split; [done|]. split; [done|]. by rewrite Hc, bool_decide_eq_true.
Qed.

Lemma said_json o z b w : declares o z true = true → w_status w = None → said o z (WriteJSON z b w).
Proof.
  intros (x & Hx & Hz & Hp & Hn)%declares_elem Hw. destruct (proj2 Hn eq_refl) as [n Hs].
  destruct (WriteJSON_settled z b w Hw) as [Hset Hc]. destruct (sent_settled _ _ "Content-Type" Hset) as [Hst Hh].
  split; [done|]. exists x. rewrite Hs. split_and!; try done. congruence.
Qed.

Lemma said_empty o z w : declares o z false = true → w_status w = None → w_body w = EmptyString →
  said o z (WriteHeader z w).
Proof.
  intros (x & Hx & Hz & Hp & Hn)%declares_elem Hw Hb.
  split; [unfold sent_status; by rewrite WriteHeader_sent|].
  exists x. destruct (r_Schema x) as [n|]; [assert (false = true) by (apply Hn; by exists n); done|].
  split_and!; try done. unfold WriteHeader. by rewrite Hw.
Qed.

Lemma SetETag_body rw w : w_body (SetETag rw w) = w_body w.
Proof. unfold SetETag. by destruct (is_empty _). Qed.

(** ** The store of answers *)

(** What a create leaves: its row with 201, or a problem. *)
Definition create_answer (z : Z) (h : Http.Header) : Prop :=
  z = 201%Z ∧ hdr_get h "Content-Type" = json_type ∨ hdr_get h "Content-Type" = problem_type.

(** The store holds answers of creates. *)
Definition creates_only (i : option Idempotency) : Prop :=
  ∀ j k s, i = Some j → stored j !! k = Some s → create_answer (st_status s) (st_header s).

Lemma hdr_get_union h k key : hdr_get h key ≠ EmptyString → hdr_get (h ∪ k) key = hdr_get h key.
Proof.
  unfold hdr_get, hdr_values. intros Hne. destruct (h !! CanonicalHeaderKey key) as [l|] eqn:Hl; [|done].
  by rewrite (lookup_union_Some_l _ _ _ _ Hl).
Qed.

Lemma Replay_answer s w : w_status w = None → create_answer (st_status s) (st_header s) →
  sent_status (Replay s w) = Some (st_status s) ∧
  sent_header (Replay s w) "Content-Type" = hdr_get (st_header s) "Content-Type".
Proof.
  intros Hw Ha. destruct (Replay_sent s w Hw) as (Hs & _ & _). split; [exact Hs|].
  unfold Replay. unfold sent_header. erewrite WriteBody_sent; [|by apply WriteHeader_sent].
  cbn [w_header SetHeader]. rewrite hdr_get_set_ne by (by vm_compute). apply hdr_get_union.
  by destruct Ha as [[_ ->]| ->].
Qed.

Lemma stored_answer now c z k body i w w0 : settled z w →
  create_answer z (w_header w) → creates_only (Some i) →
  creates_only (Some (Store i now k c body (capture w0 w))).
Proof.
  intros Hs Ha Hi j key s [= <-]. unfold Store. cbn [stored]. intros [[_ <-]|[_ Hk]]%lookup_insert_Some.
  - unfold capture. rewrite Hs. exact Ha.
  - apply (Hi i key s eq_refl). case_match; [|exact Hk]. by apply map_lookup_filter_Some in Hk as [Hk _].
Qed.

Lemma create_documented o z h w : has_default o → declares o 201 true = true → create_answer z h → sent_status w = Some z →
  sent_header w "Content-Type" = hdr_get h "Content-Type" → documented o w.
Proof.
  intros (d & Hd & Hp & Hs) (x & Hx & Hst & Hxp & Hn)%declares_elem [[-> Hc]|Hc] Hw Hh.
  - left. exists 201%Z. split; [done|]. exists x. destruct (proj2 Hn eq_refl) as [n ->].
    split_and!; try done. congruence.
  - right. exists z, d. split_and!; try done; [congruence|by right].
Qed.

(** ** The handlers *)

Section form.
Context {DO : Doer} {DL : DoerLaws} {T : Texts}.

Lemma created_answers wr raw b r ss w st : w_status w = None →
  post (created wr raw b r ss w st) (λ x, ∃ z, settled z x.1 ∧ create_answer z (w_header x.1)).
Proof.
  intros Hw. eapply post_mono;
    [|apply (answer_wired (λ z w', settled z w' ∧ create_answer z (w_header w')) ss _ _ _ r w st);
      [done|auto with platform|done|]].
  - intros [w' s] [(q & w1 & Hw1 & ->)|H]; [|by exists (req_status s)].
    destruct (Write_settled q (Some r) w1 Hw1) as [Hs Hc]. exists (Problem.Status q). split; [exact Hs|by right].
  - intros rw. cbn [ReqOf Pgtx.Status]. match goal with |- context [WriteJSON 201 ?b ?w'] =>
      destruct (WriteJSON_settled 201 b w') as [Hs Hc] end.
    { rewrite SetETag_status. by destruct (is_empty _). }
    split; [exact Hs|by left].
Qed.

Lemma Create_documented wr o r ss idem clock w st :
  has_default o → declares o 201 true = true → w_status w = None → creates_only idem →
  post (Rest.Create wr r ss idem clock w st) (λ x, documented o x.1.1 ∧ creates_only x.1.2).
Proof.
  intros Hd Ho Hw Hi. unfold Rest.Create.
  destruct (create_body wr r) as [[raw b]|x]; [|split; [right; by apply problem_refuses|done]].
  assert (Hrun : ∀ (k : ResponseWriter → option Idempotency),
    (∀ w' z, settled z w' → create_answer z (w_header w') → creates_only (k w')) →
    ∀ b s, post ((w' ← created wr raw b r ss w; mret (w', k w')) s)
      (λ x, documented o x.1.1 ∧ creates_only x.1.2)).
  { intros k Hk b' s. apply post_mbind. eapply post_mono; [|by apply (created_answers wr raw b' r ss w s)].
    intros [w' s'] (z & Hs & Ha). cbn in *. split; [|by apply (Hk w' z)].
    destruct (sent_settled z w' "Content-Type" Hs) as [Hz Hh]. by apply (create_documented o z (w_header w')). }
  unfold Once. destruct idem as [i|]; [|by apply (Hrun (λ _, None))].
  destruct (is_empty _); [by apply (Hrun (λ _, Some i))|].
  unfold Lookup. destruct (stored i !! _) as [s|] eqn:Hl.
  - destruct (expired i _ s); [|destruct (negb _)].
    + apply (Hrun (λ w', Some _)). intros w' z Hs Ha. destruct (_ <? _)%Z; [by eapply stored_answer|done].
    + split; [right; by apply problem_refuses|done].
    + split; [|done]. pose proof (Hi i _ s eq_refl Hl) as Ha. destruct (Replay_answer s w Hw Ha) as [Hz Hh].
      by apply (create_documented o (st_status s) (st_header s)).
  - apply (Hrun (λ w', Some _)). intros w' z Hs Ha. destruct (_ <? _)%Z; [by eapply stored_answer|done].
Qed.

Context (e : Entity.Entity) (Row_ body : option gotype).

(** What the mux gets and what the description says are one table. *)
Lemma form_routes : (λ f, (Pattern f.1, f.2)) <$> form e Row_ body = Entity.Routes e.
Proof. reflexivity. Qed.

Lemma errs_default rs o : Responses o = errs rs → has_default o.
Proof.
  intros Ho. eexists (refusal "default" _). split; [|done]. rewrite Ho. apply elem_of_app. right.
  do 2 right. left.
Qed.

Lemma form_defaults o hd : (o, hd) ∈ form e Row_ body → has_default o.
Proof.
  intros H. unfold form in H.
  repeat (apply elem_of_cons in H as [[= -> _]|H]; [eapply errs_default; reflexivity|]).
  by apply elem_of_nil in H.
Qed.

Lemma list_documented r ss w st : w_status w = None →
  post (Entity.List e r ss w st) (wired (said (op_list e Row_)) r).
Proof.
  intros Hw. unfold Entity.List. destruct (Entity.listArgs _ _) as [[params search]|x]; [|by apply fail_wired].
  apply list_answer_wired; [done|]. intros b. by apply said_json.
Qed.

Lemma get_documented r ss w st : w_status w = None → w_body w = EmptyString →
  post (Entity.Get e r ss w st) (wired (said (op_get e Row_)) r).
Proof.
  intros Hw Hb. unfold Entity.Get, RowFieldsFunc. apply rowHandler_wired; [|done| |].
  - intros h a. apply EntityLaws.keeps_getRow.
  - intros rw b. apply said_json; [done|]. by rewrite SetETag_status.
  - intros rw. apply said_empty; [done|by rewrite SetETag_status|by rewrite SetETag_body].
Qed.

Lemma update_documented r ss w st : w_status w = None →
  post (Entity.Update e r ss w st) (wired (said (op_update e Row_ body)) r).
Proof.
  intros Hw. unfold Entity.Update. destruct (Entity.update_args e r) as [[[id raw] b]|x]; [|by apply fail_wired].
  apply (answer_wired _ ss _ _ _ r w st); [done| |done|].
  - intros h. apply keeps_bind; [auto with platform|]. intros [cur|x]; [|auto with platform].
    destruct (IfMatch r cur); auto with platform.
  - intros rw. apply said_json; [done|]. by rewrite SetETag_status.
Qed.

Lemma action_documented r ss w st : w_status w = None → w_body w = EmptyString →
  post (Entity.Action e r ss w st) (wired (said (op_action e Row_)) r).
Proof.
  intros Hw Hb. unfold Entity.Action. destruct (Entity.action_args r) as [[[id action] params]|x]; [|by apply fail_wired].
  apply post_mbind. eapply post_mono; [|apply (do_post ss _ _ st
    (λ rw z, z = 200%Z ∧ is_Some rw ∨ z = 204%Z ∧ rw = None))].
  - intros [[rw|x] s] Hr; cbn in Hr; [|by apply fail_wired].
    rewrite get_bind. right. cbn. destruct Hr as [[Hr _]|[Hr _]]; rewrite Hr; cbn.
    + apply said_json; [done|]. by rewrite SetETag_status.
    + by apply said_empty.
  - intros h s Hs. by apply EntityLaws.run_action_status.
Qed.

Lemma methods_documented r ss w st : w_status w = None →
  post (Entity.Methods e r ss w st) (wired (said (op_methods e)) r).
Proof.
  intros Hw. unfold Entity.Methods, Entity.RowsOf. apply rows_answer_wired; [|done|].
  - intros h [id fields]. auto with platform.
  - intros b. by apply said_json.
Qed.

(** A handler that leaves the store of answers alone. *)
Lemma lift_documented o h r ss idem clock w st : has_default o → creates_only idem →
  post (h r ss w st) (wired (said o) r) →
  post (lift h r ss idem clock w st) (λ x, documented o x.1.1 ∧ creates_only x.1.2).
Proof.
  intros Hd Hi Hp. unfold lift. apply post_mbind. eapply post_mono; [|exact Hp].
  intros [w' s] Hx. split; [exact (wired_documented o r _ Hd Hx)|exact Hi].
Qed.
End form.

(** C19. The form answers as it is described: whatever the database does, a handler of the form
    sends what its operation declares - a status of the operation other than a refusal, with a
    JSON body where it has a schema and with no body where it has none, or a problem document
    under a status it declares or under its default - the replay of an answer kept under an
    Idempotency-Key included, and the store of answers holds only such answers of creates. *)
Theorem form_documented {DO : Doer} {DL : DoerLaws} {T : Texts} e Row_ body o hd r ss idem clock w st :
  (o, hd) ∈ form e Row_ body → w_status w = None → w_body w = EmptyString → creates_only idem →
  post (hd r ss idem clock w st) (λ x, documented o x.1.1 ∧ creates_only x.1.2).
Proof.
  intros Hin Hw Hb Hi. pose proof (form_defaults e Row_ body o hd Hin) as Hd.
  unfold form in Hin. rewrite !elem_of_cons, elem_of_nil in Hin.
  destruct Hin as [[= -> ->]|[[= -> ->]|[[= -> ->]|[[= -> ->]|[[= -> ->]|[[= -> ->]|[]]]]]]].
  - apply lift_documented; [done..|by apply list_documented].
  - apply lift_documented; [done..|by apply get_documented].
  - by apply Create_documented.
  - apply lift_documented; [done..|by apply update_documented].
  - apply lift_documented; [done..|by apply action_documented].
  - apply lift_documented; [done..|by apply methods_documented].
Qed.

#[local] Instance api_texts : Texts := plain_texts.

Lemma form_documented_witness :
  let r := user_request "GET" user_tag EmptyString in
  post (lift (Entity.Get EntityLaws.sample_entity) r sample_session None (0, 0)%Z new_writer (sample_road true))
    (λ x, documented (op_get EntityLaws.sample_entity None) x.1.1 ∧ creates_only x.1.2).
Proof.
  cbv zeta. apply (form_documented EntityLaws.sample_entity None None (op_get EntityLaws.sample_entity None)).
  - right. left.
  - reflexivity.
  - reflexivity.
  - intros j k s Hj. discriminate Hj.
Defined.
