(* ===== verification/EntityDoc.v ===== *)
(** * The description of the entity packages builds and is complete

    For any entities of distinct ids, prefixes without a wildcard and schemas of distinct names,
    the operations of their forms are ones [Build] takes. *)

From S2P Require Import Prelude.
From S2P Require Import GoStrings.
From S2P Require Import GoJson.
From S2P Require Import GoTime.
From S2P Require Import Mux.
From S2P Require Import Decode.
From S2P Require Import Doer.
From S2P Require Rest.
From S2P Require Import RestLaws.
From S2P Require Entity.
From S2P Require Entities.
From S2P Require Import OpenApi.
From S2P Require Import OpenApiLaws.
From S2P Require Import EntityApi.

(** ** Lemmas: what the routes are told apart by *)

Lemma sapp_inj_r (p q s : string) : p +:+ s = q +:+ s → p = q.
Proof.
  intros H. assert (String.length p = String.length q) as Hl.
  { apply (f_equal String.length) in H. rewrite !length_sapp in H. lia. }
  apply (f_equal (stake (String.length p))) in H. by rewrite stake_app, Hl, stake_app in H.
Qed.

(** No byte [c] in [s]. *)
Definition without (c : ascii) (s : string) : bool := sforall (λ x, negb (Ascii.eqb x c)) s.

Lemma Cut_without s t c : without c s = true →
  Cut (s +:+ t) c = let '(b, a, f) := Cut t c in (s +:+ b, a, f).
Proof.
  unfold without. induction s as [|x s IH]; intros H.
  - rewrite sapp_nil_l. by destruct (Cut t c) as [[b a] f].
  - cbn in H. apply andb_true_iff in H as [Hx Hs]. apply negb_true_iff in Hx.
    rewrite sapp_cons. cbn [Cut]. rewrite Hx, (IH Hs). by destruct (Cut t c) as [[b a] f].
Qed.

(** A name ends in its last word. *)
Lemma last_word a b x y c : without c x = true → without c y = true →
  a +:+ String c x = b +:+ String c y → a = b ∧ x = y.
Proof.
  intros Hx Hy H. apply (f_equal (λ s, Split s c)) in H. rewrite !Split_String, (Split_none x), (Split_none y) in H by done.
  apply app_inj_tail in H as [H ->]. split; [by apply (Split_inj _ _ c)|done].
Qed.

(** What follows the prefix in a route of the form. *)
Definition tails : list string := [EmptyString; "/{id}"; "/{id}/actions/{action}"; "/{id}/methods"].

Lemma Cut_tail p s : without "{" p = true → s ∈ tails →
  Cut (p +:+ s) "{" = (p +:+ (if is_empty s then EmptyString else "/"), sdrop 2 s, negb (is_empty s)).
Proof.
  intros Hp Hs. rewrite Cut_without by done.
  repeat (apply elem_of_cons in Hs as [->|Hs]; [reflexivity|]). by apply elem_of_nil in Hs.
Qed.

Lemma tails_drop s t : s ∈ tails → t ∈ tails → sdrop 2 s = sdrop 2 t → s = t.
Proof.
  intros Hs Ht. repeat (apply elem_of_cons in Hs as [->|Hs];
    [repeat (apply elem_of_cons in Ht as [->|Ht]; [done|]); by apply elem_of_nil in Ht|]). by apply elem_of_nil in Hs.
Qed.

(** Any two routes are told apart by the prefix and by what follows it. *)
Lemma paths_apart p q s t : without "{" p = true → without "{" q = true → s ∈ tails → t ∈ tails →
  p +:+ s = q +:+ t → p = q ∧ s = t.
Proof.
  intros Hp Hq Hs Ht H. pose proof (f_equal (λ s, Cut s "{") H) as Hc. cbn beta in Hc.
  rewrite !Cut_tail in Hc by done. injection Hc as _ Hd _. apply tails_drop in Hd as ->; [|done..].
  split; [|done]. by apply sapp_inj_r in H.
Qed.

(** The parameters of a path are those of what follows the prefix. *)
Lemma pathParams_tail p s : without "{" p = true → s ∈ tails → pathParams (p +:+ s) = pathParams s.
Proof.
  intros Hp Hs. unfold pathParams. cbn [pathParams_from]. rewrite Cut_tail by done. rewrite length_sapp, Nat.add_comm.
  repeat (apply elem_of_cons in Hs as [->|Hs]; [vm_compute; reflexivity|]). by apply elem_of_nil in Hs.
Qed.

(** ** Lemmas: lists *)

Lemma fmap_bind {A B C} (g : B → C) (f : A → list B) l : g <$> (l ≫= f) = l ≫= (λ x, g <$> f x).
Proof. induction l as [|x l IH]; [done|]. rewrite !bind_cons, fmap_app. by rewrite IH. Qed.

Lemma NoDup_products {A K L} (f : A → string) (k : list K) (g : string → K → L) (l : list A) :
  NoDup (f <$> l) → NoDup k →
  (∀ a b x y, a ∈ f <$> l → b ∈ f <$> l → x ∈ k → y ∈ k → g a x = g b y → a = b ∧ x = y) →
  NoDup (l ≫= λ d, g (f d) <$> k).
Proof.
  intros Hl Hk. induction l as [|d l IH]; intros Hg; [constructor|].
  rewrite fmap_cons in Hl, Hg. apply NoDup_cons in Hl as [Hd Hl]. rewrite bind_cons. apply NoDup_app. split_and!.
  - apply NoDup_fmap_2_strong; [|done]. intros x y Hx Hy H. by apply (Hg (f d) (f d) x y); [left..| | |].
  - intros z (x & -> & Hx)%list_elem_of_fmap (d' & (y & Hy & Hin)%list_elem_of_fmap & Hd')%list_elem_of_bind.
    destruct (Hg (f d) (f d') x y) as [He _]; [by left|right; by apply list_elem_of_fmap_2|done..|].
    apply Hd. rewrite He. by apply list_elem_of_fmap_2.
  - apply IH; [done|]. intros a b x y Ha Hb. by apply Hg; right.
Qed.

(** ** The entities of a document *)

(** An entity with the types of its row and of its body. *)
Definition typed_entity : Type := Entity.Entity * gotype * gotype.

Definition prefix_of (x : typed_entity) : string := p x.1.1.
Definition id_of (x : typed_entity) : string := id x.1.1.

(** The schemas of its own. *)
Definition own_schemas (x : typed_entity) : list Schema :=
  [row_schema x.1.1 x.1.2; input_schema x.1.1 x.2; patch_schema x.1.1 x.2].

(** The components of the document. *)
Definition family (l : list typed_entity) : list Schema := problemSchema :: method_schema :: (l ≫= own_schemas).

Section doc.
Context {DO : Doer} {T : Texts}.

Definition entity_operations (x : typed_entity) : list Operation :=
  Operations x.1.1 (Some x.1.2) (Some x.2).

(** What the entities of one document have to be. *)
Record describes (l : list typed_entity) : Prop := mkDescribes {
  dc_prefixes : Forall (λ x, HasPrefix (prefix_of x) "/" = true ∧ without "{" (prefix_of x) = true) l;
  dc_ids : NoDup (id_of <$> l);
  dc_describable : Forall describable (l ≫= own_schemas);
  dc_names : NoDup (Name <$> family l)
}.

Lemma operations_of x : entity_operations x = (form x.1.1 (Some x.1.2) (Some x.2)).*1.
Proof. reflexivity. Qed.

Lemma entity_ids x : ID <$> entity_operations x =
  (λ s, id_of x +:+ String "_" s) <$> ["list"; "get"; "create"; "update"; "action"; "methods"].
Proof. reflexivity. Qed.

Lemma entity_places x : place <$> entity_operations x =
  (λ s, (prefix_of x +:+ s.1, s.2)) <$>
  [(EmptyString, "get"); ("/{id}", "get"); (EmptyString, "post"); ("/{id}", "patch");
   ("/{id}/actions/{action}", "post"); ("/{id}/methods", "get")].
Proof. unfold place, prefix_of. cbn. by rewrite sapp_nil_r. Qed.

Lemma sound_at o q s : without "{" q = true → s ∈ tails → Path o = q +:+ s →
  declared o = pathParams s → forallb (λ x, bool_decide (param_ok x)) (Params o) = true →
  bool_decide (NoDup (r_Status <$> Responses o)) = true → Responses o ≠ [] → sound_operation o.
Proof.
  intros Hq Hs Hp Hd Hin Hst Hne.
  assert (Hpp : pathParams (Path o) = pathParams s) by (rewrite Hp; by apply pathParams_tail).
  constructor; [|rewrite Hpp|by rewrite Hpp, Hd|exact Hne|by apply bool_decide_eq_true in Hst].
  - apply Forall_forall. intros x Hx. apply list_elem_of_In in Hx.
    pose proof (proj1 (forallb_forall _ _) Hin x Hx) as H. by apply bool_decide_eq_true in H.
  - repeat (apply elem_of_cons in Hs as [->|Hs]; [apply (bool_decide_unpack _); vm_compute; exact I|]).
    by apply elem_of_nil in Hs.
Qed.

Lemma entity_sound x : without "{" (prefix_of x) = true → Forall sound_operation (entity_operations x).
Proof.
  intros Hw.
  assert (Hl : sound_operation (op_list x.1.1 (Some x.1.2))).
  { apply (sound_at _ (prefix_of x) EmptyString); [done|left|by rewrite sapp_nil_r| | |by vm_compute|done];
      unfold op_list, declared, listParams; cbn [Params]; destruct (Entity.SearchFields x.1.1); by vm_compute. }
  unfold entity_operations, Operations, form. cbn [fmap list_fmap fst].
  apply Forall_cons. split; [exact Hl|]. clear Hl.
  repeat (apply Forall_cons; split); [..|by apply Forall_nil].
  - apply (sound_at _ (prefix_of x) "/{id}"); [exact Hw|do 1 right; left|reflexivity|vm_compute; reflexivity..|discriminate].
  - apply (sound_at _ (prefix_of x) EmptyString); [exact Hw|left|by rewrite sapp_nil_r|vm_compute; reflexivity..|discriminate].
  - apply (sound_at _ (prefix_of x) "/{id}"); [exact Hw|do 1 right; left|reflexivity|vm_compute; reflexivity..|discriminate].
  - apply (sound_at _ (prefix_of x) "/{id}/actions/{action}"); [exact Hw|do 2 right; left|reflexivity|vm_compute; reflexivity..|discriminate].
  - apply (sound_at _ (prefix_of x) "/{id}/methods"); [exact Hw|do 3 right; left|reflexivity|vm_compute; reflexivity..|discriminate].
Qed.

Lemma op_list_schemas (x : typed_entity) s : s ∈ op_schemas (op_list x.1.1 (Some x.1.2)) → s = row_schema x.1.1 x.1.2.
Proof.
  unfold op_schemas, op_list, listParams. cbn [Params op_Body Responses body_schemas]. intros H.
  destruct (Entity.SearchFields x.1.1); cbn in H; by apply list_elem_of_singleton in H.
Qed.

(** The schemas the routes of an entity name. *)
Lemma entity_schemas (x : typed_entity) s : s ∈ entity_operations x ≫= op_schemas → s = method_schema ∨ s ∈ own_schemas x.
Proof.
  unfold entity_operations, Operations, form. cbn [fmap list_fmap fst].
  rewrite bind_cons, elem_of_app. intros [->%op_list_schemas|H]; [right; left|].
  cbn in H. rewrite !elem_of_cons, elem_of_nil in H. unfold own_schemas. rewrite !elem_of_cons. tauto.
Qed.

Lemma entity_complete x : HasPrefix (prefix_of x) "/" = true → Forall complete (entity_operations x).
Proof.
  intros Hp. assert (Hpre : ∀ s, HasPrefix (prefix_of x +:+ s) "/" = true).
  { intros s. apply HasPrefix_spec in Hp as [r ->]. rewrite sapp_assoc. apply HasPrefix_app. }
  assert (Hid : ∀ s, id_of x +:+ String "_" s ≠ EmptyString) by (intros s; by destruct (id_of x)).
  unfold entity_operations, Operations, form. cbn [fmap list_fmap fst].
  repeat (apply Forall_cons; split); [..|by apply Forall_nil];
    (split; [discriminate|split; [first [apply Hpre|exact Hp]|apply Hid]]).
Qed.

Lemma family_schemas l s : s ∈ all_schemas (l ≫= entity_operations) → s ∈ family l.
Proof.
  intros [->|(o & Hs & (x & Ho & Hx)%list_elem_of_bind)%list_elem_of_bind]%elem_of_cons; [left|right].
  destruct (entity_schemas x s) as [->|Hown]; [apply list_elem_of_bind; by exists o|left|right].
  apply list_elem_of_bind. by exists x.
Qed.

Lemma family_agree l s s' : NoDup (Name <$> family l) → s ∈ family l → s' ∈ family l → agree s s'.
Proof.
  intros Hn [i Hi]%list_elem_of_lookup [j Hj]%list_elem_of_lookup Hname.
  assert (i = j) as ->; [|split; congruence].
  apply (NoDup_lookup _ i j (Name s) Hn); [by rewrite list_lookup_fmap, Hi|by rewrite list_lookup_fmap, Hj, Hname].
Qed.

Lemma entities_described l : describes l → described (l ≫= entity_operations).
Proof.
  intros Hl. pose proof Hl as [Hpre Hids Hdesc Hnames]. rewrite Forall_forall in Hpre.
  assert (Hall : ∀ (P : Operation → Prop), (∀ x, x ∈ l → Forall P (entity_operations x)) → Forall P (l ≫= entity_operations)).
  { intros P HP. apply Forall_forall. intros o (x & Ho & Hx)%list_elem_of_bind. specialize (HP x Hx).
    rewrite Forall_forall in HP. by apply HP. }
  constructor.
  - apply Hall. intros x Hx. by apply entity_complete, Hpre.
  - rewrite fmap_bind. erewrite list_bind_ext; [|intros x; apply entity_ids|reflexivity].
    apply (NoDup_products id_of _ (λ a s, a +:+ String "_" s)); [done|apply (bool_decide_unpack _); by vm_compute|].
    intros a b x y _ _ Hx Hy. apply last_word; (repeat (apply elem_of_cons in Hx as [->|Hx]; [done|]); by apply elem_of_nil in Hx)
      || (repeat (apply elem_of_cons in Hy as [->|Hy]; [done|]); by apply elem_of_nil in Hy).
  - rewrite fmap_bind. erewrite list_bind_ext; [|intros x; apply entity_places|reflexivity].
    apply (NoDup_products prefix_of _ (λ a s, (a +:+ s.1, s.2))); [|apply (bool_decide_unpack _); by vm_compute|].
    + apply (NoDup_fmap_1 (λ q, ident_of (TrimPrefix q "/api/v2/"))). by rewrite <- list_fmap_compose.
    + intros a b [s m] [t n] (x & -> & Hx)%list_elem_of_fmap (y & -> & Hy)%list_elem_of_fmap Hs Ht [= Hp ->].
      cbn [fst snd] in *.
      assert (Htail : ∀ u k, (u, k) ∈ [(EmptyString, "get"); ("/{id}", "get"); (EmptyString, "post"); ("/{id}", "patch");
        ("/{id}/actions/{action}", "post"); ("/{id}/methods", "get")] → u ∈ tails).
      { intros u k Hu. repeat (apply elem_of_cons in Hu as [[= -> _]|Hu]; [unfold tails; repeat first [left|right]|]).
        by apply elem_of_nil in Hu. }
      destruct (paths_apart (prefix_of x) (prefix_of y) s t) as [-> ->]; try done; try (by apply Hpre); by eapply Htail.
  - apply Hall. intros x Hx. by apply entity_sound, Hpre.
  - apply Forall_forall. intros s [->|[->|Hs]%elem_of_cons]%family_schemas%elem_of_cons.
    + split; [done|]. vm_compute. by eexists.
    + split; [done|]. vm_compute. by eexists.
    + rewrite Forall_forall in Hdesc. by apply Hdesc.
  - intros s s' Hs%family_schemas Hs'%family_schemas. by apply (family_agree l).
Qed.

(** The operations are written without a reference of their own. *)
Lemma entity_nodes x : Forall (λ o, Forall (λ n, refs n = []) (op_nodes o)) (entity_operations x).
Proof.
  unfold entity_operations, Operations, form. cbn [fmap list_fmap fst].
  apply Forall_cons. split.
  - unfold op_nodes, op_list, listParams. cbn [Params op_Body Responses].
    destruct (Entity.SearchFields x.1.1); cbn; repeat (apply Forall_cons; split); done || apply Forall_nil_2.
  - repeat (apply Forall_cons; split); [..|by apply Forall_nil];
      cbn; repeat (apply Forall_cons; split); done || apply Forall_nil_2.
Qed.
End doc.

(** ** Properties *)

(** C23. The entity packages of a process can be described together: for entities of distinct ids,
    with plain prefixes, whose row and body types have schemas under distinct names, [Build]
    takes the operations of all their forms; every route a form mounts has its operation in
    the document, and every reference of the document names a component of it. *)
Theorem entities_documented {DO : Doer} {T : Texts} i l :
  describes l → refs (NMap (Extensions i)) = [] →
  ∃ d, Build i (l ≫= entity_operations) = Ok d ∧
    (∀ (x : typed_entity) pat hd, x ∈ l → (pat, hd) ∈ Entity.Routes x.1.1 →
       ∃ m path, pat = m +:+ " " +:+ path ∧ is_Some (operation_at d path (ToLower m))) ∧
    ∀ y, y ∈ refs (NMap d) → ∃ name, y = target name ∧ is_Some (mget name (components d)).
Proof.
  intros Hl Hext. destruct (proj2 (proj1 (Build_ok i (l ≫= entity_operations)))) as [d Hd].
  { by apply entities_described. }
  exists d. split; [exact Hd|]. split.
  - intros x pat hd Hx Hr. change (Entity.Routes x.1.1) with
      ((λ f, (Pattern f.1, f.2)) <$> form x.1.1 (Some x.1.2) (Some x.2)) in Hr.
    apply list_elem_of_fmap in Hr as ([o h] & [= -> ->] & Ho).
    exists (op_Method o), (Path o). split; [done|]. apply (operation_found i (l ≫= entity_operations)); [done|].
    apply list_elem_of_bind. exists x. split; [|done]. rewrite operations_of.
    by apply (list_elem_of_fmap_2 fst) in Ho.
  - intros y Hy. apply (document_closed i (l ≫= entity_operations)); [done..| |done].
    apply Forall_forall. intros o (x & Ho & Hx)%list_elem_of_bind.
    pose proof (entity_nodes x) as Hn. rewrite Forall_forall in Hn. by apply Hn.
Qed.

(** The entities of the platform, with types for their rows and bodies. *)
Definition typed_catalogue (types : Entity.Entity → gotype * gotype) : list typed_entity :=
  (λ e, (e, (types e).1, (types e).2)) <$> (fst ∘ fst <$> Entities.catalogue).

(** ** Witnesses *)

#[local] Instance doc_texts : Texts := plain_texts.

Definition demo_body : gotype := GStruct "thing.body"
  [(mkField false true (mkTags "code" "Code." EmptyString EmptyString "create"), GPtr (GKind KString));
   (json_tag "name" "Name.", GPtr (GKind KString))].

Lemma entities_documented_witness :
  let l := typed_catalogue (λ _, (demo_type, demo_body)) in
  describes l ∧ ∃ d, Build demo_info (l ≫= entity_operations) = Ok d.
Proof.
  cbv zeta. set (l := typed_catalogue _).
  assert (Hl : describes l).
  { constructor.
    - repeat (apply Forall_cons; split); [..|by apply Forall_nil]; split; vm_compute; reflexivity.
    - apply (bool_decide_unpack _). vm_compute. exact I.
    - unfold l. cbn. repeat (apply Forall_cons; split); [..|by apply Forall_nil];
        (split; [reflexivity|vm_compute; eexists; reflexivity]).
    - apply (bool_decide_unpack _). vm_compute. exact I. }
  split; [exact Hl|].
  destruct (entities_documented demo_info l Hl eq_refl) as (d & Hd & _). exists d. exact Hd.
Defined.
