(* ===== verification/Handshake.v ===== *)
(** * A process registers with the gateway

    The composition of the two sides of the control connection and of what the module
    announces: the host's prefixes (module.go), the client's /register
    (lib/gatewayclient), the frames that carry it, the checks and the answer of the
    gateway's stand-in (internal/gatewaystub). *)

From S2P Require Import Prelude.
From S2P Require Import GoStrings.
From S2P Require Import GoJson.
From S2P Require Import GoNet.
From S2P Require Import GoTime.
From S2P Require Import Frame.
From S2P Require Import Jwt.
From S2P Require Import Db.
From S2P Require Import Doer.
From S2P Require Import Decode.
From S2P Require Import RestLaws.
From S2P Require Host.
From S2P Require Import GwStatus.
From S2P Require Import Client.
From S2P Require Import ClientLaws.
From S2P Require Import Marshal.
From S2P Require GwStub.
From S2P Require GwStubLaws.
From S2P Require Import Platform.

(** ** What the client sends *)

Definition register_members (c : Config) (r : Registration) : list (string * json) :=
  [("module", jstr (Module_ c)); ("instance", jstr (Instance_ c)); ("version", jstr (Version c));
   ("build", jstr (Build c)); ("address", jstr (Address r)); ("prefixes", JArr (jstr <$> Prefixes r));
   ("capacity", jint (Capacity r))].

Lemma list_map_marshalled l : Forall (λ kv, marshalled kv.2) l → marshalled_map (list_to_map l).
Proof.
  intros Hl k v Hv%elem_of_list_to_map_2. rewrite Forall_forall in Hl. by apply (Hl (k, v)).
Qed.

Lemma register_marshalled c r : marshalled_map (list_to_map (register_members c r)).
Proof.
  apply list_map_marshalled. unfold register_members. repeat rewrite Forall_cons. rewrite Forall_nil.
  split_and!; (exact I || apply marshalled_str || apply marshalled_strs || apply marshalled_int).
Qed.

(** The members in the order of their names, whatever their values. *)
Lemma sorted_members {A} (f : json → A) v1 v2 v3 v4 v5 v6 v7 :
  let m : gmap string json := list_to_map [("module", v1); ("instance", v2); ("version", v3);
    ("build", v4); ("address", v5); ("prefixes", v6); ("capacity", v7)] in
  omap (λ k, v ← m !! k; Some (quote_lex k, f v)) (sort_Strings (map_to_list m).*1) =
  [("address", f v5); ("build", f v4); ("capacity", f v7); ("instance", f v2); ("module", f v1);
   ("prefixes", f v6); ("version", f v3)].
Proof. vm_compute. reflexivity. Qed.

Lemma register_object c r : map_object (list_to_map (register_members c r)) =
  [("address", jstr (Address r)); ("build", jstr (Build c)); ("capacity", jint (Capacity r));
   ("instance", jstr (Instance_ c)); ("module", jstr (Module_ c));
   ("prefixes", JArr (jstr <$> Prefixes r)); ("version", jstr (Version c))].
Proof.
  unfold map_object, register_members. rewrite (sorted_members escape_html).
  rewrite !(mar_escaped _ (marshalled_str _)), (mar_escaped _ (marshalled_strs _)). reflexivity.
Qed.

(** ** What the gateway reads *)

Lemma decode_elems_strs l : Forall (λ s, valid_utf8 s = true) l → ∀ old, ∃ rest,
  GwStub.decode_elems old (jstr <$> l) = Some (l ++ rest).
Proof.
  induction 1 as [|s l Hs _ IH]; intros old; [by exists old|].
  destruct (IH (tail old)) as [rest Hr]. exists rest.
  cbn [fmap list_fmap GwStub.decode_elems jstr mbind option_bind app]. by rewrite Hr, Unquote_quote.
Qed.

Lemma prefixes_of_one l strs : l ≠ [] → Forall (λ s, valid_utf8 s = true) l →
  field_members "prefixes" strs = [JArr (jstr <$> l)] → GwStub.prefixes_of strs = Some l.
Proof.
  intros Hne Hl Hf. unfold GwStub.prefixes_of. rewrite Hf. cbn [foldl mbind option_bind].
  destruct (decode_elems_strs l Hl []) as [rest Hr]. destruct l as [|s l]; [done|].
  unfold GwStub.decode_strings. cbn [fst fmap list_fmap] in *. rewrite Hr. cbn [mbind option_bind].
  rewrite length_cons, length_fmap. by rewrite (take_app_length' (s :: l)).
Qed.

Definition announced (c : Config) (r : Registration) : GwStub.Registration :=
  GwStub.mkReg (Module_ c) (Instance_ c) (Version c) (Build c) (Address r) (Prefixes r) (Capacity r).

Definition readable (c : Config) (r : Registration) : Prop :=
  valid_utf8 (Module_ c) = true ∧ valid_utf8 (Instance_ c) = true ∧ valid_utf8 (Version c) = true ∧
  valid_utf8 (Build c) = true ∧ valid_utf8 (Address r) = true ∧
  Prefixes r ≠ [] ∧ Forall (λ s, valid_utf8 s = true) (Prefixes r) ∧ in_bits 64 (Capacity r) = true.

(** One member of a struct. *)
Lemma member_str sc st k s k' : find_field sc (Unquote k) = Some (k', TStr) →
  value_member sc st (k, jstr s) = Ok (<[k' := VStr (Unquote (quote_lex s))]> st).
Proof. unfold value_member. cbn [fst snd]. intros ->. reflexivity. Qed.

Lemma member_int sc st k z k' bits : find_field sc (Unquote k) = Some (k', TInt bits) →
  in_bits bits z = true → value_member sc st (k, jint z) = Ok (<[k' := VInt z]> st).
Proof.
  unfold value_member. cbn [fst snd]. intros -> Hz. cbn [jint decode_field].
  by rewrite ParseInt_Itoa.
Qed.

Lemma member_unknown sc st kv : find_field sc (Unquote kv.1) = None → value_member sc st kv = Ok st.
Proof. unfold value_member. by intros ->. Qed.

Lemma decode_announced c r : readable c r →
  GwStub.decode_registration (register_payload c r) = Some (announced c r).
Proof.
  intros (Hm & Hi & Hv & Hb & Ha & Hne & Hp & Hc). unfold GwStub.decode_registration.
  change (register_payload c r) with (marshal_map (list_to_map (register_members c r))).
  pose proof (register_marshalled c r) as Hmar.
  rewrite unmarshal_marshalled, parse_marshalled by done. rewrite register_object.
  rewrite (prefixes_of_one (Prefixes r)); [|done|done|by eval_fields].
  cbn [mbind option_bind foldM_res].
  rewrite (member_str _ _ _ _ "address") by reflexivity. cbn [mbind res_bind foldM_res].
  rewrite (member_str _ _ _ _ "build") by reflexivity. cbn [mbind res_bind foldM_res].
  rewrite (member_int _ _ _ _ "capacity" 64) by (done || reflexivity). cbn [mbind res_bind foldM_res].
  rewrite (member_str _ _ _ _ "instance") by reflexivity. cbn [mbind res_bind foldM_res].
  rewrite (member_str _ _ _ _ "module") by reflexivity. cbn [mbind res_bind foldM_res].
  rewrite member_unknown by reflexivity. cbn [mbind res_bind foldM_res].
  rewrite (member_str _ _ _ _ "version") by reflexivity. cbn [mbind res_bind foldM_res].
  unfold announced, str_of, int_of. simplify_map_eq. by rewrite !Unquote_quote.
Qed.

Lemma required_given l : (∀ k, k ∈ GwStub.required_keys → is_Some (object_map l !! k)) →
  head (filter (λ k, object_map l !! k = None) GwStub.required_keys) = None.
Proof.
  intros H. destruct (filter _ _) as [|k ks] eqn:Hf; [done|].
  assert (Hk : k ∈ filter (λ k, object_map l !! k = None) GwStub.required_keys) by (rewrite Hf; left).
  apply list_elem_of_filter in Hk as [Hn Hk]. destruct (H k Hk) as [v Hv]. congruence.
Qed.

Lemma members_present v1 v2 v3 v4 v5 v6 v7 k : k ∈ GwStub.required_keys →
  is_Some (object_map [("address", v1); ("build", v2); ("capacity", v3); ("instance", v4); ("module", v5);
    ("prefixes", v6); ("version", v7)] !! k).
Proof.
  set (m := object_map _).
  assert (Hm : forallb (λ k, match m !! k with Some _ => true | None => false end) GwStub.required_keys = true)
    by (vm_compute; reflexivity).
  rewrite forallb_forall in Hm. intros Hk%list_elem_of_In%Hm. by destruct (m !! k).
Qed.

(** ** What the gateway answers *)

Definition ack_members (o : GwStub.Options) (instance : string) : list (string * json) :=
  [("heartbeat_interval", jint (GwStub.HeartbeatInterval o)); ("instance_id", jstr instance);
   ("gateway_worker", jint 4242); ("gateway_node", jstr "stub:4242");
   ("suspect_after", jint (GwStub.SuspectAfter o)); ("offline_after", jint (GwStub.OfflineAfter o))].

Lemma ack_marshalled o instance : marshalled_map (list_to_map (ack_members o instance)).
Proof.
  apply list_map_marshalled. unfold ack_members. repeat rewrite Forall_cons. rewrite Forall_nil.
  split_and!; (exact I || apply marshalled_str || apply marshalled_int).
Qed.

Lemma sorted_ack {A} (f : json → A) v1 v2 v3 v4 v5 v6 :
  let m : gmap string json := list_to_map [("heartbeat_interval", v1); ("instance_id", v2);
    ("gateway_worker", v3); ("gateway_node", v4); ("suspect_after", v5); ("offline_after", v6)] in
  omap (λ k, v ← m !! k; Some (quote_lex k, f v)) (sort_Strings (map_to_list m).*1) =
  [("gateway_node", f v4); ("gateway_worker", f v3); ("heartbeat_interval", f v1);
   ("instance_id", f v2); ("offline_after", f v6); ("suspect_after", f v5)].
Proof. vm_compute. reflexivity. Qed.

(** The acknowledgement, read by the client. *)
Lemma ack_read f o instance : in_bits 64 (GwStub.HeartbeatInterval o) = true →
  (1 <= GwStub.HeartbeatInterval o)%Z →
  ack_interval (Result f (any_value (Some (GwStub.register_result o instance)))) =
    Some (GwStub.HeartbeatInterval o).
Proof.
  intros Hb Hp. unfold ack_interval. change (Payload _) with (GwStub.register_result o instance).
  change (GwStub.register_result o instance) with (marshal_map (list_to_map (ack_members o instance))).
  rewrite unmarshal_marshalled by apply ack_marshalled.
  unfold map_object, ack_members. rewrite (sorted_ack escape_html).
  rewrite !(mar_escaped _ (marshalled_str _)), !(mar_escaped _ (marshalled_int _)). cbn [foldM_res].
  rewrite (member_str _ _ _ _ "gateway_node") by reflexivity. cbn [mbind res_bind foldM_res].
  rewrite member_unknown by reflexivity. cbn [mbind res_bind foldM_res].
  rewrite (member_int _ _ _ _ "heartbeat_interval" 64) by (done || reflexivity). cbn [mbind res_bind foldM_res].
  do 3 (rewrite member_unknown by reflexivity; cbn [mbind res_bind foldM_res]).
  unfold int_of. simplify_map_eq. by rewrite (proj2 (Z.ltb_ge _ _)).
Qed.

Section gateway.
Context {T : Texts}.

(** The checks of the gateway on what the client announces. *)
Lemma announced_checked fail id c r : fail.1 = 0%Z → readable c r →
  GwStubLaws.valid_registration (announced c r) →
  (GwStub.checkRegister fail (NewCall id "/register" (any_value (Some (register_payload c r))))
    (Module_ c) (Instance_ c)).1 = 0%Z.
Proof.
  intros Hf Hr Hv. unfold GwStub.checkRegister. rewrite Hf. cbn [Z.eqb negb].
  change (Payload _) with (register_payload c r).
  rewrite decode_announced by done.
  change (register_payload c r) with (marshal_map (list_to_map (register_members c r))).
  rewrite parse_marshalled by apply register_marshalled. rewrite register_object, required_given.
  - apply GwStubLaws.check_registration_ok. by split_and!.
  - apply members_present.
Qed.

Lemma address_valid n port : ipv4 n → (IsPrivate4 n = true ∨ IsLoopback4 n = true) → (1 <= port <= 65535)%N →
  GwStubLaws.valid_address (print4 n +:+ ":" +:+ dec port).
Proof.
  intros Hn Hl Hp. exists (print4 n), (dec port), n, (Z.of_N port).
  split_and!; [apply SplitHostPort_print4|by rewrite ParseIP_print4| |lia|lia|done].
  unfold dec. apply ParseInt_Itoa. unfold in_bits. apply andb_true_iff. split; [apply Z.leb_le|apply Z.ltb_lt]; lia.
Qed.

Lemma apart_pairs l : NoDup l → (∀ p q, p ∈ l → q ∈ l → Host.under p q = false) →
  ForallOrdPairs (λ p q, GwStub.overlap q p = false) l.
Proof.
  induction 1 as [|p l Hp _ IH]; intros Hu; [constructor|]. constructor.
  - apply Forall_forall. intros q Hq. assert (Hne : p ≠ q) by (intros ->; done).
    pose proof (Hu p q ltac:(left) ltac:(by right)) as H1.
    pose proof (Hu q p ltac:(by right) ltac:(left)) as H2.
    unfold Host.under in H1, H2. unfold GwStub.overlap.
    apply String.eqb_neq in Hne as Hne'. rewrite Hne' in H2. rewrite String.eqb_sym, Hne' in H1.
    cbn [negb andb] in H1, H2. by rewrite H1, H2.
  - apply IH. intros a b Ha Hb. apply Hu; by right.
Qed.

Lemma name_byte c : lower_digit c || Ascii.eqb c "_" || Ascii.eqb c "/" || Ascii.eqb c "-" = true →
  is_ascii c = true.
Proof. byte_cases c; intros H; first [done | by vm_compute in H]. Qed.

Lemma prefix_utf8 p : prefix p = true → valid_utf8 p = true.
Proof.
  unfold prefix. intros [[[r ->]%HasPrefix_spec _]%andb_true_iff Hr]%andb_true_iff.
  rewrite TrimPrefix_app in Hr. apply ascii_valid_utf8. rewrite sforall_app.
  apply andb_true_iff. split; [by vm_compute|]. eapply sforall_impl; [apply name_byte|exact Hr].
Qed.

(** What the bytes of a segment are not. *)
Lemma segment_bytes s : segment s = true →
  valid_utf8 s = true ∧ sforall (λ c, negb (Ascii.eqb c "/")) s = true.
Proof.
  intros [Hs _]%andb_true_iff.
  apply (head_tail_sforall _ (λ c, lower_digit c || Ascii.eqb c "_" || Ascii.eqb c "-")) in Hs;
    [|by intros c ->].
  split; [apply ascii_valid_utf8|]; (eapply sforall_impl; [|exact Hs]);
    intros c H; byte_cases c; first [done | by vm_compute in H].
Qed.

Lemma digit_ascii c : is_digit c = true → is_ascii c = true.
Proof. byte_cases c; intros H; first [done | by vm_compute in H]. Qed.

Lemma address_utf8 n port : valid_utf8 (print4 n +:+ ":" +:+ dec port) = true.
Proof.
  assert (Hd : ∀ x, sforall is_ascii (dec x) = true).
  { intros x. eapply sforall_impl; [apply digit_ascii|apply dec_digits]. }
  apply ascii_valid_utf8. unfold print4. rewrite !sforall_app, !Hd. by vm_compute.
Qed.

Lemma concat_bind {A B} (f : A → list B) l : concat (f <$> l) = l ≫= f.
Proof. induction l as [|x l IH]; [done|]. cbn. by rewrite <- IH. Qed.

(** ** The process and the gateway *)

(** A client [New] took, with the prefixes of packages of the platform and an address on
    a private network, announces a registration the gateway takes. *)
Context {DO : Doer}.

Lemma announced_ok c cl now ms n port : New c = Ok cl → ms ⊆+ packages now →
  cfg_Prefixes c = Host.Prefixes ms → cfg_Address c = print4 n +:+ ":" +:+ dec port →
  ipv4 n → (IsPrivate4 n = true ∨ IsLoopback4 n = true) → (1 <= port <= 65535)%N →
  valid_utf8 (Version c) = true → valid_utf8 (Build c) = true → (cfg_Capacity c < 2 ^ 63)%Z →
  readable c (reg cl) ∧ GwStubLaws.valid_registration (announced c (reg cl)).
Proof.
  intros (Hm & Hi & Hne & Hp & Hc & Hr & _)%New_ok Hms Hpre Ha Hn Hl Hport Hv Hb Hcap. rewrite Hr.
  unfold readable, GwStubLaws.valid_registration, announced.
  cbn [Prefixes Address Capacity GwStub.reg_Address GwStub.reg_Prefixes GwStub.reg_Capacity].
  rewrite Ha. destruct (Host.Prefixes_topmost ms) as (_ & Hu & _).
  split; split_and!; try done; try (by apply segment_bytes).
  - apply address_utf8.
  - eapply Forall_impl; [exact Hp|]. apply prefix_utf8.
  - unfold in_bits. apply andb_true_iff. split; [apply Z.leb_le|apply Z.ltb_lt]; lia.
  - by apply address_valid.
  - rewrite Hpre. apply apart_pairs; [|exact Hu]. unfold Host.Prefixes. apply NoDup_filter.
    rewrite concat_bind. eapply NoDup_sub; [|apply (packages_prefixes now)]. by rewrite Hms.
Qed.


(** A token of the stand-in opens a connection under the path of the client. *)
Lemma token_opens c cl subject tok issued now s : New c = Ok cl →
  Sign (GwStub.service_claims (GwStub.Audience (GwStub.opts s)) subject issued) "HS256"
    (GwStub.Secret (GwStub.opts s)) = Some tok →
  signable (GwStub.service_claims (GwStub.Audience (GwStub.opts s)) subject issued) →
  Sub (GwStub.service_claims (GwStub.Audience (GwStub.opts s)) subject issued) ≠ EmptyString →
  GwStub.Audience (GwStub.opts s) ≠ EmptyString →
  Exp (GwStub.service_claims (GwStub.Audience (GwStub.opts s)) subject issued) ≠ 0%Z →
  (now < Unix (Exp (GwStub.service_claims (GwStub.Audience (GwStub.opts s)) subject issued)))%Z →
  GwStub.handle ("/gateway/" +:+ Module_ c +:+ "/" +:+ Instance_ c) ("Bearer " +:+ tok) now s =
    (GwStub.add_conn (GwStub.mkConn (Module_ c) (Instance_ c) false false false 0 []) s, [],
     GwStub.Upgraded (length (GwStub.conns s))).
Proof.
  intros (Hm & Hi & _)%New_ok Htok Hs Hsub Haud Hexp Hnow. unfold GwStub.handle.
  rewrite HasPrefix_app, TrimPrefix_app.
  destruct (segment_bytes _ Hm) as [_ Hm']. destruct (segment_bytes _ Hi) as [_ Hi'].
  rewrite sapp_cons, sapp_nil_l, Split_app, Split_none by done. rewrite Hm, Hi. cbn [negb orb].
  rewrite TrimPrefix_app.
  edestruct (signed_verifies (mkKeyring {[GwStub.Audience (GwStub.opts s) :=
    mkKey "HS256" (GwStub.Secret (GwStub.opts s))]} ["accounts.test"])) as (tok' & Ht & Hv);
    [| |exact Hs|done|done|by left|done|exact Hnow|].
  - cbn. by rewrite lookup_singleton_eq.
  - by eexists.
  - cbn [Alg Secret] in Ht. rewrite Htok in Ht. injection Ht as <-. by rewrite Hv.
Qed.

(** The claims of a token the stand-in signs now: they stand for a day. *)
Lemma service_ok audience issued now : valid_utf8 audience = true →
  (0 <= issued < 2 ^ 63)%Z → (now < issued + 86399 * Second)%Z →
  let c := GwStub.service_claims audience "s" issued in
  signable c ∧ Sub c ≠ EmptyString ∧ Exp c ≠ 0%Z ∧ (now < Unix (Exp c))%Z.
Proof.
  intros Ha Hi Hn. unfold GwStub.service_claims, signable. cbn [Iss Aud Sub Iat Exp].
  pose proof (Z.div_mod issued Second ltac:(done)) as Hd.
  pose proof (Z.mod_pos_bound issued Second ltac:(done)) as Hm.
  rewrite Z.div_add by done. set (q := (issued `div` Second)%Z) in *.
  assert (Hq : (0 <= q < 2 ^ 34)%Z).
  { split; [apply Z.div_pos; lia|]. apply Z.div_lt_upper_bound; [done|].
    change Second with 1000000000%Z. lia. }
  assert (Hu : Unix (q + 86400) = ((q + 86400) * Second)%Z).
  { unfold Unix, wrap64, unixToInternal. rewrite Z.mod_small by lia. change Second with 1000000000%Z. lia. }
  assert (Hb : ∀ z, (0 <= z < 2 ^ 35)%Z → in_bits 64 z = true).
  { intros z Hz. unfold in_bits. apply andb_true_iff. split; [apply Z.leb_le|apply Z.ltb_lt]; lia. }
  rewrite Hu. change Second with 1000000000%Z in *. split; [split; [|split; [|split; [|split]]]|split; [|split]].
  - vm_compute. reflexivity.
  - exact Ha.
  - vm_compute. reflexivity.
  - apply Hb. lia.
  - apply Hb. lia.
  - discriminate.
  - lia.
  - lia.
Qed.

(** The stand-in takes the /register of a connection that is open. *)
Lemma registration_served i m n id c r now s : GwStub.conns s !! i = Some (GwStub.mkConn m n false false false 0 []) →
  m = Module_ c → n = Instance_ c → (GwStub.fail s).1 = 0%Z → isUUID id = true →
  readable c r → GwStubLaws.valid_registration (announced c r) →
  let f := NewCall id "/register" (any_value (Some (register_payload c r))) in
  ∃ b, Encode f = Ok b ∧ (String.length b ≤ MaxSize → ∃ s',
    GwStub.serve i (GwStub.mkConn m n false false false 0 []) true b now s =
      (s', [GwStub.SendFrame i (Result f (any_value (Some (GwStub.register_result (GwStub.opts s) n))))]) ∧
    GwStub.registrations s' = GwStub.registrations s ++ [announced c r] ∧ GwStub.current s' = Some i).
Proof.
  intros Hc -> -> Hf Hid Hr Hv f.
  destruct (call_travels id "/register" (list_to_map (register_members c r)) Hid eq_refl eq_refl
    (register_marshalled c r)) as (b & Hb & Hp).
  exists b. split; [exact Hb|]. intros Hl. specialize (Hp Hl).
  change (marshal_map _) with (register_payload c r) in Hp. fold f in Hp.
  unfold GwStub.serve. cbn [negb]. rewrite Hp.
  assert (Hck := announced_checked (GwStub.fail s) id c r Hf Hr Hv). fold f in Hck.
  unfold GwStub.serve_call, GwStub.serve_register. cbn [GwStub.registered GwStub.module GwStub.instance].
  change (Type_ f) with Call. change (Action f) with "/register". cbn [Z.eqb Pos.eqb Call CallResult CallError orb].
  change (String.eqb "/register" "/register") with true. cbn [negb andb].
  destruct (GwStub.checkRegister _ _ _ _) as [code msg]. cbn [fst] in Hck. subst code. cbn [Z.eqb negb].
  eexists. split; [reflexivity|]. cbn [GwStub.registrations GwStub.current GwStub.add_registration GwStub.update GwStub.set_closing].
  split; [|reflexivity]. change (Payload f) with (register_payload c r). by rewrite decode_announced.
Qed.

(** C14. A process meets the gateway: for a client [New] took, whose prefixes are those of
    packages of the platform and whose address is on a private network, the token the
    token endpoint signs opens the connection under the client's path, its /register -
    when the frame is not too large - is taken by the checks of the gateway with what the
    process announced, the answer comes back as it was sent, and the client's session
    becomes ready. *)
Theorem module_registers c cl now0 ms n port id issued now s :
  New c = Ok cl → ms ⊆+ packages now0 → cfg_Prefixes c = Host.Prefixes ms →
  cfg_Address c = print4 n +:+ ":" +:+ dec port → ipv4 n →
  (IsPrivate4 n = true ∨ IsLoopback4 n = true) → (1 <= port <= 65535)%N →
  valid_utf8 (Version c) = true → valid_utf8 (Build c) = true → (cfg_Capacity c < 2 ^ 63)%Z →
  isUUID id = true → (GwStub.fail s).1 = 0%Z →
  let o := GwStub.opts s in
  GwStub.Audience o ≠ EmptyString → valid_utf8 (GwStub.Audience o) = true →
  in_bits 64 (GwStub.HeartbeatInterval o) = true → (1 <= GwStub.HeartbeatInterval o)%Z →
  (0 < seconds (GwStub.HeartbeatInterval o))%Z →
  (0 <= issued < 2 ^ 63)%Z → (now < issued + 86399 * Second)%Z →
  ∃ tok s1 cn b, let i := length (GwStub.conns s) in
  let f := NewCall id "/register" (any_value (Some (register_payload c (reg cl)))) in
  Sign (GwStub.service_claims (GwStub.Audience o) "s" issued) "HS256" (GwStub.Secret o) = Some tok ∧
  GwStub.handle ("/gateway/" +:+ Module_ c +:+ "/" +:+ Instance_ c) ("Bearer " +:+ tok) now s =
    (s1, [], GwStub.Upgraded i) ∧ GwStub.conns s1 !! i = Some cn ∧ Encode f = Ok b ∧
  (String.length b ≤ MaxSize → ∃ s2 a b',
    GwStub.serve i cn true b now s1 = (s2, [GwStub.SendFrame i a]) ∧
    GwStub.registrations s2 = GwStub.registrations s ++ [announced c (reg cl)] ∧
    GwStub.current s2 = Some i ∧
    Encode a = Ok b' ∧ (String.length b' ≤ MaxSize → Parse b' = Ok a) ∧
    ∀ ip evs fin, ∃ acts r, runSession c (reg cl) (mkSession (Ok tok) (Dialled ip) (Answer a) evs fin) =
      ([SetState Connecting; Say "/register" (register_payload c (reg cl)); SetActive; SetState Ready;
        Emit EventRegistered; SyncStatus; PokeLoad] ++ acts, r)).
Proof.
  intros HN Hms Hpre Ha Hn Hl Hport Hv Hb Hcap Hid Hf o Hne Haud Hbits Hpos Hsec Hiss Hnow.
  destruct (announced_ok c cl now0 ms n port HN Hms Hpre Ha Hn Hl Hport Hv Hb Hcap) as [Hr Hval].
  destruct (service_ok (GwStub.Audience o) issued now Haud Hiss Hnow) as (Hs & Hsub & Hexp & Hlt).
  assert (Htok : ∃ tok, Sign (GwStub.service_claims (GwStub.Audience o) "s" issued) "HS256" (GwStub.Secret o) = Some tok)
    by (eexists; reflexivity).
  destruct Htok as [tok Htok].
  pose proof (token_opens c cl "s" tok issued now s HN Htok Hs Hsub Hne Hexp Hlt) as Hopen.
  set (s1 := GwStub.add_conn _ s) in Hopen. set (cn := GwStub.mkConn (Module_ c) (Instance_ c) false false false 0 []).
  assert (Hcn : GwStub.conns s1 !! length (GwStub.conns s) = Some cn) by (cbn; by apply list_lookup_middle).
  destruct (registration_served _ _ _ id c (reg cl) now s1 Hcn eq_refl eq_refl Hf Hid Hr Hval) as (b & Hbf & Hserve).
  exists tok, s1, cn, b. cbv zeta. split; [exact Htok|]. split; [exact Hopen|]. split; [exact Hcn|].
  split; [exact Hbf|]. intros Hlen. destruct (Hserve Hlen) as (s2 & Hs2 & Hreg & Hcur).
  destruct (result_travels (NewCall id "/register" (any_value (Some (register_payload c (reg cl)))))
    (list_to_map (ack_members o (Instance_ c))) Hid (ack_marshalled _ _)) as (b' & Hb' & Hp').
  exists s2. eexists. exists b'. split; [exact Hs2|]. split; [exact Hreg|]. split; [exact Hcur|].
  split; [exact Hb'|]. split; [exact Hp'|]. intros ip evs fin.
  assert (Hloc : local_address c ip (reg cl) = reg cl).
  { apply New_ok in HN as (_ & _ & _ & _ & _ & -> & _). unfold local_address. cbn [Address]. rewrite Ha.
    by destruct (print4 n). }
  unfold runSession. cbn [ses_token ses_dial]. rewrite Hloc. unfold registered_session, call.
  cbn [ses_register]. change (Type_ (Result _ _)) with CallResult. cbn [Z.eqb Pos.eqb CallResult CallError].
  rewrite ack_read by done. cbv zeta. rewrite (proj2 (Z.leb_gt _ _)) by exact Hsec.
  destruct (loop _ _ _) as [acts r]. by eexists _, _.
Qed.
End gateway.

(** ** Witness *)

Definition hello_config : Config :=
  mkConfig "ws://gw/gateway" "web" "w1" "1.0" EmptyString (print4 2130706433 +:+ ":" +:+ dec 8080) 0
    (Host.Prefixes two_modules) 8 true false (30 * Second).
Definition hello_client : Client :=
  mkClient hello_config (mkReg (cfg_Address hello_config) (cfg_Prefixes hello_config) 8) 8 None false.
Definition hello_stub : GwStub.Stub := GwStub.newStub GwStubLaws.sample_options.
Definition hello_id : string := "00000000-0000-4000-8000-000000000001".

Lemma module_registers_witness : ∃ tok s1 b,
  GwStub.handle "/gateway/web/w1" ("Bearer " +:+ tok) GwStubLaws.sample_now hello_stub =
    (s1, [], GwStub.Upgraded 0) ∧
  Encode (NewCall hello_id "/register" (any_value (Some (register_payload hello_config (reg hello_client))))) = Ok b.
Proof.
  edestruct (module_registers (T := plain_texts) hello_config hello_client sample_now two_modules 2130706433
    8080 hello_id GwStubLaws.sample_now GwStubLaws.sample_now hello_stub)
    as (tok & s1 & cn & b & _ & Hopen & _ & Hb & _);
    [| | | | | | | | | | | | | | | | | | |exists tok, s1, b; split; [exact Hopen|exact Hb]].
  2: exact two_modules_sub.
  5: right; vm_compute; reflexivity.
  all: vm_compute; repeat split; intros; try reflexivity; try discriminate.
Defined.
